(* ===== verification/_CoqProject ===== *)
-Q . S2P
Prelude.v
KvCache.v
KvCacheInv.v
KvCacheProps.v
CxxText.v
CxxTextProps.v
Json.v
JsonProps.v
CxxFloat.v
FloatRounding.v
FloatBounds.v
FloatLibm.v
Batcher.v
BatcherInv.v
BatcherProps.v
BatcherRun.v
KvCacheTheorems.v
KvCacheReclaim.v
Backend.v
Simulator.v
LlamaProtocol.v
LlamaProtocolProps.v
LlamaStream.v
Http.v
HttpProps.v
HttpTheorems.v
HttpStream.v
ScriptedNet.v
LlamaServer.v
LlamaServerProps.v
Tokenizer.v
TinyText.v
TinyLLM.v
TinyLLMBounds.v
TinyTextBounds.v
TinyTextProps.v
TinyLLMProps.v
ContinuousTinyLLM.v
ContinuousTinyLLMProps.v
Process.v
ProcessProps.v
LlamaCppProps.v
ScriptedChild.v
Onnx.v
OnnxProps.v
Environment.v
Config.v
Worker.v
WorkerProps.v
Service.v
StreamEnds.v
ServiceProps.v
ServiceStreams.v
WorkerService.v
