(* ===== verification/Prelude.v ===== *)
(** * Laminar inference worker: a verification library (root file)

    The C++ worker of [src/backend]: a gRPC service that answers batches and
    streams of prompts with one of seven backends.  Gateways send it batches
    ([proto/inference.proto]); the environment selects the backend and its
    settings.

    ** The program and how its parts meet

    [main] ([main.cc]) reads the environment ([BackendConfigFromEnv]), creates a
    backend ([CreateBackend]) and gives it to [InferenceServiceImpl], whose
    handlers turn messages into a vector of [BackendRequest], call
    [ProcessBatch] or [ProcessStream] of the backend with a callback that says
    whether the caller has gone, and turn the [BackendResult] into a status and
    a reply.  All backends but one are in [inference_backend.cc].  The continuously
    batched one schedules its requests with [ContinuousBatcher] over
    [KvBlockAllocator] ([scheduling/continuous_batcher.{h,cc}]) and generates
    text with the same small language model as [TinyLLMBackend].

    ** Files

    Each component has a model, which defines, and one or more files of theorems.

    Scheduling, [scheduling/continuous_batcher.{h,cc}]:
    - [KvCache]: [KvBlockAllocator] and its [Impl]: blocks, sequences, the cache
      of prompt prefixes with its eviction; [KvCacheInv] its invariant [wf],
      [KvCacheProps] the public operations, [KvCacheTheorems] their contracts in
      the reachable states, [KvCacheReclaim] the blocks that are lost when a
      cached prefix is overwritten;
    - [Batcher]: [ContinuousBatcher::Run] over the interface [KvAllocator];
      [BatcherInv] the contract [KvAllocatorSpec] of an allocator, the proof that
      [KvBlockAllocator] keeps it, and the invariant of the loop; [BatcherProps]
      its phases, [BatcherRun] the theorems on a whole run.

    Text and numbers, [inference_backend.cc]:
    - [CxxText], [CxxTextProps]: strings, what is used of the C++ library on
      them, and the program's own helpers; [Json], [JsonProps]: the JSON writer
      and the field readers, with a reference JSON parser to compare them with;
      [CxxFloat]: binary32 and binary64; [FloatRounding], [FloatBounds]: bounds on
      rounded operations; [FloatLibm]: the documented ranges of the elementary
      functions; [Environment]: the readers of environment variables.

    Backends, [inference_backend.{h,cc}]:
    - [Backend]: requests, results, events, the interface [InferenceBackend], the
      default [ProcessStream], and the classes that state what a backend promises
      to its callers: [BackendSpec] (the shape of a result: an output per request,
      or a failure with a message), [StreamingSpec] (the same of a stream) and
      [BackendProgress] (a batch returns);
    - [Simulator];
    - [Tokenizer], [TinyText], [TinyTextBounds], [TinyTextProps]: the text
      classifier, the ranges of its layers, its batches;
    - [TinyLLM], [TinyLLMBounds], [TinyLLMProps]: the language model, likewise;
    - [ContinuousTinyLLM], [ContinuousTinyLLMProps]: its continuously batched form;
    - [LlamaProtocol], [LlamaProtocolProps], [LlamaStream]: URLs, bodies, the two
      readers of an event stream; [Http], [HttpProps], [HttpTheorems],
      [HttpStream]: the two HTTP clients; [LlamaServer], [LlamaServerProps],
      [StreamEnds]: the backend that relays a llama.cpp server;
    - [Process], [ProcessProps], [LlamaCppProps]: [RunProcess] and the backend
      that runs a llama.cpp command;
    - [Onnx], [OnnxProps]: the ONNX Runtime backend.

    The worker, [inference_backend.{h,cc}] and [main.cc]:
    - [Config]: [BackendConfig] and [BackendConfigFromEnv]; [Worker],
      [WorkerProps]: [CreateBackend] and virtual dispatch; [Service],
      [ServiceProps], [ServiceStreams]: the gRPC handlers; [WorkerService]: all of
      them composed.

    [ScriptedNet], [ScriptedChild] and the end of [WorkerService] define concrete
    worlds, in which the theorems that have hypotheses on the world are
    instantiated.

    ** How state and effects are modelled

    A C++ object is a record of its members, and a method a function that gives
    the object after it.  An [int] is a [Z], and a result of a sum, difference or
    product of [int]s that does not fit is [None] ([int_of], [sum_int]): so are the
    token sums and block counts of the allocator ([CeilDiv], [AppendTokens]), the
    totals and the step number of a run, and the latencies.  An index out of a
    vector is [None] too, so "returns [Some]" means that the code is free of that
    undefined behaviour, and the contracts of the allocator and of a run say for
    which arguments a sum overflows ([allocate_fits], [append_fits], [call_fits],
    [run_fits]).  Not bounded are the event counters of the allocator and the
    reference counts of its blocks, which go up by one per call or per live
    sequence, and the counts of the words of an answer.  The integers from which
    the two models compute their weights are at most a few million for prompts
    within the message limit, which their bounds rest on.  Wrap-around of unsigned
    numbers is written out.  A [float] is a [spec_float] of the Standard Library
    with the binary32 rounding of every operation, so the models compute.

    What the code asks of its surroundings is an operation of a world [W]: the
    cancellation callback, the clock and sleeping ([Host]), descriptors
    ([Files]), sockets ([Sockets]), processes ([Processes]), the file system
    ([Filesystem]), ONNX Runtime and the dynamic loader ([OnnxRuntime]), the
    stream of the client ([ResponseWriter]), and, without state, the elementary
    functions of the C library ([Libm]) and [getenv].  [M W A] is the monad of
    code in a world; theorems quantify over the world.  What a proof relies on of
    the world is a class of its documented effects: [SocketsSpec], [RecvSpec],
    [StreamPeer], [AnswerEnds], [ProcessesSpec], [ProcessProgress], [OnnxSpec];
    and of the elementary functions, their documented ranges, [LibmSpec]: sine,
    cosine and hyperbolic tangent of a finite number are within 1, the exponential
    of a number that is not positive is between 0 and 1, and that of 0 is 1.  It
    says nothing of infinities and NaN; [linear_libm] satisfies it and gives NaN
    where the C standard does.

    ** Loops, bounds and fuel

    Loops over data are structural.  The others have fuel, and theorems show
    that it suffices:
    - [ContinuousBatcher::Run]: the fuel is computed from the requests, as the
      work that is left (tokens to prefill and to generate, sequences to finish)
      gets less in every step; [Run_results_final] has no hypothesis on it: a run
      is missing only when its tokens and steps do not fit an [int];
    - the simulator's loop: one turn per slice of the latency, computed from it;
    - sending and receiving: a call makes progress of one byte at least, so the
      length of a request, and 1 MiB of answer ([max_response], a limit of the
      code) plus two receptions, are enough for [HttpPostJson].
      [HttpPostJsonStream] has no such limit: it ends because its peer does
      ([AnswerEnds]);
    - a command: one turn per advance of the clock up to the time limit, and one
      read per piece of output that the child still writes ([ProcessProgress]);
      without a bound on that output the loop does not end, which is the finding
      [RunProcess_ignores_timeout].

    A batch is assumed to have at most 35,790 items where the latency of the
    simulator in milliseconds, at most a minute and a minute per request, has to
    fit an [int]; and a prompt, or a batch, to fit the 4 MiB that gRPC accepts in
    a message by default ([message_limit], [prompt_received], [batch_received]),
    where the models number the words of prompts and the scheduler adds them up.

    ** What is shown

    - The worker: from any environment a backend is created, as configured, with
      every setting in its range; every sequence of batches is replied to; a
      handler's reply is the one promised for the backend's result, and its
      "internal error" branches are dead; what a client of a stream receives.
    - Scheduling: runs terminate without access out of range unless their tokens
      overflow an [int], each request has one final result, tokens are conserved, budgets, priorities and
      cancellation are respected, nothing stays allocated; for the allocator, an
      invariant of every reachable state, the contract of each operation on every
      branch, sharing only through the prefix cache, and exactly when blocks leak.
    - Models: every number that they compute stays finite, for elementary functions
      within their ranges; sampling takes one of the top [k]; texts and labels are
      functions of the prompt and of the settings; the continuously batched model
      is a refinement of the plain one.
    - Backends that ask others: each answer is that of its own request, [in_turn]:
      of the response to its own body, of the command built from its prompt, of its
      place in its own chunk.
    - Protocols: written URLs, bodies, names and JSON texts are read back; the two
      readers of a stream agree; so do the two HTTP clients, over a peer that
      neither fails nor is cancelled and an answer within the limits, and
      [broken_stream_is_ok] shows that they do not otherwise.
    - Resources: sockets, pipes, children and the objects of ONNX Runtime are
      released on every path.

    ** Findings

    The comments of [prefix_overwrite_leaks], [broken_stream_is_ok],
    [RunProcess_ignores_timeout], [ExtractJsonStringField_mangles_controls],
    [field_name_as_text_misread], [Onnx_failure_is_sticky] and
    [Service_Stream_single] say what the code does there and where it differs
    from what it is meant to do.

    ** Not modelled

    - [RunServer] and the text that [main] and the handlers print: calls of gRPC
      and of [std::cout] only; the generated classes of the messages are records.
    - Concurrency: the handlers run one after the other.  gRPC may run several at
      once on one backend; all but the ONNX backend have no state that changes
      after their construction.
    - Failure of allocation, and exceptions of the library (such as those of
      [std::filesystem::exists]).
    - Locales other than "C", systems other than Linux (the values of constants
      such as [EINTR]), floating-point contraction and excess precision.
    - The Go gateway ([gateway/]), the tests, the scripts and the headers under
      [third_party/], which are not parts of the worker's code. *)
From stdpp Require Import prelude gmap strings list sorting.
From Stdlib Require Import ZArith Lia.

(** ** Scopes, notations and tactics *)

Declare Scope laminar_scope.
Delimit Scope laminar_scope with laminar.

#[global] Open Scope Z_scope.
#[global] Open Scope laminar_scope.

(** [zlen l] is [static_cast<int>(v.size())]. *)
Abbreviation zlen l := (Z.of_nat (length l)) (only parsing).

Create HintDb laminar.

(** Split every boolean conjunction, comparison and negation of the context. *)
Ltac to_prop :=
  repeat match goal with
  | H : (_ && _)%bool = true |- _ => apply andb_true_iff in H as [? ?]
  | H : (_ || _)%bool = false |- _ => apply orb_false_iff in H as [? ?]
  | H : negb _ = true |- _ => apply negb_true_iff in H
  | H : negb _ = false |- _ => apply negb_false_iff in H
  | H : (_ <? _) = true |- _ => apply Z.ltb_lt in H
  | H : (_ <? _) = false |- _ => apply Z.ltb_ge in H
  | H : (_ <=? _) = true |- _ => apply Z.leb_le in H
  | H : (_ <=? _) = false |- _ => apply Z.leb_gt in H
  | H : (_ =? _) = true |- _ => apply Z.eqb_eq in H
  | H : (_ =? _) = false |- _ => apply Z.eqb_neq in H
  | H : bool_decide _ = true |- _ => apply bool_decide_eq_true in H
  | H : bool_decide _ = false |- _ => apply bool_decide_eq_false in H
  end.

(** Case analysis on the first boolean test of the goal. *)
Ltac case_bool :=
  match goal with
  | |- context [if ?b then _ else _] =>
      match type of b with bool => destruct b eqn:? end
  end.

(** ** Vectors indexed by a C++ [int]

    [vec_at v i] is [v[i]] and [vec_alter f v i] is the update of the element
    [v[i]] in place.  An index outside the vector is undefined behaviour of the
    C++ program; it is the value [None] here, so a theorem that an operation
    returns [Some] shows that it never indexes out of range. *)
Section Vectors.
Context {A : Type}.
Implicit Types (v : list A) (i : Z).

Definition in_range v i : bool := negb ((i <? 0) || (zlen v <=? i)).

Definition vec_at v i : option A :=
  if i <? 0 then None else v !! Z.to_nat i.

Definition vec_alter (f : A → A) v i : option (list A) :=
  x ← vec_at v i; Some (<[Z.to_nat i := f x]> v).

Lemma vec_at_nat v (n : nat) : vec_at v (Z.of_nat n) = v !! n.
Proof. unfold vec_at. case_bool; to_prop; [lia|]. by rewrite Nat2Z.id. Qed.

Lemma vec_at_Some v i x :
  vec_at v i = Some x ↔ 0 ≤ i ∧ v !! Z.to_nat i = Some x.
Proof. unfold vec_at. case_bool; to_prop; [naive_solver lia|tauto]. Qed.

Lemma in_range_spec v i : in_range v i = true ↔ 0 ≤ i < zlen v.
Proof.
  unfold in_range. rewrite negb_true_iff, orb_false_iff, Z.ltb_ge, Z.leb_gt. lia.
Qed.

Lemma vec_at_is_Some v i : is_Some (vec_at v i) ↔ 0 ≤ i < zlen v.
Proof.
  unfold vec_at. case_bool; to_prop.
  - split; [by intros [? ?]|lia].
  - rewrite lookup_lt_is_Some. lia.
Qed.

Lemma in_range_vec_at v i : in_range v i = true ↔ is_Some (vec_at v i).
Proof. by rewrite in_range_spec, vec_at_is_Some. Qed.

Lemma vec_alter_Some f v i v' :
  vec_alter f v i = Some v' ↔
  ∃ x, vec_at v i = Some x ∧ v' = <[Z.to_nat i := f x]> v.
Proof. unfold vec_alter. destruct (vec_at v i); naive_solver. Qed.

Lemma vec_alter_length f v i v' : vec_alter f v i = Some v' → length v' = length v.
Proof. intros (x & _ & ->)%vec_alter_Some. apply length_insert. Qed.

(** What the element [n] is after an update at [i]. *)
Lemma vec_alter_lookup f v i v' (n : nat) :
  vec_alter f v i = Some v' →
  v' !! n = (if decide (Z.of_nat n = i) then f <$> v !! n else v !! n).
Proof.
  intros (x & [Hi Hx]%vec_at_Some & ->)%vec_alter_Some. case_decide as Hn.
  - subst i. rewrite Nat2Z.id in Hx |- *. rewrite Hx. simpl.
    apply list_lookup_insert_eq. by eapply lookup_lt_Some.
  - apply list_lookup_insert_ne. lia.
Qed.
End Vectors.
#[export] Hint Rewrite @vec_at_nat : laminar.

(** ** Occurrences in a list *)
Section Occurrences.
Context {A : Type} `{EqDecision A}.

Definition occ (x : A) (l : list A) : nat := length (filter (λ y, y = x) l).

Lemma occ_nil x : occ x [] = 0%nat.
Proof. done. Qed.

Lemma occ_cons x y l :
  occ x (y :: l) = ((if decide (y = x) then 1 else 0) + occ x l)%nat.
Proof. unfold occ. rewrite filter_cons. by case_decide. Qed.

Lemma occ_app x l k : occ x (l ++ k) = (occ x l + occ x k)%nat.
Proof. unfold occ. by rewrite filter_app, length_app. Qed.

Lemma occ_zero x l : occ x l = 0%nat ↔ x ∉ l.
Proof.
  induction l as [|y l IH]; [rewrite occ_nil; set_solver|].
  rewrite occ_cons. case_decide; set_solver by lia.
Qed.

Lemma occ_pos x l : (0 < occ x l)%nat ↔ x ∈ l.
Proof.
  destruct (decide (x ∈ l)) as [H|H].
  - split; [done|]. intros _. destruct (occ x l) eqn:E; [|lia].
    by apply occ_zero in E.
  - pose proof (proj2 (occ_zero x l) H). split; [lia|done].
Qed.

Lemma occ_NoDup x l : NoDup l → (occ x l ≤ 1)%nat.
Proof.
  induction 1 as [|y l Hy _ IH]; [rewrite occ_nil; lia|].
  rewrite occ_cons. case_decide; [subst|lia].
  apply occ_zero in Hy. lia.
Qed.
End Occurrences.

(** ** [std::map]

    A map from strings is a [gmap]; its iteration order, which the program
    relies on in one place, is the increasing order of the keys. *)
Definition map_entry_le {A} (x y : string * A) : Prop := String.le x.1 y.1.

#[export] Instance map_entry_le_dec {A} : RelDecision (@map_entry_le A).
Proof. intros x y. unfold map_entry_le. apply _. Defined.

Definition map_in_order {A} (m : gmap string A) : list (string * A) :=
  merge_sort map_entry_le (map_to_list m).

Lemma map_in_order_perm {A} (m : gmap string A) : map_in_order m ≡ₚ map_to_list m.
Proof. apply merge_sort_Permutation. Qed.

Lemma elem_of_map_in_order {A} (m : gmap string A) k x :
  (k, x) ∈ map_in_order m ↔ m !! k = Some x.
Proof. by rewrite map_in_order_perm, elem_of_map_to_list. Qed.

Lemma map_in_order_NoDup {A} (m : gmap string A) : NoDup (map_in_order m).*1.
Proof. rewrite map_in_order_perm. apply NoDup_fst_map_to_list. Qed.

(** [m.emplace(k, x)]: no effect on a key that is present. *)
Definition emplace {A} (k : string) (x : A) (m : gmap string A) : gmap string A :=
  match m !! k with Some _ => m | None => <[k := x]> m end.

Lemma emplace_fresh {A} k (x : A) m : m !! k = None → emplace k x m = <[k := x]> m.
Proof. intros H. unfold emplace. by rewrite H. Qed.

(** ** Sorting

    [std::sort] and [std::partial_sort] for a comparator; where the comparator
    is a strict total order on the elements, the result does not depend on the
    algorithm. *)
Section Sorting.
Context {A : Type} (lt : A → A → bool).

(** Insertion into a list that the comparator sorts. *)
Fixpoint sort_insert (x : A) (l : list A) : list A :=
  match l with
  | [] => [x]
  | y :: rest => if lt x y then x :: l else y :: sort_insert x rest
  end.

Definition std_sort (l : list A) : list A := foldr sort_insert [] l.

Lemma sort_insert_perm x l : sort_insert x l ≡ₚ x :: l.
Proof.
  induction l as [|y l IH]; simpl; [done|]. destruct (lt x y); [done|].
  rewrite IH. apply Permutation_swap.
Qed.

Lemma std_sort_perm l : std_sort l ≡ₚ l.
Proof. induction l as [|x l IH]; simpl; [done|]. by rewrite sort_insert_perm, IH. Qed.

(** The order that a comparator gives to the elements that satisfy [P]. *)
Lemma std_sort_sorted_for (P : A → Prop) (le : A → A → Prop) l :
  (∀ x y, P x → P y → lt x y = true → le x y) →
  (∀ x y, P x → P y → lt x y = false → le y x) →
  (∀ x y z, P x → P y → P z → le x y → le y z → le x z) →
  Forall P l → StronglySorted le (std_sort l).
Proof.
  intros Htrue Hfalse Htrans Hl. induction Hl as [|x l Hx Hl IH]; simpl; [constructor|].
  assert (Hs : Forall P (std_sort l)) by by rewrite std_sort_perm.
  clear Hl. induction IH as [|y s Hy IH Hall]; simpl; [repeat constructor|].
  inversion Hs as [|? ? HPy HPs]; subst.
  destruct (lt x y) eqn:E.
  - constructor; [by constructor|]. constructor; [by apply Htrue|].
    rewrite Forall_forall in Hall, HPs |- *. intros z Hz. eapply (Htrans x y z); auto.
  - constructor; [by apply IH|]. rewrite sort_insert_perm. constructor; [by apply Hfalse|done].
Qed.
End Sorting.

Lemma std_sort_NoDup {A} (lt : A → A → bool) l : NoDup l → NoDup (std_sort lt l).
Proof. by rewrite std_sort_perm. Qed.

Lemma elem_of_std_sort {A} (lt : A → A → bool) l i : i ∈ std_sort lt l ↔ i ∈ l.
Proof. by rewrite std_sort_perm. Qed.

Lemma std_sort_nil {A} (lt : A → A → bool) l : std_sort lt l = [] → l = [].
Proof. intros H. pose proof (std_sort_perm lt l) as Hp. rewrite H in Hp.
  symmetry in Hp. by apply Permutation_nil_r in Hp.
Qed.

(** ** Machine integers *)

Definition INT_MAX : Z := 2147483647.
Definition INT_MIN : Z := -2147483648.

(** The value of an [int] expression: overflow is undefined. *)
Definition int_of (n : Z) : option Z :=
  if (INT_MIN <=? n) && (n <=? INT_MAX) then Some n else None.

Lemma int_of_Some n : INT_MIN ≤ n ≤ INT_MAX → int_of n = Some n.
Proof.
  intros [H1 H2]. unfold int_of. by rewrite (proj2 (Z.leb_le _ _) H1), (proj2 (Z.leb_le _ _) H2).
Qed.

(** An expression that is not negative has one bound to respect. *)
Lemma int_of_nonneg n : 0 ≤ n → int_of n = if n <=? INT_MAX then Some n else None.
Proof.
  intros Hn. unfold int_of. by rewrite (proj2 (Z.leb_le INT_MIN n)) by (unfold INT_MIN; lia).
Qed.

(** The value that was not out of range. *)
Lemma int_of_inv n m : int_of n = Some m → m = n ∧ INT_MIN ≤ n ≤ INT_MAX.
Proof. unfold int_of. case_bool; [|done]. intros [= <-]. to_prop. done. Qed.

(** The sum of a list, added up in an [int] from the left. *)
Definition sum_int (l : list Z) : option Z :=
  foldl (λ acc x, total ← acc; int_of (total + x)) (Some 0) l.

Definition sum_Z (l : list Z) : Z := foldr Z.add 0 l.

Lemma sum_Z_cons x l : sum_Z (x :: l) = x + sum_Z l.
Proof. done. Qed.

Lemma sum_int_from l n :
  0 ≤ n → (∀ x, x ∈ l → 0 ≤ x) →
  foldl (λ acc x, total ← acc; int_of (total + x)) (int_of n) l = int_of (n + sum_Z l).
Proof.
  assert (Hnone : ∀ k, foldl (λ acc x, total ← acc; int_of (total + x)) (None : option Z) k = None)
    by (intros k; induction k; simpl; auto).
  assert (Hpos : ∀ k, (∀ x, x ∈ k → 0 ≤ x) → 0 ≤ sum_Z k).
  { intros k. induction k as [|x k IHk]; simpl; intros Hk; [lia|].
    pose proof (Hk x ltac:(set_solver)). specialize (IHk ltac:(set_solver)). lia. }
  revert n. induction l as [|x l IH]; intros n Hn Hl; simpl; [by rewrite Z.add_0_r|].
  pose proof (Hl x ltac:(set_solver)) as Hx.
  pose proof (Hpos l ltac:(set_solver)).
  rewrite (int_of_nonneg n Hn). destruct (n <=? INT_MAX) eqn:Hle; to_prop.
  - cbn [mbind option_bind]. rewrite IH by (lia || set_solver). f_equal. lia.
  - cbn [mbind option_bind]. rewrite Hnone, int_of_nonneg by lia.
    by rewrite (proj2 (Z.leb_gt _ _)) by lia.
Qed.

(** Adding up numbers that are not negative overflows if and only if the sum does. *)
Lemma sum_int_spec l : (∀ x, x ∈ l → 0 ≤ x) → sum_int l = int_of (sum_Z l).
Proof. intros Hl. exact (sum_int_from l 0 ltac:(lia) Hl). Qed.

(** ** Computations that may be undefined

    [unless F o P]: [o] is undefined only when [F] holds, and its value
    satisfies [P]. *)
Definition unless {A} (F : Prop) (o : option A) (P : A → Prop) : Prop :=
  match o with Some x => P x | None => F end.

Lemma unless_bind {A B} F (o : option A) (f : A → option B) (P : A → Prop) Q :
  unless F o P → (∀ x, P x → unless F (f x) Q) → unless F (x ← o; f x) Q.
Proof. destruct o; simpl; auto. Qed.

Lemma unless_int F n : (¬ (INT_MIN ≤ n ≤ INT_MAX) → F) → unless F (int_of n) (λ m, m = n).
Proof.
  intros HF. destruct (decide (INT_MIN ≤ n ≤ INT_MAX)) as [Hn|Hn]; [by rewrite int_of_Some|].
  destruct (int_of n) eqn:Hi; simpl; [|auto]. apply int_of_inv in Hi. tauto.
Qed.
