(* ===== verification/KvCache.v ===== *)
(** * The KV-cache block allocator

    The class [KvBlockAllocator] of
    [src/backend/scheduling/continuous_batcher.{h,cc}]: a fixed pool of blocks,
    sequences that own lists of blocks, and a cache of shared prompt prefixes
    whose idle entries are evicted when blocks run out.  This file is the
    model; [KvCacheInv.v] holds its invariant and the lemmas on it. *)
From stdpp Require Import prelude gmap strings list.
From S2P Require Import Prelude.

(** ** Data *)

Record KvCacheConfig := mkKvCacheConfig {
  cfg_total_blocks : Z;
  cfg_tokens_per_block : Z;
}.

Definition default_KvCacheConfig : KvCacheConfig := mkKvCacheConfig 1024 16.

Record KvCacheStats := mkKvCacheStats {
  total_blocks : Z;
  used_blocks : Z;
  free_blocks : Z;
  high_watermark_blocks : Z;
  active_sequences : Z;
  cached_prefixes : Z;
  prefix_cache_hits : Z;
  prefix_cache_misses : Z;
  evictions : Z;
  allocation_failures : Z;
}.

Definition zero_KvCacheStats : KvCacheStats := mkKvCacheStats 0 0 0 0 0 0 0 0 0 0.

Record KvAllocation := mkKvAllocation {
  ok : bool;
  cache_hit : bool;
  attached_blocks : Z;
  message : string;
}.

Definition AllocationError (msg : string) : KvAllocation :=
  mkKvAllocation false false 0 msg.

Definition AllocationOk (attached : Z) (hit : bool) : KvAllocation :=
  mkKvAllocation true hit attached EmptyString.

Definition ClampPositive (value fallback : Z) : Z :=
  if 0 <? value then value else fallback.

(** The sum is computed in [int], and may overflow; integer division truncates
    towards zero. *)
Definition CeilDiv (value divisor : Z) : option Z :=
  if value <=? 0 then Some 0
  else
    sum ← int_of (value + divisor);
    sum ← int_of (sum - 1);
    Some (Z.quot sum divisor).

Module KvBlockAllocator.

Record Block := mkBlock {
  occupied : bool;
  ref_count : Z;
  cached_prefix_key : string;
}.

(** [Block{}] *)
Definition empty_block : Block := mkBlock false 0 EmptyString.

Record Sequence := mkSequence {
  prompt_tokens : Z;
  generated_tokens : Z;
  prefix_block_count : Z;
  seq_block_ids : list Z;
}.

Record PrefixEntry := mkPrefixEntry {
  token_count : Z;
  block_ids : list Z;
}.

Record Impl := mkImpl {
  config : KvCacheConfig;
  blocks : list Block;
  sequences : gmap string Sequence;
  prefix_cache : gmap string PrefixEntry;
  stats : KvCacheStats;
}.

(** *** Assignments to one field *)

Definition set_blocks (bs : list Block) (s : Impl) : Impl :=
  mkImpl (config s) bs (sequences s) (prefix_cache s) (stats s).
Definition set_sequences (m : gmap string Sequence) (s : Impl) : Impl :=
  mkImpl (config s) (blocks s) m (prefix_cache s) (stats s).
Definition set_prefix_cache (m : gmap string PrefixEntry) (s : Impl) : Impl :=
  mkImpl (config s) (blocks s) (sequences s) m (stats s).
Definition set_stats (st : KvCacheStats) (s : Impl) : Impl :=
  mkImpl (config s) (blocks s) (sequences s) (prefix_cache s) st.

Definition set_high_watermark (n : Z) (st : KvCacheStats) : KvCacheStats :=
  mkKvCacheStats (total_blocks st) (used_blocks st) (free_blocks st) n
    (active_sequences st) (cached_prefixes st) (prefix_cache_hits st)
    (prefix_cache_misses st) (evictions st) (allocation_failures st).
Definition incr_hits (st : KvCacheStats) : KvCacheStats :=
  mkKvCacheStats (total_blocks st) (used_blocks st) (free_blocks st)
    (high_watermark_blocks st) (active_sequences st) (cached_prefixes st)
    (prefix_cache_hits st + 1) (prefix_cache_misses st) (evictions st)
    (allocation_failures st).
Definition incr_misses (st : KvCacheStats) : KvCacheStats :=
  mkKvCacheStats (total_blocks st) (used_blocks st) (free_blocks st)
    (high_watermark_blocks st) (active_sequences st) (cached_prefixes st)
    (prefix_cache_hits st) (prefix_cache_misses st + 1) (evictions st)
    (allocation_failures st).
Definition incr_evictions (st : KvCacheStats) : KvCacheStats :=
  mkKvCacheStats (total_blocks st) (used_blocks st) (free_blocks st)
    (high_watermark_blocks st) (active_sequences st) (cached_prefixes st)
    (prefix_cache_hits st) (prefix_cache_misses st) (evictions st + 1)
    (allocation_failures st).
Definition incr_failures (st : KvCacheStats) : KvCacheStats :=
  mkKvCacheStats (total_blocks st) (used_blocks st) (free_blocks st)
    (high_watermark_blocks st) (active_sequences st) (cached_prefixes st)
    (prefix_cache_hits st) (prefix_cache_misses st) (evictions st)
    (allocation_failures st + 1).

Definition add_ref (d : Z) (b : Block) : Block :=
  mkBlock (occupied b) (ref_count b + d) (cached_prefix_key b).

(** ** [struct Impl] *)

(** The constructor [Impl(KvCacheConfig)]. *)
Definition init (input : KvCacheConfig) : Impl :=
  let cfg := mkKvCacheConfig (ClampPositive (cfg_total_blocks input) 1)
                             (ClampPositive (cfg_tokens_per_block input) 1) in
  mkImpl cfg (replicate (Z.to_nat (cfg_total_blocks cfg)) empty_block) ∅ ∅
    zero_KvCacheStats.

Definition FreeBlockCount (s : Impl) : Z :=
  zlen (filter (λ b, occupied b = false) (blocks s)).

Definition UsedBlockCount (s : Impl) : Z := zlen (blocks s) - FreeBlockCount s.

Definition RefreshHighWatermark (s : Impl) : Impl :=
  set_stats (set_high_watermark
    (Z.max (high_watermark_blocks (stats s)) (UsedBlockCount s)) (stats s)) s.

(** The two early returns of the loop: an id out of range, a referenced block. *)
Definition PrefixEntryIsIdle (s : Impl) (entry : PrefixEntry) : bool :=
  forallb (λ id, in_range (blocks s) id &&
                 match vec_at (blocks s) id with
                 | Some b => ref_count b =? 0
                 | None => false
                 end) (block_ids entry).

Definition FreeBlock (s : Impl) (block_id : Z) : Impl :=
  if in_range (blocks s) block_id
  then set_blocks (<[Z.to_nat block_id := empty_block]> (blocks s)) s
  else s.

(** The loop over [prefix_cache] in key order: erasing the current entry leaves
    the remaining iteration unchanged, so the entries still to visit are those
    of the map at the start of the loop. *)
Fixpoint evict_loop (required : Z) (items : list (string * PrefixEntry))
    (s : Impl) : Impl :=
  match items with
  | [] => s
  | (key, entry) :: rest =>
      if FreeBlockCount s <? required then
        if PrefixEntryIsIdle s entry then
          let s1 := foldl FreeBlock s (block_ids entry) in
          let s2 := set_prefix_cache (delete key (prefix_cache s1)) s1 in
          evict_loop required rest (set_stats (incr_evictions (stats s2)) s2)
        else evict_loop required rest s
      else s
  end.

Definition EvictIdlePrefixesUntil (required : Z) (s : Impl) : Impl :=
  evict_loop required (map_in_order (prefix_cache s)) s.

Definition EnsureFreeBlocks (block_count : Z) (s : Impl) : bool * Impl :=
  if block_count <=? FreeBlockCount s then (true, s)
  else let s' := EvictIdlePrefixesUntil block_count s in
       (block_count <=? FreeBlockCount s', s').

(** The allocation loop, from block [index] on, with [need] blocks still to
    find: the blocks after it and the ids it pushes. *)
Fixpoint alloc_scan (key : string) (need : nat) (index : Z) (bs : list Block)
    : list Block * list Z :=
  match need, bs with
  | O, _ => (bs, [])
  | _, [] => ([], [])
  | S n, b :: rest =>
      if occupied b then
        let '(rest', ids) := alloc_scan key need (index + 1) rest in
        (b :: rest', ids)
      else
        let '(rest', ids) := alloc_scan key n (index + 1) rest in
        (mkBlock true 1 key :: rest', index :: ids)
  end.

Definition AllocateBlocks (block_count : Z) (key : string) (s : Impl)
    : list Z * Impl :=
  if block_count <=? 0 then ([], s)
  else
    let '(enough, s1) := EnsureFreeBlocks block_count s in
    if enough then
      let '(bs, allocated) :=
        alloc_scan key (Z.to_nat block_count) 0 (blocks s1) in
      (allocated, RefreshHighWatermark (set_blocks bs s1))
    else ([], set_stats (incr_failures (stats s1)) s1).

(** [for (int block_id : ids) blocks[block_id].ref_count += d]: the accesses
    are not checked by the code, so an id out of range is undefined behaviour. *)
Fixpoint add_refs (d : Z) (ids : list Z) (bs : list Block)
    : option (list Block) :=
  match ids with
  | [] => Some bs
  | id :: rest => bs' ← vec_alter (add_ref d) bs id; add_refs d rest bs'
  end.

(** ** The public operations *)

(** The blocks of the cached prefix are referenced, then the suffix is
    allocated; a failed suffix undoes the references. *)
Definition AllocatePrompt_hit (s : Impl) (sequence_id : string)
    (sequence : Sequence) (cached : PrefixEntry)
    (suffix_block_count block_count : Z) : option (KvAllocation * Impl) :=
  bs ← add_refs 1 (block_ids cached) (blocks s);
  let s1 := set_blocks bs s in
  let '(suffix_blocks, s2) := AllocateBlocks suffix_block_count EmptyString s1 in
  if bool_decide (zlen suffix_blocks ≠ suffix_block_count) then
    bs' ← add_refs (-1) (block_ids cached) (blocks s2);
    Some (AllocationError "kv cache exhausted", set_blocks bs' s2)
  else
    let sequence' := mkSequence (prompt_tokens sequence)
      (generated_tokens sequence) (prefix_block_count sequence)
      (block_ids cached ++ suffix_blocks) in
    let s3 := set_sequences (emplace sequence_id sequence' (sequences s2)) s2 in
    Some (AllocationOk block_count true, set_stats (incr_hits (stats s3)) s3).

(** The prefix and the suffix are both allocated; a failed suffix frees the
    prefix. *)
Definition AllocatePrompt_miss (s : Impl) (sequence_id : string)
    (sequence : Sequence) (prefix_cache_key : string) (cacheable_tokens : Z)
    (suffix_block_count block_count : Z) : KvAllocation * Impl :=
  let '(prefix_blocks, s1) :=
    AllocateBlocks (prefix_block_count sequence) prefix_cache_key s in
  if bool_decide (zlen prefix_blocks ≠ prefix_block_count sequence) then
    (AllocationError "kv cache exhausted", s1)
  else
    let '(suffix_blocks, s2) := AllocateBlocks suffix_block_count EmptyString s1 in
    if bool_decide (zlen suffix_blocks ≠ suffix_block_count) then
      (AllocationError "kv cache exhausted", foldl FreeBlock s2 prefix_blocks)
    else
      let sequence' := mkSequence (prompt_tokens sequence)
        (generated_tokens sequence) (prefix_block_count sequence)
        (prefix_blocks ++ suffix_blocks) in
      let s3 :=
        if bool_decide (prefix_cache_key ≠ EmptyString) && (0 <? cacheable_tokens)
        then set_prefix_cache
               (<[prefix_cache_key := mkPrefixEntry cacheable_tokens prefix_blocks]>
                  (prefix_cache s2)) s2
        else s2 in
      (AllocationOk block_count false,
       set_sequences (emplace sequence_id sequence' (sequences s3)) s3).

(** How many tokens of the prompt the prefix cache may hold. *)
Definition cacheable (prompt : Z) (prefix_cache_key : string)
    (prefix_tokens : Z) : Z :=
  if bool_decide (prefix_cache_key = EmptyString) then 0
  else Z.max 0 (if prefix_tokens <? 0 then prompt
                else Z.min prompt prefix_tokens).

(** The body of [AllocatePrompt] after its two checks of [sequence_id]. *)
Definition AllocatePrompt_new (sequence_id : string) (prompt : Z)
    (prefix_cache_key : string) (prefix_tokens : Z) (s : Impl)
    : option (KvAllocation * Impl) :=
  let prompt := Z.max 0 prompt in
  let cacheable_tokens := cacheable prompt prefix_cache_key prefix_tokens in
  let tpb := cfg_tokens_per_block (config s) in
  prefix_count ← CeilDiv cacheable_tokens tpb;
  suffix_count ← CeilDiv (prompt - cacheable_tokens) tpb;
  block_count ← int_of (prefix_count + suffix_count);
  let sequence := mkSequence prompt 0 prefix_count [] in
  let miss s := AllocatePrompt_miss s sequence_id sequence prefix_cache_key
                  cacheable_tokens suffix_count block_count in
  if bool_decide (prefix_cache_key ≠ EmptyString) && (0 <? cacheable_tokens) then
    match prefix_cache s !! prefix_cache_key with
    | Some cached =>
        if token_count cached =? cacheable_tokens then
          AllocatePrompt_hit s sequence_id sequence cached suffix_count block_count
        else Some (miss (set_stats (incr_misses (stats s)) s))
    | None => Some (miss (set_stats (incr_misses (stats s)) s))
    end
  else Some (miss s).

Definition AllocatePrompt (sequence_id : string) (prompt : Z)
    (prefix_cache_key : string) (prefix_tokens : Z) (s : Impl)
    : option (KvAllocation * Impl) :=
  if bool_decide (sequence_id = EmptyString) then
    Some (AllocationError "sequence id is required", s)
  else if bool_decide (is_Some (sequences s !! sequence_id)) then
    Some (AllocationError "sequence already exists", s)
  else AllocatePrompt_new sequence_id prompt prefix_cache_key prefix_tokens s.

Definition AppendTokens (sequence_id : string) (count : Z) (s : Impl)
    : option (KvAllocation * Impl) :=
  match sequences s !! sequence_id with
  | None => Some (AllocationError "sequence does not exist", s)
  | Some sequence =>
      if count <=? 0 then Some (AllocationOk 0 false, s)
      else
        let tpb := cfg_tokens_per_block (config s) in
        before_blocks ← CeilDiv (generated_tokens sequence) tpb;
        total ← int_of (generated_tokens sequence + count);
        after_blocks ← CeilDiv total tpb;
        let additional_blocks := after_blocks - before_blocks in
        let '(ids, s1) := AllocateBlocks additional_blocks EmptyString s in
        if bool_decide (zlen ids ≠ additional_blocks) then
          Some (AllocationError "kv cache exhausted", s1)
        else
          let sequence' := mkSequence (prompt_tokens sequence) total
            (prefix_block_count sequence) (seq_block_ids sequence ++ ids) in
          Some (AllocationOk additional_blocks false,
                set_sequences (<[sequence_id := sequence']> (sequences s1)) s1)
  end.

(** One iteration of the loop of [ReleaseSequence]. *)
Definition release_block (s : Impl) (block_id : Z) : Impl :=
  match (if in_range (blocks s) block_id then vec_at (blocks s) block_id
         else None) with
  | None => s
  | Some b =>
      let b' := if 0 <? ref_count b then add_ref (-1) b else b in
      let s1 := set_blocks (<[Z.to_nat block_id := b']> (blocks s)) s in
      if (ref_count b' =? 0) && bool_decide (cached_prefix_key b' = EmptyString)
      then FreeBlock s1 block_id else s1
  end.

Definition ReleaseSequence (sequence_id : string) (s : Impl) : Impl :=
  match sequences s !! sequence_id with
  | None => s
  | Some sequence =>
      let s1 := foldl release_block s (seq_block_ids sequence) in
      set_sequences (delete sequence_id (sequences s1)) s1
  end.

Definition Stats (s : Impl) : KvCacheStats :=
  mkKvCacheStats (zlen (blocks s)) (UsedBlockCount s) (FreeBlockCount s)
    (high_watermark_blocks (stats s)) (Z.of_nat (size (sequences s)))
    (Z.of_nat (size (prefix_cache s))) (prefix_cache_hits (stats s))
    (prefix_cache_misses (stats s)) (evictions (stats s))
    (allocation_failures (stats s)).

Definition SequenceBlockCount (sequence_id : string) (s : Impl) : Z :=
  match sequences s !! sequence_id with
  | None => 0
  | Some sequence => zlen (seq_block_ids sequence)
  end.

End KvBlockAllocator.
