(* ===== verification/KvCacheInv.v ===== *)
(** * The allocator's invariant

    [wf_with extra s] is the invariant of an allocator state in which the block
    ids [extra] are referenced by a sequence that is still being built; [wf] is
    the case where nothing is pending.  Every private operation has one lemma
    here; [KvCacheProps.v] composes them into the theorems on the public
    operations. *)
From stdpp Require Import prelude gmap strings list.
From S2P Require Import Prelude KvCache.
Import KvBlockAllocator.

(** ** Arithmetic of block counts *)

(** The quotient rounded up, and when [CeilDiv] can compute it in [int]. *)
Definition ceil_div (value divisor : Z) : Z :=
  if value <=? 0 then 0 else Z.quot (value + divisor - 1) divisor.

Definition ceil_fits (value divisor : Z) : bool :=
  (value <=? 0) || (value + divisor <=? INT_MAX).

Lemma CeilDiv_spec v d :
  0 < d → CeilDiv v d = if ceil_fits v d then Some (ceil_div v d) else None.
Proof.
  intros Hd. unfold CeilDiv, ceil_fits, ceil_div. destruct (v <=? 0) eqn:Hv; [done|]. to_prop. simpl.
  rewrite int_of_nonneg by lia. case_bool; [|done]. to_prop. simpl.
  rewrite int_of_Some by (unfold INT_MIN; lia). done.
Qed.

Lemma ceil_div_nonneg v d : 0 < d → 0 ≤ ceil_div v d.
Proof.
  intros Hd. unfold ceil_div. case_bool; [lia|]. to_prop.
  apply Z.quot_pos; lia.
Qed.

Lemma ceil_div_pos v d : 0 < d → 0 < v → 0 < ceil_div v d.
Proof.
  intros Hd Hv. unfold ceil_div. case_bool; to_prop; [lia|].
  apply Z.quot_str_pos. lia.
Qed.

Lemma ceil_div_zero d : ceil_div 0 d = 0.
Proof. done. Qed.

(** The defining property: the least [n] with [v <= n * d]. *)
Lemma ceil_div_spec v d : 0 < d → 0 ≤ v → ceil_div v d * d - d < v ≤ ceil_div v d * d.
Proof.
  intros Hd Hv. unfold ceil_div. case_bool; to_prop; [lia|].
  rewrite Z.quot_div_nonneg by lia.
  pose proof (Z.div_mod (v + d - 1) d). pose proof (Z.mod_pos_bound (v + d - 1) d).
  nia.
Qed.

Lemma ceil_div_le v d : 0 < d → 0 ≤ v → ceil_div v d ≤ v.
Proof. intros Hd Hv. pose proof (ceil_div_spec v d Hd Hv). nia. Qed.

Lemma ceil_fits_small v d : v + d ≤ INT_MAX → ceil_fits v d = true.
Proof. intros Hv. unfold ceil_fits. by rewrite (proj2 (Z.leb_le _ _) Hv), orb_true_r. Qed.

Lemma ceil_div_mono v v' d : 0 < d → v ≤ v' → ceil_div v d ≤ ceil_div v' d.
Proof.
  intros Hd Hv. destruct (decide (v ≤ 0)) as [H0|H0].
  - unfold ceil_div at 1. rewrite (proj2 (Z.leb_le v 0) H0). by apply ceil_div_nonneg.
  - pose proof (ceil_div_spec v d). pose proof (ceil_div_spec v' d). nia.
Qed.

(** ** Counting free blocks *)

Definition free_count (bs : list Block) : nat :=
  length (filter (λ b, occupied b = false) bs).

Lemma FreeBlockCount_eq s : FreeBlockCount s = Z.of_nat (free_count (blocks s)).
Proof. done. Qed.

Lemma free_count_le bs : (free_count bs ≤ length bs)%nat.
Proof. apply length_filter. Qed.

Lemma free_count_cons b bs :
  free_count (b :: bs) = ((if occupied b then 0 else 1) + free_count bs)%nat.
Proof.
  unfold free_count. rewrite filter_cons. case_decide as H; [by rewrite H|].
  by destruct (occupied b).
Qed.

Lemma free_count_insert bs i b b' :
  bs !! i = Some b →
  (free_count (<[i := b']> bs) + (if occupied b then 0 else 1) =
   free_count bs + (if occupied b' then 0 else 1))%nat.
Proof.
  revert i. induction bs as [|c bs IH]; intros [|i] H; simplify_eq/=.
  - rewrite !free_count_cons. lia.
  - rewrite !free_count_cons. specialize (IH i H). lia.
Qed.

(** ** References held by the sequences *)

Definition holders (m : gmap string Sequence) (id : Z) : nat :=
  map_fold (λ _ q n, (occ id (seq_block_ids q) + n)%nat) 0%nat m.

Lemma holders_empty id : holders ∅ id = 0%nat.
Proof. apply map_fold_empty. Qed.

Lemma holders_insert m k q id :
  m !! k = None →
  holders (<[k := q]> m) id = (occ id (seq_block_ids q) + holders m id)%nat.
Proof.
  intros H. unfold holders. rewrite map_fold_insert_L; [done| |done].
  intros. lia.
Qed.

Lemma holders_delete m k q id :
  m !! k = Some q →
  holders m id = (occ id (seq_block_ids q) + holders (delete k m) id)%nat.
Proof.
  intros H. rewrite <- (insert_delete_id m k q) at 1 by done.
  apply holders_insert. apply lookup_delete_eq.
Qed.

Lemma holders_update m k q q' id :
  m !! k = Some q →
  (holders (<[k := q']> m) id + occ id (seq_block_ids q) =
   holders m id + occ id (seq_block_ids q'))%nat.
Proof.
  intros H. rewrite (holders_delete m k q) by done.
  rewrite <- insert_delete_eq, holders_insert by apply lookup_delete_eq. lia.
Qed.

Lemma holders_pos m k q id :
  m !! k = Some q → id ∈ seq_block_ids q → (0 < holders m id)%nat.
Proof.
  intros H Hid. rewrite (holders_delete m k q) by done.
  apply occ_pos in Hid. lia.
Qed.

Lemma holders_zero m id :
  holders m id = 0%nat →
  ∀ k q, m !! k = Some q → id ∉ seq_block_ids q.
Proof. intros H k q Hk Hid. pose proof (holders_pos m k q id Hk Hid). lia. Qed.

(** ** The invariant *)

(** The block [id] exists, is occupied and is tagged with a key that satisfies [P]. *)
Definition block_tagged (s : Impl) (P : string → Prop) (id : Z) : Prop :=
  ∃ b, vec_at (blocks s) id = Some b ∧ occupied b = true ∧ P (cached_prefix_key b).

(** A cached prefix: a nonempty list of distinct blocks tagged with its key. *)
Definition entry_ok (s : Impl) (k : string) (e : PrefixEntry) : Prop :=
  k ≠ EmptyString ∧ 0 < token_count e ∧
  zlen (block_ids e) = ceil_div (token_count e) (cfg_tokens_per_block (config s)) ∧
  NoDup (block_ids e) ∧
  ∀ id, id ∈ block_ids e → block_tagged s (λ k', k' = k) id.

(** A sequence: its shared prefix blocks come first and carry a prefix key, its
    private blocks follow; their numbers are those its tokens need. *)
Definition seq_ok (s : Impl) (q : Sequence) : Prop :=
  let tpb := cfg_tokens_per_block (config s) in
  0 ≤ generated_tokens q ∧
  (∃ c, 0 ≤ c ≤ prompt_tokens q ∧ prefix_block_count q = ceil_div c tpb ∧
        zlen (seq_block_ids q) = ceil_div c tpb + ceil_div (prompt_tokens q - c) tpb +
                                 ceil_div (generated_tokens q) tpb) ∧
  (∀ id, id ∈ take (Z.to_nat (prefix_block_count q)) (seq_block_ids q) →
         block_tagged s (λ k, k ≠ EmptyString) id) ∧
  (∀ id, id ∈ drop (Z.to_nat (prefix_block_count q)) (seq_block_ids q) →
         block_tagged s (λ k, k = EmptyString) id).

Record wf_with (extra : list Z) (s : Impl) : Prop := mk_wf_with {
  wf_tpb : 0 < cfg_tokens_per_block (config s);
  wf_total : 0 < cfg_total_blocks (config s);
  wf_length : zlen (blocks s) = cfg_total_blocks (config s);
  wf_extra : ∀ id, id ∈ extra → is_Some (vec_at (blocks s) id);
  wf_refs : ∀ i b, blocks s !! i = Some b →
    ref_count b =
      Z.of_nat (holders (sequences s) (Z.of_nat i) + occ (Z.of_nat i) extra);
  wf_free : ∀ i b, blocks s !! i = Some b → occupied b = false → b = empty_block;
  wf_private : ∀ i b, blocks s !! i = Some b → occupied b = true →
    cached_prefix_key b = EmptyString → ref_count b = 1;
  wf_entries : ∀ k e, prefix_cache s !! k = Some e → entry_ok s k e;
  wf_sequences : ∀ id q, sequences s !! id = Some q → id ≠ EmptyString ∧ seq_ok s q;
  wf_watermark : UsedBlockCount s ≤ high_watermark_blocks (stats s) ≤ zlen (blocks s);
}.

Abbreviation wf := (wf_with []).

(** ** Which parts of the invariant survive a change of the blocks *)

(** A sequence of [s] owns the block [id]. *)
Definition owned (s : Impl) (id : Z) : Prop :=
  ∃ k q, sequences s !! k = Some q ∧ id ∈ seq_block_ids q.

(** [s'] keeps the occupancy and the tag of the blocks of [s] that a sequence
    owns or that a cached prefix of [s'] still names; nothing else of the state
    is assumed. *)
Record keeps (s s' : Impl) : Prop := mk_keeps {
  keeps_config : config s' = config s;
  keeps_sequences : sequences s' = sequences s;
  keeps_cache : prefix_cache s' ⊆ prefix_cache s;
  keeps_length : length (blocks s') = length (blocks s);
  keeps_blocks : ∀ i b, blocks s !! i = Some b →
    owned s (Z.of_nat i) ∨
    (∃ k e, prefix_cache s' !! k = Some e ∧ Z.of_nat i ∈ block_ids e) →
    ∃ b', blocks s' !! i = Some b' ∧ occupied b' = occupied b ∧
          cached_prefix_key b' = cached_prefix_key b;
}.

Lemma keeps_tagged s s' P id :
  keeps s s' → block_tagged s P id →
  owned s id ∨ (∃ k e, prefix_cache s' !! k = Some e ∧ id ∈ block_ids e) →
  block_tagged s' P id.
Proof.
  intros Hk (b & Hb & Ho & HP) Hor. pose proof Hb as [H0 Hl]%vec_at_Some.
  destruct (keeps_blocks _ _ Hk _ _ Hl) as (b' & Hb' & Ho' & Hc').
  { by rewrite Z2Nat.id. }
  exists b'. rewrite vec_at_Some. by rewrite Ho', Hc'.
Qed.

Lemma keeps_entry_ok s s' k e :
  keeps s s' → prefix_cache s' !! k = Some e → entry_ok s k e → entry_ok s' k e.
Proof.
  intros Hk He (? & ? & Hlen & ? & Htag). unfold entry_ok.
  rewrite (keeps_config _ _ Hk). repeat split; auto.
  intros id Hid. eapply keeps_tagged; eauto.
Qed.

Lemma keeps_seq_ok s s' k q :
  keeps s s' → sequences s !! k = Some q → seq_ok s q → seq_ok s' q.
Proof.
  intros Hk Hq (? & ? & Hpre & Hpriv). unfold seq_ok.
  rewrite (keeps_config _ _ Hk). repeat split; auto; intros id Hid;
    (eapply keeps_tagged; [done|auto|left; exists k, q; split; [done|]]).
  - by eapply elem_of_take in Hid as (? & ?%list_elem_of_lookup_2 & _).
  - apply list_elem_of_lookup in Hid as [j Hj]. rewrite lookup_drop in Hj.
    by eapply list_elem_of_lookup_2.
Qed.

(** A block of a sequence is referenced. *)
Lemma wf_held extra s k q id b :
  wf_with extra s → sequences s !! k = Some q → id ∈ seq_block_ids q →
  vec_at (blocks s) id = Some b → 0 < ref_count b.
Proof.
  intros Hwf Hk Hid [H0 Hb]%vec_at_Some. rewrite (wf_refs _ _ Hwf _ _ Hb).
  rewrite Z2Nat.id by lia. pose proof (holders_pos _ _ _ _ Hk Hid). lia.
Qed.

Lemma wf_owned extra s i b :
  wf_with extra s → blocks s !! i = Some b → owned s (Z.of_nat i) → 0 < ref_count b.
Proof.
  intros Hwf Hb (k & q & Hk & Hi). eapply wf_held; eauto. by rewrite vec_at_nat.
Qed.

Lemma keeps_sequences_ok extra s s' :
  wf_with extra s → keeps s s' →
  ∀ id q, sequences s' !! id = Some q → id ≠ EmptyString ∧ seq_ok s' q.
Proof.
  intros Hwf Hk id q Hq. rewrite (keeps_sequences _ _ Hk) in Hq.
  destruct (wf_sequences _ _ Hwf _ _ Hq) as [? Hok]. split; [done|].
  eapply keeps_seq_ok; eauto.
Qed.

Lemma keeps_entries_ok extra s s' :
  wf_with extra s → keeps s s' →
  ∀ k e, prefix_cache s' !! k = Some e → entry_ok s' k e.
Proof.
  intros Hwf Hk k e He. eapply keeps_entry_ok; eauto.
  eapply wf_entries; [done|]. eapply lookup_weaken; [done|by apply keeps_cache].
Qed.

(** A block that no one references and that is occupied carries a prefix key. *)
Lemma wf_unreferenced extra s i b :
  wf_with extra s → blocks s !! i = Some b → ref_count b = 0 →
  occupied b = true → cached_prefix_key b ≠ EmptyString.
Proof.
  intros Hwf Hb Hr Ho Hk. pose proof (wf_private _ _ Hwf _ _ Hb Ho Hk). lia.
Qed.

Lemma wf_ref_nonneg extra s i b :
  wf_with extra s → blocks s !! i = Some b → 0 ≤ ref_count b.
Proof. intros Hwf Hb. rewrite (wf_refs _ _ Hwf _ _ Hb). lia. Qed.

Lemma wf_used_nonneg s : 0 ≤ UsedBlockCount s ≤ zlen (blocks s).
Proof.
  unfold UsedBlockCount. rewrite FreeBlockCount_eq.
  pose proof (free_count_le (blocks s)). lia.
Qed.

Lemma wf_init cfg : wf (init cfg).
Proof.
  assert (Hc : ∀ v f, 0 < f → 0 < ClampPositive v f).
  { intros v f ?. unfold ClampPositive. case_bool; to_prop; lia. }
  pose proof (Hc (cfg_total_blocks cfg) 1). pose proof (Hc (cfg_tokens_per_block cfg) 1).
  assert (Hrep : ∀ i b, blocks (init cfg) !! i = Some b → b = empty_block).
  { intros i b Hb. simpl in Hb. by apply lookup_replicate in Hb as [-> _]. }
  constructor; simpl; try lia; try set_solver.
  - rewrite length_replicate. lia.
  - unfold UsedBlockCount, FreeBlockCount. simpl.
    assert (Hf : ∀ n, free_count (replicate n empty_block) = n).
    { induction n as [|n IH]; [done|]. simpl. rewrite free_count_cons. simpl. lia. }
    unfold free_count in Hf. rewrite Hf, length_replicate. lia.
Qed.

(** ** Freeing blocks *)

Lemma in_range_FreeBlock s id id' :
  in_range (blocks (FreeBlock s id)) id' = in_range (blocks s) id'.
Proof.
  unfold FreeBlock. destruct (in_range (blocks s) id); [|done].
  unfold in_range. simpl. by rewrite length_insert.
Qed.

Lemma FreeBlock_lookup s id (i : nat) :
  blocks (FreeBlock s id) !! i =
  (if decide (Z.of_nat i = id) then (λ _, empty_block) <$> blocks s !! i
   else blocks s !! i).
Proof.
  unfold FreeBlock. destruct (in_range (blocks s) id) eqn:Hr; simpl.
  - apply in_range_spec in Hr. case_decide as Hi.
    + subst id. rewrite Nat2Z.id, list_lookup_insert_eq by lia.
      destruct (lookup_lt_is_Some_2 (blocks s) i) as [b ->]; [lia|done].
    + apply list_lookup_insert_ne. lia.
  - case_decide as Hi; [|done]. subst id.
    destruct (blocks s !! i) eqn:Hb; [|done]. apply lookup_lt_Some in Hb.
    exfalso. rewrite <- not_true_iff_false, in_range_spec in Hr. lia.
Qed.

Lemma FreeBlocks_lookup ids s (i : nat) :
  blocks (foldl FreeBlock s ids) !! i =
  (if decide (Z.of_nat i ∈ ids) then (λ _, empty_block) <$> blocks s !! i
   else blocks s !! i).
Proof.
  revert s. induction ids as [|id ids IH]; intros s; simpl.
  { done. }
  rewrite IH, FreeBlock_lookup.
  destruct (decide (Z.of_nat i = id)), (decide (Z.of_nat i ∈ ids)),
    (decide (Z.of_nat i ∈ id :: ids)); try set_solver.
  by destruct (blocks s !! i).
Qed.

Lemma FreeBlock_frame s id :
  config (FreeBlock s id) = config s ∧ sequences (FreeBlock s id) = sequences s ∧
  prefix_cache (FreeBlock s id) = prefix_cache s ∧
  stats (FreeBlock s id) = stats s ∧
  length (blocks (FreeBlock s id)) = length (blocks s) ∧
  (free_count (blocks s) ≤ free_count (blocks (FreeBlock s id)))%nat.
Proof.
  unfold FreeBlock. destruct (in_range (blocks s) id) eqn:Hr; simpl; [|auto 10 with lia].
  rewrite length_insert. repeat split; auto.
  apply in_range_spec in Hr.
  destruct (lookup_lt_is_Some_2 (blocks s) (Z.to_nat id)) as [b Hb]; [lia|].
  pose proof (free_count_insert _ _ _ empty_block Hb) as H. simpl in H.
  destruct (occupied b); lia.
Qed.

Lemma FreeBlocks_frame ids s :
  config (foldl FreeBlock s ids) = config s ∧
  sequences (foldl FreeBlock s ids) = sequences s ∧
  prefix_cache (foldl FreeBlock s ids) = prefix_cache s ∧
  stats (foldl FreeBlock s ids) = stats s ∧
  length (blocks (foldl FreeBlock s ids)) = length (blocks s) ∧
  (free_count (blocks s) ≤ free_count (blocks (foldl FreeBlock s ids)))%nat.
Proof.
  revert s. induction ids as [|id ids IH]; intros s; simpl; [auto 10 with lia|].
  destruct (IH (FreeBlock s id)) as (-> & -> & -> & -> & -> & ?).
  destruct (FreeBlock_frame s id) as (-> & -> & -> & -> & -> & ?). auto 10 with lia.
Qed.

(** ** Eviction *)

Lemma PrefixEntryIsIdle_spec s e :
  PrefixEntryIsIdle s e = true ↔
  ∀ id, id ∈ block_ids e → ∃ b, vec_at (blocks s) id = Some b ∧ ref_count b = 0.
Proof.
  unfold PrefixEntryIsIdle. rewrite forallb_forall. setoid_rewrite list_elem_of_In.
  split; intros H id Hid; specialize (H id Hid).
  - apply andb_true_iff in H as [_ H]. destruct (vec_at _ _); [|done].
    to_prop. eauto.
  - destruct H as (b & Hb & Hr). apply andb_true_iff. split.
    + apply in_range_vec_at. by rewrite Hb.
    + rewrite Hb. by apply Z.eqb_eq.
Qed.

(** What eviction may do: erase cached prefixes and free blocks that no sequence
    references. *)
Record evicts (s s' : Impl) : Prop := mk_evicts {
  ev_config : config s' = config s;
  ev_sequences : sequences s' = sequences s;
  ev_cache : prefix_cache s' ⊆ prefix_cache s;
  ev_length : length (blocks s') = length (blocks s);
  ev_blocks : ∀ i b, blocks s !! i = Some b →
    blocks s' !! i = Some b ∨ (ref_count b = 0 ∧ blocks s' !! i = Some empty_block);
  ev_free : (free_count (blocks s) ≤ free_count (blocks s'))%nat;
  ev_stats : ∃ n, 0 ≤ n ∧ stats s' =
    mkKvCacheStats (total_blocks (stats s)) (used_blocks (stats s))
      (free_blocks (stats s)) (high_watermark_blocks (stats s))
      (active_sequences (stats s)) (cached_prefixes (stats s))
      (prefix_cache_hits (stats s)) (prefix_cache_misses (stats s))
      (evictions (stats s) + n) (allocation_failures (stats s));
}.

Lemma ev_referenced s s' i b :
  evicts s s' → blocks s !! i = Some b → ref_count b ≠ 0 → blocks s' !! i = Some b.
Proof. intros Hev Hb Hr. destruct (ev_blocks _ _ Hev _ _ Hb) as [|[]]; done. Qed.

Lemma evicts_refl s : evicts s s.
Proof.
  constructor; auto. exists 0. split; [lia|].
  rewrite Z.add_0_r. by destruct (stats s).
Qed.

Lemma evicts_trans s1 s2 s3 : evicts s1 s2 → evicts s2 s3 → evicts s1 s3.
Proof.
  intros [] []. constructor; try congruence.
  - by etrans.
  - intros i b Hb. destruct (ev_blocks0 _ _ Hb) as [Hb'|[Hr Hb']].
    + eauto.
    + right. split; [done|]. by destruct (ev_blocks1 _ _ Hb') as [|[]].
  - lia.
  - destruct ev_stats0 as (n & ? & Hn), ev_stats1 as (m & ? & Hm).
    exists (n + m). split; [lia|]. rewrite Hm, Hn. simpl. f_equal. lia.
Qed.

Lemma evicts_watermark s s' :
  evicts s s' → high_watermark_blocks (stats s') = high_watermark_blocks (stats s).
Proof. intros [? ? ? ? ? ? (n & _ & ->)]. done. Qed.

(** Evicting one idle entry. *)
Definition evict_one (k : string) (e : PrefixEntry) (s : Impl) : Impl :=
  let s1 := foldl FreeBlock s (block_ids e) in
  let s2 := set_prefix_cache (delete k (prefix_cache s1)) s1 in
  set_stats (incr_evictions (stats s2)) s2.

Lemma evict_one_evicts k e s :
  PrefixEntryIsIdle s e = true → evicts s (evict_one k e s).
Proof.
  intros Hidle. rewrite PrefixEntryIsIdle_spec in Hidle.
  destruct (FreeBlocks_frame (block_ids e) s) as (Hc & Hs & Hp & Hst & Hl & Hf).
  constructor; simpl; auto.
  - rewrite Hp. apply delete_subseteq.
  - intros i b Hb. rewrite FreeBlocks_lookup. case_decide as Hi; [right|by left].
    destruct (Hidle _ Hi) as (b' & Hb' & ?). rewrite vec_at_nat in Hb'.
    rewrite Hb in Hb' |- *. by simplify_eq.
  - exists 1. split; [lia|]. by rewrite Hst.
Qed.

Lemma evict_one_wf extra k e s :
  wf_with extra s → prefix_cache s !! k = Some e → PrefixEntryIsIdle s e = true →
  wf_with extra (evict_one k e s).
Proof.
  intros Hwf He Hidle. pose proof (evict_one_evicts k e s Hidle) as Hev.
  rewrite PrefixEntryIsIdle_spec in Hidle.
  destruct (FreeBlocks_frame (block_ids e) s) as (Hc & Hs & Hp & Hst & Hl & Hf).
  assert (Hlk : ∀ i, blocks (evict_one k e s) !! i =
    (if decide (Z.of_nat i ∈ block_ids e) then (λ _, empty_block) <$> blocks s !! i
     else blocks s !! i)) by (intros; apply FreeBlocks_lookup).
  assert (Hpc : prefix_cache (evict_one k e s) = delete k (prefix_cache s)).
  { simpl. by rewrite Hp. }
  assert (Hkeeps : keeps s (evict_one k e s)).
  { constructor; auto using ev_config, ev_sequences, ev_cache, ev_length.
    intros i b Hb [Hr|(k' & e' & He' & Hi)]; rewrite Hlk; case_decide as Hin; eauto.
    - pose proof (wf_owned _ _ _ _ Hwf Hb Hr). destruct (Hidle _ Hin) as (b' & Hb' & ?). rewrite vec_at_nat in Hb'. naive_solver lia.
    - rewrite Hpc, lookup_delete_Some in He'. destruct He' as [Hne He'].
      destruct (wf_entries _ _ Hwf _ _ He) as (_ & _ & _ & _ & H1).
      destruct (wf_entries _ _ Hwf _ _ He') as (_ & _ & _ & _ & H2).
      destruct (H1 _ Hin) as (b1 & ? & _ & ?), (H2 _ Hi) as (b2 & ? & _ & ?). congruence. }
  constructor; try (simpl; rewrite ?Hc, ?Hl, ?Hst; apply Hwf).
  - intros id Hid%(wf_extra _ _ Hwf). rewrite vec_at_is_Some in *.
    by rewrite (ev_length _ _ Hev).
  - intros i b. rewrite Hlk, (ev_sequences _ _ Hev). case_decide as Hin.
    + destruct (Hidle _ Hin) as (b' & Hb' & Hr). rewrite vec_at_nat in Hb'.
      rewrite Hb'. intros [= <-]. simpl. rewrite <- Hr. eauto using wf_refs.
    + eauto using wf_refs.
  - intros i b. rewrite Hlk. case_decide; [|eauto using wf_free].
    destruct (blocks s !! i); naive_solver.
  - intros i b. rewrite Hlk. case_decide; [|eauto using wf_private].
    destruct (blocks s !! i); naive_solver.
  - eauto using keeps_entries_ok.
  - eauto using keeps_sequences_ok.
  - rewrite (evicts_watermark _ _ Hev). pose proof (wf_watermark _ _ Hwf) as Hw.
    unfold UsedBlockCount in *. rewrite !FreeBlockCount_eq in *.
    rewrite (ev_length _ _ Hev). pose proof (ev_free _ _ Hev). lia.
Qed.

Lemma evict_loop_spec required items extra s :
  wf_with extra s → NoDup items.*1 →
  (∀ k e, (k, e) ∈ items → prefix_cache s !! k = Some e) →
  let s' := evict_loop required items s in
  wf_with extra s' ∧ evicts s s' ∧
  (FreeBlockCount s' < required →
   ∀ k e, (k, e) ∈ items → prefix_cache s' !! k = Some e →
   PrefixEntryIsIdle s' e = false).
Proof.
  intros Hwf Hnd Hin. revert s Hwf Hin.
  induction items as [|[k e] items IH]; intros s Hwf Hin; simpl.
  { split_and!; auto using evicts_refl. set_solver. }
  apply NoDup_cons in Hnd as [Hk Hnd].
  destruct (FreeBlockCount s <? required) eqn:Hfc.
  2:{ split_and!; auto using evicts_refl. to_prop. lia. }
  destruct (PrefixEntryIsIdle s e) eqn:Hidle.
  - fold (evict_one k e s).
    assert (He : prefix_cache s !! k = Some e) by (apply Hin; set_solver).
    assert (Hpc : prefix_cache (evict_one k e s) = delete k (prefix_cache s)).
    { simpl. by destruct (FreeBlocks_frame (block_ids e) s) as (_ & _ & -> & _). }
    destruct (IH Hnd (evict_one k e s)) as (H1 & H2 & H3).
    + by apply evict_one_wf.
    + intros k' e' H'. rewrite Hpc, lookup_delete_ne; [apply Hin; set_solver|].
      intros ->. apply Hk. apply list_elem_of_fmap. by exists (k', e').
    + split_and!; eauto using evicts_trans, evict_one_evicts.
      intros Hlt k' e' [[= -> ->]|H']%elem_of_cons He'; [|eauto].
      pose proof (lookup_weaken _ _ _ _ He' (ev_cache _ _ H2)) as Hx.
      rewrite Hpc, lookup_delete_eq in Hx. done.
  - destruct (IH Hnd s) as (H1 & H2 & H3); [done|set_solver|].
    split_and!; auto. intros Hlt k' e' [[= -> ->]|H']%elem_of_cons He'; [|eauto].
    apply not_true_iff_false. rewrite PrefixEntryIsIdle_spec. intros Hall.
    apply not_true_iff_false in Hidle. apply Hidle. rewrite PrefixEntryIsIdle_spec.
    intros id Hid. destruct (Hall id Hid) as (b & Hb & Hr).
    assert (He : prefix_cache s !! k = Some e) by (apply Hin; set_solver).
    destruct (wf_entries _ _ Hwf _ _ He) as (_ & _ & _ & _ & Htag).
    destruct (Htag _ Hid) as (b0 & Hb0 & _). exists b0. split; [done|].
    destruct (decide (ref_count b0 = 0)) as [|Hne]; [done|].
    apply vec_at_Some in Hb0 as [? Hb0], Hb as [_ Hb].
    pose proof (ev_referenced _ _ _ _ H2 Hb0 Hne). congruence.
Qed.

(** ** Allocation *)

Lemma alloc_scan_length key need index bs :
  length (alloc_scan key need index bs).1 = length bs.
Proof.
  revert need index. induction bs as [|b bs IH]; intros [|n] index; simpl; auto.
  destruct (occupied b).
  - specialize (IH (S n) (index + 1)). destruct (alloc_scan _ _ _ _). simpl in *. lia.
  - specialize (IH n (index + 1)). destruct (alloc_scan _ _ _ _). simpl in *. lia.
Qed.

(** It finds [need] blocks, or all the free ones. *)
Lemma alloc_scan_count key need index bs :
  length (alloc_scan key need index bs).2 = (need `min` free_count bs)%nat.
Proof.
  revert need index. induction bs as [|b bs IH]; intros [|n] index; simpl; auto.
  rewrite free_count_cons. destruct (occupied b).
  - specialize (IH (S n) (index + 1)). destruct (alloc_scan _ _ _ _). simpl in *. lia.
  - specialize (IH n (index + 1)). destruct (alloc_scan _ _ _ _). simpl in *. lia.
Qed.

Lemma alloc_scan_range key need index bs id :
  id ∈ (alloc_scan key need index bs).2 → index ≤ id < index + zlen bs.
Proof.
  revert need index. induction bs as [|b bs IH]; intros [|n] index; simpl; try set_solver.
  destruct (occupied b).
  - specialize (IH (S n) (index + 1)). destruct (alloc_scan _ _ _ _). simpl in *.
    intros Hid. specialize (IH Hid). lia.
  - specialize (IH n (index + 1)). destruct (alloc_scan _ _ _ _). simpl in *.
    intros [->|Hid]%elem_of_cons; [lia|]. specialize (IH Hid). lia.
Qed.

Lemma alloc_scan_NoDup key need index bs : NoDup (alloc_scan key need index bs).2.
Proof.
  revert need index. induction bs as [|b bs IH]; intros [|n] index; simpl; try constructor.
  destruct (occupied b).
  - specialize (IH (S n) (index + 1)). by destruct (alloc_scan _ _ _ _).
  - pose proof (alloc_scan_range key n (index + 1) bs index) as Hr.
    specialize (IH n (index + 1)). destruct (alloc_scan _ _ _ _). simpl in *.
    constructor; [|done]. intros Hin. specialize (Hr Hin). lia.
Qed.

(** Blocks that were free become the new blocks, the others stay. *)
Lemma alloc_scan_lookup key need index bs i b :
  bs !! i = Some b →
  if decide (index + Z.of_nat i ∈ (alloc_scan key need index bs).2)
  then occupied b = false ∧
       (alloc_scan key need index bs).1 !! i = Some (mkBlock true 1 key)
  else (alloc_scan key need index bs).1 !! i = Some b.
Proof.
  revert need index i. induction bs as [|b0 bs IH]; intros [|n] index [|i] Hb;
    simpl in Hb |- *; try discriminate Hb; rewrite ?Z.add_0_r; auto.
  - injection Hb as ->. destruct (occupied b) eqn:Ho.
    + pose proof (alloc_scan_range key (S n) (index + 1) bs index) as Hr.
      destruct (alloc_scan _ _ _ _). simpl in *. case_decide as Hd; [|done].
      specialize (Hr Hd). lia.
    + destruct (alloc_scan _ _ _ _). simpl. by rewrite decide_True by set_solver.
  - replace (index + Z.of_nat (S i)) with (index + 1 + Z.of_nat i) by lia.
    destruct (occupied b0) eqn:Ho.
    + specialize (IH (S n) (index + 1) i Hb). by destruct (alloc_scan _ _ _ _).
    + specialize (IH n (index + 1) i Hb).
      destruct (alloc_scan _ _ _ _) as [bs' ids]. simpl in *.
      destruct (decide (index + 1 + Z.of_nat i ∈ ids)) as [Hd|Hd].
      * by rewrite decide_True by set_solver.
      * rewrite decide_False; [done|]. intros [?|?]%elem_of_cons; [lia|done].
Qed.

Lemma alloc_scan_free_count key need bs index :
  (free_count (alloc_scan key need index bs).1 +
   length (alloc_scan key need index bs).2 = free_count bs)%nat.
Proof.
  revert need index. induction bs as [|b bs IH]; intros [|n] index; simpl; auto.
  rewrite free_count_cons. destruct (occupied b) eqn:Ho.
  - specialize (IH (S n) (index + 1)). destruct (alloc_scan _ _ _ _). simpl in *.
    rewrite free_count_cons, Ho. lia.
  - specialize (IH n (index + 1)). destruct (alloc_scan _ _ _ _). simpl in *.
    rewrite free_count_cons. simpl. lia.
Qed.

(** What a successful allocation of [ids] does: after an eviction, distinct
    blocks that were free become occupied, referenced once and tagged [key]. *)
Record allocates (key : string) (ids : list Z) (s s' : Impl) : Prop := mk_allocates {
  al_config : config s' = config s;
  al_sequences : sequences s' = sequences s;
  al_cache : prefix_cache s' ⊆ prefix_cache s;
  al_length : length (blocks s') = length (blocks s);
  al_NoDup : NoDup ids;
  al_fresh : ∀ id, id ∈ ids →
    vec_at (blocks s') id = Some (mkBlock true 1 key) ∧
    (∀ k e, prefix_cache s' !! k = Some e → id ∉ block_ids e);
  al_blocks : ∀ i b, blocks s !! i = Some b →
    (Z.of_nat i ∈ ids ∧ ref_count b = 0) ∨
    (Z.of_nat i ∉ ids ∧
     (blocks s' !! i = Some b ∨ (ref_count b = 0 ∧ blocks s' !! i = Some empty_block)));
  al_cached : ∀ i b k e, blocks s !! i = Some b → prefix_cache s' !! k = Some e →
    Z.of_nat i ∈ block_ids e → blocks s' !! i = Some b;
}.

Lemma al_referenced key ids s s' i b :
  allocates key ids s s' → blocks s !! i = Some b → ref_count b ≠ 0 →
  Z.of_nat i ∉ ids ∧ blocks s' !! i = Some b.
Proof. intros Hal Hb Hr. destruct (al_blocks _ _ _ _ Hal _ _ Hb) as [[]|[? [|[]]]]; done. Qed.

Lemma allocates_refl key s : allocates key [] s s.
Proof. constructor; auto; [constructor| |]; set_solver. Qed.

Lemma allocates_keeps extra key ids s s' :
  wf_with extra s → allocates key ids s s' → keeps s s'.
Proof.
  intros Hwf Hal. pose proof Hal as []. constructor; auto.
  intros i b Hb [Hr|(k & e & He & Hi)]; exists b.
  - pose proof (wf_owned _ _ _ _ Hwf Hb Hr).
    destruct (al_referenced _ _ _ _ i b Hal); auto with lia.
  - eauto.
Qed.

Lemma EnsureFreeBlocks_spec n extra s :
  wf_with extra s →
  let '(enough, s') := EnsureFreeBlocks n s in
  wf_with extra s' ∧ evicts s s' ∧ enough = (n <=? FreeBlockCount s') ∧
  (enough = false → ∀ k e, prefix_cache s' !! k = Some e →
   PrefixEntryIsIdle s' e = false).
Proof.
  intros Hwf. unfold EnsureFreeBlocks, EvictIdlePrefixesUntil.
  destruct (n <=? FreeBlockCount s) eqn:Hn; [by split_and!; auto using evicts_refl|].
  destruct (evict_loop_spec n (map_in_order (prefix_cache s)) extra s)
    as (H1 & H2 & H3); auto using map_in_order_NoDup.
  { intros k e. by rewrite elem_of_map_in_order. }
  split_and!; auto. intros Hlt%Z.leb_gt k e He. apply (H3 Hlt k); [|done].
  rewrite elem_of_map_in_order. eapply lookup_weaken; [done|]. apply H2.
Qed.

(** What a scan does to each block: the ones it gives were free and get the key,
    the others stay. *)
Lemma scan_blocks extra n key s :
  wf_with extra s →
  let '(bs, ids) := alloc_scan key n 0 (blocks s) in
  (∀ i b, blocks s !! i = Some b →
    (Z.of_nat i ∈ ids ∧ b = empty_block ∧ bs !! i = Some (mkBlock true 1 key)) ∨
    (Z.of_nat i ∉ ids ∧ bs !! i = Some b)) ∧
  (∀ i b, bs !! i = Some b →
    (Z.of_nat i ∈ ids ∧ b = mkBlock true 1 key ∧ blocks s !! i = Some empty_block) ∨
    (Z.of_nat i ∉ ids ∧ blocks s !! i = Some b)).
Proof.
  intros Hwf. pose proof (alloc_scan_length key n 0 (blocks s)) as Hlen.
  pose proof (alloc_scan_lookup key n 0 (blocks s)) as Hlk.
  destruct (alloc_scan key n 0 (blocks s)) as [bs ids]. simpl in *.
  assert (Hfwd : ∀ i b, blocks s !! i = Some b →
    (Z.of_nat i ∈ ids ∧ b = empty_block ∧ bs !! i = Some (mkBlock true 1 key)) ∨
    (Z.of_nat i ∉ ids ∧ bs !! i = Some b)).
  { intros i b Hb. specialize (Hlk i b Hb). case_decide as Hi; [left|by right].
    destruct Hlk. eauto using wf_free. }
  split; [done|]. intros i b Hb.
  destruct (lookup_lt_is_Some_2 (blocks s) i) as [b0 Hb0].
  { rewrite <- Hlen. by eapply lookup_lt_Some. }
  destruct (Hfwd i b0 Hb0) as [(? & -> & ?)|[? ?]]; [left|right]; naive_solver.
Qed.

(** Allocating among the free blocks of [s]. *)
Lemma scan_allocates_only extra n key s :
  wf_with extra s →
  let '(bs, ids) := alloc_scan key n 0 (blocks s) in
  allocates key ids s (RefreshHighWatermark (set_blocks bs s)).
Proof.
  intros Hwf.
  pose proof (alloc_scan_length key n 0 (blocks s)) as Hlen.
  pose proof (alloc_scan_range key n 0 (blocks s)) as Hrng.
  pose proof (alloc_scan_NoDup key n 0 (blocks s)) as Hnd.
  pose proof (scan_blocks extra n key s Hwf) as Hsb.
  destruct (alloc_scan key n 0 (blocks s)) as [bs ids]. destruct Hsb as [Hsb _]. simpl in *.
  constructor; simpl; auto.
  - intros id Hid. specialize (Hrng id Hid).
    destruct (lookup_lt_is_Some_2 (blocks s) (Z.to_nat id)) as [b Hb]; [lia|].
    destruct (Hsb _ _ Hb) as [(_ & -> & Hbs)|[Hi _]]; [|by rewrite Z2Nat.id in Hi by lia].
    split; [apply vec_at_Some; auto with lia|].
    intros k e (_ & _ & _ & _ & Htag)%(wf_entries _ _ Hwf) Hin.
    destruct (Htag _ Hin) as (b' & [_ ?]%vec_at_Some & ? & _). naive_solver.
  - intros i b Hb. destruct (Hsb _ _ Hb) as [(? & -> & _)|[? ?]]; auto.
  - intros i b k e Hb (_ & _ & _ & _ & Htag)%(wf_entries _ _ Hwf) Hin.
    destruct (Hsb _ _ Hb) as [(_ & -> & _)|[_ ?]]; [|done].
    destruct (Htag _ Hin) as (b' & Hb' & ? & _). rewrite vec_at_nat in Hb'. naive_solver.
Qed.

Lemma scan_allocates extra n key s :
  wf_with extra s → (n ≤ free_count (blocks s))%nat →
  let '(bs, ids) := alloc_scan key n 0 (blocks s) in
  let s' := RefreshHighWatermark (set_blocks bs s) in
  length ids = n ∧ allocates key ids s s' ∧ wf_with (ids ++ extra) s'.
Proof.
  intros Hwf Hn.
  pose proof (alloc_scan_length key n 0 (blocks s)) as Hlen.
  pose proof (alloc_scan_count key n 0 (blocks s)) as Hcnt.
  pose proof (alloc_scan_range key n 0 (blocks s)) as Hrng.
  pose proof (alloc_scan_NoDup key n 0 (blocks s)) as Hnd.
  pose proof (alloc_scan_free_count key n (blocks s) 0) as Hfc.
  pose proof (scan_blocks extra n key s Hwf) as Hsb.
  pose proof (scan_allocates_only extra n key s Hwf) as Hal.
  destruct (alloc_scan key n 0 (blocks s)) as [bs ids]. destruct Hsb as [_ Hinv]. simpl in *.
  split; [lia|]. split; [done|]. pose proof (allocates_keeps _ _ _ _ _ Hwf Hal) as Hkeeps.
  constructor; simpl; try apply Hwf.
  - rewrite Hlen. apply Hwf.
  - intros id [Hid|Hid]%elem_of_app; apply vec_at_is_Some.
    + specialize (Hrng _ Hid). lia.
    + apply (wf_extra _ _ Hwf), vec_at_is_Some in Hid. by rewrite Hlen.
  - intros i b Hb. rewrite occ_app.
    destruct (Hinv _ _ Hb) as [(Hi & -> & Hb0)|(Hi & Hb0)].
    + pose proof (wf_refs _ _ Hwf _ _ Hb0) as Hr. simpl in Hr |- *.
      pose proof (occ_NoDup (Z.of_nat i) ids Hnd). apply occ_pos in Hi. lia.
    + rewrite (wf_refs _ _ Hwf _ _ Hb0). apply occ_zero in Hi. lia.
  - intros i b Hb. destruct (Hinv _ _ Hb) as [(_ & -> & _)|(_ & ?)]; [done|eauto using wf_free].
  - intros i b Hb. destruct (Hinv _ _ Hb) as [(_ & -> & _)|(_ & ?)]; [done|eauto using wf_private].
  - exact (keeps_entries_ok _ _ _ Hwf Hkeeps).
  - exact (keeps_sequences_ok _ _ _ Hwf Hkeeps).
  - pose proof (wf_used_nonneg (set_blocks bs s)) as Hu. simpl in Hu.
    pose proof (wf_watermark _ _ Hwf).
    change (UsedBlockCount (RefreshHighWatermark (set_blocks bs s)))
      with (UsedBlockCount (set_blocks bs s)). lia.
Qed.

Lemma evicts_allocates key ids s1 s2 s3 extra :
  wf_with extra s1 → wf_with extra s2 →
  evicts s1 s2 → allocates key ids s2 s3 → allocates key ids s1 s3.
Proof.
  intros Hwf1 Hwf2 Hev Hal. constructor.
  - rewrite (al_config _ _ _ _ Hal). apply Hev.
  - rewrite (al_sequences _ _ _ _ Hal). apply Hev.
  - etrans; [apply Hal|apply Hev].
  - rewrite (al_length _ _ _ _ Hal). apply Hev.
  - apply Hal.
  - apply Hal.
  - intros i b Hb. destruct (ev_blocks _ _ Hev _ _ Hb) as [Hb'|[Hr Hb']];
      destruct (al_blocks _ _ _ _ Hal _ _ Hb') as [[? ?]|[? [?|[? ?]]]]; auto 6.
  - intros i b k e Hb He Hi. eapply al_cached; eauto.
    destruct (decide (ref_count b = 0)) as [H0|]; [|by eapply ev_referenced].
    assert (He2 : prefix_cache s2 !! k = Some e)
      by (eapply lookup_weaken; [exact He|apply Hal]).
    assert (He1 : prefix_cache s1 !! k = Some e)
      by (eapply lookup_weaken; [exact He2|apply Hev]).
    destruct (wf_entries _ _ Hwf1 _ _ He1) as (_ & _ & _ & _ & H1).
    destruct (wf_entries _ _ Hwf2 _ _ He2) as (_ & _ & _ & _ & H2).
    destruct (H1 _ Hi) as (b1 & Hb1 & Ho1 & Hk1).
    destruct (H2 _ Hi) as (b2 & Hb2 & Ho2 & Hk2).
    rewrite vec_at_nat in Hb1, Hb2. rewrite Hb2. f_equal.
    rewrite Hb in Hb1. injection Hb1 as <-.
    pose proof (wf_refs _ _ Hwf1 _ _ Hb) as Hr1.
    pose proof (wf_refs _ _ Hwf2 _ _ Hb2) as Hr2.
    rewrite (ev_sequences _ _ Hev) in Hr2.
    destruct b, b2. simpl in *. congruence.
Qed.

Lemma wf_incr_failures extra s :
  wf_with extra s → wf_with extra (set_stats (incr_failures (stats s)) s).
Proof. intros []. by constructor. Qed.

Lemma wf_incr_misses extra s :
  wf_with extra s → wf_with extra (set_stats (incr_misses (stats s)) s).
Proof. intros []. by constructor. Qed.

Lemma wf_incr_hits extra s :
  wf_with extra s → wf_with extra (set_stats (incr_hits (stats s)) s).
Proof. intros []. by constructor. Qed.

(** The two outcomes of [AllocateBlocks]. *)
Lemma AllocateBlocks_spec extra n key s ids s' :
  wf_with extra s → AllocateBlocks n key s = (ids, s') →
  (zlen ids = Z.max 0 n ∧ allocates key ids s s' ∧ wf_with (ids ++ extra) s') ∨
  (0 < n ∧ ids = [] ∧ wf_with extra s' ∧
   evicts (set_stats (incr_failures (stats s)) s) s' ∧
   FreeBlockCount s' < n ∧
   ∀ k e, prefix_cache s' !! k = Some e → PrefixEntryIsIdle s' e = false).
Proof.
  intros Hwf. unfold AllocateBlocks. destruct (n <=? 0) eqn:Hn.
  { intros [= <- <-]. to_prop. left. split; [simpl; lia|]. auto using allocates_refl. }
  to_prop. pose proof (EnsureFreeBlocks_spec n extra s Hwf) as Hens.
  destruct (EnsureFreeBlocks n s) as [enough s1].
  destruct Hens as (Hwf1 & Hev & -> & Hidle).
  destruct (n <=? FreeBlockCount s1) eqn:Hen; to_prop.
  - rewrite FreeBlockCount_eq in Hen.
    pose proof (scan_allocates extra (Z.to_nat n) key s1 Hwf1) as Hscan.
    destruct (alloc_scan key (Z.to_nat n) 0 (blocks s1)) as [bs ids0].
    intros [= <- <-]. destruct Hscan as (Hlen & Hal & Hwf'); [lia|].
    left. split; [lia|]. eauto using evicts_allocates.
  - intros [= <- <-]. right. split_and!; auto using wf_incr_failures.
    + destruct Hev as [? ? ? ? ? ? (m & ? & Hst)]. constructor; simpl; auto.
      exists m. split; [done|]. by rewrite Hst.
    + intros k e He. by apply (Hidle eq_refl k).
Qed.

(** ** References *)

Lemma add_refs_lookup d ids bs bs' (i : nat) :
  add_refs d ids bs = Some bs' →
  length bs' = length bs ∧
  bs' !! i = (λ b, add_ref (d * Z.of_nat (occ (Z.of_nat i) ids)) b) <$> bs !! i.
Proof.
  revert bs. induction ids as [|id ids IH]; intros bs; simpl.
  { intros [= ->]. rewrite occ_nil. split; [done|].
    destruct (bs' !! i) as [b|]; simpl; [|done]. f_equal.
    destruct b. unfold add_ref. simpl. f_equal. lia. }
  intros (bs1 & H1 & H2)%bind_Some. destruct (IH _ H2) as [Hl Hi].
  pose proof (vec_alter_length _ _ _ _ H1). split; [congruence|].
  rewrite Hi, (vec_alter_lookup _ _ _ _ _ H1), occ_cons.
  destruct (decide (Z.of_nat i = id)) as [->|]; destruct (bs !! i) as [b|]; simpl; try done.
  - rewrite decide_True by done. f_equal. destruct b. unfold add_ref. simpl. f_equal. lia.
  - by rewrite decide_False by congruence.
Qed.

(** The unchecked accesses are in range. *)
Lemma add_refs_Some d ids bs :
  (∀ id, id ∈ ids → is_Some (vec_at bs id)) → is_Some (add_refs d ids bs).
Proof.
  revert bs. induction ids as [|id ids IH]; intros bs Hin; simpl; [by eexists|].
  destruct (Hin id) as [b Hb]; [set_solver|].
  unfold vec_alter. rewrite Hb. simpl. apply IH. intros id' Hid'.
  destruct (Hin id') as [b' Hb']; [set_solver|]. rewrite vec_at_is_Some.
  rewrite length_insert, <- vec_at_is_Some. eauto.
Qed.

(** Changing only reference counts. *)
Lemma add_refs_keeps d ids s bs :
  add_refs d ids (blocks s) = Some bs → keeps s (set_blocks bs s).
Proof.
  intros H. constructor; simpl; auto.
  - by destruct (add_refs_lookup _ _ _ _ 0%nat H).
  - intros i b Hb _. destruct (add_refs_lookup _ _ _ _ i H) as [_ Hi].
    rewrite Hi, Hb. simpl. eexists. split; [done|]. by destruct b.
Qed.

Lemma add_refs_free_count d ids bs bs' :
  add_refs d ids bs = Some bs' → free_count bs' = free_count bs.
Proof.
  revert bs. induction ids as [|id ids IH]; intros bs; simpl; [by intros [= ->]|].
  intros (bs1 & (b & Hb & ->)%vec_alter_Some & H2)%bind_Some. rewrite (IH _ H2).
  apply vec_at_Some in Hb as [_ Hb].
  pose proof (free_count_insert _ _ _ (add_ref d b) Hb) as H. simpl in H. lia.
Qed.

(** Moving references between the sequences and the pending list: [extra'] must
    account for the change, on blocks that carry a prefix key. *)
Lemma add_refs_wf d ids extra extra' s bs :
  wf_with extra s → add_refs d ids (blocks s) = Some bs →
  (∀ id, id ∈ ids → block_tagged s (λ k, k ≠ EmptyString) id) →
  (∀ id, id ∈ extra' → is_Some (vec_at (blocks s) id)) →
  (∀ id, Z.of_nat (occ id extra') = Z.of_nat (occ id extra) + d * Z.of_nat (occ id ids)) →
  wf_with extra' (set_blocks bs s).
Proof.
  intros Hwf Hadd Htag Hex Hocc. pose proof (add_refs_keeps _ _ _ _ Hadd) as Hkeeps.
  assert (Hlk : ∀ i b, bs !! i = Some b → ∃ b0, blocks s !! i = Some b0 ∧
    b = add_ref (d * Z.of_nat (occ (Z.of_nat i) ids)) b0).
  { intros i b Hb. destruct (add_refs_lookup _ _ _ _ i Hadd) as [_ Hi].
    rewrite Hi in Hb. destruct (blocks s !! i); naive_solver. }
  assert (Hsame : ∀ i b b0, blocks s !! i = Some b0 → Z.of_nat i ∉ ids →
    b = add_ref (d * Z.of_nat (occ (Z.of_nat i) ids)) b0 → b = b0).
  { intros i b b0 _ Hi%occ_zero ->. rewrite Hi. destruct b0. unfold add_ref. simpl.
    f_equal. lia. }
  assert (Hin : ∀ i b0, blocks s !! i = Some b0 → Z.of_nat i ∈ ids →
    occupied b0 = true ∧ cached_prefix_key b0 ≠ EmptyString).
  { intros i b0 Hb0 Hi. destruct (Htag _ Hi) as (b1 & Hb1 & ? & ?).
    rewrite vec_at_nat in Hb1. naive_solver. }
  constructor; simpl; try apply Hwf.
  - rewrite (proj1 (add_refs_lookup _ _ _ _ 0%nat Hadd)). apply Hwf.
  - intros id Hid. rewrite vec_at_is_Some, (proj1 (add_refs_lookup _ _ _ _ 0%nat Hadd)).
    rewrite <- vec_at_is_Some. auto.
  - intros i b Hb. destruct (Hlk _ _ Hb) as (b0 & Hb0 & ->). simpl.
    rewrite (wf_refs _ _ Hwf _ _ Hb0). specialize (Hocc (Z.of_nat i)). lia.
  - intros i b Hb. destruct (Hlk _ _ Hb) as (b0 & Hb0 & Heq).
    destruct (decide (Z.of_nat i ∈ ids)) as [Hi|Hi].
    + destruct (Hin _ _ Hb0 Hi). subst b. simpl. congruence.
    + rewrite (Hsame _ _ _ Hb0 Hi Heq). eauto using wf_free.
  - intros i b Hb. destruct (Hlk _ _ Hb) as (b0 & Hb0 & Heq).
    destruct (decide (Z.of_nat i ∈ ids)) as [Hi|Hi].
    + destruct (Hin _ _ Hb0 Hi). subst b. simpl. congruence.
    + rewrite (Hsame _ _ _ Hb0 Hi Heq). eauto using wf_private.
  - exact (keeps_entries_ok _ _ _ Hwf Hkeeps).
  - exact (keeps_sequences_ok _ _ _ Hwf Hkeeps).
  - pose proof (wf_watermark _ _ Hwf). unfold UsedBlockCount in *.
    rewrite !FreeBlockCount_eq in *. simpl.
    rewrite (add_refs_free_count _ _ _ _ Hadd), (proj1 (add_refs_lookup _ _ _ _ 0%nat Hadd)).
    lia.
Qed.

(** ** Pending blocks *)

Lemma wf_perm extra extra' s : extra ≡ₚ extra' → wf_with extra s → wf_with extra' s.
Proof.
  intros Hp []. constructor; auto.
  - intros id. rewrite <- Hp. auto.
  - intros i b Hb. rewrite (wf_refs0 i b Hb). unfold occ. by rewrite Hp.
Qed.

(** Giving up the last reference of a block that no cached prefix names. *)
Lemma free_pending_wf id rest s b :
  wf_with (id :: rest) s → vec_at (blocks s) id = Some b → ref_count b = 1 →
  (∀ k e, prefix_cache s !! k = Some e → id ∉ block_ids e) →
  wf_with rest (FreeBlock s id).
Proof.
  intros Hwf Hb Hr Hne. pose proof Hb as [H0 Hl]%vec_at_Some.
  pose proof (wf_refs _ _ Hwf _ _ Hl) as Hrc. rewrite Z2Nat.id in Hrc by lia.
  rewrite occ_cons, decide_True in Hrc by done.
  destruct (FreeBlock_frame s id) as (Hc & Hs & Hp & Hst & Hlen & Hf).
  assert (Hkeeps : keeps s (FreeBlock s id)).
  { constructor; rewrite ?Hp; auto. intros i b' Hb' Hor. rewrite FreeBlock_lookup.
    case_decide as Hi; [exfalso|eauto]. subst id. destruct Hor as [(k & q & Hk & Hi)|(k & e & ? & ?)].
    - pose proof (holders_pos _ _ _ _ Hk Hi). lia.
    - naive_solver. }
  assert (Hinv : ∀ i b', blocks (FreeBlock s id) !! i = Some b' →
    (Z.of_nat i = id ∧ b' = empty_block) ∨ (Z.of_nat i ≠ id ∧ blocks s !! i = Some b')).
  { intros i b'. rewrite FreeBlock_lookup. case_decide; [|by auto].
    destruct (blocks s !! i); naive_solver. }
  constructor; rewrite ?Hc, ?Hlen, ?Hst, ?Hs; try apply Hwf.
  - intros id' Hid'. rewrite vec_at_is_Some, Hlen, <- vec_at_is_Some.
    apply (wf_extra _ _ Hwf). set_solver.
  - intros i b' Hb'. destruct (Hinv _ _ Hb') as [[Hi ->]|[Hi Hb0]].
    + rewrite Hi. simpl. lia.
    + rewrite (wf_refs _ _ Hwf _ _ Hb0), occ_cons, decide_False by congruence. done.
  - intros i b' Hb'. destruct (Hinv _ _ Hb') as [[_ ->]|[_ ?]]; eauto using wf_free.
  - intros i b' Hb'. destruct (Hinv _ _ Hb') as [[_ ->]|[_ ?]]; [done|eauto using wf_private].
  - eauto using keeps_entries_ok.
  - rewrite <- Hs. eauto using keeps_sequences_ok.
  - pose proof (wf_watermark _ _ Hwf). unfold UsedBlockCount in *.
    rewrite !FreeBlockCount_eq in *. lia.
Qed.

Lemma free_pending_list_wf ids rest s key :
  wf_with (ids ++ rest) s → NoDup ids →
  (∀ id, id ∈ ids → vec_at (blocks s) id = Some (mkBlock true 1 key)) →
  (∀ id k e, id ∈ ids → prefix_cache s !! k = Some e → id ∉ block_ids e) →
  wf_with rest (foldl FreeBlock s ids).
Proof.
  revert s. induction ids as [|id ids IH]; intros s Hwf Hnd Hb Hne; simpl; [done|].
  apply NoDup_cons in Hnd as [Hid Hnd].
  apply IH; [|done| |].
  - eapply free_pending_wf; eauto; [apply Hb; set_solver|done|].
    intros k e. apply Hne. set_solver.
  - intros id' Hid'. assert (Hb' : vec_at (blocks s) id' = Some (mkBlock true 1 key))
      by (apply Hb; set_solver).
    apply vec_at_Some in Hb' as [? Hb']. apply vec_at_Some. split; [done|].
    rewrite FreeBlock_lookup, decide_False; [done|]. rewrite Z2Nat.id by done. set_solver.
  - intros id' k e Hid'. destruct (FreeBlock_frame s id) as (_ & _ & -> & _).
    apply Hne. set_solver.
Qed.

(** The pending blocks become those of a new sequence. *)
Lemma commit_wf id q s :
  wf_with (seq_block_ids q) s → id ≠ EmptyString → sequences s !! id = None →
  seq_ok s q →
  wf (set_sequences (emplace id q (sequences s)) s).
Proof.
  intros Hwf Hid Hnone Hok. rewrite emplace_fresh by done.
  constructor; simpl; try apply Hwf.
  - set_solver.
  - intros i b Hb. rewrite (wf_refs _ _ Hwf _ _ Hb), holders_insert, occ_nil by done. lia.
  - intros id' q' [[<- <-]|[_ Hq']]%lookup_insert_Some; [done|].
    by apply (wf_sequences _ _ Hwf).
Qed.

(** The pending blocks are added to those of a sequence. *)
Lemma extend_wf id q q' ids s :
  wf_with ids s → sequences s !! id = Some q →
  seq_block_ids q' = seq_block_ids q ++ ids → seq_ok s q' →
  wf (set_sequences (<[id := q']> (sequences s)) s).
Proof.
  intros Hwf Hq Hids Hok. constructor; simpl; try apply Hwf.
  - set_solver.
  - intros i b Hb. rewrite (wf_refs _ _ Hwf _ _ Hb), occ_nil.
    pose proof (holders_update (sequences s) id q q' (Z.of_nat i) Hq) as Hu.
    rewrite Hids, occ_app in Hu. lia.
  - intros id' q'' [[<- <-]|[_ Hq']]%lookup_insert_Some.
    + split; [|done]. by apply (wf_sequences _ _ Hwf _ _ Hq).
    + by apply (wf_sequences _ _ Hwf).
Qed.

(** ** Release *)

(** A sequence that is erased leaves its blocks pending. *)
Lemma erase_wf id q s :
  wf s → sequences s !! id = Some q →
  wf_with (seq_block_ids q) (set_sequences (delete id (sequences s)) s).
Proof.
  intros Hwf Hq. destruct (wf_sequences _ _ Hwf _ _ Hq) as [_ (_ & _ & Hpre & Hpriv)].
  constructor; simpl; try apply Hwf.
  - intros id'. rewrite <- (take_drop (Z.to_nat (prefix_block_count q)) (seq_block_ids q)).
    intros [Hi|Hi]%elem_of_app; [apply Hpre in Hi as (? & -> & _)|apply Hpriv in Hi as (? & -> & _)];
      by eexists.
  - intros i b Hb. rewrite (wf_refs _ _ Hwf _ _ Hb), (holders_delete _ _ _ _ Hq), occ_nil. lia.
  - intros id' q' [_ Hq']%lookup_delete_Some. by apply (wf_sequences _ _ Hwf).
Qed.

Lemma wf_ref_pos_occupied extra s i b :
  wf_with extra s → blocks s !! i = Some b → 0 < ref_count b → occupied b = true.
Proof.
  intros Hwf Hb Hr. destruct (occupied b) eqn:Ho; [done|].
  rewrite (wf_free _ _ Hwf _ _ Hb Ho) in Hr. done.
Qed.

(** Dropping one reference of a pending block: a shared block stays for its
    prefix, a private one is freed. *)
Lemma release_block_wf id rest s :
  wf_with (id :: rest) s → wf_with rest (release_block s id).
Proof.
  intros Hwf. destruct (wf_extra _ _ Hwf id) as [b Hb]; [set_solver|].
  pose proof Hb as [H0 Hl]%vec_at_Some.
  pose proof (wf_refs _ _ Hwf _ _ Hl) as Hr.
  rewrite Z2Nat.id, occ_cons, decide_True in Hr by done.
  unfold release_block. rewrite (proj2 (in_range_vec_at _ _)) by (by eexists). rewrite Hb.
  rewrite (proj2 (Z.ltb_lt 0 (ref_count b))) by lia.
  assert (Ho : occupied b = true) by (eapply wf_ref_pos_occupied; eauto; lia).
  destruct (decide (cached_prefix_key b = EmptyString)) as [Hk|Hk].
  - pose proof (wf_private _ _ Hwf _ _ Hl Ho Hk) as H1. simpl.
    rewrite H1, bool_decide_true by done. simpl.
    assert (Heq : FreeBlock (set_blocks (<[Z.to_nat id := add_ref (-1) b]> (blocks s)) s) id
                  = FreeBlock s id).
    { unfold FreeBlock, in_range. simpl. rewrite length_insert, list_insert_insert_eq. 
      fold (in_range (blocks s) id). rewrite (proj2 (in_range_vec_at _ _)) by (by eexists).
      done. }
    rewrite Heq. eapply free_pending_wf; eauto.
    intros k e (Hke & _ & _ & _ & Htag)%(wf_entries _ _ Hwf) Hin.
    destruct (Htag _ Hin) as (b' & Hb' & _ & ?). congruence.
  - rewrite andb_comm. simpl. rewrite bool_decide_false by done. simpl.
    apply (add_refs_wf (-1) [id] (id :: rest)); [done| | | |].
    + simpl. unfold vec_alter. by rewrite Hb.
    + intros id' ->%list_elem_of_singleton. by exists b.
    + intros id' Hid'. apply (wf_extra _ _ Hwf). set_solver.
    + intros id'. rewrite !occ_cons, occ_nil. case_decide; lia.
Qed.

Lemma release_block_frame s id :
  config (release_block s id) = config s ∧
  sequences (release_block s id) = sequences s ∧
  prefix_cache (release_block s id) = prefix_cache s ∧
  stats (release_block s id) = stats s ∧
  length (blocks (release_block s id)) = length (blocks s).
Proof.
  unfold release_block. destruct (if in_range _ _ then _ else _) as [b|]; [|done].
  destruct (_ && _); simpl; [|by rewrite length_insert].
  match goal with |- context [FreeBlock ?s' id] =>
    destruct (FreeBlock_frame s' id) as (-> & -> & -> & -> & -> & _) end.
  simpl. by rewrite length_insert.
Qed.

Lemma release_blocks_frame ids s :
  config (foldl release_block s ids) = config s ∧
  sequences (foldl release_block s ids) = sequences s ∧
  prefix_cache (foldl release_block s ids) = prefix_cache s ∧
  stats (foldl release_block s ids) = stats s ∧
  length (blocks (foldl release_block s ids)) = length (blocks s).
Proof.
  revert s. induction ids as [|id ids IH]; intros s; simpl; [done|].
  destruct (IH (release_block s id)) as (-> & -> & -> & -> & ->).
  apply release_block_frame.
Qed.

Lemma release_block_sequences m s id :
  release_block (set_sequences m s) id = set_sequences m (release_block s id).
Proof.
  unfold release_block. simpl. destruct (if in_range _ _ then _ else _) as [b|]; [|done].
  destruct (_ && _); [|done]. unfold FreeBlock. simpl. by destruct (in_range _ _).
Qed.

Lemma release_blocks_sequences m ids s :
  foldl release_block (set_sequences m s) ids =
  set_sequences m (foldl release_block s ids).
Proof.
  revert s. induction ids as [|id ids IH]; intros s; simpl; [done|].
  by rewrite release_block_sequences, IH.
Qed.

Lemma release_blocks_wf ids rest s :
  wf_with (ids ++ rest) s → wf_with rest (foldl release_block s ids).
Proof.
  revert s. induction ids as [|id ids IH]; intros s Hwf; simpl; [done|].
  by apply IH, release_block_wf.
Qed.

Lemma ReleaseSequence_wf id s : wf s → wf (ReleaseSequence id s).
Proof.
  intros Hwf. unfold ReleaseSequence.
  destruct (sequences s !! id) as [q|] eqn:Hq; [|done].
  destruct (release_blocks_frame (seq_block_ids q) s) as (_ & -> & _).
  rewrite <- release_blocks_sequences. apply release_blocks_wf.
  rewrite app_nil_r. by apply erase_wf.
Qed.

Lemma ReleaseSequence_frame id s :
  config (ReleaseSequence id s) = config s ∧
  sequences (ReleaseSequence id s) = delete id (sequences s) ∧
  prefix_cache (ReleaseSequence id s) = prefix_cache s ∧
  stats (ReleaseSequence id s) = stats s ∧
  length (blocks (ReleaseSequence id s)) = length (blocks s).
Proof.
  unfold ReleaseSequence. destruct (sequences s !! id) as [q|] eqn:Hq; simpl.
  - by destruct (release_blocks_frame (seq_block_ids q) s) as (-> & -> & -> & -> & ->).
  - by rewrite delete_id.
Qed.
