(* ===== verification/KvCacheProps.v ===== *)
(** * Theorems on the KV-cache block allocator

    The public operations keep the invariant and do what their names say, on
    every branch; the reachable states share blocks only through the prefix
    cache, and lose track of a block only when a cached prefix is overwritten. *)
From stdpp Require Import prelude gmap strings list.
From S2P Require Import Prelude KvCache KvCacheInv.
Import KvBlockAllocator.

(** ** A call that fails *)

(** All a failed call may do is evict: the sequences are untouched, and a block
    is unchanged or was unreferenced and is now free. *)
Record only_evicts (s s' : Impl) : Prop := mk_only_evicts {
  oe_config : config s' = config s;
  oe_sequences : sequences s' = sequences s;
  oe_cache : prefix_cache s' ⊆ prefix_cache s;
  oe_blocks : ∀ i b, blocks s !! i = Some b →
    blocks s' !! i = Some b ∨ (ref_count b = 0 ∧ blocks s' !! i = Some empty_block);
}.

Lemma only_evicts_refl s : only_evicts s s.
Proof. by constructor; auto. Qed.

Lemma evicts_only s s' : evicts s s' → only_evicts s s'.
Proof. intros []. by constructor. Qed.

(** ** [AllocatePrompt] *)

(** The sequence that a successful call creates. *)
Definition prompt_sequence (s : Impl) (id : string) (p c : Z) (q : Sequence) : Prop :=
  prompt_tokens q = p ∧ generated_tokens q = 0 ∧
  prefix_block_count q = ceil_div c (cfg_tokens_per_block (config s)) ∧
  zlen (seq_block_ids q) =
    ceil_div c (cfg_tokens_per_block (config s)) +
    ceil_div (p - c) (cfg_tokens_per_block (config s)).

Lemma set_blocks_only_evicts s s1 s2 bs bs' ids :
  (∀ id, id ∈ ids → is_Some (vec_at (blocks s) id)) →
  add_refs 1 ids (blocks s) = Some bs →
  only_evicts (set_blocks bs s) s2 → wf s →
  add_refs (-1) ids (blocks s2) = Some bs' → s1 = set_blocks bs' s2 →
  only_evicts s s1.
Proof.
  intros Hin Hadd Hoe Hwf Hsub ->. destruct Hoe as [Hc Hs Hp Hb]. simpl in *.
  constructor; simpl; auto. intros i b Hi.
  destruct (add_refs_lookup _ _ _ _ i Hadd) as [_ H1].
  destruct (add_refs_lookup _ _ _ _ i Hsub) as [_ H2].
  rewrite Hi in H1. simpl in H1. pose proof (wf_ref_nonneg _ _ _ _ Hwf Hi).
  destruct (Hb _ _ H1) as [H3|[H3 H4]].
  - left. rewrite H2, H3. simpl. f_equal. destruct b. unfold add_ref. simpl. f_equal. lia.
  - simpl in H3. assert (Hz : occ (Z.of_nat i) ids = 0%nat) by lia.
    right. split; [lia|]. by rewrite H2, H4, Hz.
Qed.

(** Referencing the blocks of a cached prefix. *)
Lemma reference_entry s k e :
  wf s → prefix_cache s !! k = Some e →
  ∃ bs, add_refs 1 (block_ids e) (blocks s) = Some bs ∧
        wf_with (block_ids e) (set_blocks bs s).
Proof.
  intros Hwf He. destruct (wf_entries _ _ Hwf _ _ He) as (Hk & _ & _ & _ & Htag).
  assert (Hin : ∀ id, id ∈ block_ids e → is_Some (vec_at (blocks s) id)).
  { intros id (b & Hb & _)%Htag. by eexists. }
  destruct (add_refs_Some 1 _ _ Hin) as [bs Hbs]. exists bs. split; [done|].
  eapply (add_refs_wf 1 (block_ids e) []); eauto.
  - intros id (b & Hb & Ho & Hb')%Htag. exists b. by rewrite Hb'.
  - intros. rewrite occ_nil. lia.
Qed.

(** A referenced prefix is still there after any allocation. *)
Lemma referenced_entry_stays s k e bs s2 :
  wf s → prefix_cache s !! k = Some e →
  add_refs 1 (block_ids e) (blocks s) = Some bs →
  (∀ i b, bs !! i = Some b → ref_count b ≠ 0 → blocks s2 !! i = Some b) →
  ∀ id, id ∈ block_ids e → block_tagged s2 (λ k', k' ≠ EmptyString) id.
Proof.
  intros Hwf He Hbs Hkeep id Hid.
  destruct (wf_entries _ _ Hwf _ _ He) as (Hk & _ & _ & _ & Htag).
  destruct (Htag _ Hid) as (b & [H0 Hb]%vec_at_Some & Ho & Hb').
  destruct (add_refs_lookup _ _ _ _ (Z.to_nat id) Hbs) as [_ H1].
  rewrite Hb, Z2Nat.id in H1 by lia. simpl in H1.
  eexists. rewrite vec_at_Some. split; [split; [done|apply Hkeep; [done|]]|].
  - pose proof (wf_ref_nonneg _ _ _ _ Hwf Hb). apply occ_pos in Hid. simpl. lia.
  - simpl. by rewrite Hb'.
Qed.

(** The outcome of one of the two paths of [AllocatePrompt] that allocate. *)
Definition prompt_outcome (s : Impl) (id : string) (p c n : Z) (hit : bool)
    (r : KvAllocation) (s' : Impl) : Prop :=
  wf s' ∧ config s' = config s ∧
  if ok r then
    r = AllocationOk n hit ∧
    ∃ q, prompt_sequence s id p c q ∧ sequences s' = <[id := q]> (sequences s)
  else r = AllocationError "kv cache exhausted" ∧ only_evicts s s'.

Section AllocatePromptPaths.
Context (s : Impl) (Hwf : wf s) (id : string) (Hid : id ≠ EmptyString).
Context (Hnone : sequences s !! id = None).
Context (p c : Z) (Hc : 0 ≤ c ≤ p) (n : Z).
Let tpb := cfg_tokens_per_block (config s).
Let q0 := mkSequence p 0 (ceil_div c tpb) [].
Let n2 := ceil_div (p - c) tpb.

Lemma n2_nonneg : 0 ≤ n2.
Proof using Hwf. apply ceil_div_nonneg, (wf_tpb _ _ Hwf). Qed.

Lemma AllocatePrompt_hit_spec k e :
  prefix_cache s !! k = Some e → token_count e = c →
  ∃ r s', AllocatePrompt_hit s id q0 e n2 n = Some (r, s') ∧
          prompt_outcome s id p c n true r s'.
Proof using Hwf Hid Hnone Hc.
  intros He Htc. unfold AllocatePrompt_hit. pose proof n2_nonneg as Hn2.
  destruct (wf_entries _ _ Hwf _ _ He) as (_ & _ & Hlen & _ & _).
  rewrite Htc in Hlen. fold tpb in Hlen.
  destruct (reference_entry _ _ _ Hwf He) as (bs & Hbs & Hwf1).
  rewrite Hbs. simpl.
  destruct (AllocateBlocks n2 EmptyString (set_blocks bs s)) as [suffix s2] eqn:Hall.
  destruct (AllocateBlocks_spec _ _ _ _ _ _ Hwf1 Hall)
    as [(Hl & Hal & Hwf2)|(Hpos2 & -> & Hwf2 & Hev & _)].
  - rewrite bool_decide_false by lia. do 2 eexists. split; [done|].
    pose proof (al_sequences _ _ _ _ Hal) as Hs2. simpl in Hs2.
    pose proof (al_config _ _ _ _ Hal) as Hc2. simpl in Hc2.
    pose proof (referenced_entry_stays _ _ _ _ s2 Hwf He Hbs
      (λ i b Hb Hr, proj2 (al_referenced _ _ _ _ i b Hal Hb Hr))) as Hstill.
    set (q' := mkSequence p 0 _ (block_ids e ++ suffix)).
    assert (Hq' : seq_ok s2 q').
    { unfold seq_ok. rewrite Hc2. subst q'. simpl. fold tpb.
      replace (Z.to_nat _) with (length (block_ids e)) by lia.
      rewrite take_app_length, drop_app_length. split_and!; [lia| |done|].
      - exists c. rewrite length_app, ceil_div_zero. fold n2. split_and!; lia.
      - intros id' Hid'. destruct (al_fresh _ _ _ _ Hal _ Hid') as [Hb _].
        by exists (mkBlock true 1 EmptyString). }
    split_and!.
    + apply (wf_incr_hits [] (set_sequences _ s2)), commit_wf; auto; [|by rewrite Hs2].
      eapply wf_perm; [|done]. apply Permutation_app_comm.
    + done.
    + simpl. split; [done|]. exists q'. split; [|by rewrite emplace_fresh, Hs2 by by rewrite Hs2].
      unfold prompt_sequence. subst q'. simpl. rewrite length_app. fold tpb n2.
      split_and!; auto. lia.
  - rewrite bool_decide_true by (simpl; lia).
    pose proof (referenced_entry_stays _ _ _ _ s2 Hwf He Hbs
      (λ i b Hb Hr, ev_referenced _ _ i b Hev Hb Hr)) as Hstill.
    destruct (add_refs_Some (-1) (block_ids e) (blocks s2)) as [bs' Hbs'].
    { intros id' (b & Hb & _)%Hstill. by eexists. }
    rewrite Hbs'. simpl. do 2 eexists. split; [done|]. split_and!; simpl; [| |split; [done|]].
    + eapply (add_refs_wf (-1) (block_ids e) (block_ids e)); eauto; [set_solver|].
      intros. rewrite occ_nil. lia.
    + apply (ev_config _ _ Hev).
    + eapply set_blocks_only_evicts; eauto.
      * intros id' Hid'. destruct (wf_entries _ _ Hwf _ _ He) as (_ & _ & _ & _ & Htag).
        destruct (Htag _ Hid') as (b & Hb & _). by eexists.
      * apply evicts_only in Hev as []. by constructor.
Qed.

(** Registering the prefix blocks in the cache. *)
Definition register_prefix (k : string) (prefix : list Z) (s2 : Impl) : Impl :=
  if bool_decide (k ≠ EmptyString) && (0 <? c)
  then set_prefix_cache (<[k := mkPrefixEntry c prefix]> (prefix_cache s2)) s2
  else s2.

Lemma register_prefix_wf extra k prefix s2 :
  wf_with extra s2 → config s2 = config s → zlen prefix = ceil_div c tpb →
  NoDup prefix → (∀ i, i ∈ prefix → block_tagged s2 (λ k', k' = k) i) →
  wf_with extra (register_prefix k prefix s2).
Proof.
  intros Hwf2 Hc2 Hlen Hnd Htag. unfold register_prefix.
  destruct (bool_decide (k ≠ EmptyString) && (0 <? c)) eqn:Hb; [|done]. to_prop.
  destruct Hwf2. constructor; simpl; auto.
  intros k' e' [[<- <-]|[_ He']]%lookup_insert_Some; [|by apply wf_entries].
  unfold entry_ok. simpl. rewrite Hc2. fold tpb. auto.
Qed.

Lemma register_prefix_frame k prefix s2 :
  config (register_prefix k prefix s2) = config s2 ∧
  sequences (register_prefix k prefix s2) = sequences s2 ∧
  blocks (register_prefix k prefix s2) = blocks s2.
Proof. unfold register_prefix. by case_bool. Qed.

(** A block just allocated survives the next allocation. *)
Lemma fresh_stays k prefix s1 s2 :
  allocates k prefix s s1 →
  (∀ i b, blocks s1 !! i = Some b → ref_count b ≠ 0 → blocks s2 !! i = Some b) →
  ∀ i, i ∈ prefix → vec_at (blocks s2) i = Some (mkBlock true 1 k).
Proof.
  intros Hal Hkeep i Hi. destruct (al_fresh _ _ _ _ Hal _ Hi) as [[? Hb]%vec_at_Some _].
  apply vec_at_Some. split; [done|]. by apply Hkeep.
Qed.

(** Both allocations succeed: the sequence is created. *)
Lemma miss_success k prefix suffix s1 s2 :
  (k = EmptyString → c = 0) → zlen prefix = ceil_div c tpb → zlen suffix = n2 →
  allocates k prefix s s1 → allocates EmptyString suffix s1 s2 →
  wf_with (suffix ++ prefix) s2 →
  let s3 := register_prefix k prefix s2 in
  let q' := mkSequence p 0 (ceil_div c tpb) (prefix ++ suffix) in
  prompt_outcome s id p c n false (AllocationOk n false)
    (set_sequences (emplace id q' (sequences s3)) s3).
Proof using Hwf Hid Hnone Hc.
  intros Hk Hl1 Hl2 Hal1 Hal2 Hwf2 s3 q'. pose proof n2_nonneg as Hn2.
  pose proof (ceil_div_nonneg c _ (wf_tpb _ _ Hwf)) as Hn1. fold tpb in Hn1.
  pose proof (fresh_stays _ _ _ _ Hal1
    (λ i b Hb Hr, proj2 (al_referenced _ _ _ _ i b Hal2 Hb Hr))) as Hfresh.
  assert (Hcfg : config s2 = config s) by
    (rewrite (al_config _ _ _ _ Hal2); apply Hal1).
  assert (Hseq : sequences s2 = sequences s) by
    (rewrite (al_sequences _ _ _ _ Hal2); apply Hal1).
  destruct (register_prefix_frame k prefix s2) as (Hc3 & Hs3 & Hb3). fold s3 in Hc3, Hs3, Hb3.
  assert (Hwf3 : wf_with (prefix ++ suffix) s3).
  { apply register_prefix_wf; auto; [|apply Hal1|].
    - eapply wf_perm; [|done]. apply Permutation_app_comm.
    - intros i Hi. exists (mkBlock true 1 k). auto. }
  assert (Hq' : seq_ok s3 q').
  { unfold seq_ok, block_tagged. rewrite Hc3, Hb3, Hcfg. subst q'. simpl. fold tpb.
    replace (Z.to_nat (ceil_div c tpb)) with (length prefix) by lia.
    rewrite take_app_length, drop_app_length. split_and!; [lia| | |].
    - exists c. rewrite length_app, ceil_div_zero. fold n2. split_and!; lia.
    - intros i Hi. exists (mkBlock true 1 k). split_and!; auto. simpl.
      intros ->. rewrite (Hk eq_refl), ceil_div_zero in Hl1.
      destruct prefix; [set_solver|simpl in Hl1; lia].
    - intros i Hi. destruct (al_fresh _ _ _ _ Hal2 _ Hi) as [Hb _].
      by exists (mkBlock true 1 EmptyString). }
  split_and!; [apply commit_wf; auto; congruence|simpl; congruence|].
  simpl. split; [done|]. exists q'. rewrite emplace_fresh by congruence.
  split; [|congruence]. unfold prompt_sequence. subst q'. simpl.
  rewrite length_app. fold tpb n2. split_and!; auto. lia.
Qed.

(** The suffix fails: the prefix blocks are given back. *)
Lemma miss_rollback k prefix s1 s2 :
  allocates k prefix s s1 → wf_with prefix s2 →
  evicts (set_stats (incr_failures (stats s1)) s1) s2 →
  prompt_outcome s id p c n false (AllocationError "kv cache exhausted")
    (foldl FreeBlock s2 prefix).
Proof using Hwf.
  intros Hal1 Hwf2 Hev2.
  pose proof (fresh_stays k _ _ _ Hal1
    (λ i b Hb Hr, ev_referenced _ _ i b Hev2 Hb Hr)) as Hfresh.
  destruct (FreeBlocks_frame prefix s2) as (Hc3 & Hs3 & Hp3 & _).
  assert (Hcfg : config (foldl FreeBlock s2 prefix) = config s).
  { rewrite Hc3, (ev_config _ _ Hev2). apply Hal1. }
  split_and!; [|done|simpl; split; [done|]; constructor; [done|..]].
  - apply (free_pending_list_wf prefix [] s2 k); auto; [by rewrite app_nil_r|apply Hal1|].
    intros i k' e Hi He. destruct (al_fresh _ _ _ _ Hal1 _ Hi) as [_ Hne].
    apply (Hne k'). eapply lookup_weaken; [done|]. apply (ev_cache _ _ Hev2).
  - rewrite Hs3, (ev_sequences _ _ Hev2). apply Hal1.
  - rewrite Hp3. etrans; [apply (ev_cache _ _ Hev2)|apply Hal1].
  - intros i b Hb. rewrite FreeBlocks_lookup.
    destruct (al_blocks _ _ _ _ Hal1 _ _ Hb) as [[Hi Hr]|[Hi Hor]].
    + right. split; [done|]. rewrite decide_True by done.
      specialize (Hfresh _ Hi). rewrite vec_at_nat in Hfresh. by rewrite Hfresh.
    + rewrite decide_False by done. destruct Hor as [Hb1|[Hr Hb1]];
        destruct (ev_blocks _ _ Hev2 _ _ Hb1) as [|[? ?]]; auto.
Qed.

Lemma AllocatePrompt_miss_spec k :
  (k = EmptyString → c = 0) →
  let '(r, s') := AllocatePrompt_miss s id q0 k c n2 n in
  prompt_outcome s id p c n false r s'.
Proof using Hwf Hid Hnone Hc.
  intros Hk. unfold AllocatePrompt_miss. simpl. pose proof n2_nonneg as Hn2.
  pose proof (ceil_div_nonneg c _ (wf_tpb _ _ Hwf)) as Hn1. fold tpb in Hn1.
  destruct (AllocateBlocks (ceil_div c tpb) k s) as [prefix s1] eqn:Hall1.
  destruct (AllocateBlocks_spec _ _ _ _ _ _ Hwf Hall1)
    as [(Hl1 & Hal1 & Hwf1)|(Hpos1 & -> & Hwf1 & Hev1 & _)].
  2:{ rewrite bool_decide_true by (simpl; lia).
      split_and!; [done|apply (ev_config _ _ Hev1)|split; [done|]].
      apply evicts_only in Hev1 as []. by constructor. }
  rewrite bool_decide_false by lia. rewrite app_nil_r in Hwf1.
  destruct (AllocateBlocks n2 EmptyString s1) as [suffix s2] eqn:Hall2.
  destruct (AllocateBlocks_spec _ _ _ _ _ _ Hwf1 Hall2)
    as [(Hl2 & Hal2 & Hwf2)|(Hpos2 & -> & Hwf2 & Hev2 & _)].
  - rewrite bool_decide_false by lia. apply miss_success with (s1 := s1); auto; lia.
  - rewrite bool_decide_true by (simpl; lia). by eapply miss_rollback.
Qed.

End AllocatePromptPaths.

Lemma cacheable_range p k t : 0 ≤ p → 0 ≤ cacheable p k t ≤ p.
Proof.
  intros Hp. unfold cacheable. destruct (bool_decide _); [lia|].
  destruct (t <? 0) eqn:?; to_prop; lia.
Qed.

Lemma cacheable_no_key p t : cacheable p EmptyString t = 0.
Proof. done. Qed.

(** Counting a miss changes nothing else. *)
Lemma prompt_outcome_misses s id p c n hit r s' :
  prompt_outcome (set_stats (incr_misses (stats s)) s) id p c n hit r s' →
  prompt_outcome s id p c n hit r s'.
Proof.
  intros (? & ? & Ho). split_and!; auto. destruct (ok r); [exact Ho|].
  destruct Ho as [? []]. split; [done|]. by constructor.
Qed.

(** Whether a call finds its prefix in the cache. *)
Definition prefix_hit (s : Impl) (k : string) (c : Z) : bool :=
  bool_decide (k ≠ EmptyString) && (0 <? c) &&
  match prefix_cache s !! k with Some e => token_count e =? c | None => false end.

(** The blocks a prompt needs. *)
Definition prompt_blocks (s : Impl) (p c : Z) : Z :=
  ceil_div c (cfg_tokens_per_block (config s)) +
  ceil_div (p - c) (cfg_tokens_per_block (config s)).

(** The block counts of a prompt are computed without overflow. *)
Definition prompt_fits (s : Impl) (prompt : Z) (k : string) (t : Z) : bool :=
  let p := Z.max 0 prompt in
  let c := cacheable p k t in
  ceil_fits c (cfg_tokens_per_block (config s)) &&
  ceil_fits (p - c) (cfg_tokens_per_block (config s)) && (prompt_blocks s p c <=? INT_MAX).

Lemma prompt_fits_small s prompt k t :
  wf s → Z.max 0 prompt + cfg_tokens_per_block (config s) ≤ INT_MAX →
  prompt_fits s prompt k t = true.
Proof.
  intros Hwf Hp. pose proof (wf_tpb _ _ Hwf) as Ht. unfold prompt_fits, prompt_blocks.
  pose proof (cacheable_range (Z.max 0 prompt) k t ltac:(lia)) as Hc. set (c := cacheable _ _ _) in *.
  pose proof (ceil_div_le c _ Ht ltac:(lia)). pose proof (ceil_div_le (Z.max 0 prompt - c) _ Ht ltac:(lia)).
  rewrite !ceil_fits_small by lia. simpl. apply Z.leb_le. lia.
Qed.

(** The part of [AllocatePrompt_new] after the block counts. *)
Definition place_prompt (id : string) (p c n : Z) (k : string) (s : Impl)
    : option (KvAllocation * Impl) :=
  let tpb := cfg_tokens_per_block (config s) in
  let q := mkSequence p 0 (ceil_div c tpb) [] in
  let n2 := ceil_div (p - c) tpb in
  let missed := set_stats (incr_misses (stats s)) s in
  if bool_decide (k ≠ EmptyString) && (0 <? c) then
    match prefix_cache s !! k with
    | Some e =>
        if token_count e =? c then AllocatePrompt_hit s id q e n2 n
        else Some (AllocatePrompt_miss missed id q k c n2 n)
    | None => Some (AllocatePrompt_miss missed id q k c n2 n)
    end
  else Some (AllocatePrompt_miss s id q k c n2 n).

Lemma AllocatePrompt_new_eq id prompt k t s :
  0 < cfg_tokens_per_block (config s) →
  let p := Z.max 0 prompt in
  let c := cacheable p k t in
  AllocatePrompt_new id prompt k t s =
    if prompt_fits s prompt k t then place_prompt id p c (prompt_blocks s p c) k s else None.
Proof.
  intros Ht p c. unfold AllocatePrompt_new, prompt_fits. fold p c. rewrite !CeilDiv_spec by done.
  destruct (ceil_fits c _); [simpl|done]. destruct (ceil_fits (p - c) _); [simpl|done].
  pose proof (ceil_div_nonneg c _ Ht). pose proof (ceil_div_nonneg (p - c) _ Ht).
  rewrite int_of_nonneg by lia. unfold prompt_blocks. by destruct (_ <=? INT_MAX).
Qed.

Lemma place_prompt_spec id prompt k t s :
  wf s → id ≠ EmptyString → sequences s !! id = None →
  let p := Z.max 0 prompt in
  let c := cacheable p k t in
  ∃ r s', place_prompt id p c (prompt_blocks s p c) k s = Some (r, s') ∧
    prompt_outcome s id p c (prompt_blocks s p c) (prefix_hit s k c) r s'.
Proof.
  intros Hwf Hid Hnone p c. unfold place_prompt, prefix_hit. cbv zeta.
  pose proof (cacheable_range p k t ltac:(unfold p; lia)) as Hc. fold c in Hc.
  assert (Hk : k = EmptyString → c = 0) by (by intros ->).
  pose proof (wf_incr_misses _ _ Hwf) as Hwf'.
  set (n := prompt_blocks s p c).
  pose proof (AllocatePrompt_miss_spec s Hwf id Hid Hnone p c Hc n k Hk) as Hm0.
  pose proof (AllocatePrompt_miss_spec _ Hwf' id Hid Hnone p c Hc n k Hk) as Hm1.
  destruct (bool_decide (k ≠ EmptyString) && (0 <? c)); simpl.
  - destruct (prefix_cache s !! k) as [e|] eqn:He; [destruct (token_count e =? c) eqn:Htc|].
    + to_prop. by eapply AllocatePrompt_hit_spec.
    + destruct (AllocatePrompt_miss (set_stats _ s) _ _ _ _ _ _). eauto using prompt_outcome_misses.
    + destruct (AllocatePrompt_miss (set_stats _ s) _ _ _ _ _ _). eauto using prompt_outcome_misses.
  - destruct (AllocatePrompt_miss s _ _ _ _ _ _). eauto.
Qed.

(** Everything a call of [AllocatePrompt] can do. *)
Inductive prompt_case (id : string) (prompt : Z) (k : string) (t : Z) (s : Impl)
    : KvAllocation → Impl → Prop :=
| prompt_no_id :
    id = EmptyString →
    prompt_case id prompt k t s (AllocationError "sequence id is required") s
| prompt_exists :
    id ≠ EmptyString → is_Some (sequences s !! id) →
    prompt_case id prompt k t s (AllocationError "sequence already exists") s
| prompt_new r s' :
    id ≠ EmptyString → sequences s !! id = None →
    (let p := Z.max 0 prompt in let c := cacheable p k t in
     prompt_outcome s id p c (prompt_blocks s p c) (prefix_hit s k c) r s') →
    prompt_case id prompt k t s r s'.

(** A call whose prompt gets as far as the block counts has to fit. *)
Definition allocate_fits (id : string) (prompt : Z) (k : string) (t : Z) (s : Impl) : bool :=
  bool_decide (id = EmptyString) || bool_decide (is_Some (sequences s !! id)) ||
  prompt_fits s prompt k t.

Lemma AllocatePrompt_cases id prompt k t s :
  wf s →
  if allocate_fits id prompt k t s
  then ∃ r s', AllocatePrompt id prompt k t s = Some (r, s') ∧ prompt_case id prompt k t s r s'
  else AllocatePrompt id prompt k t s = None.
Proof.
  unfold allocate_fits.
  intros Hwf. unfold AllocatePrompt.
  destruct (bool_decide (id = EmptyString)) eqn:Hid; to_prop; [simpl; by eauto using prompt_case|].
  destruct (bool_decide (is_Some (sequences s !! id))) eqn:Hex; to_prop;
    [simpl; by eauto using prompt_case|]. simpl.
  apply eq_None_not_Some in Hex. rewrite AllocatePrompt_new_eq by apply (wf_tpb _ _ Hwf).
  destruct (prompt_fits s prompt k t); [|done].
  destruct (place_prompt_spec id prompt k t s Hwf Hid Hex) as (r & s' & -> & Ho).
  eauto using prompt_case.
Qed.

(** ** [AppendTokens] *)

(** The two outcomes of an append to a sequence that exists. *)
Definition append_outcome (s : Impl) (id : string) (q : Sequence) (count : Z)
    (r : KvAllocation) (s' : Impl) : Prop :=
  let tpb := cfg_tokens_per_block (config s) in
  let g := generated_tokens q in
  wf s' ∧ config s' = config s ∧
  if ok r then
    r = AllocationOk (ceil_div (g + count) tpb - ceil_div g tpb) false ∧
    ∃ ids, zlen ids = ceil_div (g + count) tpb - ceil_div g tpb ∧
      sequences s' = <[id := mkSequence (prompt_tokens q) (g + count)
                         (prefix_block_count q) (seq_block_ids q ++ ids)]> (sequences s)
  else r = AllocationError "kv cache exhausted" ∧ only_evicts s s'.

Inductive append_case (id : string) (count : Z) (s : Impl)
    : KvAllocation → Impl → Prop :=
| append_missing :
    sequences s !! id = None →
    append_case id count s (AllocationError "sequence does not exist") s
| append_nothing q :
    sequences s !! id = Some q → count ≤ 0 →
    append_case id count s (AllocationOk 0 false) s
| append_tokens q r s' :
    sequences s !! id = Some q → 0 < count →
    append_outcome s id q count r s' →
    append_case id count s r s'.

(** The sequence after the append satisfies its invariant. *)
Lemma append_seq_ok s s1 id q count ids :
  wf s → sequences s !! id = Some q → 0 < count →
  allocates EmptyString ids s s1 →
  zlen ids = ceil_div (generated_tokens q + count) (cfg_tokens_per_block (config s)) -
             ceil_div (generated_tokens q) (cfg_tokens_per_block (config s)) →
  seq_ok s1 (mkSequence (prompt_tokens q) (generated_tokens q + count)
               (prefix_block_count q) (seq_block_ids q ++ ids)).
Proof.
  intros Hwf Hq Hc Hal Hlen.
  pose proof (allocates_keeps _ _ _ _ _ Hwf Hal) as Hkeeps.
  destruct (wf_sequences _ _ Hwf _ _ Hq) as [_ Hok].
  pose proof (keeps_seq_ok _ _ _ _ Hkeeps Hq Hok) as (Hg & (c & Hc0 & Hpre & Hsz) & Htag1 & Htag2).
  rewrite (al_config _ _ _ _ Hal) in Hpre, Hsz.
  pose proof (ceil_div_nonneg c _ (wf_tpb _ _ Hwf)).
  pose proof (ceil_div_nonneg (prompt_tokens q - c) _ (wf_tpb _ _ Hwf)).
  pose proof (ceil_div_nonneg (generated_tokens q) _ (wf_tpb _ _ Hwf)).
  unfold seq_ok. simpl. rewrite (al_config _ _ _ _ Hal).
  rewrite take_app_le, drop_app_le by lia. split_and!; [lia| |done|].
  - exists c. rewrite length_app. split_and!; auto; lia.
  - intros i [Hi|Hi]%elem_of_app; [auto|].
    destruct (al_fresh _ _ _ _ Hal _ Hi) as [Hb _]. by exists (mkBlock true 1 EmptyString).
Qed.

(** The token and block counts of a call are computed without overflow. *)
Definition append_fits (id : string) (count : Z) (s : Impl) : bool :=
  match sequences s !! id with
  | None => true
  | Some q =>
      let tpb := cfg_tokens_per_block (config s) in
      let g := generated_tokens q in
      (count <=? 0) || (ceil_fits g tpb && (g + count <=? INT_MAX) && ceil_fits (g + count) tpb)
  end.

Lemma append_fits_small id count s :
  wf s → (∀ q, sequences s !! id = Some q →
    generated_tokens q + Z.max 0 count + cfg_tokens_per_block (config s) ≤ INT_MAX) →
  append_fits id count s = true.
Proof.
  intros Hwf Hq. pose proof (wf_tpb _ _ Hwf) as Ht. unfold append_fits.
  destruct (sequences s !! id) as [q|]; [|done]. specialize (Hq q eq_refl).
  destruct (count <=? 0) eqn:Hc; [done|]. to_prop. simpl. rewrite !ceil_fits_small by lia.
  rewrite andb_true_r. simpl. apply Z.leb_le. lia.
Qed.

Lemma AppendTokens_cases id count s :
  wf s →
  if append_fits id count s
  then ∃ r s', AppendTokens id count s = Some (r, s') ∧ append_case id count s r s'
  else AppendTokens id count s = None.
Proof.
  intros Hwf. unfold AppendTokens, append_fits.
  destruct (sequences s !! id) as [q|] eqn:Hq; [|by eauto using append_case].
  destruct (count <=? 0) eqn:Hcount; to_prop; [simpl; by eauto using append_case|].
  destruct (wf_sequences _ _ Hwf _ _ Hq) as [Hid (Hg & _)]. cbv zeta.
  rewrite CeilDiv_spec by apply (wf_tpb _ _ Hwf). destruct (ceil_fits (generated_tokens q) _); [simpl|done].
  rewrite int_of_nonneg by lia. destruct (_ <=? INT_MAX); [simpl|done].
  rewrite CeilDiv_spec by apply (wf_tpb _ _ Hwf). destruct (ceil_fits _ _); [simpl|done].
  set (n := ceil_div (generated_tokens q + count) _ - _).
  assert (Hn : 0 ≤ n).
  { subst n. pose proof (ceil_div_mono (generated_tokens q) (generated_tokens q + count) _
      (wf_tpb _ _ Hwf)). lia. }
  destruct (AllocateBlocks n EmptyString s) as [ids s1] eqn:Hall.
  destruct (AllocateBlocks_spec _ _ _ _ _ _ Hwf Hall)
    as [(Hl & Hal & Hwf1)|(Hpos & -> & Hwf1 & Hev & _)].
  - rewrite bool_decide_false by lia. do 2 eexists. split; [done|]. eapply append_tokens; [done..|].
    rewrite app_nil_r in Hwf1. split_and!; simpl.
    + eapply extend_wf; eauto; [by rewrite (al_sequences _ _ _ _ Hal)|].
      eapply append_seq_ok; eauto. fold n. lia.
    + apply (al_config _ _ _ _ Hal).
    + split; [done|]. exists ids. fold n. split; [lia|].
      by rewrite (al_sequences _ _ _ _ Hal).
  - rewrite bool_decide_true by (simpl; lia). do 2 eexists. split; [done|]. eapply append_tokens; [done..|].
    split_and!; [done|apply (ev_config _ _ Hev)|split; [done|]].
    apply evicts_only in Hev as []. by constructor.
Qed.

(** ** [ReleaseSequence] *)

(** What one iteration of the loop does to the blocks. *)
Lemma release_block_lookup id rest s (i : nat) b :
  wf_with (id :: rest) s → blocks s !! i = Some b →
  blocks (release_block s id) !! i = Some
    (if decide (Z.of_nat i = id) then
       if decide (cached_prefix_key b = EmptyString) then empty_block
       else add_ref (-1) b
     else b).
Proof.
  intros Hwf Hb. destruct (wf_extra _ _ Hwf id) as [b0 Hb0]; [set_solver|].
  pose proof Hb0 as [H0 Hl]%vec_at_Some.
  pose proof (wf_refs _ _ Hwf _ _ Hl) as Hr.
  rewrite Z2Nat.id, occ_cons, decide_True in Hr by done.
  unfold release_block. rewrite (proj2 (in_range_vec_at _ _)), Hb0 by (by eexists).
  rewrite (proj2 (Z.ltb_lt 0 (ref_count b0))) by lia.
  assert (Ho : occupied b0 = true) by (eapply wf_ref_pos_occupied; eauto; lia).
  destruct (decide (Z.of_nat i = id)) as [Hi|Hi].
  - assert (b0 = b) as -> by (subst id; rewrite vec_at_nat in Hb0; congruence).
    rewrite <- Hi, Nat2Z.id.
    assert (Hlt : (i < length (blocks s))%nat) by (by eapply lookup_lt_Some).
    destruct (decide (cached_prefix_key b = EmptyString)) as [Hk|Hk].
    + pose proof (wf_private _ _ Hwf _ _ Hb Ho Hk) as H1. simpl.
      rewrite H1, bool_decide_true by done. simpl.
      rewrite FreeBlock_lookup, decide_True by done. simpl.
      by rewrite list_lookup_insert_eq.
    + rewrite andb_comm. simpl. rewrite bool_decide_false by done. simpl.
      by rewrite list_lookup_insert_eq.
  - destruct (_ && _); simpl.
    + rewrite FreeBlock_lookup, decide_False by done. simpl.
      rewrite list_lookup_insert_ne by lia. done.
    + rewrite list_lookup_insert_ne by lia. done.
Qed.

(** A released block: a private one is free again, a shared one loses one
    reference per occurrence. *)
Definition released (ids : list Z) (i : nat) (b : Block) : Block :=
  if decide (Z.of_nat i ∈ ids) then
    if decide (cached_prefix_key b = EmptyString) then empty_block
    else add_ref (- Z.of_nat (occ (Z.of_nat i) ids)) b
  else b.

Lemma release_blocks_lookup ids rest s (i : nat) b :
  wf_with (ids ++ rest) s → blocks s !! i = Some b →
  blocks (foldl release_block s ids) !! i = Some (released ids i b).
Proof.
  revert s b. induction ids as [|id ids IH]; intros s b Hwf Hb; simpl.
  { unfold released. by rewrite decide_False by set_solver. }
  pose proof (release_block_lookup _ _ _ _ _ Hwf Hb) as H1.
  rewrite (IH _ _ (release_block_wf _ _ _ Hwf) H1). f_equal.
  unfold released. rewrite occ_cons.
  destruct (decide (cached_prefix_key b = EmptyString)) as [Hk|Hk].
  - destruct (decide (Z.of_nat i = id)), (decide (Z.of_nat i ∈ ids)),
      (decide (Z.of_nat i ∈ id :: ids)); try set_solver; simpl;
      by rewrite decide_True by done.
  - destruct (decide (Z.of_nat i = id)) as [Hi|Hi].
    + rewrite (decide_True (P := id = Z.of_nat i)) by done.
      rewrite (decide_True (P := Z.of_nat i ∈ id :: ids)) by set_solver. simpl.
      rewrite (decide_False (P := cached_prefix_key b = EmptyString)) by done.
      case_decide as Hd; [|apply occ_zero in Hd; rewrite Hd];
        unfold add_ref; simpl; f_equal; lia.
    + rewrite (decide_False (P := id = Z.of_nat i)) by done.
      rewrite (decide_False (P := cached_prefix_key b = EmptyString)) by done.
      destruct (decide (Z.of_nat i ∈ ids)), (decide (Z.of_nat i ∈ id :: ids)); set_solver.
Qed.

Lemma ReleaseSequence_lookup id q s (i : nat) b :
  wf s → sequences s !! id = Some q → blocks s !! i = Some b →
  blocks (ReleaseSequence id s) !! i = Some (released (seq_block_ids q) i b).
Proof.
  intros Hwf Hq Hb. unfold ReleaseSequence. rewrite Hq.
  destruct (release_blocks_frame (seq_block_ids q) s) as (_ & Hs & _). simpl.
  pose proof (erase_wf _ _ _ Hwf Hq) as Hwf'. rewrite <- (app_nil_r (seq_block_ids q)) in Hwf'.
  pose proof (release_blocks_lookup _ _ _ i b Hwf' Hb) as H.
  by rewrite release_blocks_sequences in H.
Qed.

(** ** Reachable states *)

Inductive kv_call :=
| CallAllocate (id : string) (prompt : Z) (k : string) (t : Z)
| CallAppend (id : string) (count : Z)
| CallRelease (id : string).

(** A call on the allocator; [None] is undefined behaviour. *)
Definition kv_run (c : kv_call) (s : Impl) : option Impl :=
  match c with
  | CallAllocate id prompt k t => snd <$> AllocatePrompt id prompt k t s
  | CallAppend id count => snd <$> AppendTokens id count s
  | CallRelease id => Some (ReleaseSequence id s)
  end.

Inductive reachable (cfg : KvCacheConfig) : Impl → Prop :=
| reachable_init : reachable cfg (init cfg)
| reachable_call c s s' : reachable cfg s → kv_run c s = Some s' → reachable cfg s'.

Lemma prompt_case_wf id prompt k t s r s' :
  wf s → prompt_case id prompt k t s r s' → wf s' ∧ config s' = config s.
Proof. intros Hwf [| |r' s'' _ _ (? & ? & _)]; auto. Qed.

Lemma append_case_wf id count s r s' :
  wf s → append_case id count s r s' → wf s' ∧ config s' = config s.
Proof. intros Hwf [|q|q r' s'' _ _ (? & ? & _)]; auto. Qed.

(** The [int] arithmetic of a call does not overflow. *)
Definition call_fits (c : kv_call) (s : Impl) : bool :=
  match c with
  | CallAllocate id prompt k t => allocate_fits id prompt k t s
  | CallAppend id count => append_fits id count s
  | CallRelease id => true
  end.

Lemma kv_run_wf c s :
  wf s →
  if call_fits c s then ∃ s', kv_run c s = Some s' ∧ wf s' ∧ config s' = config s
  else kv_run c s = None.
Proof.
  intros Hwf. destruct c as [id prompt k t|id count|id]; simpl.
  - pose proof (AllocatePrompt_cases id prompt k t s Hwf) as Hc.
    destruct (allocate_fits id prompt k t s); [|by rewrite Hc].
    destruct Hc as (r & s' & -> & Hc). eauto using prompt_case_wf.
  - pose proof (AppendTokens_cases id count s Hwf) as Hc.
    destruct (append_fits id count s); [|by rewrite Hc].
    destruct Hc as (r & s' & -> & Hc). eauto using append_case_wf.
  - eexists. split; [done|]. split; [by apply ReleaseSequence_wf|].
    apply ReleaseSequence_frame.
Qed.

Lemma reachable_wf cfg s : reachable cfg s → wf s ∧ config s = config (init cfg).
Proof.
  induction 1 as [|c s s' _ [IH1 IH2] Hrun]; [auto using wf_init|].
  pose proof (kv_run_wf c s IH1) as Hc. destruct (call_fits c s); [|congruence].
  destruct Hc as (s'' & ? & ? & ?). split; congruence.
Qed.

(** A sequence of calls. *)
Fixpoint kv_runs (calls : list kv_call) (s : Impl) : option Impl :=
  match calls with
  | [] => Some s
  | call :: rest => s' ← kv_run call s; kv_runs rest s'
  end.

Lemma kv_runs_reachable cfg calls s s' :
  reachable cfg s → kv_runs calls s = Some s' → reachable cfg s'.
Proof.
  revert s. induction calls as [|call calls IH]; intros s Hr; simpl; [by intros [= <-]|].
  destruct (kv_run call s) as [s1|] eqn:Hrun; simpl; [|done]. eauto using reachable_call.
Qed.
#[export] Hint Resolve wf_init ReleaseSequence_wf : laminar.
