(* ===== verification/CxxText.v ===== *)
(** * Text: the parts of the C++ library the program uses, and its own helpers

    A [std::string] is a [string] of bytes.  Character classes are those of the
    "C" locale, the only one the program uses.  A position in a string is modelled by the text that
    starts there, so that [find], [substr] and [erase] are functions on texts.
    The second half models the text helpers of
    [src/backend/inference_backend.cc]. *)
From Stdlib Require Import Strings.Ascii.
From stdpp Require Import prelude strings pretty.
From S2P Require Import Prelude.

#[global] Arguments String.append : simpl nomatch.

(** ** Bytes *)

Definition code (c : ascii) : Z := Z.of_N (N_of_ascii c).
Definition byte (n : Z) : ascii := ascii_of_N (Z.to_N n).

Definition between (lo hi : Z) (c : ascii) : bool := (lo <=? code c) && (code c <=? hi).

Definition isspace (c : ascii) : bool := (code c =? 32) || between 9 13 c.
Definition isupper (c : ascii) : bool := between 65 90 c.
Definition islower (c : ascii) : bool := between 97 122 c.
Definition isdigit (c : ascii) : bool := between 48 57 c.
Definition isalnum (c : ascii) : bool := isupper c || islower c || isdigit c.
Definition ispunct (c : ascii) : bool := between 33 126 c && negb (isalnum c).
Definition tolower (c : ascii) : ascii := if isupper c then byte (code c + 32) else c.

(** The characters the program names. *)
Definition backspace : ascii := byte 8.
Definition tab : ascii := byte 9.
Definition newline : ascii := byte 10.
Definition form_feed : ascii := byte 12.
Definition carriage_return : ascii := byte 13.
Definition space : ascii := byte 32.
Definition dquote : ascii := byte 34.
Definition squote : ascii := byte 39.
Definition colon : ascii := byte 58.
Definition slash : ascii := byte 47.
Definition backslash : ascii := byte 92.

(** A string of one character, and a carriage return and line feed. *)
Definition char (c : ascii) : string := String c EmptyString.
Definition crlf : string := String carriage_return (char newline).
Definition quote : string := char dquote.

(** ** [std::string] *)

Fixpoint str_length (s : string) : nat :=
  match s with EmptyString => 0 | String _ r => S (str_length r) end.

(** [value.size()] *)
Definition size_of (s : string) : Z := Z.of_nat (str_length s).

(** [s.rfind(p, 0) == 0] *)
Definition starts_with (p s : string) : bool := String.prefix p s.
#[global] Arguments starts_with : simpl never.

(** [s.substr(n)], for [n] at most the size *)
Fixpoint drop_chars (n : nat) (s : string) : string :=
  match n, s with
  | O, _ => s
  | S n, String _ r => drop_chars n r
  | S _, EmptyString => EmptyString
  end.

Fixpoint take_chars (n : nat) (s : string) : string :=
  match n, s with
  | S n, String c r => String c (take_chars n r)
  | _, _ => EmptyString
  end.

(** [s.find(c)]: the text before the first [c] and the text after it. *)
Fixpoint split_char (c : ascii) (s : string) : option (string * string) :=
  match s with
  | EmptyString => None
  | String d r =>
      if bool_decide (d = c) then Some (EmptyString, r)
      else '(a, b) ← split_char c r; Some (String d a, b)
  end.

(** [s.rfind(c)]: the text before the last [c] and the text after it. *)
Fixpoint rsplit_char (c : ascii) (s : string) : option (string * string) :=
  match s with
  | EmptyString => None
  | String d r =>
      match rsplit_char c r with
      | Some (a, b) => Some (String d a, b)
      | None => if bool_decide (d = c) then Some (EmptyString, r) else None
      end
  end.

(** [s.find(p)]: the text before the first [p] and the text after it. *)
Fixpoint split_at (p s : string) : option (string * string) :=
  if starts_with p s then Some (EmptyString, drop_chars (str_length p) s)
  else match s with
       | EmptyString => None
       | String d r => '(a, b) ← split_at p r; Some (String d a, b)
       end.

(** [std::to_string] of an integer, and [<<] of one to a stream *)
Definition to_string (n : Z) : string := pretty n.

Definition LONG_MAX : Z := 9223372036854775807.
Definition LONG_MIN : Z := -9223372036854775808.

Fixpoint skip_spaces (s : string) : string :=
  match s with
  | String c r => if isspace c then skip_spaces r else s
  | EmptyString => s
  end.

(** The digits at the start of [s], as the number [acc] extended by them. *)
Fixpoint read_digits (acc : Z) (s : string) : Z * string :=
  match s with
  | String c r => if isdigit c then read_digits (acc * 10 + (code c - 48)) r else (acc, s)
  | EmptyString => (acc, s)
  end.

(** [std::strtol(s, &end, 10)]: the value, saturated, and the text at [end];
    [None] when there is nothing to convert, that is when [end == s]. *)
Definition strtol (s : string) : option (Z * string) :=
  let s := skip_spaces s in
  let '(negative, digits) :=
    match s with
    | String c r =>
        if bool_decide (c = "-"%char) then (true, r)
        else if bool_decide (c = "+"%char) then (false, r) else (false, s)
    | EmptyString => (false, s)
    end in
  match digits with
  | String c _ =>
      if isdigit c then
        let '(n, rest) := read_digits 0 digits in
        Some (Z.max LONG_MIN (Z.min LONG_MAX (if negative then - n else n)), rest)
      else None
  | EmptyString => None
  end.

(** [static_cast<int>] of a [long] *)
Definition to_int (n : Z) : Z := (n + 2147483648) mod 4294967296 - 2147483648.

(** [std::clamp] *)
Definition clamp (v lo hi : Z) : Z := if v <? lo then lo else if hi <? v then hi else v.

(** ** The helpers of the program *)

Fixpoint drop_trailing_spaces (s : string) : string :=
  match s with
  | EmptyString => EmptyString
  | String c r =>
      match drop_trailing_spaces r with
      | EmptyString => if isspace c then EmptyString else char c
      | r' => String c r'
      end
  end.

Definition TrimWhitespace (value : string) : string :=
  drop_trailing_spaces (skip_spaces value).

Fixpoint map_string (f : ascii → ascii) (s : string) : string :=
  match s with EmptyString => EmptyString | String c r => String (f c) (map_string f r) end.

Definition TrimLower (value : string) : string := map_string tolower (TrimWhitespace value).

(** The loop of [CollapseWhitespace]. *)
Fixpoint collapse (previous_space : bool) (s : string) : string :=
  match s with
  | EmptyString => EmptyString
  | String c r =>
      if isspace c then
        if previous_space then collapse true r else String space (collapse true r)
      else String c (collapse false r)
  end.

Definition CollapseWhitespace (value : string) : string := TrimWhitespace (collapse false value).

Definition escape_single (c : ascii) : string :=
  (if bool_decide (c = backslash) || bool_decide (c = squote) then char backslash
   else EmptyString) +:+
  (if bool_decide (c = newline) || bool_decide (c = carriage_return) || bool_decide (c = tab)
   then char space else char c).

(** [out << f(ch)] for every character *)
Fixpoint concat_map (f : ascii → string) (s : string) : string :=
  match s with EmptyString => EmptyString | String c r => f c +:+ concat_map f r end.

Definition EscapeSingleQuoted (value : string) : string := concat_map escape_single value.

Definition BoolToJson (value : bool) : string := if value then "true" else "false".

(** [AppendWithLimit]: the output after the call *)
Definition AppendWithLimit (output data : string) (limit : Z) : string :=
  if limit <=? size_of output then output
  else output +:+ take_chars (Z.to_nat (Z.min (size_of data) (limit - size_of output))) data.

Definition ContainsPathSeparator (path : string) : bool :=
  match split_char slash path with Some _ => true | None => false end.
