(* ===== verification/CxxTextProps.v ===== *)
(** * Lemmas on text

    Concatenation, search, trimming, decimal numbers: what the components that
    build and read text share. *)
From Stdlib Require Import Strings.Ascii.
From stdpp Require Import prelude strings pretty.
From S2P Require Import Prelude CxxText.

(** ** Concatenation *)

Lemma sapp_assoc (a b c : string) : (a +:+ b) +:+ c = a +:+ (b +:+ c).
Proof. induction a as [|x a IH]; simpl; congruence. Qed.

Lemma sapp_nil_r (a : string) : a +:+ EmptyString = a.
Proof. induction a as [|x a IH]; simpl; congruence. Qed.

Lemma sapp_nil_l (a : string) : EmptyString +:+ a = a.
Proof. done. Qed.

Lemma sapp_cons c (a b : string) : String c a +:+ b = String c (a +:+ b).
Proof. done. Qed.

Lemma char_app c (s : string) : char c +:+ s = String c s.
Proof. done. Qed.

Lemma str_length_app (a b : string) : str_length (a +:+ b) = (str_length a + str_length b)%nat.
Proof. induction a; simpl; lia. Qed.

Lemma size_of_app (a b : string) : size_of (a +:+ b) = size_of a + size_of b.
Proof. unfold size_of. rewrite str_length_app. lia. Qed.

Lemma size_of_nonneg s : 0 ≤ size_of s.
Proof. unfold size_of. lia. Qed.

Lemma drop_chars_app (a b : string) : drop_chars (str_length a) (a +:+ b) = b.
Proof. induction a; simpl; [by destruct b|done]. Qed.

Lemma take_chars_app (a b : string) : take_chars (str_length a) (a +:+ b) = a.
Proof. induction a; simpl; [by destruct b|congruence]. Qed.

Lemma take_chars_length n s : str_length (take_chars n s) = (n `min` str_length s)%nat.
Proof. revert s. induction n as [|n IH]; intros [|c s]; simpl; auto. Qed.

Lemma take_chars_all n s : (str_length s ≤ n)%nat → take_chars n s = s.
Proof.
  revert s. induction n as [|n IH]; intros [|c s] Hn; simpl in *; try done; [lia|].
  f_equal. apply IH. lia.
Qed.

Lemma take_chars_take n a b :
  take_chars n (a +:+ b) = take_chars n a +:+ take_chars (n - str_length a) b.
Proof.
  revert a. induction n as [|n IH]; intros [|c a]; simpl; try done. by rewrite IH.
Qed.

Lemma sapp_inj_l (a b c : string) : a +:+ b = a +:+ c → b = c.
Proof. induction a; simpl; [done|]. intros [= H]. auto. Qed.

Lemma sapp_eq_nil (a b : string) : a +:+ b = EmptyString → a = EmptyString ∧ b = EmptyString.
Proof. by destruct a. Qed.

(** ** Prefixes *)

Lemma starts_with_app p s : starts_with p (p +:+ s) = true.
Proof.
  unfold starts_with. induction p as [|c p IH]; simpl; [by destruct s|].
  by destruct (ascii_dec c c).
Qed.

Lemma starts_with_spec p s : starts_with p s = true ↔ ∃ r, s = p +:+ r.
Proof.
  unfold starts_with. revert s. induction p as [|c p IH]; intros [|d s]; simpl.
  - split; [|done]. eauto.
  - split; [|done]. eauto.
  - split; [done|]. by intros [r [=]].
  - destruct (ascii_dec c d) as [->|Hne].
    + rewrite IH. split; intros [r Hr]; exists r; congruence.
    + split; [done|]. intros [r [= ? ?]]. congruence.
Qed.

(** ** Predicates on every character *)

Fixpoint all_chars (P : ascii → bool) (s : string) : bool :=
  match s with EmptyString => true | String c r => P c && all_chars P r end.

Lemma all_chars_app P a b : all_chars P (a +:+ b) = all_chars P a && all_chars P b.
Proof. induction a; simpl; [done|]. by rewrite IHa, andb_assoc. Qed.

Lemma all_chars_impl P Q s :
  (∀ c, P c = true → Q c = true) → all_chars P s = true → all_chars Q s = true.
Proof.
  intros HPQ. induction s as [|c s IH]; simpl; [done|]. intros H. to_prop.
  by rewrite (HPQ c), IH.
Qed.

Lemma all_chars_concat_map P f s :
  (∀ c, all_chars P (f c) = true) → all_chars P (concat_map f s) = true.
Proof.
  intros Hf. induction s as [|c s IH]; simpl; [done|]. by rewrite all_chars_app, Hf, IH.
Qed.

Lemma concat_map_app f a b : concat_map f (a +:+ b) = concat_map f a +:+ concat_map f b.
Proof. induction a; simpl; [done|]. by rewrite IHa, sapp_assoc. Qed.

Definition lacks (c : ascii) (s : string) : Prop := all_chars (λ d, negb (bool_decide (d = c))) s = true.

Lemma lacks_cons c d s : lacks c (String d s) ↔ d ≠ c ∧ lacks c s.
Proof.
  unfold lacks. simpl. rewrite andb_true_iff, negb_true_iff, bool_decide_eq_false. done.
Qed.

Lemma lacks_app c a b : lacks c (a +:+ b) ↔ lacks c a ∧ lacks c b.
Proof. unfold lacks. by rewrite all_chars_app, andb_true_iff. Qed.

Lemma all_chars_lacks P c s : P c = false → all_chars P s = true → lacks c s.
Proof.
  intros Hc. apply all_chars_impl. intros d Hd. apply negb_true_iff, bool_decide_eq_false. congruence.
Qed.

(** ** Search *)

Lemma split_char_Some c s a b :
  split_char c s = Some (a, b) ↔ s = a +:+ String c b ∧ lacks c a.
Proof.
  revert a b. induction s as [|d s IH]; intros a b; simpl.
  { split; [done|]. intros [H _]. by destruct a. }
  case_bool_decide as Hd; simpl.
  - subst d. split; [intros [= <- <-]; done|]. intros [H Hl]. destruct a as [|e a].
    + by injection H as <-.
    + injection H as <- H. by apply lacks_cons in Hl as [? _].
  - destruct (split_char c s) as [[a' b']|] eqn:Hs; simpl.
    + destruct (IH a' b') as [IH1 _]. destruct (IH1 eq_refl) as [-> Hl]. split.
      * intros [= <- <-]. split; [done|]. by apply lacks_cons.
      * intros [H Hl']. destruct a as [|e a]; [injection H as -> ?; done|].
        injection H as <- H. apply lacks_cons in Hl' as [_ Hl'].
        assert (Heq : Some (a', b') = Some (a, b)) by (apply IH; auto).
        by injection Heq as -> ->.
    + split; [done|]. intros [H Hl]. destruct a as [|e a]; [injection H as -> ?; done|].
      injection H as <- H. apply lacks_cons in Hl as [_ Hl].
      assert (None = Some (a, b)) by (apply IH; auto). done.
Qed.

Lemma split_char_None c s : split_char c s = None ↔ lacks c s.
Proof.
  induction s as [|d s IH]; simpl; [done|]. rewrite lacks_cons.
  case_bool_decide as Hd; [split; [done|by intros [? _]]|].
  destruct (split_char c s) as [[a b]|]; simpl; [|naive_solver].
  split; [done|]. intros [_ Hl]. by apply IH in Hl.
Qed.

Lemma split_char_app c a b : lacks c a → split_char c (a +:+ String c b) = Some (a, b).
Proof. intros. by apply split_char_Some. Qed.

Lemma split_char_app_r c a s x y :
  lacks c a → split_char c s = Some (x, y) → split_char c (a +:+ s) = Some (a +:+ x, y).
Proof.
  rewrite !split_char_Some. intros Ha [-> Hx]. rewrite sapp_assoc, lacks_app. auto.
Qed.

Lemma rsplit_char_None c s : rsplit_char c s = None ↔ lacks c s.
Proof.
  induction s as [|d s IH]; simpl; [done|]. rewrite lacks_cons.
  destruct (rsplit_char c s) as [[a b]|]; simpl.
  - split; [done|]. intros [_ Hl]. by apply IH in Hl.
  - case_bool_decide; naive_solver.
Qed.

Lemma rsplit_char_app c a b : lacks c b → rsplit_char c (a +:+ String c b) = Some (a, b).
Proof.
  intros Hb. induction a as [|d a IH]; simpl.
  - apply rsplit_char_None in Hb. rewrite Hb. by case_bool_decide.
  - by rewrite IH.
Qed.

(** The text [p] does not occur in [s]. *)
Definition free_of (p s : string) : Prop := split_at p s = None.

Lemma starts_with_cons c d p s :
  starts_with (String c p) (String d s) = bool_decide (c = d) && starts_with p s.
Proof.
  unfold starts_with. simpl. destruct (ascii_dec c d); case_bool_decide; done.
Qed.

Lemma split_at_nonempty c p s a b :
  split_at (String c p) s = Some (a, b) → s = a +:+ String c p +:+ b.
Proof.
  revert a. induction s as [|d s IH]; intros a; simpl; [done|].
  destruct (starts_with (String c p) (String d s)) eqn:Hp.
  - intros [= <- <-]. apply starts_with_spec in Hp as [r Hr]. rewrite Hr. simpl.
    injection Hr as <- ->. by rewrite drop_chars_app.
  - destruct (split_at (String c p) s) as [[a' b']|] eqn:Hs; simpl; [|done].
    intros [= <- <-]. simpl. f_equal. by apply IH.
Qed.

Lemma split_at_here p s : split_at p (p +:+ s) = Some (EmptyString, s).
Proof.
  pose proof (starts_with_app p s) as Hp.
  destruct (p +:+ s) as [|c r] eqn:He; simpl; rewrite Hp.
  - apply sapp_eq_nil in He as [-> ->]. done.
  - rewrite <- He. by rewrite drop_chars_app.
Qed.

Lemma split_at_skip p c s :
  starts_with p (String c s) = false →
  split_at p (String c s) = '(a, b) ← split_at p s; Some (String c a, b).
Proof. intros H. simpl. unfold starts_with in *. by rewrite H. Qed.

(** A text that holds no occurrence of [p], not even the start of one that the
    text after it could complete. *)
Fixpoint incompatible (p s : string) : bool :=
  match p, s with
  | String c p, String d s => if bool_decide (c = d) then incompatible p s else true
  | _, _ => false
  end.

Fixpoint no_match (p s : string) : bool :=
  match s with
  | EmptyString => true
  | String _ r => incompatible p s && no_match p r
  end.

Lemma incompatible_starts_with p s r : incompatible p s = true → starts_with p (s +:+ r) = false.
Proof.
  revert s. induction p as [|c p IH]; intros [|d s]; simpl; try done.
  rewrite starts_with_cons. case_bool_decide; simpl; auto.
Qed.

Lemma split_at_no_match p s r :
  no_match p s = true → split_at p (s +:+ r) = '(a, b) ← split_at p r; Some (s +:+ a, b).
Proof.
  induction s as [|c s IH]; intros H.
  - rewrite sapp_nil_l. by destruct (split_at p r) as [[]|].
  - cbn [no_match] in H. to_prop. pose proof (incompatible_starts_with p (String c s) r) as Hs.
    rewrite sapp_cons in *. rewrite split_at_skip, IH by auto.
    by destruct (split_at p r) as [[]|].
Qed.

(** ** Spaces *)

Lemma isspace_space : isspace space = true.
Proof. done. Qed.

Definition leading_space (s : string) : bool :=
  match s with String c _ => isspace c | EmptyString => false end.

Fixpoint trailing_space (s : string) : bool :=
  match s with
  | EmptyString => false
  | String c EmptyString => isspace c
  | String _ r => trailing_space r
  end.

Definition trimmed (s : string) : bool := negb (leading_space s) && negb (trailing_space s).

Lemma skip_spaces_leading s : leading_space (skip_spaces s) = false.
Proof. induction s as [|c s IH]; simpl; [done|]. destruct (isspace c) eqn:E; simpl; auto. Qed.

Lemma skip_spaces_id s : leading_space s = false → skip_spaces s = s.
Proof. destruct s as [|c s]; simpl; [done|]. by intros ->. Qed.

Lemma drop_trailing_trailing s : trailing_space (drop_trailing_spaces s) = false.
Proof.
  induction s as [|c s IH]; simpl; [done|].
  destruct (drop_trailing_spaces s) as [|d r] eqn:E; [|done].
  destruct (isspace c) eqn:Hc; simpl; auto.
Qed.

Lemma drop_trailing_leading s :
  leading_space s = false → leading_space (drop_trailing_spaces s) = false.
Proof.
  destruct s as [|c s]; simpl; [done|]. intros Hc. by destruct (drop_trailing_spaces s); rewrite ?Hc.
Qed.

Lemma drop_trailing_id s : trailing_space s = false → drop_trailing_spaces s = s.
Proof.
  induction s as [|c s IH]; [done|]. intros H. simpl.
  destruct s as [|d s]; [simpl in *; by rewrite H|].
  rewrite IH by exact H. done.
Qed.

Lemma TrimWhitespace_trimmed s : trimmed (TrimWhitespace s) = true.
Proof.
  unfold trimmed, TrimWhitespace. rewrite drop_trailing_trailing.
  by rewrite drop_trailing_leading by apply skip_spaces_leading.
Qed.

Lemma TrimWhitespace_id s : trimmed s = true → TrimWhitespace s = s.
Proof.
  unfold trimmed, TrimWhitespace. intros H. to_prop.
  by rewrite skip_spaces_id, drop_trailing_id.
Qed.

Lemma skip_spaces_app w s : all_chars isspace w = true → skip_spaces (w +:+ s) = skip_spaces s.
Proof. induction w as [|c w IH]; simpl; [done|]. intros H. to_prop. rewrite H. auto. Qed.

Lemma drop_trailing_all w : all_chars isspace w = true → drop_trailing_spaces w = EmptyString.
Proof. induction w as [|c w IH]; simpl; [done|]. intros H. to_prop. by rewrite IH, H. Qed.

Lemma drop_trailing_app s w :
  all_chars isspace w = true → drop_trailing_spaces (s +:+ w) = drop_trailing_spaces s.
Proof.
  intros Hw. induction s as [|c s IH]; simpl; [by apply drop_trailing_all|]. by rewrite IH.
Qed.

(** What trimming removes is whitespace. *)
Lemma skip_spaces_split s : ∃ w, all_chars isspace w = true ∧ s = w +:+ skip_spaces s.
Proof.
  induction s as [|c s (w & Hw & IH)]; simpl; [by exists EmptyString|].
  destruct (isspace c) eqn:Hc; [|by exists EmptyString].
  exists (String c w). simpl. rewrite Hc. split; [done|congruence].
Qed.

Lemma drop_trailing_split s : ∃ w, all_chars isspace w = true ∧ s = drop_trailing_spaces s +:+ w.
Proof.
  induction s as [|c s (w & Hw & IH)]; simpl; [by exists EmptyString|].
  destruct (drop_trailing_spaces s) as [|d r] eqn:E.
  - simpl in IH. subst s. destruct (isspace c) eqn:Hc.
    + exists (String c w). simpl. by rewrite Hc.
    + exists w. done.
  - exists w. simpl in *. split; [done|congruence].
Qed.

(** ** Numbers *)

Lemma isdigit_not_space c : isdigit c = true → isspace c = false.
Proof. unfold isdigit, isspace, between. intros H. to_prop. apply orb_false_iff.
  rewrite andb_false_iff, Z.eqb_neq, !Z.leb_gt. lia.
Qed.

Lemma code_range c : 0 ≤ code c < 256.
Proof. unfold code. pose proof (N_ascii_bounded c). lia. Qed.

Lemma pretty_digit x : (x < 10)%N →
  isdigit (pretty_N_char x) = true ∧ code (pretty_N_char x) - 48 = Z.of_N x.
Proof.
  intros Hx. assert (Hc : (x ∈ [0; 1; 2; 3; 4; 5; 6; 7; 8; 9])%N).
  { rewrite !elem_of_cons. lia. }
  rewrite !elem_of_cons, elem_of_nil in Hc. by destruct_or!; subst x.
Qed.

Lemma pretty_N_go_ind (P : N → Prop) :
  P 0%N → (∀ x, (0 < x)%N → P (x `div` 10)%N → P x) → ∀ x, P x.
Proof.
  intros H0 Hstep x. induction (N.lt_wf_0 x) as [x _ IH].
  destruct (decide (x = 0%N)) as [->|Hx]; [done|].
  apply Hstep; [lia|]. apply IH. apply N.div_lt; lia.
Qed.

Lemma pretty_N_go_app x s r : pretty_N_go x s +:+ r = pretty_N_go x (s +:+ r).
Proof.
  revert s. induction x as [|x Hx IH] using pretty_N_go_ind; intros s.
  - by rewrite !pretty_N_go_0.
  - rewrite !(pretty_N_go_step x) by done. by rewrite IH.
Qed.

Lemma pretty_N_go_digits x s : all_chars isdigit (pretty_N_go x s) = all_chars isdigit s.
Proof.
  revert s. induction x as [|x Hx IH] using pretty_N_go_ind; intros s.
  - by rewrite pretty_N_go_0.
  - rewrite pretty_N_go_step, IH by done. simpl.
    by rewrite (proj1 (pretty_digit _ (N.mod_lt x 10 ltac:(done)))).
Qed.

Lemma pretty_N_go_read x s : read_digits 0 (pretty_N_go x s) = read_digits (Z.of_N x) s.
Proof.
  revert s. induction x as [|x Hx IH] using pretty_N_go_ind; intros s.
  - by rewrite pretty_N_go_0.
  - rewrite pretty_N_go_step, IH by done. simpl.
    destruct (pretty_digit (x `mod` 10)) as [-> ->]; [by apply N.mod_lt|].
    f_equal. rewrite N2Z.inj_div, N2Z.inj_mod. simpl.
    pose proof (Z.div_mod (Z.of_N x) 10 ltac:(done)). lia.
Qed.

Lemma pretty_N_go_cons x c s : ∃ d r, pretty_N_go x (String c s) = String d r.
Proof.
  revert c s. induction x as [|x Hx IH] using pretty_N_go_ind; intros c s.
  - rewrite pretty_N_go_0. eauto.
  - rewrite pretty_N_go_step by done. apply IH.
Qed.

Definition leading_digit (s : string) : bool :=
  match s with String c _ => isdigit c | EmptyString => false end.

Lemma read_digits_stop n s : leading_digit s = false → read_digits n s = (n, s).
Proof. destruct s as [|c s]; simpl; [done|]. by intros ->. Qed.

(** A natural number in decimal: digits, that read back as the number. *)
Lemma pretty_N_spec (x : N) :
  ∃ c r, pretty x = String c r ∧ all_chars isdigit (pretty x) = true ∧
    ∀ rest, leading_digit rest = false →
      read_digits 0 (pretty x +:+ rest) = (Z.of_N x, rest).
Proof.
  unfold pretty, pretty_N. case_decide as Hx.
  - subst x. exists "0"%char, EmptyString. split_and!; auto. intros rest Hr.
    change ("0" +:+ rest) with (String "0" rest). simpl. by rewrite read_digits_stop.
  - rewrite pretty_N_go_step by lia.
    destruct (pretty_N_go_cons (x `div` 10) (pretty_N_char (x `mod` 10)) EmptyString) as (c & r & Hc).
    exists c, r. split; [done|]. rewrite <- pretty_N_go_step by lia. split.
    + by rewrite pretty_N_go_digits.
    + intros rest Hr. rewrite pretty_N_go_app, pretty_N_go_read. by apply read_digits_stop.
Qed.

Lemma to_string_cases n :
  (0 ≤ n ∧ to_string n = pretty (Z.to_N n)) ∨
  (n < 0 ∧ to_string n = String "-" (pretty (Z.to_N (- n)))).
Proof. destruct n as [|p|p]; [by left..|right]. split; [lia|done]. Qed.

Definition number_char (c : ascii) : bool := isdigit c || bool_decide (c = "-"%char).

Lemma to_string_chars n : all_chars number_char (to_string n) = true.
Proof.
  assert (H : ∀ x : N, all_chars number_char (pretty x) = true).
  { intros x. destruct (pretty_N_spec x) as (_ & _ & _ & Hx & _).
    eapply all_chars_impl; [|exact Hx]. intros c Hc. unfold number_char. by rewrite Hc. }
  destruct (to_string_cases n) as [[_ ->]|[_ ->]]; [apply H|]. simpl. apply H.
Qed.

Lemma to_string_lacks c n : number_char c = false → lacks c (to_string n).
Proof. intros Hc. eapply all_chars_lacks; [exact Hc|apply to_string_chars]. Qed.

(** A number written with [to_string] reads back. *)
Lemma strtol_to_string n rest :
  LONG_MIN ≤ n ≤ LONG_MAX → leading_digit rest = false →
  strtol (to_string n +:+ rest) = Some (n, rest).
Proof.
  intros Hn Hr. unfold strtol. destruct (to_string_cases n) as [[H0 ->]|[H0 ->]].
  - destruct (pretty_N_spec (Z.to_N n)) as (c & r & He & Hd & Hread).
    specialize (Hread rest Hr). rewrite He in *. simpl in Hd. to_prop.
    rewrite sapp_cons in *. rewrite skip_spaces_id by (simpl; by apply isdigit_not_space).
    rewrite !bool_decide_false by (intros ->; done). rewrite H, Hread.
    rewrite Z2N.id by done. f_equal. f_equal. lia.
  - destruct (pretty_N_spec (Z.to_N (- n))) as (c & r & He & Hd & Hread).
    specialize (Hread rest Hr). rewrite He in *. simpl in Hd. to_prop. simpl in Hread |- *.
    rewrite H in *. rewrite Hread. rewrite Z2N.id by lia. f_equal. f_equal. lia.
Qed.

Lemma strtol_skip s : strtol (skip_spaces s) = strtol s.
Proof. unfold strtol. by rewrite (skip_spaces_id (skip_spaces s)) by apply skip_spaces_leading. Qed.

Lemma to_int_id n : -2147483648 ≤ n ≤ 2147483647 → to_int n = n.
Proof. intros H. unfold to_int. rewrite Z.mod_small; lia. Qed.

(** ** Whitespace runs *)

(** No whitespace but single spaces. *)
Fixpoint collapsed (previous_space : bool) (s : string) : bool :=
  match s with
  | EmptyString => true
  | String c r =>
      if isspace c then negb previous_space && bool_decide (c = space) && collapsed true r
      else collapsed false r
  end.

Lemma collapse_collapsed b s : collapsed b (collapse b s) = true.
Proof.
  revert b. induction s as [|c s IH]; intros b; simpl; [done|].
  destruct (isspace c) eqn:Hc; [destruct b; simpl; [apply IH|by rewrite IH]|].
  simpl. rewrite Hc. apply IH.
Qed.

Lemma collapse_id b s : collapsed b s = true → collapse b s = s.
Proof.
  revert b. induction s as [|c s IH]; intros b; simpl; [done|].
  destruct (isspace c) eqn:Hc; intros H; to_prop; [|by rewrite IH].
  subst. by rewrite IH.
Qed.

Lemma collapsed_weaken s : collapsed true s = true → collapsed false s = true.
Proof. destruct s as [|c s]; simpl; [done|]. by destruct (isspace c). Qed.

Lemma collapsed_app b s r : collapsed b (s +:+ r) = true → collapsed b s = true.
Proof.
  revert b. induction s as [|c s IH]; intros b; simpl; [done|].
  destruct (isspace c); intros H; to_prop; [|eauto]. rewrite H. simpl. subst.
  rewrite bool_decide_true by done. eauto.
Qed.

Lemma collapsed_skip b s : collapsed b s = true → collapsed false (skip_spaces s) = true.
Proof.
  revert b. induction s as [|c s IH]; intros b; simpl; [done|].
  destruct (isspace c) eqn:Hc; intros H; to_prop; [by eapply IH|]. simpl. by rewrite Hc.
Qed.

Lemma TrimWhitespace_collapsed s : collapsed false s = true → collapsed false (TrimWhitespace s) = true.
Proof.
  intros H%collapsed_skip. unfold TrimWhitespace.
  destruct (drop_trailing_split (skip_spaces s)) as (w & _ & Hw). rewrite Hw in H.
  by apply collapsed_app in H.
Qed.

Lemma rsplit_char_Some c s a b : rsplit_char c s = Some (a, b) → s = a +:+ String c b ∧ lacks c b.
Proof.
  revert a. induction s as [|d s IH]; intros a; simpl; [done|].
  destruct (rsplit_char c s) as [[a' b']|] eqn:Hs.
  - intros [= <- <-]. destruct (IH a' eq_refl) as [-> ?]. done.
  - case_bool_decide as Hd; [|done]. intros [= <- <-]. subst. apply rsplit_char_None in Hs. done.
Qed.
