(* ===== verification/Json.v ===== *)
(** * JSON by hand

    The JSON writer and the field reader of [src/backend/inference_backend.cc],
    with a reference decoder of JSON strings to compare them with. *)
From Stdlib Require Import Strings.Ascii.
From stdpp Require Import prelude strings.
From S2P Require Import Prelude CxxText.

(** ** Writing *)

Definition hex_digit (n : Z) : ascii := if n <? 10 then byte (48 + n) else byte (87 + n).

(** [std::hex << std::setw(4) << std::setfill('0')] of a number below 256 *)
Definition hex4 (n : Z) : string :=
  "00" +:+ char (hex_digit (n / 16)) +:+ char (hex_digit (n mod 16)).

(** One iteration of the loop of [JsonEscape]. *)
Definition json_escape_char (c : ascii) : string :=
  if bool_decide (c = dquote) then String backslash (char dquote)
  else if bool_decide (c = backslash) then "\\"
  else if bool_decide (c = backspace) then "\b"
  else if bool_decide (c = form_feed) then "\f"
  else if bool_decide (c = newline) then "\n"
  else if bool_decide (c = carriage_return) then "\r"
  else if bool_decide (c = tab) then "\t"
  else if code c <? 32 then "\u" +:+ hex4 (code c)
  else char c.

Definition JsonEscape (value : string) : string := concat_map json_escape_char value.

Definition JsonStringValue (value : string) : string := quote +:+ JsonEscape value +:+ quote.

(** A quoted field name. *)
Definition json_key (field : string) : string := quote +:+ field +:+ quote.

(** ** Reading *)

(** The [switch] of [ExtractJsonStringField] on an escaped character. *)
Definition unescape_char (c : ascii) : ascii :=
  if bool_decide (c = "n"%char) then newline
  else if bool_decide (c = "r"%char) then carriage_return
  else if bool_decide (c = "t"%char) then tab
  else c.

(** The last loop of [ExtractJsonStringField]. *)
Fixpoint read_json_string (escaping : bool) (value s : string) : option string :=
  match s with
  | EmptyString => None
  | String c r =>
      if escaping then read_json_string false (value +:+ char (unescape_char c)) r
      else if bool_decide (c = backslash) then read_json_string true value r
      else if bool_decide (c = dquote) then Some value
      else read_json_string false (value +:+ char c) r
  end.

(** The text of the value of [field]: after the first quoted occurrence of its
    name, after the next colon, without the whitespace there. *)
Definition find_json_value (json field : string) : option string :=
  '(_, rest) ← split_at (json_key field) json;
  '(_, rest) ← split_char colon rest;
  Some (skip_spaces rest).

Definition ExtractJsonStringField (json field : string) : option string :=
  value ← find_json_value json field;
  match value with
  | String c r => if bool_decide (c = dquote) then read_json_string false EmptyString r else None
  | EmptyString => None
  end.

Definition ExtractJsonIntField (json field : string) : option Z :=
  value ← find_json_value json field;
  '(n, _) ← strtol value;
  Some (to_int n).

(** ** A reference decoder

    The body of a JSON string up to its closing quote and the text after it, as
    RFC 8259 reads it; [\uXXXX] is read for the code points of one byte. *)
Definition hex_value (c : ascii) : option Z :=
  if isdigit c then Some (code c - 48)
  else if between 97 102 c then Some (code c - 87)
  else if between 65 70 c then Some (code c - 55)
  else None.

Definition json_unescape_char (c : ascii) : option ascii :=
  if bool_decide (c = dquote) || bool_decide (c = backslash) || bool_decide (c = slash) then Some c
  else if bool_decide (c = "b"%char) then Some backspace
  else if bool_decide (c = "f"%char) then Some form_feed
  else if bool_decide (c = "n"%char) then Some newline
  else if bool_decide (c = "r"%char) then Some carriage_return
  else if bool_decide (c = "t"%char) then Some tab
  else None.

Definition json_unicode (a b c d : ascii) : option ascii :=
  a ← hex_value a; b ← hex_value b; c ← hex_value c; d ← hex_value d;
  let n := ((a * 16 + b) * 16 + c) * 16 + d in
  if n <? 128 then Some (byte n) else None.

Fixpoint json_decode (s : string) : option (string * string) :=
  match s with
  | EmptyString => None
  | String c r =>
      if bool_decide (c = dquote) then Some (EmptyString, r)
      else if bool_decide (c = backslash) then
        match r with
        | String e r1 =>
            if bool_decide (e = "u"%char) then
              match r1 with
              | String x (String y (String z (String t r2))) =>
                  d ← json_unicode x y z t;
                  '(v, rest) ← json_decode r2; Some (String d v, rest)
              | _ => None
              end
            else
              d ← json_unescape_char e;
              '(v, rest) ← json_decode r1; Some (String d v, rest)
        | EmptyString => None
        end
      else if code c <? 32 then None
      else '(v, rest) ← json_decode r; Some (String c v, rest)
  end.

(** A flat object, without whitespace, as RFC 8259 reads it: its members are
    strings and literals, and the text of a literal goes up to the next comma or
    brace. *)
Inductive json_field := text_field (value : string) | literal_field (text : string).

Fixpoint json_literal (s : string) : string * string :=
  match s with
  | EmptyString => (EmptyString, EmptyString)
  | String c r =>
      if bool_decide (c = ","%char) || bool_decide (c = "}"%char) then (EmptyString, s)
      else let '(text, rest) := json_literal r in (String c text, rest)
  end.

Definition json_value (s : string) : option (json_field * string) :=
  match s with
  | String c r =>
      if bool_decide (c = dquote) then '(value, rest) ← json_decode r; Some (text_field value, rest)
      else let '(text, rest) := json_literal s in Some (literal_field text, rest)
  | EmptyString => None
  end.

Definition expect (c : ascii) (s : string) : option string :=
  match s with String d r => if bool_decide (d = c) then Some r else None | EmptyString => None end.

Fixpoint json_members (n : nat) (s : string) : option (list (string * json_field)) :=
  match n with
  | O => None
  | S n =>
      s ← expect dquote s; '(name, s) ← json_decode s;
      s ← expect colon s; '(value, s) ← json_value s;
      match s with
      | String c rest =>
          if bool_decide (c = ","%char) then members ← json_members n rest; Some ((name, value) :: members)
          else if bool_decide (c = "}"%char) && bool_decide (rest = EmptyString) then Some [(name, value)]
          else None
      | EmptyString => None
      end
  end.

Definition json_object (s : string) : option (list (string * json_field)) :=
  s ← expect "{" s; json_members (str_length s) s.
