(* ===== verification/JsonProps.v ===== *)
(** * Theorems on the JSON writer and reader *)
From Stdlib Require Import Strings.Ascii.
From stdpp Require Import prelude strings.
From S2P Require Import Prelude CxxText CxxTextProps Json.

(** ** The writer against the reference decoder *)

Lemma json_decode_char c s :
  json_decode (json_escape_char c +:+ s) = '(v, rest) ← json_decode s; Some (String c v, rest).
Proof. destruct c as [[] [] [] [] [] [] [] []]; reflexivity. Qed.

Lemma json_decode_escaped value rest :
  json_decode (JsonEscape value +:+ String dquote rest) = Some (value, rest).
Proof.
  unfold JsonEscape. induction value as [|c value IH]; simpl; [done|].
  by rewrite sapp_assoc, json_decode_char, IH.
Qed.

Lemma JsonStringValue_app value rest :
  JsonStringValue value +:+ rest = String dquote (JsonEscape value +:+ String dquote rest).
Proof. unfold JsonStringValue, quote. by rewrite sapp_assoc, char_app, sapp_assoc, char_app. Qed.

(** What [JsonStringValue] writes is a JSON string that denotes its
    argument, for every text, control characters and quotes included, and
    whatever follows it. *)
Theorem JsonStringValue_decodes value rest :
  ∃ body, JsonStringValue value +:+ rest = String dquote body ∧
          json_decode body = Some (value, rest).
Proof. rewrite JsonStringValue_app. eauto using json_decode_escaped. Qed.

(** ** Flat objects *)

(** A character that does not end a literal or begin a string. *)
Definition literal_char (c : ascii) : bool :=
  negb (bool_decide (c = ","%char) || bool_decide (c = "}"%char) || bool_decide (c = dquote)).

Lemma json_literal_app text c rest :
  all_chars literal_char text = true → c = ","%char ∨ c = "}"%char →
  json_literal (text +:+ String c rest) = (text, String c rest).
Proof.
  intros Ht Hc. induction text as [|d text IH]; simpl in *.
  - destruct Hc as [->| ->]; reflexivity.
  - apply andb_true_iff in Ht as [Hd Ht]. unfold literal_char in Hd.
    apply negb_true_iff, orb_false_iff in Hd as [Hd _]. rewrite Hd. by rewrite IH.
Qed.

Lemma json_value_literal text c rest :
  all_chars literal_char text = true → c = ","%char ∨ c = "}"%char →
  json_value (text +:+ String c rest) = Some (literal_field text, String c rest).
Proof.
  intros Ht Hc. pose proof (json_literal_app text c rest Ht Hc) as Hl.
  destruct text as [|d text]; [by destruct Hc as [->| ->]|]. rewrite sapp_cons in *.
  unfold json_value. rewrite Hl. simpl in Ht.
  apply andb_true_iff in Ht as [Hd _]. unfold literal_char in Hd.
  apply negb_true_iff, orb_false_iff in Hd as [_ Hd]. by rewrite Hd.
Qed.

Lemma json_value_text value rest :
  json_value (JsonStringValue value +:+ rest) = Some (text_field value, rest).
Proof. rewrite JsonStringValue_app. simpl. by rewrite json_decode_escaped. Qed.

(** A member whose value is read, and what follows it. *)
Lemma json_members_next n f text value rest :
  JsonEscape f = f → json_value (text +:+ String "," rest) = Some (value, String "," rest) →
  json_members (S n) (json_key f +:+ ":" +:+ text +:+ "," +:+ rest) =
    members ← json_members n rest; Some ((f, value) :: members).
Proof.
  change (":" +:+ text +:+ "," +:+ rest) with (String colon (text +:+ String "," rest)).
  intros Hf Hv. pose proof (json_decode_escaped f (String colon (text +:+ String "," rest))) as Hd.
  rewrite Hf in Hd. unfold json_key, quote. rewrite !sapp_assoc, !char_app.
  cbn [json_members expect]. rewrite bool_decide_true by done. simpl mbind.
  rewrite Hd. simpl mbind. cbn [expect]. by rewrite Hv.
Qed.

Lemma json_members_last n f text value :
  JsonEscape f = f → json_value (text +:+ "}") = Some (value, "}") →
  json_members (S n) (json_key f +:+ ":" +:+ text +:+ "}") = Some [(f, value)].
Proof.
  change (":" +:+ text +:+ "}") with (String colon (text +:+ "}")).
  intros Hf Hv. pose proof (json_decode_escaped f (String colon (text +:+ "}"))) as Hd.
  rewrite Hf in Hd. unfold json_key, quote. rewrite !sapp_assoc, !char_app.
  cbn [json_members expect]. rewrite bool_decide_true by done. simpl mbind.
  rewrite Hd. simpl mbind. cbn [expect]. by rewrite Hv.
Qed.

(** ** The reader on what the writer writes *)

(** What [ExtractJsonStringField] makes of one escaped character: the escapes
    [\b], [\f] and [\u00XX] lose their backslash. *)
Definition reread_char (c : ascii) : string :=
  if bool_decide (c = backspace) then "b"
  else if bool_decide (c = form_feed) then "f"
  else if bool_decide (c = newline) || bool_decide (c = carriage_return) || bool_decide (c = tab)
  then char c
  else if code c <? 32 then "u" +:+ hex4 (code c)
  else char c.

Lemma read_json_char c value s :
  read_json_string false value (json_escape_char c +:+ s) =
  read_json_string false (value +:+ reread_char c) s.
Proof.
  destruct c as [[] [] [] [] [] [] [] []]; try reflexivity;
    simpl; rewrite ?sapp_assoc; reflexivity.
Qed.

Lemma read_json_escaped value p s :
  read_json_string false value (JsonEscape p +:+ String dquote s) =
  Some (value +:+ concat_map reread_char p).
Proof.
  unfold JsonEscape. revert value. induction p as [|c p IH]; intros value; simpl.
  - by rewrite sapp_nil_r.
  - by rewrite sapp_assoc, read_json_char, IH, sapp_assoc.
Qed.

(** Characters whose escapes the reader knows. *)
Definition readable (c : ascii) : bool :=
  (32 <=? code c) || bool_decide (c = newline) || bool_decide (c = carriage_return) ||
  bool_decide (c = tab).

Lemma reread_readable c : readable c = true → reread_char c = char c.
Proof. destruct c as [[] [] [] [] [] [] [] []]; done. Qed.

Lemma reread_text p : all_chars readable p = true → concat_map reread_char p = p.
Proof.
  induction p as [|c p IH]; simpl; [done|]. intros H. to_prop.
  by rewrite reread_readable, IH.
Qed.

(** ** Field names inside escaped text *)

(** A field name that needs no escape. *)
Definition plain_field (f : string) : Prop := f ≠ EmptyString ∧ lacks dquote f ∧ lacks backslash f.

Lemma split_at_skip_text c k w s :
  lacks c w →
  split_at (String c k) (w +:+ s) = '(a, b) ← split_at (String c k) s; Some (w +:+ a, b).
Proof.
  induction w as [|d w IH]; intros Hw.
  - rewrite sapp_nil_l. by destruct (split_at _ s) as [[]|].
  - apply lacks_cons in Hw as [Hd Hw]. rewrite sapp_cons, split_at_skip.
    + rewrite IH by done. by destruct (split_at _ s) as [[]|].
    + rewrite starts_with_cons, bool_decide_false by congruence. done.
Qed.

Lemma json_escape_char_cases c :
  (c = dquote ∧ json_escape_char c = String backslash (char dquote)) ∨
  (c ≠ dquote ∧ lacks dquote (json_escape_char c) ∧
   ((json_escape_char c = char c ∧ c ≠ backslash) ∨ ∃ r, json_escape_char c = String backslash r)).
Proof. destruct c as [[] [] [] [] [] [] [] []]; (by left) || (right; split_and!; naive_solver). Qed.

Lemma JsonEscape_cons c p : JsonEscape (String c p) = json_escape_char c +:+ JsonEscape p.
Proof. done. Qed.

(** Escaped text that starts with a quoted field name is that name. *)
Lemma escaped_starts_with f q tail :
  lacks dquote f → lacks backslash f →
  starts_with (f +:+ quote) (JsonEscape q +:+ String dquote tail) = true →
  q = f ∧ JsonEscape q = q.
Proof.
  revert q. induction f as [|d f IH]; intros q Hq Hb.
  - rewrite sapp_nil_l. destruct q as [|c q]; [done|]. rewrite JsonEscape_cons, sapp_assoc.
    destruct (json_escape_char_cases c) as [[-> ->]|(Hc & _ & [[-> _]|[r ->]])].
    + done.
    + rewrite char_app. unfold quote, char. rewrite starts_with_cons, bool_decide_false; done.
    + rewrite sapp_cons. unfold quote, char. rewrite starts_with_cons. done.
  - apply lacks_cons in Hq as [Hd Hq]. apply lacks_cons in Hb as [Hd' Hb]. rewrite sapp_cons.
    destruct q as [|c q].
    + change (JsonEscape EmptyString +:+ String dquote tail) with (String dquote tail).
      rewrite starts_with_cons, bool_decide_false by done. done.
    + rewrite JsonEscape_cons, sapp_assoc.
      destruct (json_escape_char_cases c) as [[-> ->]|(Hc & _ & [[-> _]|[r ->]])].
      * rewrite sapp_cons, starts_with_cons, bool_decide_false by done. done.
      * rewrite char_app, starts_with_cons, andb_true_iff, bool_decide_eq_true.
        intros [-> H]. destruct (IH _ Hq Hb H) as [-> He]. by rewrite char_app, He.
      * rewrite sapp_cons, starts_with_cons, bool_decide_false by done. done.
Qed.

(** [p] does not end with a quote and the field name. *)
Definition not_ending_in (f p : string) : Prop := ∀ a, p ≠ a +:+ String dquote f.

Lemma not_ending_in_cons f c p : not_ending_in f (String c p) → not_ending_in f p.
Proof. intros H a ->. by apply (H (String c a)). Qed.

(** A search for a field name goes over an escaped text. *)
Lemma split_at_escaped f p tail :
  plain_field f → not_ending_in f p → starts_with (f +:+ quote) tail = false →
  split_at (json_key f) (JsonEscape p +:+ String dquote tail) =
  '(a, b) ← split_at (json_key f) tail; Some (JsonEscape p +:+ String dquote a, b).
Proof.
  intros (Hne & Hq & Hb) Hend Htail.
  change (json_key f) with (String dquote (f +:+ quote)).
  induction p as [|c p IH].
  - change (JsonEscape EmptyString) with EmptyString. rewrite !sapp_nil_l.
    rewrite split_at_skip; [by destruct (split_at _ tail) as [[]|]|].
    by rewrite starts_with_cons, Htail, andb_false_r.
  - rewrite JsonEscape_cons, sapp_assoc.
    assert (IH' := IH (not_ending_in_cons _ _ _ Hend)).
    destruct (json_escape_char_cases c) as [[-> ->]|(Hc & Hl & _)].
    + unfold char. rewrite !sapp_cons, sapp_nil_l, split_at_skip by done.
      rewrite split_at_skip, IH'.
      * by destruct (split_at _ tail) as [[]|].
      * rewrite starts_with_cons, bool_decide_true by done. simpl.
        apply not_true_iff_false. intros Hs. apply escaped_starts_with in Hs as [-> _]; [|done..].
        by apply (Hend EmptyString).
    + rewrite split_at_skip_text, IH' by done.
      destruct (split_at _ tail) as [[a b]|]; simpl; [|done]. by rewrite sapp_assoc.
Qed.

(** An occurrence that starts in an escaped text ends with its closing quote. *)
Lemma split_at_escaped_end f p tail x y :
  plain_field f → starts_with (f +:+ quote) tail = false →
  split_at (json_key f) (JsonEscape p +:+ String dquote tail) = Some (x, y) →
  y = tail ∨ ∃ x', split_at (json_key f) tail = Some (x', y).
Proof.
  intros (Hne & Hq & Hb) Htail.
  change (json_key f) with (String dquote (f +:+ quote)). revert x.
  induction p as [|c p IH]; intros x.
  - change (JsonEscape EmptyString) with EmptyString. rewrite sapp_nil_l.
    rewrite split_at_skip by by rewrite starts_with_cons, Htail, andb_false_r.
    destruct (split_at _ tail) as [[a b]|]; [|done]. intros [= <- <-]. eauto.
  - rewrite JsonEscape_cons, sapp_assoc.
    destruct (json_escape_char_cases c) as [[-> ->]|(Hc & Hl & _)].
    + unfold char. rewrite !sapp_cons, sapp_nil_l, split_at_skip by done.
      destruct (starts_with (String dquote (f +:+ quote))
        (String dquote (JsonEscape p +:+ String dquote tail))) eqn:Hs.
      * pose proof Hs as [r Hr]%starts_with_spec. rewrite starts_with_cons in Hs. to_prop.
        apply escaped_starts_with in H0 as [-> He]; [|done..]. rewrite Hr, split_at_here.
        intros [= _ <-]. left. injection Hr as Hr. rewrite He, sapp_assoc in Hr.
        by apply sapp_inj_l in Hr as [= ->].
      * rewrite split_at_skip by done.
        destruct (split_at _ (JsonEscape p +:+ _)) as [[a b]|] eqn:E; [|done].
        intros [= <- <-]. eauto.
    + rewrite split_at_skip_text by done.
      destruct (split_at _ (JsonEscape p +:+ _)) as [[a b]|] eqn:E; [|done].
      intros [= <- <-]. eauto.
Qed.

(** A field name cannot be smuggled inside an escaped text: unless the text
    is that name, or ends with a quote and that name, the reader does not find
    the quoted name in what the writer makes of the text. *)
Theorem JsonStringValue_hides_fields f p :
  plain_field f → p ≠ f → not_ending_in f p → free_of (json_key f) (JsonStringValue p).
Proof.
  intros Hf Hne Hend. unfold free_of. rewrite <- (sapp_nil_r (JsonStringValue p)), JsonStringValue_app.
  pose proof Hf as (Hf0 & Hq & Hb). pose proof (split_at_escaped f p EmptyString Hf Hend) as H.
  change (json_key f) with (String dquote (f +:+ quote)) in *. rewrite split_at_skip.
  - rewrite H; [done|]. by destruct f.
  - rewrite starts_with_cons, bool_decide_true by done. simpl.
    apply not_true_iff_false. intros Hs. by apply escaped_starts_with in Hs as [? _].
Qed.

(** ** A text field written and read back *)

(** An object whose first field is the text [v]. *)
Definition object_with (f v rest : string) : string :=
  "{" +:+ json_key f +:+ ":" +:+ JsonStringValue v +:+ rest.

Lemma find_first_field f v rest :
  lacks dquote f → find_json_value (object_with f v rest) f = Some (JsonStringValue v +:+ rest).
Proof.
  intros Hf. unfold find_json_value, object_with.
  change ("{" +:+ ?s) with (String "{"%char s).
  change (json_key f) with (String dquote (f +:+ quote)).
  rewrite split_at_skip by (rewrite starts_with_cons, bool_decide_false; done).
  rewrite split_at_here, JsonStringValue_app. done.
Qed.

(** C27: a text written as the first field of an object is read back unchanged
    when it has no control characters but newlines, returns and tabs; of the
    other control characters, which the writer escapes, the reader drops the
    backslash and keeps the rest. *)
Theorem ExtractJsonStringField_reads f v rest :
  lacks dquote f →
  ExtractJsonStringField (object_with f v rest) f = Some (concat_map reread_char v) ∧
  (all_chars readable v = true → ExtractJsonStringField (object_with f v rest) f = Some v).
Proof.
  intros Hf.
  assert (H : ExtractJsonStringField (object_with f v rest) f = Some (concat_map reread_char v)).
  { unfold ExtractJsonStringField. rewrite find_first_field, JsonStringValue_app by done. simpl.
    by rewrite read_json_escaped. }
  split; [done|]. intros Hv. by rewrite H, reread_text.
Qed.

(** The reader is not the inverse of the writer: a backspace comes back as
    the letter b, and a bell as five characters. *)
Theorem ExtractJsonStringField_mangles_controls :
  ExtractJsonStringField (object_with "content" (char backspace) "}") "content" = Some "b" ∧
  ExtractJsonStringField (object_with "content" (char (byte 7)) "}") "content" = Some "u0007".
Proof. split; vm_compute; reflexivity. Qed.

(** A valid object in which a text equals the name of a later field. *)
Definition named_value_object : string :=
  "{" +:+ json_key "model" +:+ ":" +:+ JsonStringValue "tokens_predicted" +:+ "," +:+
  json_key "tokens_evaluated" +:+ ":5," +:+ json_key "tokens_predicted" +:+ ":7}".

(** A text equal to the name of a later field is taken for the field: the
    count that is read is that of another field. *)
Theorem field_name_as_text_misread :
  ExtractJsonIntField named_value_object "tokens_predicted" = Some 5.
Proof. vm_compute. reflexivity. Qed.

(** ** Witnesses *)

Lemma JsonStringValue_hides_fields_witness :
  free_of (json_key "n_predict") (JsonStringValue (json_key "n_predict" +:+ ":1")).
Proof.
  apply JsonStringValue_hides_fields.
  - split_and!; [discriminate|reflexivity|reflexivity].
  - discriminate.
  - intros a Ha. apply (f_equal (rsplit_char dquote)) in Ha.
    rewrite rsplit_char_app in Ha by reflexivity. discriminate.
Defined.

Lemma ExtractJsonStringField_reads_witness :
  ExtractJsonStringField (object_with "content" (String newline "a") "}") "content" =
  Some (String newline "a").
Proof.
  apply (ExtractJsonStringField_reads "content" (String newline "a") "}"); reflexivity.
Defined.
