(* ===== verification/CxxFloat.v ===== *)
(** * IEEE binary32 and binary64

    [float] and [double] are the binary formats of the Standard Library's
    [SpecFloat] with rounding to nearest even, so every operation of the model
    computes. *)
From Stdlib Require Import ZArith Strings.Ascii Floats.SpecFloat.
From stdpp Require Import prelude strings.
From S2P Require Import Prelude CxxText.

Module Float64.
Definition prec : Z := 53.
Definition emax : Z := 1024.
Definition of_Z (z : Z) : spec_float := binary_normalize prec emax z 0 false.
Definition add : spec_float → spec_float → spec_float := SFadd prec emax.
Definition mul : spec_float → spec_float → spec_float := SFmul prec emax.
Definition div : spec_float → spec_float → spec_float := SFdiv prec emax.
End Float64.

Module Float32.
Definition prec : Z := 24.
Definition emax : Z := 128.
Definition of_Z (z : Z) : spec_float := binary_normalize prec emax z 0 false.
Definition add : spec_float → spec_float → spec_float := SFadd prec emax.
Definition sub : spec_float → spec_float → spec_float := SFsub prec emax.
Definition mul : spec_float → spec_float → spec_float := SFmul prec emax.
Definition div : spec_float → spec_float → spec_float := SFdiv prec emax.
Definition sqrt : spec_float → spec_float := SFsqrt prec emax.
Definition ltb : spec_float → spec_float → bool := SFltb.
Definition eqb : spec_float → spec_float → bool := SFeqb.

(** The literal [n / 10^k], for [n] below 2^24 and [k] at most 10: both are
    exact, so that the division rounds the literal correctly. *)
Definition literal (n : Z) (k : nat) : spec_float := div (of_Z n) (of_Z (10 ^ Z.of_nat k)).

(** [std::max] and [std::min]: the first argument on a tie or a NaN *)
Definition max (a b : spec_float) : spec_float := if ltb a b then b else a.
Definition min (a b : spec_float) : spec_float := if ltb b a then b else a.

(** [std::clamp] *)
Definition clamp (v lo hi : spec_float) : spec_float :=
  if ltb v lo then lo else if ltb hi v then hi else v.

(** [std::numeric_limits<float>::min()] and [infinity()] *)
Definition smallest : spec_float := S754_finite false 8388608 (-149).
Definition infinity : spec_float := S754_infinity false.

(** A value that is not a NaN *)
Definition is_number (f : spec_float) : bool :=
  match f with S754_nan => false | _ => true end.

(** [std::isfinite] *)
Definition is_finite (f : spec_float) : bool :=
  match f with S754_infinity _ | S754_nan => false | _ => true end.
End Float32.

(** The elementary functions of the C library, whose results the platform
    chooses. *)
Class Libm := {
  sinf : spec_float → spec_float;
  cosf : spec_float → spec_float;
  tanhf : spec_float → spec_float;
  expf : spec_float → spec_float;
}.

(** ** The order of floats

    The numbers are ordered as the keys are. *)
Definition float_key (f : spec_float) : Z * Z * Z :=
  match f with
  | S754_infinity true => (-2, 0, 0)
  | S754_finite true m e => (-1, - e, - Z.pos m)
  | S754_zero _ | S754_nan => (0, 0, 0)
  | S754_finite false m e => (1, e, Z.pos m)
  | S754_infinity false => (2, 0, 0)
  end.

Definition key_lt (a b : Z * Z * Z) : Prop :=
  let '(a1, a2, a3) := a in
  let '(b1, b2, b3) := b in
  a1 < b1 ∨ (a1 = b1 ∧ (a2 < b2 ∨ (a2 = b2 ∧ a3 < b3))).

Lemma ltb_key a b :
  Float32.is_number a = true → Float32.is_number b = true →
  Float32.ltb a b = true ↔ key_lt (float_key a) (float_key b).
Proof.
  unfold Float32.ltb, SFltb, SFcompare.
  destruct a as [[]|[]| |[] m e], b as [[]|[]| |[] m' e']; simpl; try done; intros _ _;
    try (split; [done|lia]); try (split; [lia|done]);
    destruct (Z.compare_spec e e'); simpl; try (split; [done|lia]); try (split; [lia|done]);
    change (Pos.compare_cont Eq m m') with (Pos.compare m m');
    destruct (Pos.compare_spec m m'); subst; simpl; split; try done; lia.
Qed.

Lemma eqb_key a b :
  Float32.is_number a = true → Float32.is_number b = true →
  Float32.eqb a b = true ↔ float_key a = float_key b.
Proof.
  unfold Float32.eqb, SFeqb, SFcompare.
  destruct a as [[]|[]| |[] m e], b as [[]|[]| |[] m' e']; simpl; try done; intros _ _;
    try (split; [done|congruence]);
    destruct (Z.compare_spec e e'); simpl; try (split; [done|intros; simplify_eq; lia]);
    change (Pos.compare_cont Eq m m') with (Pos.compare m m');
    destruct (Pos.compare_spec m m'); subst; simpl; split; try done; intros; simplify_eq; lia.
Qed.

(** ** Sums and maxima over an array *)

(** [for i: total += term(i, v[i])] *)
Fixpoint accumulate_from (i : Z) (term : Z → spec_float → spec_float) (total : spec_float)
    (v : list spec_float) : spec_float :=
  match v with
  | [] => total
  | x :: rest => accumulate_from (i + 1) term (Float32.add total (term i x)) rest
  end.
Abbreviation accumulate := (accumulate_from 0).

(** [{f(0), ..., f(n-1)}] *)
Definition tabulate {A} (n : Z) (f : Z → A) : list A := f ∘ Z.of_nat <$> seq 0 (Z.to_nat n).

(** [std::max_element]: the position and the value of the first of the largest *)
Fixpoint max_from (best : nat) (largest : spec_float) (i : nat) (v : list spec_float)
    : nat * spec_float :=
  match v with
  | [] => (best, largest)
  | x :: rest =>
      if Float32.ltb largest x then max_from i x (S i) rest else max_from best largest (S i) rest
  end.

Definition max_element (v : list spec_float) : option (nat * spec_float) :=
  match v with [] => None | x :: rest => Some (max_from 0 x 1 rest) end.

Lemma length_tabulate {A} n (f : Z → A) : length (tabulate n f) = Z.to_nat n.
Proof. unfold tabulate. by rewrite length_fmap, length_seq. Qed.

Lemma max_from_spec v best largest pre i x :
  pre !! best = Some largest →
  Forall (λ y, Float32.is_number y = true) (pre ++ v) →
  Forall (λ y, Float32.ltb largest y = false) pre →
  max_from best largest (length pre) v = (i, x) →
  (pre ++ v) !! i = Some x ∧ Forall (λ y, Float32.ltb x y = false) (pre ++ v).
Proof.
  revert best largest pre. induction v as [|y v IH]; intros best largest pre Hb Hn Hmax; simpl.
  { rewrite app_nil_r. by intros [= <- <-]. }
  assert (Hnum : ∀ z, z ∈ pre ++ y :: v → Float32.is_number z = true) by by apply Forall_forall.
  assert (Hl : Float32.is_number largest = true)
    by (apply Hnum, elem_of_app; left; by eapply list_elem_of_lookup_2).
  assert (Hy : Float32.is_number y = true) by (apply Hnum; set_solver).
  replace (pre ++ y :: v) with ((pre ++ [y]) ++ v) in * by by rewrite <- app_assoc.
  replace (S (length pre)) with (length (pre ++ [y])) by (rewrite length_app; simpl; lia).
  destruct (Float32.ltb largest y) eqn:Hlt; intros Hrun.
  - eapply IH; [|done| |exact Hrun]; [by rewrite lookup_app_r, Nat.sub_diag|].
    apply ltb_key in Hlt; [|done..]. apply Forall_app. split.
    + rewrite Forall_forall in Hmax |- *. intros z Hz. specialize (Hmax z Hz).
      assert (Hnz : Float32.is_number z = true) by (apply Hnum; set_solver).
      apply not_true_iff_false in Hmax. apply not_true_iff_false. rewrite ltb_key in Hmax |- * by done.
      destruct (float_key largest) as [[]], (float_key y) as [[]], (float_key z) as [[]].
      simpl in *. lia.
    + constructor; [|done]. apply not_true_iff_false. rewrite ltb_key by done.
      destruct (float_key y) as [[]]. simpl. lia.
  - eapply IH; [|done| |exact Hrun]; [by apply lookup_app_l_Some|].
    apply Forall_app. split; [done|]. by constructor.
Qed.

Lemma max_element_spec v i x :
  Forall (λ y, Float32.is_number y = true) v → max_element v = Some (i, x) →
  v !! i = Some x ∧ Forall (λ y, Float32.ltb x y = false) v.
Proof.
  destruct v as [|y v]; [done|]. simpl. intros Hn [= Hrun].
  eapply (max_from_spec v 0 y [y]); [done|done| |exact Hrun].
  constructor; [|done]. apply not_true_iff_false. rewrite ltb_key by by inversion Hn.
  destruct (float_key y) as [[]]. simpl. lia.
Qed.

(** ** Fixed notation

    [std::fixed << std::setprecision(p) << f]: the exact value rounded to [p]
    decimals, to even on a tie, as the C library prints it. *)
Definition round_half_even (num den : Z) : Z :=
  let q := num / den in
  let r := num mod den in
  if 2 * r <? den then q
  else if den <? 2 * r then q + 1
  else if Z.even q then q else q + 1.

(** The digits of [n], at least [width] of them. *)
Definition pad_zeros (width : nat) (n : Z) : string :=
  let digits := to_string n in
  Nat.iter (width - str_length digits) (String "0"%char) digits.

Definition fixed_digits (p : nat) (scaled : Z) : string :=
  let unit := 10 ^ Z.of_nat p in
  to_string (scaled / unit) +:+
  (if (p =? 0)%nat then EmptyString else "." +:+ pad_zeros p (scaled mod unit)).

Definition fixed (p : nat) (f : spec_float) : string :=
  match f with
  | S754_nan => "nan"
  | S754_infinity s => (if s then "-" else EmptyString) +:+ "inf"
  | S754_zero s => (if s then "-" else EmptyString) +:+ fixed_digits p 0
  | S754_finite s m e =>
      let unit := 10 ^ Z.of_nat p in
      (if s then "-" else EmptyString) +:+
      fixed_digits p (if 0 <=? e then Z.pos m * 2 ^ e * unit
                      else round_half_even (Z.pos m * unit) (2 ^ (- e)))
  end.

(** The helpers [FloatToString] and [FixedDouble]. *)
Definition FloatToString (value : spec_float) : string := fixed 3 value.
Definition FixedDouble (value : spec_float) (precision : nat) : string := fixed precision value.
