(* ===== verification/FloatRounding.v ===== *)
(** * Rounding to binary32

    A finite [float] is a whole number of units of [2^-149].  Rounding a value
    that a number of 24 bits bounds respects the bound, and every operation of
    [CxxFloat] inherits that, so that the sizes of intermediate results follow
    from bounds that are themselves exact. *)
From Stdlib Require Import ZArith Lia Floats.SpecFloat.
From stdpp Require Import prelude.
From S2P Require Import Prelude CxxFloat.

Abbreviation fexp32 := (fexp Float32.prec Float32.emax).
Abbreviation round32 := (binary_round_aux Float32.prec Float32.emax).

(** A finite number in the form in which operations return it *)
Definition float_ok (f : spec_float) : Prop :=
  Float32.is_finite f = true ∧ valid_binary Float32.prec Float32.emax f = true.

(** Its value in units of [2^-149], and the units of the number 1 *)
Definition units (f : spec_float) : Z :=
  match f with S754_finite s m e => cond_Zopp s (Z.pos m * 2 ^ (e + 149)) | _ => 0 end.

Definition one_units : Z := 2 ^ 149.

(** The units of the first number that overflows *)
Definition max_units : Z := 2 ^ 277.

(** ** Exponents and digits *)

Lemma fexp32_eq e : fexp32 e = Z.max (e - 24) (-149).
Proof. done. Qed.

Lemma digits2_log2 p : Z.pos (digits2_pos p) = Z.log2 (Z.pos p) + 1.
Proof.
  induction p as [p IH|p IH|]; cbn [digits2_pos]; [| |done].
  - rewrite Pos2Z.inj_succ, IH, Pos2Z.inj_xI, Z.log2_succ_double by lia. lia.
  - rewrite Pos2Z.inj_succ, IH, Pos2Z.inj_xO, Z.log2_double by lia. lia.
Qed.

Lemma digits_bounds m : 0 < m → 0 < Zdigits2 m ∧ 2 ^ (Zdigits2 m - 1) ≤ m < 2 ^ Zdigits2 m.
Proof.
  destruct m as [|p|p]; try lia. intros _. cbn [Zdigits2]. rewrite digits2_log2.
  pose proof (Z.log2_nonneg (Z.pos p)). pose proof (Z.log2_spec (Z.pos p)).
  replace (Z.log2 (Z.pos p) + 1 - 1) with (Z.log2 (Z.pos p)) by lia. lia.
Qed.

Lemma digits_unique m d : 0 < d → 2 ^ (d - 1) ≤ m < 2 ^ d → Zdigits2 m = d.
Proof.
  intros Hd Hm. assert (0 < m) by (pose proof (Z.pow_pos_nonneg 2 (d - 1)); lia).
  destruct m as [|p|p]; try lia. cbn [Zdigits2]. rewrite digits2_log2.
  rewrite (Z.log2_unique (Z.pos p) (d - 1)); [lia|lia|]. by replace (Z.succ (d - 1)) with d by lia.
Qed.

Lemma digits_le m d : 0 ≤ m → m < 2 ^ d → 0 ≤ d → Zdigits2 m ≤ d.
Proof.
  intros Hm Hlt Hd. destruct (decide (m = 0)) as [->|]; [done|].
  destruct (digits_bounds m) as (? & ? & _); [lia|].
  apply Z.nlt_ge. intros Hd'. pose proof (Z.pow_le_mono_r 2 d (Zdigits2 m - 1)). lia.
Qed.

(** ** Shifting to the right *)

Lemma iter_pos_ind {A} (P : Z → A → Prop) f n k x :
  P k x → (∀ k x, P k x → P (k + 1) (f x)) → P (k + Z.pos n) (SpecFloat.iter_pos f n x).
Proof.
  intros Hx Hf. revert k x Hx. induction n as [n IH|n IH|]; intros k x Hx; cbn [SpecFloat.iter_pos].
  - replace (k + Z.pos n~1) with (k + 1 + Z.pos n + Z.pos n) by lia. auto.
  - replace (k + Z.pos n~0) with (k + Z.pos n + Z.pos n) by lia. auto.
  - auto.
Qed.

(** The quotient, and whether something was lost *)
Definition shifted (m0 : Z) (lost : bool) (k : Z) (r : shr_record) : Prop :=
  0 ≤ k ∧ 0 ≤ shr_m r ∧ shr_m r = m0 / 2 ^ k ∧
  (shr_r r || shr_s r = true → lost = true ∨ shr_m r * 2 ^ k < m0).

Lemma shr_1_half r :
  0 ≤ shr_m r → shr_m (shr_1 r) = shr_m r / 2 ∧
  (shr_r (shr_1 r) || shr_s (shr_1 r) = true →
   shr_r r || shr_s r = true ∨ shr_m r = 2 * (shr_m r / 2) + 1).
Proof.
  destruct r as [m a b]. unfold shr_1. simpl. destruct m as [|[p|p|]|p]; simpl; try lia; intros _.
  - auto.
  - assert (Hd : Z.pos p = Z.pos p~1 / 2) by (apply (Z.div_unique _ 2 _ 1); lia).
    split; [done|]. intros _. right. rewrite <- Hd. lia.
  - assert (Hd : Z.pos p = Z.pos p~0 / 2) by (apply (Z.div_unique _ 2 _ 0); lia). auto.
  - auto.
Qed.

Lemma shr_1_shifted m0 lost k r : 0 ≤ m0 → shifted m0 lost k r → shifted m0 lost (k + 1) (shr_1 r).
Proof.
  intros Hm0 (Hk & Hm & Hq & Hlost). destruct (shr_1_half r Hm) as [Hh Hl].
  assert (Hp : 2 ^ (k + 1) = 2 * 2 ^ k) by (rewrite Z.pow_add_r; lia).
  assert (Hpos : 0 < 2 ^ k) by (apply Z.pow_pos_nonneg; lia).
  assert (Hle : shr_m r * 2 ^ k ≤ m0) by (rewrite Hq, Z.mul_comm; by apply Z.mul_div_le).
  pose proof (Z.mul_div_le (shr_m r) 2 ltac:(lia)) as Hd.
  split_and!; [lia|rewrite Hh; by apply Z.div_pos| |].
  - rewrite Hh, Hp, Hq, (Z.mul_comm 2), Z.div_div; lia.
  - intros [Hs|Hs]%Hl; rewrite Hh, Hp.
    + destruct (Hlost Hs) as [?|Hlt]; [by left|right]. nia.
    + right. nia.
Qed.

Lemma shr_shifted m l e n :
  0 ≤ m → 0 ≤ n → shifted m (if l is loc_Exact then false else true) n
    (shr (shr_record_of_loc m l) e n).1 ∧ (shr (shr_record_of_loc m l) e n).2 = e + n.
Proof.
  intros Hm Hn. set (lost := if l is loc_Exact then false else true).
  assert (H0 : shifted m lost 0 (shr_record_of_loc m l)).
  { unfold shifted. rewrite Z.div_1_r. destruct l as [|[]]; simpl; split_and!; auto; lia. }
  destruct n as [|p|p]; [|simpl|lia].
  - simpl. by rewrite Z.add_0_r.
  - split; [|done]. apply (iter_pos_ind (shifted m lost) shr_1 p 0); [done|].
    intros. by apply shr_1_shifted.
Qed.

(** Rounding to the nearest goes up only when something was lost. *)
Lemma nearest_cases r :
  round_nearest_even (shr_m r) (loc_of_shr_record r) = shr_m r ∨
  (round_nearest_even (shr_m r) (loc_of_shr_record r) = shr_m r + 1 ∧ shr_r r || shr_s r = true).
Proof. destruct r as [m [] []]; simpl; auto. destruct (Z.even m); auto. Qed.

(** ** Rounding *)

(** A number of the format, written with its sign. *)
Lemma float_ok_finite s p e :
  -149 ≤ e → Z.pos p < 2 ^ 24 → e = -149 ∨ 2 ^ 23 ≤ Z.pos p → e ≤ 104 →
  float_ok (S754_finite s p e).
Proof.
  intros He Hp Hnorm Hmax. split; [done|]. simpl. unfold bounded, canonical_mantissa.
  apply andb_true_iff. split; [|apply Z.leb_le; exact Hmax].
  apply Z.eqb_eq. rewrite fexp32_eq.
  change (Z.pos (digits2_pos p)) with (Zdigits2 (Z.pos p)).
  pose proof (digits_le (Z.pos p) 24 ltac:(lia) Hp ltac:(lia)).
  destruct Hnorm as [->|Hge]; [lia|].
  rewrite (digits_unique (Z.pos p) 24); simpl in *; lia.
Qed.

(** The end of a rounding, when the mantissa has 24 bits, or just one more. *)
Definition finish32 (s : bool) (m f : Z) : spec_float :=
  let '(r, e) := shr_fexp Float32.prec Float32.emax m f loc_Exact in
  match shr_m r with
  | Z0 => S754_zero s
  | Zpos p => if Z.leb e 104 then S754_finite s p e else S754_infinity s
  | Zneg _ => S754_nan
  end.

(** The result that stands for [m * 2^f]. *)
Definition stands_for (s : bool) (u : Z) (r : spec_float) : Prop :=
  if u <? max_units then float_ok r ∧ units r = cond_Zopp s u else r = S754_infinity s.

Lemma finish_small s m f :
  0 ≤ m < 2 ^ 24 → -149 ≤ f → f = -149 ∨ 2 ^ 23 ≤ m →
  stands_for s (m * 2 ^ (f + 149)) (finish32 s m f).
Proof.
  intros Hm Hf Hnorm. pose proof (digits_le m 24 ltac:(lia) ltac:(lia) ltac:(lia)) as Hd.
  assert (Hfin : finish32 s m f = match m with
    | Z0 => S754_zero s
    | Zpos p => if Z.leb f 104 then S754_finite s p f else S754_infinity s
    | Zneg _ => S754_nan end).
  { unfold finish32, shr_fexp. rewrite fexp32_eq.
    destruct (Z.max (Zdigits2 m + f - 24) (-149) - f) eqn:E; [done|lia|done]. }
  rewrite Hfin. clear Hfin. unfold stands_for, max_units.
  assert (Hpow : ∀ k, 0 ≤ k → 0 < 2 ^ k) by (intros; by apply Z.pow_pos_nonneg).
  destruct m as [|p|p]; [..|lia].
  - rewrite Z.mul_0_l. simpl. by destruct s.
  - destruct (Z.leb_spec f 104) as [Hle|Hgt].
    + assert (Hu : Z.pos p * 2 ^ (f + 149) < 2 ^ 277).
      { apply (Z.lt_le_trans _ (2 ^ 24 * 2 ^ (f + 149))).
        - apply Z.mul_lt_mono_pos_r; [apply Hpow|]; lia.
        - rewrite <- Z.pow_add_r by lia. apply Z.pow_le_mono_r; lia. }
      rewrite (proj2 (Z.ltb_lt _ _) Hu). split; [|done]. apply float_ok_finite; lia.
    + assert (Hu : 2 ^ 277 ≤ Z.pos p * 2 ^ (f + 149)).
      { transitivity (2 ^ 23 * 2 ^ (f + 149)).
        - rewrite <- Z.pow_add_r by lia. apply Z.pow_le_mono_r; lia.
        - apply Z.mul_le_mono_nonneg_r; [|lia]. pose proof (Hpow (f + 149)). lia. }
      by rewrite (proj2 (Z.ltb_ge _ _) Hu).
Qed.

Lemma finish_carry s f : -149 ≤ f → stands_for s (2 ^ 24 * 2 ^ (f + 149)) (finish32 s (2 ^ 24) f).
Proof.
  intros Hf.
  assert (Hfin : finish32 s (2 ^ 24) f =
    if Z.leb (f + 1) 104 then S754_finite s 8388608 (f + 1) else S754_infinity s).
  { unfold finish32, shr_fexp. rewrite fexp32_eq. change (Zdigits2 (2 ^ 24)) with 25.
    by replace (Z.max (25 + f - 24) (-149) - f) with 1 by lia. }
  rewrite Hfin. unfold stands_for, max_units. rewrite <- Z.pow_add_r by lia.
  destruct (Z.leb_spec (f + 1) 104) as [Hle|Hgt].
  - assert (Hu : 2 ^ (24 + (f + 149)) < 2 ^ 277) by (apply Z.pow_lt_mono_r; lia).
    rewrite (proj2 (Z.ltb_lt _ _) Hu). split; [apply float_ok_finite; lia|]. simpl. f_equal.
    change 8388608 with (2 ^ 23). rewrite <- Z.pow_add_r by lia. f_equal. lia.
  - assert (Hu : 2 ^ 277 ≤ 2 ^ (24 + (f + 149))) by (apply Z.pow_le_mono_r; lia).
    by rewrite (proj2 (Z.ltb_ge _ _) Hu).
Qed.

(** The quotient has at most 24 bits, and exactly 24 unless the result is
    smaller than the normal numbers. *)
Lemma quotient_bits mx ex :
  0 ≤ mx → ex ≤ fexp32 (Zdigits2 mx + ex) →
  let f := fexp32 (Zdigits2 mx + ex) in
  let q := mx / 2 ^ (f - ex) in
  -149 ≤ f ∧ 0 ≤ q < 2 ^ 24 ∧
  (f = -149 ∨ (2 ^ 23 ≤ q ∧ f = Zdigits2 mx + ex - 24 ∧ 2 ^ (f - ex + 23) ≤ mx)).
Proof.
  intros Hmx Hex f q. set (d := Zdigits2 mx) in *.
  assert (Hf : f = -149 ∨ (f = d + ex - 24 ∧ -149 < f)) by (unfold f; rewrite fexp32_eq; lia).
  assert (Hf' : -149 ≤ f ∧ d + ex - 24 ≤ f) by (unfold f; rewrite fexp32_eq; lia).
  assert (Hpos : 0 < 2 ^ (f - ex)) by (apply Z.pow_pos_nonneg; lia).
  assert (Hlt : q < 2 ^ 24).
  { apply Z.div_lt_upper_bound; [done|]. rewrite <- Z.pow_add_r by lia.
    destruct (decide (mx = 0)) as [->|]; [apply Z.pow_pos_nonneg; lia|].
    destruct (digits_bounds mx) as (_ & _ & Hd); [lia|]. fold d in Hd.
    eapply Z.lt_le_trans; [exact Hd|]. apply Z.pow_le_mono_r; lia. }
  split; [lia|]. split; [split; [by apply Z.div_pos|done]|].
  destruct Hf as [?|[Hfd ?]]; [by left|right]. assert (Hd : 24 ≤ d) by lia.
  assert (Hlo : 2 ^ (f - ex + 23) ≤ mx).
  { destruct (digits_bounds mx) as (_ & Hlo & _).
    { destruct (decide (mx = 0)) as [->|]; [|lia]. unfold d in Hd. simpl in Hd. lia. }
    fold d in Hlo. etransitivity; [|exact Hlo]. apply Z.pow_le_mono_r; lia. }
  split_and!; [|done|done]. apply Z.div_le_lower_bound; [done|]. rewrite <- Z.pow_add_r by lia. done.
Qed.

(** Of what a rounding starts from, the mantissa cut to the format is the
    quotient [q] by a power of two; the result is [q] or, when something was
    lost, maybe [q + 1]. *)
Lemma round_aux_spec s mx ex lx :
  0 ≤ mx → ex ≤ fexp32 (Zdigits2 mx + ex) →
  let f := fexp32 (Zdigits2 mx + ex) in
  let q := mx / 2 ^ (f - ex) in
  ∃ m, (m = q ∨ (m = q + 1 ∧ (lx ≠ loc_Exact ∨ q * 2 ^ (f - ex) < mx))) ∧
    stands_for s (m * 2 ^ (f + 149)) (round32 s mx ex lx).
Proof.
  intros Hmx Hex f q. set (d := Zdigits2 mx) in *.
  destruct (shr_shifted mx lx ex (f - ex) Hmx ltac:(lia)) as [(_ & Hm0 & Hq & Hlost) He].
  set (r := (shr (shr_record_of_loc mx lx) ex (f - ex)).1) in *.
  set (m := round_nearest_even (shr_m r) (loc_of_shr_record r)).
  assert (Hround : round32 s mx ex lx = finish32 s m f).
  { unfold round32, binary_round_aux, finish32. unfold shr_fexp at 1. fold d f.
    destruct (shr (shr_record_of_loc mx lx) ex (f - ex)) as [r' e'] eqn:E.
    simpl in r, He. subst r e'. by replace (ex + (f - ex)) with f by lia. }
  fold q in Hq.
  assert (Hcases : m = q ∨ (m = q + 1 ∧ (lx ≠ loc_Exact ∨ q * 2 ^ (f - ex) < mx))).
  { unfold m. rewrite <- Hq. destruct (nearest_cases r) as [->|[-> Hl]]; [by left|right].
    split; [done|]. destruct (Hlost Hl) as [?|?]; [left|by right]. by intros ->. }
  exists m. split; [done|]. rewrite Hround.
  destruct (quotient_bits mx ex Hmx Hex) as (Hf & Hlt & Hge). fold d in Hf, Hlt, Hge.
  fold f in Hf, Hlt, Hge. fold q in Hlt, Hge.
  destruct (decide (m = 2 ^ 24)) as [->|Hne]; [apply finish_carry; lia|].
  apply finish_small; lia.
Qed.

(** ** Bounds that rounding respects *)

(** [x] units are a number of the format. *)
Definition representable (x : Z) : Prop := 0 ≤ x ∧ (2 ^ Z.max 0 (Z.log2 x - 23) | x).

Lemma representable_shift n k : 0 ≤ n ≤ 2 ^ 24 → 0 ≤ k → representable (n * 2 ^ k).
Proof.
  intros Hn Hk. assert (Hpos : 0 < 2 ^ k) by (apply Z.pow_pos_nonneg; lia).
  split; [nia|]. destruct (decide (n = 0)) as [->|Hn0]; [rewrite Z.mul_0_l; apply Z.divide_0_r|].
  destruct (decide (n = 2 ^ 24)) as [->|Hne].
  - rewrite <- Z.pow_add_r, Z.log2_pow2 by lia.
    exists (2 ^ (24 + k - Z.max 0 (24 + k - 23))). rewrite <- Z.pow_add_r by lia. f_equal. lia.
  - assert (Hlog : Z.log2 (n * 2 ^ k) = k + Z.log2 n) by (apply Z.log2_mul_pow2; lia).
    assert (Hl : Z.log2 n < 24) by (apply Z.log2_lt_pow2; lia).
    rewrite Hlog. exists (n * 2 ^ (k - Z.max 0 (k + Z.log2 n - 23))).
    rewrite <- Z.mul_assoc, <- Z.pow_add_r by lia. do 2 f_equal. lia.
Qed.

Lemma representable_divide x k :
  representable x → 0 ≤ k → 2 ^ (k + 23) ≤ x → (2 ^ k | x).
Proof.
  intros [Hx Hd] Hk Hle. etransitivity; [|exact Hd].
  assert (k + 23 ≤ Z.log2 x).
  { rewrite <- (Z.log2_pow2 (k + 23)) by lia. by apply Z.log2_le_mono. }
  exists (2 ^ (Z.max 0 (Z.log2 x - 23) - k)). rewrite <- Z.pow_add_r by lia. f_equal. lia.
Qed.

(** [mx * 2^ex] against [x] units, both scaled to integers by [2^k] *)
Definition scales (k ex : Z) : Prop := 149 ≤ k ∧ 0 ≤ ex + k.

Lemma scaled_le k ex f q x :
  scales k ex → -149 ≤ f → 0 ≤ f - ex → q * 2 ^ (f - ex) * 2 ^ (ex + k) ≤ x * 2 ^ (k - 149) ↔
  q * 2 ^ (f + 149) ≤ x.
Proof.
  intros [Hk1 Hk2] Hf Hfe.
  rewrite <- Z.mul_assoc, <- Z.pow_add_r by lia.
  replace (f - ex + (ex + k)) with (f + 149 + (k - 149)) by lia.
  rewrite Z.pow_add_r, Z.mul_assoc by lia. symmetry. apply Z.mul_le_mono_pos_r.
  apply Z.pow_pos_nonneg; lia.
Qed.

Lemma round_bounds s mx ex lx k :
  0 ≤ mx → ex ≤ fexp32 (Zdigits2 mx + ex) → scales k ex →
  ∃ u, 0 ≤ u ∧ stands_for s u (round32 s mx ex lx) ∧
    (∀ x, representable x →
       (mx * 2 ^ (ex + k) < x * 2 ^ (k - 149) ∨
        (lx = loc_Exact ∧ mx * 2 ^ (ex + k) ≤ x * 2 ^ (k - 149))) → u ≤ x) ∧
    (∀ x, representable x → x * 2 ^ (k - 149) ≤ mx * 2 ^ (ex + k) → x ≤ u).
Proof.
  intros Hmx Hex Hk. destruct (round_aux_spec s mx ex lx Hmx Hex) as (m & Hm & Hr).
  destruct (quotient_bits mx ex Hmx Hex) as (Hf & Hq & Hnorm).
  set (f := fexp32 (Zdigits2 mx + ex)) in *. set (q := mx / 2 ^ (f - ex)) in *.
  assert (Hpos : 0 < 2 ^ (f - ex)) by (apply Z.pow_pos_nonneg; lia).
  assert (Hpk : 0 < 2 ^ (ex + k)) by (destruct Hk; apply Z.pow_pos_nonneg; lia).
  assert (Hpu : 0 < 2 ^ (f + 149)) by (apply Z.pow_pos_nonneg; lia).
  assert (Hqle : q * 2 ^ (f - ex) ≤ mx) by (rewrite Z.mul_comm; by apply Z.mul_div_le).
  assert (Hqgt : mx < (q + 1) * 2 ^ (f - ex)).
  { rewrite Z.mul_comm. replace (q + 1) with (Z.succ q) by lia. by apply Z.mul_succ_div_gt. }
  exists (m * 2 ^ (f + 149)). split; [apply Z.mul_nonneg_nonneg; lia|]. split; [done|]. split.
  - intros x Hx Hle. assert (Hle' : mx * 2 ^ (ex + k) ≤ x * 2 ^ (k - 149)) by lia.
    assert (Hqx : q * 2 ^ (f + 149) ≤ x).
    { apply (scaled_le k ex f q x Hk Hf); [lia|]. etransitivity; [|exact Hle'].
      apply Z.mul_le_mono_nonneg_r; lia. }
    destruct Hm as [->|[-> Hlost]]; [done|].
    assert (Hlt : q * 2 ^ (f + 149) < x).
    { apply Z.nle_gt. intros Hge. apply Z.nlt_ge in Hge.
      assert (Hx' : x * 2 ^ (k - 149) ≤ q * 2 ^ (f - ex) * 2 ^ (ex + k)).
      { apply Z.nlt_ge. intros Hc. apply Hge.
        assert (Hc' : (q * 2 ^ (f + 149)) * 2 ^ (k - 149) < x * 2 ^ (k - 149)).
        { destruct Hk. rewrite <- Z.mul_assoc, <- Z.pow_add_r in Hc |- * by lia.
          by replace (f + 149 + (k - 149)) with (f - ex + (ex + k)) by lia. }
        nia. }
      destruct Hlost as [Hn|Hl]; [destruct Hle as [?|[? _]]; [nia|done]|nia]. }
    assert (Hdiv : (2 ^ (f + 149) | x)).
    { destruct Hnorm as [->|(_ & _ & Hbig)]; [apply Z.divide_1_l|].
      apply representable_divide; [done|lia|].
      destruct Hk as [Hk1 Hk2]. apply (Z.mul_le_mono_pos_r _ _ (2 ^ (k - 149))); [apply Z.pow_pos_nonneg; lia|].
      etransitivity; [|exact Hle']. etransitivity; [|apply Z.mul_le_mono_nonneg_r; [lia|exact Hbig]].
      rewrite <- !Z.pow_add_r by lia. apply Z.pow_le_mono_r; lia. }
    destruct Hdiv as [y ->]. assert (q < y) by nia. nia.
  - intros x Hx Hle.
    assert (Hx1 : x < (q + 1) * 2 ^ (f + 149)).
    { apply Z.nle_gt. intros Hge. apply (scaled_le k ex f (q + 1) x Hk Hf) in Hge; [|lia]. nia. }
    destruct Hm as [->|[-> _]]; [|lia].
    destruct (Z.le_gt_cases (2 ^ (f + 149 + 23)) x) as [Hb|Hs].
    + apply representable_divide in Hb as [y ->]; [|done|lia].
      assert (y < q + 1) by nia. nia.
    + destruct Hnorm as [Hf0|(Hq23 & _ & _)].
      * rewrite Hf0 in *. simpl in *. lia.
      * rewrite Z.pow_add_r in Hs by lia. nia.
Qed.
