(* ===== verification/FloatBounds.v ===== *)
(** * Bounds of binary32 operations

    For finite operands, an operation whose exact result is bounded by a number
    of the format returns a finite number within that bound.  [within b f] says
    that [f] is finite and at most [b], an integer, in magnitude. *)
From Stdlib Require Import ZArith Lia Floats.SpecFloat.
From stdpp Require Import prelude.
From S2P Require Import Prelude CxxFloat FloatRounding.

(** A result of an operation: a number of the format or an overflow *)
Definition rounded_ok (r : spec_float) : Prop := float_ok r ∨ ∃ s, r = S754_infinity s.

Lemma stands_for_ok s u r : stands_for s u r → rounded_ok r.
Proof. unfold stands_for, rounded_ok. case_bool; [intros [? _]; auto|eauto]. Qed.

Lemma stands_for_below s u r x :
  stands_for s u r → u ≤ x < max_units → float_ok r ∧ units r = cond_Zopp s u.
Proof. unfold stands_for. intros Hr Hu. by rewrite (proj2 (Z.ltb_lt u max_units)) in Hr by lia. Qed.

(** What a number of the format consists of *)
Lemma float_ok_inv s p e :
  float_ok (S754_finite s p e) →
  -149 ≤ e ≤ 104 ∧ Z.pos p < 2 ^ 24 ∧ (e = -149 ∨ 2 ^ 23 ≤ Z.pos p).
Proof.
  intros [_ [Hc He]%andb_true_iff]. apply Z.leb_le in He. apply Z.eqb_eq in Hc.
  rewrite fexp32_eq in Hc. change (Z.pos (digits2_pos p)) with (Zdigits2 (Z.pos p)) in Hc.
  change (Float32.emax - Float32.prec) with 104 in He.
  destruct (digits_bounds (Z.pos p)) as (Hd & Hlo & Hhi); [lia|].
  split; [lia|]. split.
  - eapply Z.lt_le_trans; [exact Hhi|]. apply Z.pow_le_mono_r; lia.
  - destruct (decide (e = -149)); [by left|right].
    replace 23 with (Zdigits2 (Z.pos p) - 1) by lia. done.
Qed.

Lemma units_finite s p e : Z.abs (units (S754_finite s p e)) = Z.pos p * 2 ^ (e + 149).
Proof.
  simpl. assert (0 ≤ Z.pos p * 2 ^ (e + 149)) by (apply Z.mul_nonneg_nonneg; [|apply Z.pow_nonneg]; lia).
  destruct s; simpl; lia.
Qed.

Lemma units_zero f : float_ok f → units f = 0 → ∃ s, f = S754_zero s.
Proof.
  intros Hf Hu. destruct f as [s|s| |s p e]; try (exfalso; by destruct Hf).
  - eauto.
  - apply float_ok_inv in Hf as [He _]. pose proof (units_finite s p e) as Ha. rewrite Hu in Ha.
    pose proof (Z.pow_pos_nonneg 2 (e + 149)). simpl in Ha. nia.
Qed.

(** ** The order *)

Lemma finite_units_lt p e q g :
  -149 ≤ e → e < g → Z.pos p < 2 ^ 24 → 2 ^ 23 ≤ Z.pos q →
  Z.pos p * 2 ^ (e + 149) < Z.pos q * 2 ^ (g + 149).
Proof.
  intros He Hg Hp Hq. pose proof (Z.pow_pos_nonneg 2 (e + 149) ltac:(lia) ltac:(lia)).
  assert (Hle : 2 * 2 ^ (e + 149) ≤ 2 ^ (g + 149)).
  { rewrite <- Z.pow_succ_r by lia. apply Z.pow_le_mono_r; lia. }
  nia.
Qed.

Lemma finite_units_compare p e q g :
  -149 ≤ e → Z.pos p < 2 ^ 24 → e = -149 ∨ 2 ^ 23 ≤ Z.pos p →
  -149 ≤ g → Z.pos q < 2 ^ 24 → g = -149 ∨ 2 ^ 23 ≤ Z.pos q →
  Z.pos p * 2 ^ (e + 149) < Z.pos q * 2 ^ (g + 149) ↔ e < g ∨ (e = g ∧ Z.pos p < Z.pos q).
Proof.
  intros. destruct (Z.lt_trichotomy e g) as [?|[->|?]].
  - split; [by left|]. intros _. apply finite_units_lt; lia.
  - pose proof (Z.pow_pos_nonneg 2 (g + 149) ltac:(lia) ltac:(lia)).
    rewrite <- Z.mul_lt_mono_pos_r by done. lia.
  - split; [|lia]. intros Hlt. exfalso.
    pose proof (finite_units_lt q g p e ltac:(lia) ltac:(lia) ltac:(lia) ltac:(lia)). lia.
Qed.

(** Comparing numbers of the format compares their values. *)
Lemma ltb_units a b :
  float_ok a → float_ok b → Float32.ltb a b = true ↔ units a < units b.
Proof.
  intros Ha Hb.
  assert (Hnum : ∀ f, float_ok f → Float32.is_number f = true) by (by intros [] []).
  rewrite ltb_key by auto.
  assert (Hpos : ∀ s p e, float_ok (S754_finite s p e) → 0 < Z.pos p * 2 ^ (e + 149)).
  { intros s p e [He _]%float_ok_inv. pose proof (Z.pow_pos_nonneg 2 (e + 149)). nia. }
  destruct a as [sa|sa| |sa p e]; try (exfalso; by destruct Ha).
  - destruct b as [sb|sb| |sb q g]; try (exfalso; by destruct Hb).
    + simpl. lia.
    + pose proof (Hpos _ _ _ Hb). destruct sb; simpl; lia.
  - pose proof (Hpos _ _ _ Ha). destruct b as [sb|sb| |sb q g]; try (exfalso; by destruct Hb).
    + destruct sa; simpl; lia.
    + pose proof (Hpos _ _ _ Hb). apply float_ok_inv in Ha as (? & ? & ?), Hb as (? & ? & ?).
      pose proof (finite_units_compare p e q g ltac:(lia) ltac:(lia) ltac:(lia) ltac:(lia) ltac:(lia) ltac:(lia)).
      pose proof (finite_units_compare q g p e ltac:(lia) ltac:(lia) ltac:(lia) ltac:(lia) ltac:(lia) ltac:(lia)).
      destruct sa, sb; simpl; [|lia|lia|]; lia.
Qed.

(** ** Normalizing an integer mantissa *)

Lemma iter_xO p d : Z.pos (Pos.iter xO p d) = Z.pos p * 2 ^ Z.pos d.
Proof.
  revert p. induction d as [|d IH] using Pos.peano_ind; intros p; [simpl; lia|].
  rewrite Pos.iter_succ, Pos2Z.inj_xO, IH, Pos2Z.inj_succ, Z.pow_succ_r by lia. lia.
Qed.

(** Aligning keeps the value and brings the exponent down to at most [g]. *)
Lemma shl_align_spec p e g :
  let '(q, e') := shl_align p e g in
  e' = Z.min e g ∧ Z.pos q = Z.pos p * 2 ^ (e - e').
Proof.
  unfold shl_align. destruct (g - e) as [|d|d] eqn:E.
  - split; [lia|]. rewrite Z.sub_diag. lia.
  - split; [lia|]. rewrite Z.sub_diag. lia.
  - split; [lia|]. rewrite iter_xO. do 2 f_equal. lia.
Qed.

Lemma digits_shift p n : 0 ≤ n → Zdigits2 (Z.pos p * 2 ^ n) = Zdigits2 (Z.pos p) + n.
Proof.
  intros Hn. destruct (digits_bounds (Z.pos p)) as (Hd & Hlo & Hhi); [lia|].
  pose proof (Z.pow_pos_nonneg 2 n ltac:(lia) Hn).
  apply digits_unique; [lia|].
  replace (Zdigits2 (Z.pos p) + n - 1) with (Zdigits2 (Z.pos p) - 1 + n) by lia.
  rewrite !Z.pow_add_r by lia. nia.
Qed.

(** [binary_round]: an aligned mantissa that rounds to the same value *)
Lemma binary_round_aligned s p e :
  ∃ q g, binary_round Float32.prec Float32.emax s p e = round32 s (Z.pos q) g loc_Exact ∧
    g ≤ e ∧ (g < e → -149 ≤ g) ∧ g ≤ fexp32 (Zdigits2 (Z.pos q) + g) ∧
    Z.pos q = Z.pos p * 2 ^ (e - g).
Proof.
  unfold binary_round. set (f := fexp32 (Z.pos (digits2_pos p) + e)).
  pose proof (shl_align_spec p e f) as Hal.
  destruct (shl_align p e f) as [q g]. destruct Hal as [Hg Hq]. exists q, g.
  change (Z.pos (digits2_pos p)) with (Zdigits2 (Z.pos p)) in f.
  assert (Hf : -149 ≤ f) by (unfold f; rewrite fexp32_eq; lia).
  split_and!; [done|lia|lia| |done].
  rewrite Hq, digits_shift by lia. replace (_ + (e - g) + g) with (Zdigits2 (Z.pos p) + e) by lia.
  fold f. lia.
Qed.

Lemma binary_round_ok s p e : rounded_ok (binary_round Float32.prec Float32.emax s p e).
Proof.
  destruct (binary_round_aligned s p e) as (q & g & -> & _ & _ & Hfe & _).
  destruct (round_aux_spec s (Z.pos q) g loc_Exact ltac:(lia) Hfe) as (m & _ & Hr).
  by eapply stands_for_ok.
Qed.

Lemma binary_normalize_ok m e z : rounded_ok (binary_normalize Float32.prec Float32.emax m e z).
Proof. destruct m; simpl; [by left|apply binary_round_ok..]. Qed.

(** How an operation rounds the exact value [v], in units: it keeps to any
    bound of the format, on both sides. *)
Record rounds (v : Z) (r : spec_float) : Prop := mk_rounds {
  ro_above : ∀ x, representable x → Z.abs v ≤ x → x < max_units →
    float_ok r ∧ Z.abs (units r) ≤ x;
  ro_below : ∀ x, representable x → x ≤ v → float_ok r → x ≤ units r;
  ro_neg : v ≤ 0 → float_ok r → units r ≤ 0;
}.

Lemma rounds_nonneg v r : rounds v r → 0 ≤ v → float_ok r → 0 ≤ units r.
Proof. intros Hr Hv. apply (ro_below _ _ Hr); [|done]. split; [lia|apply Z.divide_0_r]. Qed.

Lemma stands_for_units s u r : stands_for s u r → float_ok r → units r = cond_Zopp s u.
Proof. unfold stands_for. case_bool; [by intros [_ ?]|]. intros ->. by intros []. Qed.

Lemma binary_round_rounds s p e :
  -149 ≤ e → rounds (cond_Zopp s (Z.pos p * 2 ^ (e + 149)))
    (binary_round Float32.prec Float32.emax s p e).
Proof.
  intros He. destruct (binary_round_aligned s p e) as (q & g & -> & Hge & Hg & Hfe & Hq).
  destruct (round_bounds s (Z.pos q) g loc_Exact 149 ltac:(lia) Hfe ltac:(split; lia))
    as (u & Hu & Hr & Hup & Hlo).
  assert (Hv : Z.pos q * 2 ^ (g + 149) = Z.pos p * 2 ^ (e + 149)).
  { rewrite Hq, <- Z.mul_assoc, <- Z.pow_add_r by lia. do 2 f_equal. lia. }
  rewrite Hv in *. change (2 ^ (149 - 149)) with 1 in *.
  assert (0 ≤ Z.pos p * 2 ^ (e + 149)) by (apply Z.mul_nonneg_nonneg; [|apply Z.pow_nonneg]; lia).
  set (v := Z.pos p * 2 ^ (e + 149)) in *. constructor.
  - intros x Hx Hle Hmax. assert (u ≤ x) by (apply Hup; [done|right; split; [done|destruct s; simpl in Hle; lia]]).
    destruct (stands_for_below _ _ _ x Hr) as [Hok ->]; [lia|]. split; [done|]. destruct s; simpl; lia.
  - intros x Hx Hle Hok. rewrite (stands_for_units _ _ _ Hr Hok).
    destruct s; simpl in *; [|apply Hlo; [done|lia]].
    assert (x = 0) as -> by (destruct Hx; lia). assert (v = 0) by lia.
    pose proof (Z.pow_pos_nonneg 2 (e + 149)). nia.
  - intros Hle Hok. rewrite (stands_for_units _ _ _ Hr Hok). destruct s; simpl in *; [lia|].
    pose proof (Z.pow_pos_nonneg 2 (e + 149)). nia.
Qed.

Lemma binary_normalize_rounds m e z :
  -149 ≤ e → rounds (m * 2 ^ (e + 149)) (binary_normalize Float32.prec Float32.emax m e z).
Proof.
  intros He. destruct m as [|p|p]; simpl binary_normalize.
  - constructor; simpl; [|lia|lia]. intros x [? _] _ _. by split.
  - apply (binary_round_rounds false p e He).
  - pose proof (binary_round_rounds true p e He) as Hr. simpl in Hr.
    by replace (Z.neg p * 2 ^ (e + 149)) with (- (Z.pos p * 2 ^ (e + 149))) by lia.
Qed.

(** ** The operations *)

(** A number of the format is its own rounding. *)
Lemma rounds_self f : float_ok f → rounds (units f) f.
Proof. intros Hf. constructor; auto. Qed.

Lemma aligned_units s p e g :
  g ≤ e → -149 ≤ g →
  cond_Zopp s (Z.pos (shl_align p e g).1) * 2 ^ (g + 149) = units (S754_finite s p e).
Proof.
  intros Hg Hg'. pose proof (shl_align_spec p e g) as Hal.
  destruct (shl_align p e g) as [q e']. destruct Hal as [-> Hq]. simpl.
  replace (Z.min e g) with g in Hq by lia. rewrite Hq.
  assert (Hpow : 2 ^ (e + 149) = 2 ^ (e - g) * 2 ^ (g + 149)).
  { rewrite <- Z.pow_add_r by lia. f_equal. lia. }
  rewrite Hpow. destruct s; simpl cond_Zopp; lia.
Qed.

Lemma add_rounds a b :
  float_ok a → float_ok b → rounds (units a + units b) (Float32.add a b).
Proof.
  intros Ha Hb. destruct a as [sa|sa| |sa p e]; try (exfalso; by destruct Ha).
  - destruct b as [sb|sb| |sb q g]; try (exfalso; by destruct Hb).
    + destruct sa, sb; by apply (rounds_self (S754_zero _)).
    + by apply (rounds_self (S754_finite sb q g)).
  - destruct b as [sb|sb| |sb q g]; try (exfalso; by destruct Hb).
    + rewrite Z.add_0_r. by apply rounds_self.
    + apply float_ok_inv in Ha as [He _], Hb as [Hg _].
      unfold Float32.add, SFadd. set (ez := Z.min e g).
      rewrite <- (aligned_units sa p e ez), <- (aligned_units sb q g ez), <- Z.mul_add_distr_r by lia.
      apply binary_normalize_rounds. lia.
Qed.

Lemma SFopp_ok f : float_ok f → float_ok (SFopp f).
Proof. by destruct f as [[]|[]| |[] p e]. Qed.

Lemma SFopp_units f : units (SFopp f) = - units f.
Proof. destruct f as [[]|[]| |[] p e]; simpl; lia. Qed.

Lemma sub_add a b : float_ok a → float_ok b → Float32.sub a b = Float32.add a (SFopp b).
Proof.
  intros Ha Hb. destruct a as [sa|sa| |sa p e]; try (exfalso; by destruct Ha);
    destruct b as [sb|sb| |sb q g]; try (exfalso; by destruct Hb); try done.
  - by destruct sa, sb.
  - unfold Float32.sub, Float32.add, SFsub, SFadd, SFopp. cbv zeta. f_equal.
    destruct sb; simpl cond_Zopp; lia.
Qed.

Lemma sub_rounds a b :
  float_ok a → float_ok b → rounds (units a - units b) (Float32.sub a b).
Proof.
  intros Ha Hb. rewrite sub_add, <- Z.add_opp_r, <- SFopp_units by done.
  by apply add_rounds, SFopp_ok.
Qed.

Lemma of_Z_rounds n : rounds (n * one_units) (Float32.of_Z n).
Proof. apply (binary_normalize_rounds n 0). lia. Qed.

(** What is left of a rounding of which only the magnitude matters *)
Lemma round32_magnitude s mx ex lx k :
  0 ≤ mx → ex ≤ fexp32 (Zdigits2 mx + ex) → scales k ex →
  let r := round32 s mx ex lx in
  rounded_ok r ∧
  (∀ x, representable x → x < max_units →
     (mx * 2 ^ (ex + k) < x * 2 ^ (k - 149) ∨
      (lx = loc_Exact ∧ mx * 2 ^ (ex + k) ≤ x * 2 ^ (k - 149))) →
     float_ok r ∧ Z.abs (units r) ≤ x) ∧
  (∀ x, representable x → x * 2 ^ (k - 149) ≤ mx * 2 ^ (ex + k) → float_ok r → x ≤ Z.abs (units r)).
Proof.
  intros Hm Hfe Hk r. destruct (round_bounds s mx ex lx k Hm Hfe Hk) as (u & Hu & Hr & Hup & Hlo).
  split; [by eapply stands_for_ok|]. split.
  - intros x Hx Hmax Hle. specialize (Hup x Hx Hle).
    destruct (stands_for_below _ _ _ x Hr) as [? Heq]; [lia|]. fold r in Heq.
    split; [done|]. rewrite Heq. destruct s; simpl; lia.
  - intros x Hx Hle Hok. specialize (Hlo x Hx Hle). rewrite (stands_for_units _ _ r Hr Hok).
    destruct s; simpl; lia.
Qed.

Lemma mul_exponent p e q g :
  -149 ≤ e → e = -149 ∨ 2 ^ 23 ≤ Z.pos p → -149 ≤ g → g = -149 ∨ 2 ^ 23 ≤ Z.pos q →
  e + g ≤ fexp32 (Zdigits2 (Z.pos (p * q)) + (e + g)).
Proof.
  intros. rewrite fexp32_eq. destruct (decide (e + g ≤ -149)); [lia|].
  assert (Hd : 24 ≤ Zdigits2 (Z.pos (p * q))); [|lia].
  destruct (digits_bounds (Z.pos (p * q))) as (_ & _ & Hhi); [lia|].
  apply Z.nlt_ge. intros Hlt. rewrite Pos2Z.inj_mul in Hhi.
  assert (Hle : 2 ^ Zdigits2 (Z.pos (p * q)) ≤ 2 ^ 23) by (apply Z.pow_le_mono_r; lia).
  rewrite Pos2Z.inj_mul in Hle. assert (2 ^ 23 ≤ Z.pos p * Z.pos q) by nia. lia.
Qed.

Lemma mul_bound a b x :
  float_ok a → float_ok b → representable x → x < max_units →
  Z.abs (units a) * Z.abs (units b) ≤ x * one_units →
  float_ok (Float32.mul a b) ∧ Z.abs (units (Float32.mul a b)) ≤ x.
Proof.
  intros Ha Hb Hx Hmax Hle. assert (Hx0 : 0 ≤ x) by apply Hx.
  destruct a as [sa|sa| |sa p e]; try (exfalso; by destruct Ha);
    destruct b as [sb|sb| |sb q g]; try (exfalso; by destruct Hb); try by split.
  rewrite !units_finite in Hle. apply float_ok_inv in Ha as (? & _ & ?), Hb as (? & _ & ?).
  destruct (round32_magnitude (xorb sa sb) (Z.pos (p * q)) (e + g) loc_Exact 298 ltac:(lia)
    ltac:(apply mul_exponent; lia) ltac:(split; lia)) as (_ & Hup & _).
  apply Hup; [done..|]. right. split; [done|].
  replace (e + g + 298) with (e + 149 + (g + 149)) by lia. rewrite Z.pow_add_r by lia.
  change (2 ^ (298 - 149)) with one_units. rewrite Pos2Z.inj_mul. nia.
Qed.

(** *** Division *)

(** The quotient of the mantissas, and what is lost *)
Lemma div_core p e q g :
  let '(m, ex, l) := SFdiv_core_binary Float32.prec Float32.emax (Z.pos p) e (Z.pos q) g in
  ∃ s, 0 ≤ s ∧ ex = e - g - s ∧ 0 ≤ m ∧
    m * Z.pos q ≤ Z.pos p * 2 ^ s < (m + 1) * Z.pos q ∧
    (l = loc_Exact ∨ m * Z.pos q < Z.pos p * 2 ^ s) ∧
    ex ≤ fexp32 (Zdigits2 m + ex).
Proof.
  unfold SFdiv_core_binary. set (d1 := Zdigits2 (Z.pos p)). set (d2 := Zdigits2 (Z.pos q)).
  set (f := fexp32 (d1 + e - (d2 + g))). set (ex := Z.min f (e - g)). set (s := e - g - ex).
  assert (Hs : 0 ≤ s) by lia.
  assert (Hm' : match s with Z0 => Z.pos p | Z.pos _ => Z.shiftl (Z.pos p) s | Z.neg _ => 0 end
                = Z.pos p * 2 ^ s).
  { destruct s as [|s'|s']; [lia|by apply Z.shiftl_mul_pow2|lia]. }
  rewrite Hm'. clear Hm'. pose proof (Z.pow_pos_nonneg 2 s ltac:(lia) Hs) as Hpow.
  set (n := Z.pos p * 2 ^ s) in *. assert (Hn : 0 < n) by (unfold n; nia).
  pose proof (Z_div_mod n (Z.pos q) ltac:(lia)) as Hdiv.
  destruct (Z.div_eucl n (Z.pos q)) as [m r]. destruct Hdiv as [Hdiv Hr].
  assert (Hm : 0 ≤ m) by nia.
  exists s. split_and!; [done|lia|done|lia|nia| |].
  - unfold new_location, new_location_even, new_location_odd.
    destruct (decide (r = 0)) as [->|]; [left; by destruct (Z.even _)|right; lia].
  - assert (Hdm : d1 + s - d2 ≤ Zdigits2 m).
    { destruct (digits_bounds (Z.pos p)) as (Hd1 & Hp & _); [lia|].
      destruct (digits_bounds (Z.pos q)) as (Hd2 & _ & Hq); [lia|]. fold d1 in Hd1, Hp. fold d2 in Hd2, Hq.
      apply Z.nlt_ge. intros Hlt.
      assert (Hm2 : m < 2 ^ (d1 + s - d2 - 1)).
      { destruct (decide (m = 0)) as [->|]; [simpl in Hlt; apply Z.pow_pos_nonneg; lia|].
        destruct (digits_bounds m) as (_ & _ & Hmm); [lia|].
        eapply Z.lt_le_trans; [exact Hmm|]. apply Z.pow_le_mono_r; lia. }
      assert (0 ≤ Zdigits2 m) by (destruct m; simpl; lia).
      assert (Hlow : 2 ^ (d1 - 1 + s) ≤ n) by (unfold n; rewrite Z.pow_add_r by lia; nia).
      assert (Heq : 2 ^ (d1 - 1 + s) = 2 ^ (d1 + s - d2 - 1) * 2 ^ d2).
      { rewrite <- Z.pow_add_r by lia. f_equal. lia. }
      nia. }
    rewrite fexp32_eq. assert (ex ≤ f) by lia. unfold f in *. rewrite fexp32_eq in *. lia.
Qed.

Lemma div_result a b : rounded_ok (Float32.div (S754_finite false a 0) (S754_finite false b 0)).
Proof.
  unfold Float32.div, SFdiv. pose proof (div_core a 0 b 0) as Hc.
  destruct (SFdiv_core_binary _ _ _ _ _ _) as [[m ex] l].
  destruct Hc as (s & _ & _ & Hm & _ & _ & Hfe).
  destruct (round_aux_spec (xorb false false) m ex l Hm Hfe) as (? & _ & Hr). by eapply stands_for_ok.
Qed.

Lemma div_bound a b x :
  float_ok a → float_ok b → representable x → x < max_units → units b ≠ 0 →
  Z.abs (units a) * one_units ≤ x * Z.abs (units b) →
  float_ok (Float32.div a b) ∧ Z.abs (units (Float32.div a b)) ≤ x.
Proof.
  intros Ha Hb Hx Hmax Hnz Hle. assert (Hx0 : 0 ≤ x) by apply Hx.
  destruct b as [sb|sb| |sb q g]; try done.
  destruct a as [sa|sa| |sa p e]; try (exfalso; by destruct Ha); try by split.
  rewrite !units_finite in Hle. apply float_ok_inv in Ha as (He & _), Hb as (Hg & _).
  unfold Float32.div, SFdiv. pose proof (div_core p e q g) as Hc.
  destruct (SFdiv_core_binary _ _ _ _ _ _) as [[m ex] l].
  destruct Hc as (s & Hs & Hex & Hm & Hmq & Hl & Hfe). set (k := Z.max 149 (- ex)).
  destruct (round32_magnitude (xorb sa sb) m ex l k Hm Hfe ltac:(split; lia)) as (_ & Hup & _).
  apply Hup; [done..|]. clear Hup.
  pose proof (Z.pow_pos_nonneg 2 (ex + k) ltac:(lia) ltac:(lia)) as Hpos.
  pose proof (Z.pow_pos_nonneg 2 (g + 149) ltac:(lia) ltac:(lia)) as Hpg.
  assert (Hub : 0 < Z.pos q * 2 ^ (g + 149)) by nia.
  assert (Hbase : Z.pos p * 2 ^ s * 2 ^ (ex + k) * 2 ^ (g + 149) ≤
                  x * 2 ^ (k - 149) * (Z.pos q * 2 ^ (g + 149))).
  { assert (Heq : Z.pos p * 2 ^ s * 2 ^ (ex + k) * 2 ^ (g + 149) =
                  Z.pos p * 2 ^ (e + 149) * one_units * 2 ^ (k - 149)).
    { unfold one_units. rewrite <- !Z.mul_assoc, <- !Z.pow_add_r by lia. do 2 f_equal. lia. }
    rewrite Heq. pose proof (Z.pow_pos_nonneg 2 (k - 149) ltac:(lia) ltac:(lia)). nia. }
  destruct Hl as [->|Hl]; [right; split; [done|]|left].
  - apply (Z.mul_le_mono_pos_r _ _ _ Hub). etransitivity; [|exact Hbase]. nia.
  - apply (Z.mul_lt_mono_pos_r _ _ _ Hub). eapply Z.lt_le_trans; [|exact Hbase]. nia.
Qed.

(** *** Square root *)

Lemma sqrt_core p e :
  let '(m, ex, l) := SFsqrt_core_binary Float32.prec Float32.emax (Z.pos p) e in
  ∃ s, 0 ≤ s ∧ e = 2 * ex + s ∧ 0 ≤ m ∧ m * m ≤ Z.pos p * 2 ^ s < (m + 1) * (m + 1) ∧
    ex ≤ fexp32 (Zdigits2 m + ex).
Proof.
  unfold SFsqrt_core_binary. set (d := Zdigits2 (Z.pos p)).
  set (f := fexp32 (Z.div2 (d + e + 1))). set (ex := Z.min f (Z.div2 e)). set (s := e - 2 * ex).
  assert (Hs : 0 ≤ s) by (pose proof (Z.div2_div e); pose proof (Z.mul_div_le e 2); lia).
  assert (Hm' : match s with Z0 => Z.pos p | Z.pos _ => Z.shiftl (Z.pos p) s | Z.neg _ => 0 end
                = Z.pos p * 2 ^ s).
  { destruct s as [|s'|s']; [lia|by apply Z.shiftl_mul_pow2|lia]. }
  rewrite Hm'. clear Hm'. pose proof (Z.pow_pos_nonneg 2 s ltac:(lia) Hs) as Hpow.
  set (n := Z.pos p * 2 ^ s) in *. assert (Hn : 0 < n) by (unfold n; nia).
  pose proof (Z.sqrtrem_spec n ltac:(lia)) as Hsq. destruct (Z.sqrtrem n) as [m r].
  assert (Hm : 0 ≤ m) by lia.
  exists s. split_and!; [done|lia|done|lia|nia|].
  assert (Hdm : Z.div2 (d + e + 1) ≤ Zdigits2 m + ex).
  { rewrite Z.div2_div. apply Z.nlt_ge. intros Hlt.
    assert (Hlt2 : 2 * (Zdigits2 m + ex) + 2 ≤ d + e + 1).
    { pose proof (Z.mul_div_le (d + e + 1) 2). lia. }
    assert (Hm1 : 1 ≤ m) by nia.
    destruct (digits_bounds m) as (Hd1 & _ & Hmm); [lia|].
    destruct (digits_bounds (Z.pos p)) as (Hd & Hp & _); [lia|]. fold d in Hd, Hp.
    assert (Hnlt : n < 2 ^ (2 * Zdigits2 m)).
    { replace (2 * Zdigits2 m) with (Zdigits2 m + Zdigits2 m) by lia. rewrite Z.pow_add_r by lia. nia. }
    assert (Hnge : 2 ^ (d - 1 + s) ≤ n) by (unfold n; rewrite Z.pow_add_r by lia; nia).
    assert (Hpw : 2 ^ (2 * Zdigits2 m) ≤ 2 ^ (d - 1 + s)) by (apply Z.pow_le_mono_r; lia). lia. }
  rewrite fexp32_eq. assert (ex ≤ f) by lia. unfold f in *. rewrite fexp32_eq in *. lia.
Qed.

(** The root of a number between 1 and [2^23] is at least 1 and finite. *)
Lemma sqrt_bound f :
  float_ok f → one_units ≤ units f ≤ 2 ^ 23 * one_units →
  float_ok (Float32.sqrt f) ∧ one_units ≤ Z.abs (units (Float32.sqrt f)) ∧ 0 ≤ units (Float32.sqrt f).
Proof.
  intros Hf Hu. assert (Hone : 0 < one_units) by done.
  destruct f as [s|s| |[] p e]; try (exfalso; by destruct Hf); simpl units in Hu; [lia| |].
  { pose proof (Z.pow_nonneg 2 (e + 149)). nia. }
  apply float_ok_inv in Hf as (He & Hp & Hnorm).
  assert (Hev : Z.pos p * 2 ^ (e + 149) ≤ 2 ^ 23 * 2 ^ 149) by apply Hu.
  assert (He0 : e ≤ 0).
  { apply Z.nlt_ge. intros Hgt.
    assert (2 ^ 1 * 2 ^ 149 ≤ 2 ^ (e + 149)) by (rewrite <- Z.pow_add_r by lia; apply Z.pow_le_mono_r; lia).
    assert (2 ^ 23 ≤ Z.pos p) by lia. assert (0 < 2 ^ 149) by done. nia. }
  unfold Float32.sqrt, SFsqrt. pose proof (sqrt_core p e) as Hc.
  destruct (SFsqrt_core_binary _ _ _ _) as [[m ex] l].
  destruct Hc as (s & Hs & Hex & Hm & Hmm & Hfe). assert (Hex0 : ex ≤ 0) by lia.
  set (k := Z.max 149 (- ex)).
  destruct (round32_magnitude false m ex l k Hm Hfe ltac:(split; lia)) as (_ & Hup & Hlo).
  pose proof (Z.pow_pos_nonneg 2 s ltac:(lia) Hs) as Hpow.
  assert (Hlow : 2 ^ (- ex) ≤ m).
  { assert (Hn : 2 ^ (- ex) * 2 ^ (- ex) ≤ Z.pos p * 2 ^ s).
    { rewrite <- Z.pow_add_r by lia.
      assert (H1 : 2 ^ 149 ≤ Z.pos p * 2 ^ (e + 149)) by apply Hu.
      destruct (Z.le_gt_cases (- e) 149) as [Hc|Hc].
      - replace 149 with (- e + (e + 149)) in H1 at 1 by lia. rewrite Z.pow_add_r in H1 by lia.
        assert (Hpe : 0 < 2 ^ (e + 149)) by (apply Z.pow_pos_nonneg; lia).
        replace (- ex + - ex) with (- e + s) by lia. rewrite Z.pow_add_r by lia. nia.
      - lia. }
    pose proof (Z.pow_pos_nonneg 2 (- ex) ltac:(lia) ltac:(lia)). nia. }
  assert (Hhigh : m < 2 ^ 24 * 2 ^ (- ex)).
  { assert (Hn : Z.pos p * 2 ^ s < 2 ^ 24 * 2 ^ (- ex) * (2 ^ 24 * 2 ^ (- ex))).
    { apply (Z.lt_le_trans _ (2 ^ 24 * 2 ^ s)); [by apply Z.mul_lt_mono_pos_r|].
      rewrite <- !Z.pow_add_r by lia. apply Z.pow_le_mono_r; lia. }
    pose proof (Z.pow_pos_nonneg 2 (- ex) ltac:(lia) ltac:(lia)). nia. }
  pose proof (Z.pow_pos_nonneg 2 (ex + k) ltac:(lia) ltac:(lia)) as Hpk.
  assert (Hscale : 2 ^ (- ex) * 2 ^ (ex + k) = one_units * 2 ^ (k - 149)).
  { unfold one_units. rewrite <- !Z.pow_add_r by lia. f_equal. lia. }
  destruct (Hup (2 ^ 24 * one_units)) as [Hok _].
  { apply representable_shift; lia. }
  { done. }
  { left. rewrite <- Z.mul_assoc, <- Hscale. nia. }
  split; [done|].
  assert (Hge : one_units ≤ Z.abs (units (round32 false m ex l))).
  { apply Hlo; [|rewrite <- Hscale; nia|done].
    replace one_units with (1 * 2 ^ 149) by done. apply representable_shift; lia. }
  split; [done|].
  destruct (round_bounds false m ex l k Hm Hfe ltac:(split; lia)) as (u & Hu0 & Hr & _ & _).
  by rewrite (stands_for_units _ _ _ Hr Hok).
Qed.

(** ** Bounds by integers *)

Definition within (b : Z) (f : spec_float) : Prop :=
  float_ok f ∧ Z.abs (units f) ≤ b * one_units.

(** A bound that is a number of the format *)
Definition bound_ok (b : Z) : Prop := representable (b * one_units) ∧ b * one_units < max_units.

Lemma bound_ok_shift n k : 0 ≤ n ≤ 2 ^ 24 → 0 ≤ k ≤ 100 → bound_ok (n * 2 ^ k).
Proof.
  intros Hn Hk. unfold bound_ok. rewrite <- Z.mul_assoc. unfold one_units at 1 2.
  rewrite <- !Z.pow_add_r by lia. split; [apply representable_shift; lia|].
  unfold max_units. apply (Z.le_lt_trans _ (2 ^ 24 * 2 ^ (k + 149))).
  - apply Z.mul_le_mono_nonneg_r; [apply Z.pow_nonneg|]; lia.
  - rewrite <- Z.pow_add_r by lia. apply Z.pow_lt_mono_r; lia.
Qed.

Lemma bound_ok_small n : 0 ≤ n ≤ 2 ^ 24 → bound_ok n.
Proof. intros Hn. rewrite <- (Z.mul_1_r n). apply (bound_ok_shift n 0); lia. Qed.

Lemma bound_ok_nonneg b : bound_ok b → 0 ≤ b.
Proof. intros [[Hb _] _]. assert (0 < one_units) by done. nia. Qed.

Lemma within_weaken b b' f : within b f → b ≤ b' → within b' f.
Proof. intros [? ?] ?. split; [done|]. assert (0 < one_units) by done. nia. Qed.

Lemma within_number b f : within b f → Float32.is_number f = true.
Proof. intros [[Hf _] _]. by destruct f. Qed.

Lemma rounds_within v r b : rounds v r → bound_ok b → Z.abs v ≤ b * one_units → within b r.
Proof. intros Hr [Hb Hmax] Hv. by apply (ro_above _ _ Hr). Qed.

Lemma within_add a b f g :
  within a f → within b g → bound_ok (a + b) → within (a + b) (Float32.add f g).
Proof.
  intros [Hf Hfa] [Hg Hgb] Hok. eapply rounds_within; [by apply add_rounds|done|]. lia.
Qed.

Lemma within_sub a b f g :
  within a f → within b g → bound_ok (a + b) → within (a + b) (Float32.sub f g).
Proof.
  intros [Hf Hfa] [Hg Hgb] Hok. eapply rounds_within; [by apply sub_rounds|done|]. lia.
Qed.

Lemma within_mul a b f g :
  within a f → within b g → bound_ok (a * b) → within (a * b) (Float32.mul f g).
Proof.
  intros [Hf Hfa] [Hg Hgb] [Hok Hmax]. apply mul_bound; try done.
  transitivity (a * one_units * (b * one_units)); [|lia]. apply Z.mul_le_mono_nonneg; lia.
Qed.

(** Division by at least [2^-k] *)
Lemma within_div a k f g :
  within a f → float_ok g → 0 ≤ k ≤ 149 → 2 ^ (149 - k) ≤ Z.abs (units g) → bound_ok (a * 2 ^ k) →
  within (a * 2 ^ k) (Float32.div f g).
Proof.
  intros [Hf Hfa] Hg Hk Hge Hok. pose proof (bound_ok_nonneg _ Hok) as H0. destruct Hok as [Hok Hmax].
  pose proof (Z.pow_pos_nonneg 2 (149 - k) ltac:(lia) ltac:(lia)).
  apply div_bound; try done; [lia|].
  assert (Hone : one_units = 2 ^ k * 2 ^ (149 - k)).
  { unfold one_units. rewrite <- Z.pow_add_r by lia. f_equal. lia. }
  transitivity (a * one_units * one_units); [apply Z.mul_le_mono_nonneg_r; [done|lia]|].
  rewrite Hone at 2. assert (0 ≤ a * 2 ^ k * one_units) by (apply Z.mul_nonneg_nonneg; [lia|done]).
  nia.
Qed.

Lemma within_of_Z n b : Z.abs n ≤ b → bound_ok b → within b (Float32.of_Z n).
Proof.
  intros Hn Hb. eapply rounds_within; [apply of_Z_rounds|done|]. assert (0 < one_units) by done. nia.
Qed.

(** A bound of a number that is known *)
Definition withinb (b : Z) (f : spec_float) : bool :=
  Float32.is_finite f && valid_binary Float32.prec Float32.emax f &&
  (Z.abs (units f) <=? b * one_units).

Lemma withinb_spec b f : withinb b f = true → within b f.
Proof. unfold withinb, within, float_ok. intros H. to_prop. auto. Qed.

(** ** Sums *)

Lemma within_accumulate b (term : Z → spec_float → spec_float) v i total n k :
  b = 2 ^ k → 0 ≤ k ≤ 100 → within (n * b) total → 0 ≤ n → n + zlen v ≤ 2 ^ 24 →
  (∀ j x, v !! j = Some x → within b (term (i + Z.of_nat j) x)) →
  within ((n + zlen v) * b) (accumulate_from i term total v).
Proof.
  intros -> Hk. revert i total n. induction v as [|x v IH]; intros i total n Ht Hn Hlen Hterm.
  { simpl. by rewrite Z.add_0_r. }
  cbn [accumulate_from length] in *. replace (n + Z.of_nat (S (length v))) with (n + 1 + zlen v) by lia.
  apply IH; [|lia|lia|].
  - rewrite Z.mul_add_distr_r, Z.mul_1_l. apply within_add; [done| |].
    + specialize (Hterm 0%nat x eq_refl). by rewrite Z.add_0_r in Hterm.
    + replace (n * 2 ^ k + 2 ^ k) with ((n + 1) * 2 ^ k) by lia. apply bound_ok_shift; lia.
  - intros j y Hj. specialize (Hterm (S j) y Hj). by replace (i + 1 + Z.of_nat j) with (i + Z.of_nat (S j)) by lia.
Qed.

(** Steps that each add at most [c] *)
Lemma within_foldl {A} (step : spec_float → A → spec_float) (l : list A) total c n :
  within n total →
  (∀ acc x j, x ∈ l → 0 ≤ j < zlen l → within (n + c * j) acc → within (n + c * (j + 1)) (step acc x)) →
  within (n + c * zlen l) (foldl step total l).
Proof.
  revert total n. induction l as [|x l IH]; intros total n Ht Hstep; cbn [foldl length].
  { by rewrite Z.mul_0_r, Z.add_0_r. }
  replace (n + c * Z.of_nat (S (length l))) with (n + c + c * zlen l) by lia. simpl in Hstep.
  apply IH.
  - rewrite <- (Z.mul_1_r c). apply (Hstep total x 0); [set_solver|lia|]. by rewrite Z.mul_0_r, Z.add_0_r.
  - intros acc y j Hy Hj Hacc. replace (n + c + c * (j + 1)) with (n + c * (j + 1 + 1)) by lia.
    apply Hstep; [set_solver|lia|]. by replace (n + c * (j + 1)) with (n + c + c * j) by lia.
Qed.
