(* ===== verification/FloatLibm.v ===== *)
(** * The elementary functions of the C library

    What the program relies on of [sinf], [cosf], [tanhf] and [expf], and the
    sums of exponentials that both models normalize with. *)
From Stdlib Require Import ZArith Lia Floats.SpecFloat.
From stdpp Require Import prelude list.
From S2P Require Import Prelude CxxFloat FloatRounding FloatBounds.
Import Float32.

(** The documented ranges of the functions for finite arguments *)
Class LibmSpec `{Libm} : Prop := {
  sinf_spec x : float_ok x → within 1 (sinf x);
  cosf_spec x : float_ok x → within 1 (cosf x);
  tanhf_spec x : float_ok x → within 1 (tanhf x);
  expf_spec x : float_ok x → units x ≤ 0 → within 1 (expf x) ∧ 0 ≤ units (expf x);
  expf_zero s : expf (S754_zero s) = of_Z 1;
}.

(** ** A library that implements them

    Piecewise linear, with the results for infinities and NaN that the C
    standard gives. *)

Definition clamp_one (x : spec_float) : spec_float := clamp x (of_Z (-1)) (of_Z 1).

Definition linear_libm : Libm := {|
  sinf x := if is_finite x then clamp_one x else S754_nan;
  cosf x := if is_finite x then sub (of_Z 1) (SFabs (clamp_one x)) else S754_nan;
  tanhf x := if is_number x then clamp_one x else S754_nan;
  expf x :=
    match x with
    | S754_nan => S754_nan
    | S754_infinity s => if s then S754_zero false else S754_infinity false
    | S754_zero _ => of_Z 1
    | S754_finite _ _ _ => if ltb x (of_Z (-1)) then S754_zero false else add (of_Z 1) x
    end;
|}.

Lemma one_ok : float_ok (of_Z 1) ∧ units (of_Z 1) = one_units.
Proof. by split. Qed.

Lemma minus_one_ok : float_ok (of_Z (-1)) ∧ units (of_Z (-1)) = - one_units.
Proof. by split. Qed.

Lemma ltb_false_units a b : float_ok a → float_ok b → ltb a b = false → units b ≤ units a.
Proof. intros Ha Hb Hl. apply not_true_iff_false in Hl. rewrite ltb_units in Hl by done. lia. Qed.

Lemma clamp_one_within x : float_ok x → within 1 (clamp_one x).
Proof.
  intros Hx. unfold clamp_one, clamp, within. destruct one_ok as [H1 E1], minus_one_ok as [H2 E2].
  destruct (ltb x _) eqn:Hlo; [by rewrite E2|]. destruct (ltb _ x) eqn:Hhi; [by rewrite E1|].
  apply ltb_false_units in Hlo, Hhi; [|done..]. split; [done|]. lia.
Qed.

#[export] Instance linear_libm_spec : LibmSpec (H := linear_libm).
Proof.
  assert (Hfin : ∀ x, float_ok x → is_finite x = true) by (by intros x []).
  destruct one_ok as [H1 E1].
  split; cbn [sinf cosf tanhf expf linear_libm]; intros x; [intros Hx..|].
  - rewrite Hfin by done. by apply clamp_one_within.
  - rewrite Hfin by done. destruct (clamp_one_within x Hx) as [Hc Hb].
    assert (Habs : float_ok (SFabs (clamp_one x)) ∧ units (SFabs (clamp_one x)) = Z.abs (units (clamp_one x))).
    { revert Hc. destruct (clamp_one x) as [s|s| |s p e]; intros [Hf Hv]; [done..|].
      split; [done|]. by rewrite units_finite. }
    destruct Habs as [Ha Hu]. eapply rounds_within; [by apply sub_rounds|by apply bound_ok_small|].
    rewrite E1, Hu. lia.
  - replace (is_number x) with true; [by apply clamp_one_within|]. destruct Hx. by destruct x.
  - intros Hu. destruct x as [s|s| |s p e]; try (exfalso; by destruct Hx); [by split|].
    destruct (ltb _ _) eqn:Hlt; [by split|].
    apply ltb_false_units in Hlt; [|done|apply minus_one_ok]. rewrite (proj2 minus_one_ok) in Hlt.
    pose proof (add_rounds _ _ H1 Hx) as Hr. rewrite E1 in Hr.
    assert (Hw : within 1 (add (of_Z 1) (S754_finite s p e))).
    { eapply rounds_within; [exact Hr|by apply bound_ok_small|]. lia. }
    split; [done|]. apply (rounds_nonneg _ _ Hr); [lia|apply Hw].
  - by destruct x.
Qed.

(** ** Greatest elements *)

Definition greatest (m : spec_float) (l : list spec_float) : Prop :=
  m ∈ l ∧ ∀ x, x ∈ l → units x ≤ units m.

Lemma max_cases a b :
  float_ok a → float_ok b → (max a b = a ∧ units b ≤ units a) ∨ (max a b = b ∧ units a < units b).
Proof.
  intros Ha Hb. unfold max. destruct (ltb a b) eqn:Hl; [right|left]; split; auto.
  - by apply ltb_units in Hl.
  - by apply ltb_false_units.
Qed.

Lemma foldl_max_greatest acc l :
  float_ok acc → Forall float_ok l → greatest (foldl max acc l) (acc :: l).
Proof.
  intros Hacc Hl. revert acc Hacc. induction Hl as [|x l Hx Hl IH]; intros acc Hacc; simpl.
  { split; [set_solver|]. intros x Hx. assert (x = acc) as -> by set_solver. done. }
  destruct (max_cases acc x) as [[-> Hle]|[-> Hlt]]; [done..| |].
  - destruct (IH acc Hacc) as [Hin Hall]. split; [set_solver|].
    intros y Hy. assert (Hc : y = x ∨ y ∈ acc :: l) by set_solver.
    destruct Hc as [->|?]; [|auto]. transitivity (units acc); [done|]. apply Hall. set_solver.
  - destruct (IH x Hx) as [Hin Hall]. split; [set_solver|].
    intros y Hy. assert (Hc : y = acc ∨ y ∈ x :: l) by set_solver.
    destruct Hc as [->|?]; [|auto]. transitivity (units x); [lia|]. apply Hall. set_solver.
Qed.

(** The maximum that starts from minus infinity *)
Lemma foldl_max_infinity l :
  l ≠ [] → Forall float_ok l → greatest (foldl max (S754_infinity true) l) l.
Proof.
  intros Hne Hl. destruct Hl as [|x l Hx Hl]; [done|]. simpl.
  replace (max (S754_infinity true) x) with x; [by apply foldl_max_greatest|].
  destruct Hx as [Hf _]. by destruct x as [|[]| |[]].
Qed.

(** ** Sums of exponentials *)

Lemma one_representable : representable one_units.
Proof. rewrite <- (Z.mul_1_l one_units). apply representable_shift; lia. Qed.

Definition nonneg_within (b : Z) (f : spec_float) : Prop := within b f ∧ 0 ≤ units f.

(** The sum of numbers of [0, 1] is at most their number, and at least 1 when
    one of them is. *)
Lemma sum_exponentials l acc n :
  nonneg_within n acc → 0 ≤ n → Forall (nonneg_within 1) l → n + zlen l ≤ 2 ^ 24 →
  nonneg_within (n + zlen l) (foldl add acc l) ∧
  (one_units ≤ units acc ∨ Exists (λ x, one_units ≤ units x) l →
   one_units ≤ units (foldl add acc l)).
Proof.
  intros Hacc Hn Hl. revert acc n Hacc Hn.
  induction Hl as [|x l [Hx Hx0] Hl IH]; intros acc n [Hacc Hacc0] Hn Hlen; simpl.
  { rewrite Z.add_0_r. split; [by split|]. intros [?|Hex]; [done|by apply Exists_nil in Hex]. }
  simpl in Hlen. pose proof (add_rounds _ _ (proj1 Hacc) (proj1 Hx)) as Hr.
  assert (Hw : within (n + 1) (add acc x)).
  { apply within_add; [done..|]. apply bound_ok_small. lia. }
  destruct (IH (add acc x) (n + 1)) as [IHw IHone]; [|lia|lia|].
  { split; [done|]. apply (rounds_nonneg _ _ Hr); [lia|apply Hw]. }
  replace (n + Z.of_nat (S (length l))) with (n + 1 + zlen l) by lia. split; [done|].
  intros [H1|[H1|H1]%Exists_cons]; apply IHone; [left..|by right];
    apply (ro_below _ _ Hr); [apply one_representable|lia|apply Hw|apply one_representable|lia|apply Hw].
Qed.

Section Exponentials.
Context `{LibmSpec}.

Definition exponentials (m : spec_float) (l : list spec_float) : list spec_float :=
  (λ x, expf (sub x m)) <$> l.

Lemma exponentials_ok m l b :
  Forall (within b) l → greatest m l → bound_ok (b + b) →
  Forall (nonneg_within 1) (exponentials m l) ∧
  Exists (λ x, one_units ≤ units x) (exponentials m l).
Proof.
  intros Hl [Hm Hall] Hb. rewrite Forall_forall in Hl.
  assert (Hsub : ∀ x, x ∈ l → float_ok (sub x m) ∧ units (sub x m) ≤ 0).
  { intros x Hx. destruct (within_sub b b x m) as [Hok _]; [by apply Hl..|done|].
    split; [done|]. apply (ro_neg _ _ (sub_rounds x m (proj1 (Hl x Hx)) (proj1 (Hl m Hm)))); [|done].
    specialize (Hall x Hx). lia. }
  split.
  - apply Forall_fmap, Forall_forall. intros x Hx. destruct (Hsub x Hx). by apply expf_spec.
  - apply Exists_exists. exists (expf (sub m m)). split; [apply list_elem_of_fmap; eauto|].
    destruct (Hsub m Hm) as [Hok Hle].
    assert (Hge : 0 ≤ units (sub m m)).
    { apply (rounds_nonneg _ _ (sub_rounds m m (proj1 (Hl m Hm)) (proj1 (Hl m Hm)))); [lia|done]. }
    destruct (units_zero _ Hok ltac:(lia)) as [s ->]. rewrite expf_zero. by rewrite (proj2 one_ok).
Qed.

(** What both models divide by *)
Lemma total_ok m l b :
  Forall (within b) l → greatest m l → bound_ok (b + b) → zlen l ≤ 2 ^ 24 →
  let total := foldl add (S754_zero false) (exponentials m l) in
  max total smallest = total ∧ float_ok total ∧ one_units ≤ Z.abs (units total).
Proof.
  intros Hl Hm Hb Hlen total. destruct (exponentials_ok m l b Hl Hm Hb) as [Hall Hex].
  destruct (sum_exponentials (exponentials m l) (S754_zero false) 0) as [[Hw Hge] Hone];
    [by repeat split|done|done|by unfold exponentials; rewrite length_fmap|].
  fold total in Hw, Hge, Hone. specialize (Hone (or_intror Hex)).
  split; [|split; [apply Hw|lia]].
  destruct (max_cases total smallest) as [[-> _]|[_ Hlt]]; [apply Hw|by split|done|].
  exfalso. assert (units smallest < one_units) by done. lia.
Qed.

Lemma quotients_within m l b :
  Forall (within b) l → greatest m l → bound_ok (b + b) → zlen l ≤ 2 ^ 24 →
  let total := max (foldl add (S754_zero false) (exponentials m l)) smallest in
  Forall (λ e, within 1 (div e total)) (exponentials m l).
Proof.
  intros Hl Hm Hb Hlen total. destruct (total_ok m l b Hl Hm Hb Hlen) as (Hmax & Hok & Hone).
  unfold total. rewrite Hmax. destruct (exponentials_ok m l b Hl Hm Hb) as [Hall _].
  eapply Forall_impl; [exact Hall|]. intros e [He _].
  apply (within_div 1 0); [done..|]. by apply bound_ok_small.
Qed.
End Exponentials.
