(* ===== verification/Batcher.v ===== *)
(** * The continuous batcher

    [ContinuousBatcher] of [src/backend/scheduling/continuous_batcher.{h,cc}]:
    requests are admitted by priority under a prefill budget, then decoded one
    token per step under a sequence budget, over an allocator of KV-cache
    blocks.  The model is parametric in the allocator, through the class
    [KvAllocator]; [Batcher.v] holds the model, [BatcherInv.v] the invariant. *)
From Stdlib Require Import Floats.SpecFloat.
From stdpp Require Import prelude gmap strings list sorting.
From S2P Require Import Prelude CxxFloat KvCache.

(** ** What the batcher uses of the allocator *)

Class KvAllocator (T : Type) := {
  kv_new : KvCacheConfig → T;
  kv_AllocatePrompt : string → Z → string → Z → T → option (KvAllocation * T);
  kv_AppendTokens : string → Z → T → option (KvAllocation * T);
  kv_ReleaseSequence : string → T → T;
  kv_Stats : T → KvCacheStats;
  kv_SequenceBlockCount : string → T → Z;
}.

#[export] Instance KvBlockAllocator_ops : KvAllocator KvBlockAllocator.Impl := {|
  kv_new := KvBlockAllocator.init;
  kv_AllocatePrompt := KvBlockAllocator.AllocatePrompt;
  kv_AppendTokens := KvBlockAllocator.AppendTokens;
  kv_ReleaseSequence := KvBlockAllocator.ReleaseSequence;
  kv_Stats := KvBlockAllocator.Stats;
  kv_SequenceBlockCount := KvBlockAllocator.SequenceBlockCount;
|}.

(** ** Data *)

Record ContinuousBatcherConfig := mkContinuousBatcherConfig {
  max_prefill_tokens_per_step : Z;
  max_decode_sequences_per_step : Z;
  kv_cache_blocks : Z;
  kv_block_tokens : Z;
}.

Record SequenceRequest := mkSequenceRequest {
  req_id : string;
  req_prompt_tokens : Z;
  req_max_generated_tokens : Z;
  req_priority : Z;
  req_prefix_cache_key : string;
  req_prefix_cache_tokens : Z;
}.

Inductive SequenceStatus := kCompleted | kRejected | kCancelled.

#[export] Instance SequenceStatus_eq_dec : EqDecision SequenceStatus.
Proof. solve_decision. Defined.

Definition SequenceStatusName (status : SequenceStatus) : string :=
  match status with
  | kCompleted => "completed"
  | kRejected => "rejected"
  | kCancelled => "cancelled"
  end.

Record SequenceResult := mkSequenceResult {
  res_id : string;
  res_status : SequenceStatus;
  res_prompt_tokens : Z;
  res_generated_tokens : Z;
  res_first_token_step : Z;
  res_completion_step : Z;
  res_kv_blocks : Z;
  res_prefix_cache_hit : bool;
  res_message : string;
}.

Record SchedulerStep := mkSchedulerStep {
  step_index : Z;
  step_prefill_tokens : Z;
  step_decoded_tokens : Z;
  step_queued_sequences : Z;
  step_active_sequences : Z;
  step_kv_blocks_used : Z;
  step_decoded_sequence_ids : list string;
}.

Record ContinuousBatchingStats := mkContinuousBatchingStats {
  total_steps : Z;
  prefill_steps : Z;
  decode_steps : Z;
  total_prompt_tokens : Z;
  total_generated_tokens : Z;
  average_decode_batch_size : spec_float;
  kv_cache : KvCacheStats;
}.

Record ContinuousBatchingRun := mkContinuousBatchingRun {
  run_results : list SequenceResult;
  run_steps : list SchedulerStep;
  run_stats : ContinuousBatchingStats;
}.

(** The constructor [ContinuousBatcher(ContinuousBatcherConfig)]. *)
Definition make_ContinuousBatcher (config : ContinuousBatcherConfig)
    : ContinuousBatcherConfig :=
  mkContinuousBatcherConfig
    (ClampPositive (max_prefill_tokens_per_step config) 64)
    (ClampPositive (max_decode_sequences_per_step config) 8)
    (ClampPositive (kv_cache_blocks config) 1024)
    (ClampPositive (kv_block_tokens config) 16).

(** The local [struct State] of [Run]. *)
Record State := mkState {
  request : SequenceRequest;
  index : Z;
  prefill_remaining : Z;
  generated : Z;
  prompt_allocated : bool;
  prompt_ready : bool;
  done : bool;
}.

Definition set_done (s : State) : State :=
  mkState (request s) (index s) (prefill_remaining s) (generated s)
    (prompt_allocated s) (prompt_ready s) true.
Definition set_allocated (s : State) : State :=
  mkState (request s) (index s) (prefill_remaining s) (generated s)
    true (prompt_ready s) (done s).
Definition incr_generated (s : State) : State :=
  mkState (request s) (index s) (prefill_remaining s) (generated s + 1)
    (prompt_allocated s) (prompt_ready s) (done s).

(** [prefill_remaining -= consumed], and the prompt is ready at 0. *)
Definition consume_prefill (consumed : Z) (s : State) : State :=
  let remaining := prefill_remaining s - consumed in
  mkState (request s) (index s) remaining (generated s) (prompt_allocated s)
    (if remaining =? 0 then true else prompt_ready s) (done s).

(** *** Assignments to fields of a result *)

Definition finish_result (status : SequenceStatus) (msg : string) (gen : Z)
    (completion : Z) (blocks : Z) (r : SequenceResult) : SequenceResult :=
  mkSequenceResult (res_id r) status (res_prompt_tokens r) gen
    (res_first_token_step r) completion blocks (res_prefix_cache_hit r) msg.
Definition cancel_result (r : SequenceResult) : SequenceResult :=
  mkSequenceResult (res_id r) kCancelled (res_prompt_tokens r)
    (res_generated_tokens r) (res_first_token_step r) (res_completion_step r)
    (res_kv_blocks r) (res_prefix_cache_hit r) "cancelled".
Definition set_cache_hit (hit : bool) (r : SequenceResult) : SequenceResult :=
  mkSequenceResult (res_id r) (res_status r) (res_prompt_tokens r)
    (res_generated_tokens r) (res_first_token_step r) (res_completion_step r)
    (res_kv_blocks r) hit (res_message r).
Definition note_first_token (step : Z) (r : SequenceResult) : SequenceResult :=
  if res_first_token_step r <? 0 then
    mkSequenceResult (res_id r) (res_status r) (res_prompt_tokens r)
      (res_generated_tokens r) step (res_completion_step r)
      (res_kv_blocks r) (res_prefix_cache_hit r) (res_message r)
  else r.

(** ** The first loop of [Run]: the queued results and the states *)

Definition sanitize (r : SequenceRequest) : SequenceRequest :=
  mkSequenceRequest (req_id r) (Z.max 0 (req_prompt_tokens r))
    (Z.max 0 (req_max_generated_tokens r)) (req_priority r)
    (req_prefix_cache_key r) (req_prefix_cache_tokens r).

Definition init_result (r : SequenceRequest) : SequenceResult :=
  mkSequenceResult (req_id r) kRejected (req_prompt_tokens r) 0 (-1) (-1) 0
    false "queued".

Definition init_state (i : nat) (r : SequenceRequest) : State :=
  mkState r (Z.of_nat i) (req_prompt_tokens r) 0 false false false.

(** ** The scheduler *)

(** [std::sort] with the comparator [by_priority] on pointers into [states]:
    a pointer is the position it points to. *)
Definition by_priority (states : list State) (lhs rhs : nat) : bool :=
  match states !! lhs, states !! rhs with
  | Some l, Some r =>
      if negb (req_priority (request l) =? req_priority (request r))
      then req_priority (request r) <? req_priority (request l)
      else index l <? index r
  | _, _ => false
  end.

Definition positions (f : State → bool) (states : list State) : list nat :=
  filter (λ i, (if states !! i is Some s then f s else false) = true)
    (seq 0 (length states)).

Definition count_states (f : State → bool) (states : list State) : Z :=
  zlen (filter (λ s, f s = true) states).

Definition unfinished_count (states : list State) : Z :=
  count_states (λ s, negb (done s)) states.

Section Run.
Context {T : Type} `{KvAllocator T}.
Context (config_ : ContinuousBatcherConfig).

(** The objects the scheduling loop mutates. *)
Record Cells := mkCells {
  states : list State;
  results : list SequenceResult;
  allocator : T;
}.

Definition set_allocator (a : T) (c : Cells) : Cells :=
  mkCells (states c) (results c) a.

(** [*state = f( *state )] *)
Definition upd_state (i : nat) (f : State → State) (c : Cells) : option Cells :=
  sts ← vec_alter f (states c) (Z.of_nat i);
  Some (mkCells sts (results c) (allocator c)).

(** [run.results[state->index] = f(run.results[state->index])] *)
Definition upd_result (s : State) (f : SequenceResult → SequenceResult)
    (c : Cells) : option Cells :=
  rs ← vec_alter f (results c) (index s);
  Some (mkCells (states c) rs (allocator c)).

(** *** Prefill *)

Definition prefill_consume (i : nat) (budget prefilled : Z) (c : Cells)
    : option (Cells * Z * Z) :=
  state ← states c !! i;
  let consumed := Z.min budget (prefill_remaining state) in
  c' ← upd_state i (consume_prefill consumed) c;
  Some (c', budget - consumed, prefilled + consumed).

(** One iteration of the loop over [prefill_candidates], after its test of the
    budget: the cells, the budget and [step.prefill_tokens]. *)
Definition prefill_one (i : nat) (budget prefilled : Z) (c : Cells)
    : option (Cells * Z * Z) :=
  state ← states c !! i;
  if prompt_allocated state then prefill_consume i budget prefilled c
  else
    let r := request state in
    '(allocation, alloc) ← kv_AllocatePrompt (req_id r) (req_prompt_tokens r)
        (req_prefix_cache_key r) (req_prefix_cache_tokens r) (allocator c);
    let c := set_allocator alloc c in
    if negb (ok allocation) then
      c ← upd_result state (λ result, finish_result kRejected (message allocation)
            (res_generated_tokens result) (res_completion_step result)
            (kv_SequenceBlockCount (req_id r) alloc) result) c;
      c ← upd_state i set_done c;
      Some (c, budget, prefilled)
    else
      c ← upd_state i set_allocated c;
      c ← upd_result state (set_cache_hit (cache_hit allocation)) c;
      prefill_consume i budget prefilled c.

Fixpoint prefill_loop (cands : list nat) (budget prefilled : Z) (c : Cells)
    : option (Cells * Z) :=
  match cands with
  | [] => Some (c, prefilled)
  | i :: rest =>
      if budget <=? 0 then Some (c, prefilled)
      else
        '(c', budget', prefilled') ← prefill_one i budget prefilled c;
        prefill_loop rest budget' prefilled' c'
  end.

(** *** Decode *)

(** The three assignments that end a sequence in a completed state. *)
Definition complete (i : nat) (now : Z) (gen : option Z) (c : Cells) : option Cells :=
  state ← states c !! i;
  let id := req_id (request state) in
  c ← upd_result state (λ result, finish_result kCompleted "completed"
        (default (res_generated_tokens result) gen) now
        (kv_SequenceBlockCount id (allocator c)) result) c;
  upd_state i set_done (set_allocator (kv_ReleaseSequence id (allocator c)) c).

(** One iteration of the loop over [decode_candidates]: the cells and the ids
    appended to [step.decoded_sequence_ids]. *)
Definition decode_one (now : Z) (i : nat) (c : Cells)
    : option (Cells * list string) :=
  state ← states c !! i;
  let id := req_id (request state) in
  '(allocation, alloc) ← kv_AppendTokens id 1 (allocator c);
  let c := set_allocator alloc c in
  if negb (ok allocation) then
    c ← upd_result state (λ result, finish_result kRejected (message allocation)
          (generated state) (res_completion_step result)
          (kv_SequenceBlockCount id alloc) result) c;
    c ← upd_state i set_done (set_allocator (kv_ReleaseSequence id alloc) c);
    Some (c, [])
  else
    c ← upd_state i incr_generated c;
    c ← upd_result state (note_first_token now) c;
    if generated state + 1 =? req_max_generated_tokens (request state) then
      c ← complete i now (Some (generated state + 1)) c;
      Some (c, [id])
    else Some (c, [id]).

Fixpoint decode_loop (now : Z) (cands : list nat) (c : Cells)
    : option (Cells * list string) :=
  match cands with
  | [] => Some (c, [])
  | i :: rest =>
      '(c', ids) ← decode_one now i c;
      '(c'', ids') ← decode_loop now rest c';
      Some (c'', ids ++ ids')
  end.

(** *** Sequences that generate nothing *)

Definition finish_empty_one (now : Z) (i : nat) (c : Cells) : option Cells :=
  state ← states c !! i;
  if negb (done state) && prompt_ready state &&
     (req_max_generated_tokens (request state) =? 0)
  then complete i now None c
  else Some c.

Fixpoint finish_empty_loop (now : Z) (todo : list nat) (c : Cells) : option Cells :=
  match todo with
  | [] => Some c
  | i :: rest => c' ← finish_empty_one now i c; finish_empty_loop now rest c'
  end.

(** *** Cancellation *)

Definition cancel_one (i : nat) (c : Cells) : option Cells :=
  state ← states c !! i;
  if done state then Some c
  else
    c ← upd_result state cancel_result c;
    upd_state i set_done
      (set_allocator (kv_ReleaseSequence (req_id (request state)) (allocator c)) c).

Fixpoint cancel_loop (todo : list nat) (c : Cells) : option Cells :=
  match todo with
  | [] => Some c
  | i :: rest => c' ← cancel_one i c; cancel_loop rest c'
  end.

(** *** One step *)

Definition prefill_candidates (sts : list State) : list nat :=
  std_sort (by_priority sts)
    (positions (λ s, negb (done s) && negb (prompt_ready s)) sts).

Definition decode_candidates (sts : list State) : list nat :=
  std_sort (by_priority sts)
    (positions (λ s, negb (done s) && prompt_ready s &&
       (generated s <? req_max_generated_tokens (request s))) sts).

Definition decode_limit (cands : list nat) : Z :=
  Z.min (max_decode_sequences_per_step config_) (zlen cands).

Definition run_step (now : Z) (c : Cells) : option (Cells * SchedulerStep) :=
  let queued := unfinished_count (states c) in
  '(c1, prefilled) ← prefill_loop (prefill_candidates (states c))
      (max_prefill_tokens_per_step config_) 0 c;
  let cands := decode_candidates (states c1) in
  '(c2, ids) ← decode_loop now (take (Z.to_nat (decode_limit cands)) cands) c1;
  c3 ← finish_empty_loop now (seq 0 (length (states c2))) c2;
  Some (c3, mkSchedulerStep now prefilled (zlen ids) queued
    (count_states (λ s, negb (done s) && prompt_ready s) (states c3))
    (used_blocks (kv_Stats (allocator c3))) ids).

(** The counters of [run.stats] at the end of a step. *)
Definition count_step (step : SchedulerStep) (stats : ContinuousBatchingStats)
    : option ContinuousBatchingStats :=
  prefills ← (if 0 <? step_prefill_tokens step then int_of (prefill_steps stats + 1)
              else Some (prefill_steps stats));
  if 0 <? step_decoded_tokens step then
    decodes ← int_of (decode_steps stats + 1);
    total ← int_of (total_generated_tokens stats + step_decoded_tokens step);
    Some (mkContinuousBatchingStats (total_steps stats) prefills decodes
            (total_prompt_tokens stats) total (average_decode_batch_size stats)
            (kv_cache stats))
  else
    Some (mkContinuousBatchingStats (total_steps stats) prefills (decode_steps stats)
            (total_prompt_tokens stats) (total_generated_tokens stats)
            (average_decode_batch_size stats) (kv_cache stats)).

(** *** The scheduling loop

    [is_cancelled n] is the answer to the [n]-th call of the callback. *)
Context (is_cancelled : nat → bool).

Fixpoint run_loop (fuel : nat) (calls : nat) (now : nat) (c : Cells)
    (steps : list SchedulerStep) (stats : ContinuousBatchingStats)
    : option (Cells * list SchedulerStep * ContinuousBatchingStats * nat) :=
  match fuel with
  | O => None
  | S fuel =>
      if unfinished_count (states c) <=? 0 then Some (c, steps, stats, calls)
      else if is_cancelled calls then
        c' ← cancel_loop (seq 0 (length (states c))) c;
        Some (c', steps, stats, S calls)
      else
        '(c', step) ← run_step (Z.of_nat now) c;
        stats' ← count_step step stats;
        _ ← int_of (Z.of_nat now + 1);
        run_loop fuel (S calls) (S now) c' (steps ++ [step]) stats'
  end.

(** The steps a state may still take. *)
Definition state_work (s : State) : nat :=
  if done s then 0
  else (1 + (if prompt_ready s then 0 else 1) + Z.to_nat (prefill_remaining s) +
        Z.to_nat (req_max_generated_tokens (request s) - generated s))%nat.

Definition work (sts : list State) : nat := sum_list (state_work <$> sts).

Definition init_cells (requests : list SequenceRequest) : Cells :=
  let rs := sanitize <$> requests in
  mkCells (imap init_state rs) (init_result <$> rs)
    (kv_new (mkKvCacheConfig (kv_cache_blocks config_) (kv_block_tokens config_))).

(** [run.stats] after the first loop, whose index and sum are [int]s. *)
Definition zero_stats (requests : list SequenceRequest)
    : option ContinuousBatchingStats :=
  _ ← int_of (zlen requests);
  total ← sum_int (req_prompt_tokens ∘ sanitize <$> requests);
  Some (mkContinuousBatchingStats 0 0 0 total 0 (S754_zero false) zero_KvCacheStats).

(** The last lines of [Run]. *)
Definition final_stats (stats : ContinuousBatchingStats)
    (steps : list SchedulerStep) (alloc : T) : ContinuousBatchingStats :=
  mkContinuousBatchingStats (zlen steps) (prefill_steps stats)
    (decode_steps stats) (total_prompt_tokens stats) (total_generated_tokens stats)
    (if 0 <? decode_steps stats
     then Float64.div (Float64.of_Z (total_generated_tokens stats))
            (Float64.of_Z (decode_steps stats))
     else average_decode_batch_size stats)
    (kv_Stats alloc).

(** [Run], and how many calls of the callback were made when it returns.
    [None] would be undefined behaviour (the overflow of an [int], an access out
    of range) or a loop that does not end. *)
Definition Run (requests : list SequenceRequest) (calls : nat)
    : option (ContinuousBatchingRun * nat) :=
  let c := init_cells requests in
  stats ← zero_stats requests;
  '(c', steps, stats, calls') ← run_loop (S (work (states c))) calls 0 c [] stats;
  Some (mkContinuousBatchingRun (results c') steps
          (final_stats stats steps (allocator c')), calls').
End Run.
#[global] Arguments Cells T : clear implicits.
#[global] Arguments mkCells {T} _ _ _.
