(* ===== verification/BatcherInv.v ===== *)
(** * The batcher's invariant

    [KvAllocatorSpec] is what the batcher relies on of its allocator; the
    invariant [sched_inv] of the scheduling loop and the lemmas on each of its
    phases are proved against that interface, and [KvBlockAllocator] is shown to
    implement it. *)
From stdpp Require Import prelude gmap strings list.
From S2P Require Import Prelude KvCache KvCacheInv KvCacheProps Batcher.

(** ** The allocator's contract *)

Class KvAllocatorSpec (T : Type) `{KvAllocator T} := {
  kv_inv : T → Prop;
  (** the sequences that hold blocks *)
  kv_live : T → gset string;
  (** the messages of failed allocations *)
  kv_error : string → Prop;
  (** the most tokens of a sequence for which no call overflows *)
  kv_limit : T → Z;
  (** no sequence has generated more than that many tokens *)
  kv_within : T → Z → Prop;
  kv_limit_int s : kv_inv s → kv_limit s ≤ INT_MAX;
  kv_new_spec cfg :
    kv_inv (kv_new cfg) ∧ kv_live (kv_new cfg) = ∅ ∧ kv_within (kv_new cfg) 0 ∧
    kv_limit (kv_new cfg) = INT_MAX - ClampPositive (cfg_tokens_per_block cfg) 1;
  kv_AllocatePrompt_spec id p k t s : kv_inv s →
    unless (kv_limit s < Z.max 0 p) (kv_AllocatePrompt id p k t s) (λ '(r, s'),
      kv_inv s' ∧ kv_limit s' = kv_limit s ∧
      (∀ m, 0 ≤ m → kv_within s m → kv_within s' m) ∧
      if ok r then id ∉ kv_live s ∧ kv_live s' = {[id]} ∪ kv_live s
      else kv_live s' = kv_live s ∧ kv_error (message r));
  kv_AppendTokens_spec id n m s : kv_inv s → 0 < n → kv_within s m →
    unless (kv_limit s < m + n) (kv_AppendTokens id n s) (λ '(r, s'),
      kv_inv s' ∧ kv_limit s' = kv_limit s ∧ kv_live s' = kv_live s ∧
      if ok r then kv_within s' (m + n) else kv_within s' m ∧ kv_error (message r));
  kv_ReleaseSequence_spec id s : kv_inv s →
    kv_inv (kv_ReleaseSequence id s) ∧
    kv_limit (kv_ReleaseSequence id s) = kv_limit s ∧
    (∀ m, kv_within s m → kv_within (kv_ReleaseSequence id s) m) ∧
    kv_live (kv_ReleaseSequence id s) = kv_live s ∖ {[id]};
  kv_Stats_spec s : kv_inv s →
    0 ≤ used_blocks (kv_Stats s) ≤ KvCache.total_blocks (kv_Stats s) ∧
    active_sequences (kv_Stats s) = Z.of_nat (size (kv_live s));
}.

(** The messages of [KvBlockAllocator]. *)
Definition kv_messages : list string :=
  ["sequence id is required"; "sequence already exists"; "sequence does not exist";
   "kv cache exhausted"].

Section KvBlockAllocatorSpec.
Import KvBlockAllocator.

Definition limit_of (s : Impl) : Z := INT_MAX - cfg_tokens_per_block (config s).

Definition all_within (s : Impl) (m : Z) : Prop :=
  0 ≤ m ∧ ∀ id q, sequences s !! id = Some q → generated_tokens q ≤ m.

Lemma all_within_insert s s' id q m m' :
  all_within s m → m ≤ m' → generated_tokens q ≤ m' →
  sequences s' = <[id := q]> (sequences s) → all_within s' m'.
Proof.
  intros [Hm Hw] Hle Hq Hs. split; [lia|]. intros id' q'. rewrite Hs.
  intros [[<- <-]|[_ Hq']]%lookup_insert_Some; [done|]. specialize (Hw _ _ Hq'). lia.
Qed.

Lemma AllocatePrompt_interface id p k t s :
  wf s →
  unless (limit_of s < Z.max 0 p) (AllocatePrompt id p k t s) (λ '(r, s'),
    wf s' ∧ limit_of s' = limit_of s ∧ (∀ m, 0 ≤ m → all_within s m → all_within s' m) ∧
    if ok r then id ∉ dom (sequences s) ∧ dom (sequences s') = {[id]} ∪ dom (sequences s)
    else dom (sequences s') = dom (sequences s) ∧ message r ∈ kv_messages).
Proof.
  intros Hwf. pose proof (AllocatePrompt_cases id p k t s Hwf) as Hc.
  destruct (allocate_fits id p k t s) eqn:Hfits.
  - destruct Hc as (r & s' & -> & Hc). simpl.
    destruct (prompt_case_wf _ _ _ _ _ _ _ Hwf Hc) as [Hwf' Hcfg].
    split; [done|]. split; [unfold limit_of; by rewrite Hcfg|].
    destruct Hc as [| |r s' _ Hnone Ho]; simpl; [split_and!; auto; set_solver..|].
    destruct Ho as (_ & _ & Ho). destruct (ok r).
    + destruct Ho as (_ & q & Hq & Hs). split.
      * intros m Hm Hw. refine (all_within_insert s s' id q m m Hw _ _ Hs); [lia|].
        destruct Hq as (_ & -> & _); done.
      * rewrite Hs, dom_insert_L. split; [|done]. by apply not_elem_of_dom.
    + destruct Ho as [-> []]. unfold all_within. rewrite oe_sequences. split_and!; [done..|].
      simpl. set_solver.
  - rewrite Hc. simpl. unfold allocate_fits in Hfits. to_prop. unfold limit_of.
    apply Z.nle_gt. intros Hle. rewrite prompt_fits_small in *; [done|done|lia].
Qed.

Lemma AppendTokens_interface id n m s :
  wf s → 0 < n → all_within s m →
  unless (limit_of s < m + n) (AppendTokens id n s) (λ '(r, s'),
    wf s' ∧ limit_of s' = limit_of s ∧ dom (sequences s') = dom (sequences s) ∧
    if ok r then all_within s' (m + n) else all_within s' m ∧ message r ∈ kv_messages).
Proof.
  intros Hwf Hn Hw. pose proof (AppendTokens_cases id n s Hwf) as Hc.
  destruct (append_fits id n s) eqn:Hfits.
  - destruct Hc as (r & s' & -> & Hc). simpl.
    destruct (append_case_wf _ _ _ _ _ Hwf Hc) as [Hwf' Hcfg].
    split; [done|]. split; [unfold limit_of; by rewrite Hcfg|].
    destruct Hc as [|q ? ?|q r s' Hq _ (_ & _ & Ho)]; simpl;
      [split_and!; auto; set_solver|lia|].
    destruct (ok r).
    + destruct Ho as (_ & ids & _ & Hs). split.
      * rewrite Hs, dom_insert_L. apply elem_of_dom_2 in Hq. set_solver.
      * refine (all_within_insert s s' id _ m _ Hw _ _ Hs); [lia|]. simpl.
        pose proof (proj2 Hw _ _ Hq). lia.
    + destruct Ho as [-> []]. unfold all_within in *. rewrite oe_sequences.
      split_and!; try apply Hw; [done|]. simpl. set_solver.
  - rewrite Hc. simpl. unfold limit_of. apply Z.nle_gt. intros Hle.
    rewrite append_fits_small in Hfits; [done|done|].
    intros q Hq. pose proof (proj2 Hw _ _ Hq). lia.
Qed.

Lemma ReleaseSequence_interface id s :
  wf s →
  wf (ReleaseSequence id s) ∧ limit_of (ReleaseSequence id s) = limit_of s ∧
  (∀ m, all_within s m → all_within (ReleaseSequence id s) m) ∧
  dom (sequences (ReleaseSequence id s)) = dom (sequences s) ∖ {[id]}.
Proof.
  intros Hwf. destruct (ReleaseSequence_frame id s) as (Hc & Hs & _).
  split; [by apply ReleaseSequence_wf|]. unfold limit_of, all_within. rewrite Hc, Hs.
  split_and!; [done| |apply dom_delete_L].
  intros m [Hm Hw]. split; [done|]. intros id' q [_ Hq]%lookup_delete_Some. eauto.
Qed.

#[export, refine] Instance KvBlockAllocator_spec : KvAllocatorSpec Impl := {|
  kv_inv := wf;
  kv_live s := dom (sequences s);
  kv_error m := m ∈ kv_messages;
  kv_limit := limit_of;
  kv_within := all_within;
|}.
Proof.
  - intros s Hwf. unfold limit_of. pose proof (wf_tpb _ _ Hwf). lia.
  - intros cfg. split; [apply wf_init|]. simpl. rewrite dom_empty_L.
    split_and!; [done| |done]. split; [done|]. intros id q. simpl. by rewrite lookup_empty.
  - apply AllocatePrompt_interface.
  - apply AppendTokens_interface.
  - apply ReleaseSequence_interface.
  - intros s Hwf. simpl. pose proof (wf_used_nonneg s). split; [lia|].
    by rewrite size_dom.
Defined.
End KvBlockAllocatorSpec.

(** ** Updating one element of a list *)

Lemma sum_Z_insert {A} (f : A → Z) (l : list A) i x x' :
  l !! i = Some x → sum_Z (f <$> <[i := x']> l) = sum_Z (f <$> l) - f x + f x'.
Proof.
  revert i. induction l as [|y l IH]; intros [|i] H; simplify_eq/=; [lia|].
  rewrite (IH i H). lia.
Qed.

Lemma sum_list_insert {A} (f : A → nat) (l : list A) i x x' :
  l !! i = Some x →
  (sum_list (f <$> <[i := x']> l) + f x = sum_list (f <$> l) + f x')%nat.
Proof.
  revert i. induction l as [|y l IH]; intros [|i] H; simplify_eq/=; [lia|].
  specialize (IH i H). lia.
Qed.

Lemma lookup_insert_cases {A} (l : list A) i j x y :
  <[i := x]> l !! j = Some y → (j = i ∧ y = x) ∨ (j ≠ i ∧ l !! j = Some y).
Proof.
  destruct (decide (j = i)) as [->|]; [|rewrite list_lookup_insert_ne by done; auto].
  intros H. assert (Hi : (i < length l)%nat).
  { apply lookup_lt_Some in H. by rewrite length_insert in H. }
  rewrite list_lookup_insert_eq in H by done. naive_solver.
Qed.

(** ** One sequence *)

(** What the result says of its sequence, [now] being the current step. *)
Definition result_ok (err : string → Prop) (now : Z) (st : State)
    (res : SequenceResult) : Prop :=
  res_id res = req_id (request st) ∧
  res_prompt_tokens res = req_prompt_tokens (request st) ∧
  ((generated st = 0 ∧ res_first_token_step res = -1) ∨
   (0 < generated st ∧ 0 ≤ res_first_token_step res ≤ now)) ∧
  if done st then
    match res_status res with
    | kCompleted =>
        res_message res = "completed" ∧ prompt_ready st = true ∧
        generated st = req_max_generated_tokens (request st) ∧
        res_generated_tokens res = generated st ∧
        0 ≤ res_completion_step res ≤ now ∧
        res_first_token_step res ≤ res_completion_step res
    | kRejected =>
        err (res_message res) ∧ res_generated_tokens res = generated st ∧
        res_completion_step res = -1
    | kCancelled =>
        res_message res = "cancelled" ∧ res_generated_tokens res = 0 ∧
        res_completion_step res = -1
    end
  else
    res_status res = kRejected ∧ res_message res = "queued" ∧
    res_generated_tokens res = 0 ∧ res_completion_step res = -1.

Record state_ok (err : string → Prop) (now : Z) (i : nat) (r : SequenceRequest)
    (st : State) (res : SequenceResult) : Prop := mk_state_ok {
  so_request : request st = sanitize r;
  so_index : index st = Z.of_nat i;
  so_prefill : 0 ≤ prefill_remaining st ≤ req_prompt_tokens (request st);
  so_generated : 0 ≤ generated st ≤ req_max_generated_tokens (request st);
  so_fresh : prompt_allocated st = false →
    prefill_remaining st = req_prompt_tokens (request st) ∧ prompt_ready st = false;
  so_not_ready : prompt_ready st = false → generated st = 0;
  so_ready : prompt_ready st = true → prefill_remaining st = 0;
  so_active : done st = false → prompt_ready st = true →
    generated st < req_max_generated_tokens (request st) ∨
    req_max_generated_tokens (request st) = 0;
  so_result : result_ok err now st res;
}.

Lemma state_ok_mono err now now' i r st res :
  now ≤ now' → state_ok err now i r st res → state_ok err now' i r st res.
Proof.
  intros Hle []. constructor; auto.
  destruct so_result0 as (? & ? & Hf & Hres). split_and!; auto; [lia|].
  destruct (done st); [|done]. destruct (res_status res); naive_solver lia.
Qed.

(** The sequence holds blocks. *)
Definition active (st : State) : bool := negb (done st) && prompt_allocated st.

Definition state_id (st : State) : string := req_id (request st).

(** The time a request may take, in steps, which bounds its numbers of tokens. *)
Definition request_work (r : SequenceRequest) : nat :=
  (2 + Z.to_nat (req_prompt_tokens r) + Z.to_nat (req_max_generated_tokens r))%nat.

Definition total_work (reqs : list SequenceRequest) : nat :=
  sum_list (request_work <$> reqs).

Lemma total_work_cons r reqs : total_work (r :: reqs) = (request_work r + total_work reqs)%nat.
Proof. done. Qed.

Lemma request_work_le r reqs : r ∈ reqs → (request_work r ≤ total_work reqs)%nat.
Proof.
  induction reqs as [|r' reqs IH]; [set_solver|]. rewrite total_work_cons.
  intros [->|Hr]%elem_of_cons; [lia|]. specialize (IH Hr). lia.
Qed.

(** ** Sums over the states *)

Definition prefilled_tokens (sts : list State) : Z :=
  sum_Z ((λ s, req_prompt_tokens (request s) - prefill_remaining s) <$> sts).

Definition generated_total (sts : list State) : Z := sum_Z (generated <$> sts).

Section Scheduler.
Context {T : Type} `{KvAllocatorSpec T}.
Context (config_ : ContinuousBatcherConfig).
Context (reqs : list SequenceRequest).
(** [kv_limit] of the allocator, which no call changes. *)
Context (limit : Z).
Implicit Types (c : Cells T).

(** No [int] of a run overflows while its work is within that limit. *)
Definition overflow : Prop := limit < Z.of_nat (total_work reqs).

(** ** The invariant of the loop *)

Record cells_ok (now : Z) (c : Cells T) : Prop := mk_cells_ok {
  ck_alloc : kv_inv (allocator c);
  ck_limit : kv_limit (allocator c) = limit;
  ck_within : kv_within (allocator c) (generated_total (states c));
  ck_results : length (results c) = length reqs;
  ck_states : length (states c) = length reqs;
  ck_state : ∀ i st, states c !! i = Some st →
    ∃ r res, reqs !! i = Some r ∧ results c !! i = Some res ∧
             state_ok kv_error now i r st res;
}.

(** The sequences the allocator holds are the active ones, once each. *)
Record sched_inv (now : Z) (c : Cells T) : Prop := mk_sched_inv {
  si_ok : cells_ok now c;
  si_live : ∀ x, x ∈ kv_live (allocator c) ↔
    ∃ i st, states c !! i = Some st ∧ active st = true ∧ state_id st = x;
  si_unique : ∀ i j si sj, states c !! i = Some si → states c !! j = Some sj →
    active si = true → active sj = true → state_id si = state_id sj → i = j;
  si_uncancelled : ∀ i res, results c !! i = Some res → res_status res ≠ kCancelled;
}.

(** What the operations of the allocator keep, [g] more tokens being generated. *)
Record alloc_step (g : Z) (c : Cells T) (a : T) : Prop := mk_alloc_step {
  as_inv : kv_inv a;
  as_limit : kv_limit a = limit;
  as_within : kv_within a (generated_total (states c) + g);
}.

Lemma alloc_release g c a id : alloc_step g c a → alloc_step g c (kv_ReleaseSequence id a).
Proof.
  intros [Hi Hl Hw]. destruct (kv_ReleaseSequence_spec id a Hi) as (? & ? & ? & _).
  constructor; auto. congruence.
Qed.

(** Replacing one state, its result and the allocator. *)
Definition put (i : nat) (st : State) (res : SequenceResult) (a : T) (c : Cells T) :=
  mkCells (<[i := st]> (states c)) (<[i := res]> (results c)) a.

Lemma put_ok now c i st r st' res' a :
  cells_ok now c → states c !! i = Some st → reqs !! i = Some r →
  state_ok kv_error now i r st' res' → alloc_step (generated st' - generated st) c a →
  cells_ok now (put i st' res' a c).
Proof.
  intros [] Hst Hr Hok []. constructor; simpl; rewrite ?length_insert; auto.
  { unfold generated_total in *. rewrite (sum_Z_insert _ _ _ _ _ Hst).
    by rewrite <- Z.add_sub_swap, <- Z.add_sub_assoc. }
  intros j sj [[-> ->]|[Hj Hsj]]%lookup_insert_cases.
  - exists r, res'. split_and!; auto. apply list_lookup_insert_eq.
    rewrite ck_results0. by eapply lookup_lt_Some.
  - destruct (ck_state0 _ _ Hsj) as (r' & res & ? & ? & ?). exists r', res.
    rewrite list_lookup_insert_ne by done. auto.
Qed.

(** How the allocator's sequences follow the activity of one state. *)
Definition live_step (st st' : State) (a a' : T) : Prop :=
  (active st' = active st ∧ kv_live a' = kv_live a) ∨
  (active st = false ∧ active st' = true ∧ state_id st ∉ kv_live a ∧
   kv_live a' = {[state_id st]} ∪ kv_live a) ∨
  (active st = true ∧ active st' = false ∧ kv_live a' = kv_live a ∖ {[state_id st]}).

Lemma put_inv now c i st r st' res' a :
  sched_inv now c → states c !! i = Some st → reqs !! i = Some r →
  state_ok kv_error now i r st' res' → alloc_step (generated st' - generated st) c a →
  state_id st' = state_id st →
  live_step st st' (allocator c) a → res_status res' ≠ kCancelled →
  sched_inv now (put i st' res' a c).
Proof.
  intros [Hok Hlive Huniq Hunc] Hst Hr Hst' Ha Hid Hstep Hnc.
  assert (Hi : (i < length (states c))%nat) by (by eapply lookup_lt_Some).
  constructor; simpl; [by eapply put_ok| | |]; [| |by intros j rj [[-> ->]|[_ ?]]%lookup_insert_cases; eauto].
  - assert (Hother : ∀ x, (∃ j sj, <[i := st']> (states c) !! j = Some sj ∧
        active sj = true ∧ state_id sj = x) ↔
      (active st' = true ∧ state_id st = x) ∨
      (∃ j sj, j ≠ i ∧ states c !! j = Some sj ∧ active sj = true ∧ state_id sj = x)).
    { intros x. split.
      - intros (j & sj & [[-> ->]|[Hj Hsj]]%lookup_insert_cases & ? & ?); [|by eauto 8].
        left. by rewrite <- Hid.
      - intros [[? ?]|(j & sj & Hj & ? & ? & ?)].
        + exists i, st'. rewrite list_lookup_insert_eq by done. by rewrite Hid.
        + exists j, sj. by rewrite list_lookup_insert_ne. }
    intros x. rewrite Hother. clear Hother.
    assert (Hold : x ∈ kv_live (allocator c) ↔ (active st = true ∧ state_id st = x) ∨
      (∃ j sj, j ≠ i ∧ states c !! j = Some sj ∧ active sj = true ∧ state_id sj = x)).
    { rewrite Hlive. split.
      - intros (j & sj & Hsj & ? & ?). destruct (decide (j = i)) as [->|]; [left|by eauto 8].
        naive_solver.
      - naive_solver. }
    destruct Hstep as [[-> ->]|[(E1 & E2 & E3 & ->)|(E1 & E2 & ->)]]; [done|..];
      rewrite E1 in Hold; rewrite E2; rewrite ?elem_of_union, ?elem_of_difference,
        elem_of_singleton, Hold; clear Hold.
    + naive_solver.
    + split; [naive_solver|]. intros [[? ?]|(j & sj & Hj & Hsj & Ha1 & Hx)]; [done|].
      split; [by eauto 8|]. intros Hx'. apply Hj. apply (Huniq j i sj st); congruence.
  - intros j k sj sk [[-> ->]|[Hj Hsj]]%lookup_insert_cases
      [[-> ->]|[Hk Hsk]]%lookup_insert_cases Hj1 Hk1 Heq; [done|..|by eauto].
    + rewrite Hid in Heq. destruct Hstep as [[E _]|[(E1 & E2 & E3 & _)|(_ & E2 & _)]].
      * eapply Huniq; eauto; congruence.
      * exfalso. apply E3, Hlive. by eauto.
      * congruence.
    + rewrite Hid in Heq. destruct Hstep as [[E _]|[(E1 & E2 & E3 & _)|(_ & E2 & _)]].
      * eapply Huniq; eauto; congruence.
      * exfalso. apply E3, Hlive. by eauto.
      * congruence.
Qed.

Lemma sched_inv_mono now now' c : now ≤ now' → sched_inv now c → sched_inv now' c.
Proof.
  intros Hle [[] ? ? ?]. constructor; auto. constructor; auto. intros i st Hst.
  destruct (ck_state0 _ _ Hst) as (r & res & ? & ? & ?). eauto 6 using state_ok_mono.
Qed.

(** The accesses of the loops are in range. *)
Lemma upd_state_Some c i st f :
  states c !! i = Some st →
  upd_state i f c = Some (mkCells (<[i := f st]> (states c)) (results c) (allocator c)).
Proof.
  intros Hst. unfold upd_state, vec_alter. by rewrite vec_at_nat, Hst, Nat2Z.id.
Qed.

Lemma upd_result_Some c i st f res :
  index st = Z.of_nat i → results c !! i = Some res →
  upd_result st f c = Some (mkCells (states c) (<[i := f res]> (results c)) (allocator c)).
Proof.
  intros Hi Hres. unfold upd_result, vec_alter. by rewrite Hi, vec_at_nat, Hres, Nat2Z.id.
Qed.

(** ** Progress *)

(** What an iteration on the state [i] may do to the cells: [p] prompt tokens
    and [g] generated tokens of progress. *)
Record advances (i : nat) (p g : Z) (c c' : Cells T) : Prop := mk_advances {
  ad_length : length (states c') = length (states c);
  ad_other : ∀ j, j ≠ i → states c' !! j = states c !! j;
  ad_prefilled : prefilled_tokens (states c') = prefilled_tokens (states c) + p;
  ad_generated : generated_total (states c') = generated_total (states c) + g;
}.

Lemma put_advances i st st' res' a c :
  states c !! i = Some st → request st' = request st →
  advances i (prefill_remaining st - prefill_remaining st') (generated st' - generated st)
    c (put i st' res' a c).
Proof.
  intros Hst Hreq. constructor; simpl.
  - apply length_insert.
  - intros j Hj. by rewrite list_lookup_insert_ne.
  - unfold prefilled_tokens. rewrite (sum_Z_insert _ _ _ _ _ Hst), Hreq. lia.
  - unfold generated_total. rewrite (sum_Z_insert _ _ _ _ _ Hst). lia.
Qed.

Lemma put_advances_by i st st' res' a p g c :
  states c !! i = Some st → request st' = request st →
  prefill_remaining st' = prefill_remaining st - p → generated st' = generated st + g →
  advances i p g c (put i st' res' a c).
Proof.
  intros Hst Hreq Hp Hg. pose proof (put_advances i st st' res' a c Hst Hreq) as Hadv.
  rewrite Hp, Hg in Hadv.
  replace p with (prefill_remaining st - (prefill_remaining st - p)) by lia.
  by replace g with (generated st + g - generated st) by lia.
Qed.

Lemma advances_trans i p g p' g' c1 c2 c3 :
  advances i p g c1 c2 → advances i p' g' c2 c3 → advances i (p + p') (g + g') c1 c3.
Proof.
  intros [] []. constructor; [congruence| |lia..].
  intros j Hj. rewrite ad_other1, ad_other0; auto.
Qed.

Lemma work_insert (sts : list State) i st st' :
  sts !! i = Some st → (state_work st' < state_work st)%nat →
  (work (<[i := st']> sts) < work sts)%nat.
Proof.
  intros Hst Hw. unfold work. pose proof (sum_list_insert state_work _ _ _ st' Hst). lia.
Qed.

(** The tokens that a state may still generate are within the work. *)
Lemma generated_bounds now c :
  cells_ok now c → 0 ≤ generated_total (states c) ∧
  generated_total (states c) + 2 * zlen (states c) ≤ Z.of_nat (total_work reqs).
Proof.
  intros [_ _ _ _ Hlen Hst]. unfold generated_total.
  assert (Hall : Forall2 (λ st r, 0 ≤ generated st ∧ generated st + 2 ≤ Z.of_nat (request_work r))
    (states c) reqs).
  { apply Forall2_same_length_lookup. split; [done|]. intros i st r Hi Hr.
    destruct (Hst _ _ Hi) as (r' & res & Hr' & _ & Hok). rewrite Hr in Hr'. injection Hr' as <-.
    pose proof (so_generated _ _ _ _ _ _ Hok) as Hg.
    rewrite (so_request _ _ _ _ _ _ Hok) in Hg. simpl in Hg. unfold request_work. lia. }
  clear Hlen Hst. induction Hall as [|st r sts rs ? _ IH]; [done|].
  rewrite total_work_cons, fmap_cons, sum_Z_cons, length_cons. lia.
Qed.

Lemma alloc_by g g' c a : alloc_step g c a → g' = g → alloc_step g' c a.
Proof. by intros ? ->. Qed.

(** A call that creates or changes no more than the limits allow. *)
Lemma alloc_keep now c a g :
  cells_ok now c → g = 0 → kv_inv a → kv_limit a = kv_limit (allocator c) →
  (∀ m, 0 ≤ m → kv_within (allocator c) m → kv_within a m) → alloc_step g c a.
Proof.
  intros Hok -> Ha Hl Hw. constructor; [done|by rewrite Hl, (ck_limit _ _ Hok)|].
  rewrite Z.add_0_r. apply Hw; [by apply (generated_bounds now)|apply (ck_within _ _ Hok)].
Qed.

Lemma alloc_same now c g : cells_ok now c → g = 0 → alloc_step g c (allocator c).
Proof. intros Hok Hg. eapply alloc_keep; eauto. apply (ck_alloc _ _ Hok). Qed.

Lemma lookup_state now c i st :
  cells_ok now c → states c !! i = Some st →
  ∃ r res, reqs !! i = Some r ∧ results c !! i = Some res ∧
           state_ok kv_error now i r st res.
Proof. intros Hok. apply (ck_state _ _ Hok). Qed.

(** ** Prefill *)

(** Consuming keeps a sequence well formed, allocated and closer to its end. *)
Lemma consume_state_ok now i r st res k :
  state_ok kv_error now i r st res → prompt_allocated st = true →
  done st = false → prompt_ready st = false → 0 ≤ k ≤ prefill_remaining st →
  state_ok kv_error now i r (consume_prefill k st) res.
Proof.
  intros [] Ha Hd Hr Hk. specialize (so_not_ready0 Hr).
  unfold consume_prefill. constructor; simpl; auto; try lia; try congruence.
  - destruct (_ =? 0) eqn:?; to_prop; [lia|congruence].
  - unfold result_ok in *. simpl. by rewrite Hd in *.
Qed.

Lemma consume_work k st b :
  done st = false → prompt_ready st = false → 0 < b → 0 ≤ prefill_remaining st →
  k = Z.min b (prefill_remaining st) →
  (state_work (consume_prefill k st) < state_work st)%nat.
Proof.
  intros Hd Hr Hb Hp ->. unfold state_work, consume_prefill. simpl. rewrite Hd, Hr.
  destruct (_ =? 0) eqn:?; to_prop; lia.
Qed.

(** What an iteration of the prefill loop on the candidate [i] does. *)
Definition prefill_effect (now : Z) (i : nat) (budget k : Z) (c c' : Cells T) : Prop :=
  0 ≤ k ≤ budget ∧ sched_inv now c' ∧ advances i k 0 c c' ∧
  (work (states c') < work (states c))%nat.

Lemma prefill_consume_spec now i st budget p c :
  sched_inv now c → states c !! i = Some st → prompt_allocated st = true →
  done st = false → prompt_ready st = false → 0 < budget →
  ∃ c' k, prefill_consume i budget p c = Some (c', budget - k, p + k) ∧
          prefill_effect now i budget k c c'.
Proof.
  intros Hinv Hst Ha Hd Hr Hb.
  destruct (lookup_state _ _ _ _ (si_ok _ _ Hinv) Hst) as (r & res & Hreq & Hres & Hok).
  pose proof (so_prefill _ _ _ _ _ _ Hok) as Hp.
  set (k := Z.min budget (prefill_remaining st)).
  assert (Heq : mkCells (<[i := consume_prefill k st]> (states c)) (results c) (allocator c)
                = put i (consume_prefill k st) res (allocator c) c).
  { unfold put. by rewrite (list_insert_id (results c)). }
  exists (put i (consume_prefill k st) res (allocator c) c), k.
  unfold prefill_consume. rewrite Hst. simpl. fold k.
  rewrite (upd_state_Some _ _ _ _ Hst). simpl. rewrite Heq. split; [done|].
  split_and!; [lia..| | |].
  - eapply put_inv; eauto using si_uncancelled; [|eapply alloc_same; [apply Hinv|simpl; lia]|left; split; [|done]].
    + eapply consume_state_ok; eauto. lia.
    + unfold active. simpl. done.
  - eapply put_advances_by; simpl; eauto; lia.
  - simpl. eapply work_insert; [done|]. eapply (consume_work _ _ budget); auto; lia.
Qed.

(** A prompt whose blocks were just allocated. *)
Lemma allocated_state_ok now i r st res hit :
  state_ok kv_error now i r st res → done st = false →
  state_ok kv_error now i r (set_allocated st) (set_cache_hit hit res).
Proof. intros [] Hd. by constructor. Qed.

(** A sequence whose allocation failed, while its prompt was not ready. *)
Lemma rejected_state_ok now i r st res msg blocks :
  state_ok kv_error now i r st res → kv_error msg → done st = false →
  state_ok kv_error now i r (set_done st)
    (finish_result kRejected msg (generated st) (res_completion_step res) blocks res).
Proof.
  intros [] Hm Hd. constructor; simpl; auto; try done.
  destruct so_result0 as (? & ? & ? & Hres). rewrite Hd in Hres.
  destruct Hres as (? & ? & ? & ?). unfold result_ok. simpl. auto 10.
Qed.

Lemma done_work st : done st = false → (state_work (set_done st) < state_work st)%nat.
Proof. intros Hd. unfold state_work. simpl. rewrite Hd. lia. Qed.

(** A prompt that is too long for the allocator is too long for the run. *)
Lemma prompt_overflow now i r st res c :
  sched_inv now c → reqs !! i = Some r → state_ok kv_error now i r st res →
  kv_limit (allocator c) < Z.max 0 (req_prompt_tokens (request st)) → overflow.
Proof.
  intros Hinv Hr Hok. rewrite (ck_limit _ _ (si_ok _ _ Hinv)), (so_request _ _ _ _ _ _ Hok).
  pose proof (request_work_le r reqs (list_elem_of_lookup_2 _ _ _ Hr)) as Hw.
  unfold overflow. unfold request_work in Hw. simpl. lia.
Qed.

Lemma prefill_one_spec now i st budget p c :
  sched_inv now c → states c !! i = Some st →
  done st = false → prompt_ready st = false → 0 < budget →
  unless overflow (prefill_one i budget p c) (λ '(c', b', p'), ∃ k,
    b' = budget - k ∧ p' = p + k ∧ prefill_effect now i budget k c c').
Proof.
  intros Hinv Hst Hd Hr Hb. unfold prefill_one. rewrite Hst. simpl.
  destruct (prompt_allocated st) eqn:Ha.
  { destruct (prefill_consume_spec now i st budget p c) as (c' & k & -> & He);
      [done..|]. simpl. eauto. }
  destruct (lookup_state _ _ _ _ (si_ok _ _ Hinv) Hst) as (r & res & Hreq & Hres & Hok).
  pose proof (ck_alloc _ _ (si_ok _ _ Hinv)) as Hai.
  pose proof (kv_AllocatePrompt_spec (req_id (request st)) (req_prompt_tokens (request st))
    (req_prefix_cache_key (request st)) (req_prefix_cache_tokens (request st)) _ Hai) as Hal.
  destruct (kv_AllocatePrompt _ _ _ _ _) as [[al a]|]; simpl in Hal |- *;
    [destruct Hal as (Ha' & Hlim & Hw' & Hcase)|by eapply prompt_overflow].
  pose proof (so_index _ _ _ _ _ _ Hok) as Hidx.
  pose proof (so_not_ready _ _ _ _ _ _ Hok Hr) as Hg.
  assert (Hres0 : res_generated_tokens res = generated st).
  { destruct (so_result _ _ _ _ _ _ Hok) as (_ & _ & _ & Hx). rewrite Hd in Hx. lia. }
  destruct (ok al) eqn:Hokal; simpl.
  - destruct Hcase as [Hnew Hlive].
    rewrite (upd_state_Some _ i st) by done. simpl.
    erewrite upd_result_Some by eauto. simpl.
    set (c1 := mkCells _ _ _).
    assert (Hc1 : c1 = put i (set_allocated st) (set_cache_hit (cache_hit al) res) a c) by done.
    assert (Hi : (i < length (states c))%nat) by (by eapply lookup_lt_Some).
    assert (Hinv1 : sched_inv now c1).
    { rewrite Hc1. eapply put_inv; eauto using allocated_state_ok.
      { eapply alloc_keep; eauto using si_ok. simpl. lia. }
      { right. left. unfold active. simpl. rewrite Ha, Hd. auto. }
      exact (si_uncancelled _ _ Hinv _ _ Hres). }
    assert (Hst1 : states c1 !! i = Some (set_allocated st)).
    { simpl. by rewrite list_lookup_insert_eq. }
    destruct (prefill_consume_spec now i _ budget p c1 Hinv1 Hst1)
      as (c' & k & -> & Hk & Hinv' & Hadv & Hw); auto.
    exists k. do 2 (split; [done|]). split_and!; try lia; auto.
    + refine (advances_trans _ 0 0 _ _ _ _ _ _ Hadv).
      eapply put_advances_by; simpl; eauto; lia.
    + pose proof (sum_list_insert state_work _ _ _ (set_allocated st) Hst) as Hsum.
      change (state_work (set_allocated st)) with (state_work st) in Hsum.
      unfold work in *. simpl in Hw. lia.
  - destruct Hcase as [Hlive Herr]. erewrite upd_result_Some by eauto. simpl.
    rewrite (upd_state_Some _ i st) by done. simpl. rewrite Hres0.
    set (res' := finish_result _ _ _ _ _ _).
    exists 0. do 2 (split; [lia|]). split_and!; [lia..| | |].
    + eapply put_inv; eauto using rejected_state_ok.
      { eapply alloc_keep; eauto using si_ok. simpl. lia. }
      left. unfold active. simpl. by rewrite Ha, Hd.
    + eapply put_advances_by; simpl; eauto; lia.
    + simpl. eapply work_insert; [done|]. by apply done_work.
Qed.

(** What a whole phase does. *)
Record progress (p g : Z) (c c' : Cells T) : Prop := mk_progress {
  pg_length : length (states c') = length (states c);
  pg_prefilled : prefilled_tokens (states c') = prefilled_tokens (states c) + p;
  pg_generated : generated_total (states c') = generated_total (states c) + g;
  pg_work : (work (states c') ≤ work (states c))%nat;
}.

Lemma progress_refl c : progress 0 0 c c.
Proof. constructor; lia. Qed.

Lemma progress_step i p g p' g' c1 c2 c3 :
  advances i p g c1 c2 → (work (states c2) ≤ work (states c1))%nat →
  progress p' g' c2 c3 → progress (p + p') (g + g') c1 c3.
Proof. intros [] ? []. constructor; [congruence|lia..]. Qed.

(** A property of the candidates survives the iterations on the others. *)
Definition all_at (P : State → Prop) (cands : list nat) (c : Cells T) : Prop :=
  ∀ i, i ∈ cands → ∃ st, states c !! i = Some st ∧ P st.

Lemma all_at_tail P i cands p g c c' :
  NoDup (i :: cands) → all_at P (i :: cands) c → advances i p g c c' →
  all_at P cands c'.
Proof.
  intros [Hi _]%NoDup_cons Hall Hadv j Hj. destruct (Hall j) as (st & Hst & HP); [set_solver|].
  exists st. rewrite (ad_other _ _ _ _ _ Hadv); [done|]. by intros ->.
Qed.

Lemma prefill_loop_spec now cands budget p c :
  sched_inv now c → NoDup cands → 0 ≤ budget →
  all_at (λ st, done st = false ∧ prompt_ready st = false) cands c →
  unless overflow (prefill_loop cands budget p c) (λ '(c', p'), ∃ k,
    p' = p + k ∧ 0 ≤ k ≤ budget ∧ sched_inv now c' ∧ progress k 0 c c' ∧
    (cands ≠ [] → 0 < budget → (work (states c') < work (states c))%nat)).
Proof.
  revert budget p c. induction cands as [|i cands IH]; intros budget p c Hinv Hnd Hb Hall; simpl.
  { exists 0. split_and!; auto using progress_refl; try lia; intros; first [done|lia]. }
  destruct (budget <=? 0) eqn:Hb0; to_prop.
  { exists 0. split_and!; auto using progress_refl; try lia; intros; first [done|lia]. }
  destruct (Hall i) as (st & Hst & Hd & Hr); [set_solver|].
  eapply unless_bind; [by eapply prefill_one_spec|].
  intros [[c1 b1] p1] (k & -> & -> & Hk & Hinv1 & Hadv & Hw).
  specialize (IH (budget - k) (p + k) c1 Hinv1 ltac:(by inversion Hnd) ltac:(lia)
    ltac:(by eapply all_at_tail)).
  destruct (prefill_loop cands _ _ c1) as [[c2 p2]|]; simpl in *; [|done].
  destruct IH as (k2 & -> & Hk2 & Hinv2 & Hpg & _).
  exists (k + k2). split_and!; auto; [lia..| |].
  - apply (progress_step _ _ 0 _ 0 _ _ _ Hadv); [lia|done].
  - destruct Hpg. lia.
Qed.

(** ** Decode *)

Lemma ready_active now i r st res :
  state_ok kv_error now i r st res → done st = false → prompt_ready st = true →
  active st = true.
Proof.
  intros [] Hd Hr. unfold active. rewrite Hd. simpl.
  destruct (prompt_allocated st) eqn:Ha; [done|]. destruct so_fresh0; congruence.
Qed.

Lemma note_first_token_status now res :
  res_status (note_first_token now res) = res_status res.
Proof. unfold note_first_token. by case_bool. Qed.

(** One more generated token. *)
Lemma generated_state_ok now i r st res :
  0 ≤ now → state_ok kv_error now i r st res → done st = false → prompt_ready st = true →
  generated st + 1 < req_max_generated_tokens (request st) →
  state_ok kv_error now i r (incr_generated st) (note_first_token now res).
Proof.
  intros Hnow [] Hd Hr Hg. constructor; simpl; auto; try lia; try congruence.
  destruct so_result0 as (Hid & Hp & Hf & Hres). rewrite Hd in Hres.
  unfold result_ok, note_first_token. destruct (res_first_token_step res <? 0) eqn:Hft;
    to_prop; simpl; rewrite Hd; split_and!; try apply Hres; auto; try lia.
Qed.

(** The last token: the sequence is completed. *)
Lemma completed_state_ok now i r st res blocks :
  0 ≤ now → state_ok kv_error now i r st res → done st = false → prompt_ready st = true →
  generated st + 1 = req_max_generated_tokens (request st) →
  state_ok kv_error now i r (set_done (incr_generated st))
    (finish_result kCompleted "completed" (generated st + 1) now blocks
       (note_first_token now res)).
Proof.
  intros Hnow [] Hd Hr Hg. constructor; simpl; auto; try lia; try congruence.
  destruct so_result0 as (Hid & Hp & Hf & Hres). rewrite Hd in Hres.
  unfold result_ok, note_first_token. destruct (res_first_token_step res <? 0) eqn:Hft;
    to_prop; simpl; split_and!; auto; lia.
Qed.

(** A sequence that generates nothing is completed as soon as it is ready. *)
Lemma completed_empty_state_ok now i r st res blocks :
  0 ≤ now → state_ok kv_error now i r st res → done st = false → prompt_ready st = true →
  req_max_generated_tokens (request st) = 0 →
  state_ok kv_error now i r (set_done st)
    (finish_result kCompleted "completed" (res_generated_tokens res) now blocks res).
Proof.
  intros Hnow [] Hd Hr Hg. constructor; simpl; auto; try lia; try congruence.
  destruct so_result0 as (Hid & Hp & Hf & Hres). rewrite Hd in Hres.
  unfold result_ok. simpl. split_and!; auto; lia.
Qed.

Lemma complete_Some now i st res gen c :
  states c !! i = Some st → index st = Z.of_nat i → results c !! i = Some res →
  complete i now gen c = Some
    (put i (set_done st)
       (finish_result kCompleted "completed" (default (res_generated_tokens res) gen) now
          (kv_SequenceBlockCount (req_id (request st)) (allocator c)) res)
       (kv_ReleaseSequence (req_id (request st)) (allocator c)) c).
Proof.
  intros Hst Hidx Hres. unfold complete. rewrite Hst. simpl.
  erewrite upd_result_Some by eauto. simpl. by rewrite (upd_state_Some _ i st).
Qed.

Lemma put_put i st st' res res' a a' c :
  put i st' res' a' (put i st res a c) = put i st' res' a' c.
Proof. unfold put. simpl. by rewrite !list_insert_insert_eq. Qed.

Lemma released_step st st' a a' id :
  active st = true → active st' = false → state_id st = id →
  kv_live a' = kv_live a ∖ {[id]} → live_step st st' a a'.
Proof. intros ? ? <- ?. right. right. auto. Qed.

(** A sequence whose prompt is ready has less to do once it has generated a
    token or is done. *)
Lemma decode_work i st st' (c : Cells T) :
  states c !! i = Some st → done st = false → prompt_ready st = true →
  generated st < req_max_generated_tokens (request st) →
  request st' = request st → prefill_remaining st' = prefill_remaining st →
  prompt_ready st' = true → (done st' = true ∨ generated st' = generated st + 1) →
  (work (<[i := st']> (states c)) < work (states c))%nat.
Proof.
  intros Hst Hd Hr Hg E1 E2 E3 Hor. eapply work_insert; [done|].
  unfold state_work. rewrite Hd, Hr, E1, E2, E3.
  destruct (done st'); [lia|]. destruct Hor as [?|Hor]; [done|]. rewrite Hor. lia.
Qed.

(** After a generated token its sequence completes, or goes on. *)
Lemma decode_generated_spec now i r st res a c :
  0 ≤ now → sched_inv now c → states c !! i = Some st → results c !! i = Some res →
  reqs !! i = Some r → state_ok kv_error now i r st res →
  done st = false → prompt_ready st = true →
  generated st < req_max_generated_tokens (request st) →
  alloc_step 1 c a → kv_live a = kv_live (allocator c) →
  let c1 := put i (incr_generated st) (note_first_token now res) a c in
  ∃ c', (if generated st + 1 =? req_max_generated_tokens (request st)
         then complete i now (Some (generated st + 1)) c1 else Some c1) = Some c' ∧
    sched_inv now c' ∧ advances i 0 1 c c' ∧ (work (states c') < work (states c))%nat.
Proof.
  intros Hnow Hinv Hst Hres Hreq Hok Hd Hr Hg Ha Hlive. cbv zeta.
  pose proof (so_index _ _ _ _ _ _ Hok) as Hidx.
  pose proof (ready_active _ _ _ _ _ Hok Hd Hr) as Hact.
  assert (Hi : (i < length (states c))%nat) by (by eapply lookup_lt_Some).
  destruct (kv_ReleaseSequence_spec (req_id (request st)) a (as_inv _ _ _ Ha))
    as (_ & _ & _ & Hlrel).
  destruct (generated st + 1 =? _) eqn:Hmax; to_prop.
  - assert (Hres1 : results (put i (incr_generated st) (note_first_token now res) a c) !! i
                    = Some (note_first_token now res)).
    { simpl. rewrite list_lookup_insert_eq; [done|]. by eapply lookup_lt_Some. }
    erewrite complete_Some by (eauto; simpl; by rewrite ?list_lookup_insert_eq).
    simpl. rewrite put_put. eexists. split; [done|]. split_and!.
    + eapply put_inv; eauto using completed_state_ok.
      { eapply alloc_by; [by apply alloc_release|simpl; lia]. }
      apply (released_step _ _ _ _ (req_id (request st))); auto. by rewrite Hlrel, Hlive.
    + eapply put_advances_by; simpl; eauto; lia.
    + eapply decode_work; eauto.
  - eexists. split; [done|]. split_and!.
    + eapply put_inv; eauto; [apply generated_state_ok; auto; lia| | |].
      * eapply alloc_by; [done|simpl; lia].
      * left. split; [|done]. unfold active. done.
      * rewrite note_first_token_status. exact (si_uncancelled _ _ Hinv _ _ Hres).
    + eapply put_advances_by; simpl; eauto; lia.
    + eapply decode_work; eauto.
Qed.

(** A token too many for the allocator is one too many for the run. *)
Lemma append_overflow now i st c :
  sched_inv now c → states c !! i = Some st →
  kv_limit (allocator c) < generated_total (states c) + 1 → overflow.
Proof.
  intros Hinv Hst. rewrite (ck_limit _ _ (si_ok _ _ Hinv)).
  pose proof (generated_bounds _ _ (si_ok _ _ Hinv)). apply lookup_lt_Some in Hst.
  unfold overflow. lia.
Qed.

Lemma decode_one_spec now i st c :
  0 ≤ now → sched_inv now c → states c !! i = Some st →
  done st = false → prompt_ready st = true →
  generated st < req_max_generated_tokens (request st) →
  unless overflow (decode_one now i c) (λ '(c', ids), sched_inv now c' ∧
    advances i 0 (zlen ids) c c' ∧ (ids = [] ∨ ids = [state_id st]) ∧
    (work (states c') < work (states c))%nat).
Proof.
  intros Hnow Hinv Hst Hd Hr Hg. unfold decode_one. rewrite Hst. simpl.
  destruct (lookup_state _ _ _ _ (si_ok _ _ Hinv) Hst) as (r & res & Hreq & Hres & Hok).
  pose proof (so_index _ _ _ _ _ _ Hok) as Hidx.
  pose proof (ready_active _ _ _ _ _ Hok Hd Hr) as Hact.
  pose proof (kv_AppendTokens_spec (req_id (request st)) 1 _ _ (ck_alloc _ _ (si_ok _ _ Hinv))
    ltac:(lia) (ck_within _ _ (si_ok _ _ Hinv))) as Happ.
  destruct (kv_AppendTokens _ _ _) as [[al a]|]; simpl in Happ |- *;
    [destruct Happ as (Ha & Hlim & Hlive & Hok')|by eapply append_overflow].
  rewrite (ck_limit _ _ (si_ok _ _ Hinv)) in Hlim.
  destruct (kv_ReleaseSequence_spec (req_id (request st)) a Ha) as (_ & _ & _ & Hlrel).
  destruct (ok al) eqn:Hokal; simpl.
  - rewrite (upd_state_Some _ i st) by done. simpl.
    erewrite upd_result_Some by eauto. simpl.
    fold (put i (incr_generated st) (note_first_token now res) a c).
    destruct (decode_generated_spec now i r st res a c) as (c' & Hc' & ? & ? & ?); [done..|].
    destruct (_ =? _); [rewrite Hc'|injection Hc' as ->]; simpl; auto.
  - erewrite upd_result_Some by eauto. simpl.
    rewrite (upd_state_Some _ i st) by done. simpl.
    destruct Hok' as [Hw Herr]. split_and!; [| |by left|].
    + eapply (put_inv now c i st); eauto using rejected_state_ok.
      { apply alloc_release. constructor; auto. simpl. by rewrite Z.sub_diag, Z.add_0_r. }
      apply (released_step _ _ _ _ (req_id (request st))); auto. by rewrite Hlrel, Hlive.
    + eapply put_advances_by; simpl; eauto; lia.
    + eapply decode_work; eauto.
Qed.

(** A sequence that still has a token to generate when its prompt is ready. *)
Definition decodable (st : State) : Prop :=
  done st = false ∧ prompt_ready st = true ∧
  generated st < req_max_generated_tokens (request st).

Lemma decode_loop_spec now cands c :
  0 ≤ now → sched_inv now c → NoDup cands → all_at decodable cands c →
  unless overflow (decode_loop now cands c) (λ '(c', ids), sched_inv now c' ∧
    progress 0 (zlen ids) c c' ∧ (length ids ≤ length cands)%nat ∧
    (cands ≠ [] → (work (states c') < work (states c))%nat)).
Proof.
  intros Hnow. revert c. induction cands as [|i cands IH]; intros c Hinv Hnd Hall; simpl.
  { split_and!; auto using progress_refl. done. }
  destruct (Hall i) as (st & Hst & Hd & Hr & Hg); [set_solver|].
  eapply unless_bind; [by eapply decode_one_spec|].
  intros [c1 ids] (Hinv1 & Hadv & Hids & Hw).
  eapply unless_bind; [apply IH; [done|by inversion Hnd|by eapply all_at_tail]|].
  intros [c2 ids2] (Hinv2 & Hpg & Hlen & _). simpl. rewrite length_app, Nat2Z.inj_add. split_and!; auto.
  - apply (progress_step _ 0 _ 0 _ _ _ _ Hadv); [lia|done].
  - destruct Hids as [-> | ->]; simpl; lia.
  - destruct Hpg. lia.
Qed.

(** ** The end of a step *)

(** Between two steps a ready sequence still has a token to generate. *)
Definition settled (st : State) : Prop :=
  done st = false → prompt_ready st = true →
  generated st < req_max_generated_tokens (request st).

Lemma finish_empty_one_spec now i st c :
  0 ≤ now → sched_inv now c → states c !! i = Some st →
  ∃ c', finish_empty_one now i c = Some c' ∧ sched_inv now c' ∧ advances i 0 0 c c' ∧
    (work (states c') ≤ work (states c))%nat ∧
    ∃ st', states c' !! i = Some st' ∧ settled st'.
Proof.
  intros Hnow Hinv Hst. unfold finish_empty_one. rewrite Hst. simpl.
  destruct (lookup_state _ _ _ _ (si_ok _ _ Hinv) Hst) as (r & res & Hreq & Hres & Hok).
  assert (Hi : (i < length (states c))%nat) by (by eapply lookup_lt_Some).
  destruct (negb (done st) && prompt_ready st && _) eqn:Hb; to_prop.
  - pose proof (ready_active _ _ _ _ _ Hok) as Hact.
    erewrite complete_Some by eauto using so_index. simpl.
    pose proof (kv_ReleaseSequence_spec (req_id (request st)) _
      (ck_alloc _ _ (si_ok _ _ Hinv))) as (_ & _ & _ & Hlrel).
    eexists. split; [done|]. split_and!.
    + eapply put_inv; eauto using completed_empty_state_ok.
      { apply alloc_release. eapply alloc_same; [apply Hinv|simpl; lia]. }
      apply (released_step _ _ _ _ (req_id (request st))); auto.
    + eapply put_advances_by; simpl; eauto; lia.
    + simpl. apply Nat.lt_le_incl. eapply work_insert; [done|]. by apply done_work.
    + exists (set_done st). simpl. by rewrite list_lookup_insert_eq.
  - exists c. split_and!; auto; [constructor; auto; lia|]. exists st. split; [done|].
    intros Hd Hr. rewrite Hd, Hr in Hb. simpl in Hb. to_prop.
    destruct (so_active _ _ _ _ _ _ Hok Hd Hr); [done|lia].
Qed.

Lemma finish_empty_loop_spec now todo c :
  0 ≤ now → sched_inv now c → NoDup todo → all_at (λ _, True) todo c →
  ∃ c', finish_empty_loop now todo c = Some c' ∧ sched_inv now c' ∧ progress 0 0 c c' ∧
    (∀ j, j ∉ todo → states c' !! j = states c !! j) ∧ all_at settled todo c'.
Proof.
  intros Hnow. revert c. induction todo as [|i todo IH]; intros c Hinv Hnd Hall; simpl.
  { exists c. split_and!; auto using progress_refl. intros i Hi. set_solver. }
  destruct (Hall i) as (st & Hst & _); [set_solver|].
  destruct (finish_empty_one_spec now i st c Hnow Hinv Hst)
    as (c1 & -> & Hinv1 & Hadv & Hw & st' & Hst' & Hset). simpl.
  destruct (IH c1) as (c2 & -> & Hinv2 & Hpg & Hframe & Hset2);
    [done|by inversion Hnd|by eapply all_at_tail|]. simpl.
  apply NoDup_cons in Hnd as [Hi _].
  exists c2. split_and!; auto.
  - by apply (progress_step _ 0 0 0 0 _ _ _ Hadv).
  - intros j Hj. rewrite Hframe, (ad_other _ _ _ _ _ Hadv); set_solver.
  - intros j [->|Hj]%elem_of_cons; [|auto]. exists st'. by rewrite Hframe.
Qed.

(** ** Cancellation *)

Lemma cancelled_state_ok now i r st res :
  state_ok kv_error now i r st res → done st = false →
  state_ok kv_error now i r (set_done st) (cancel_result res).
Proof.
  intros [] Hd. constructor; simpl; auto; try done.
  destruct so_result0 as (? & ? & ? & Hres). rewrite Hd in Hres.
  unfold result_ok. simpl. naive_solver.
Qed.

(** Every sequence of the allocator is that of a state still to cancel. *)
Definition live_in (todo : list nat) (c : Cells T) : Prop :=
  ∀ x, x ∈ kv_live (allocator c) → ∃ i st, i ∈ todo ∧ states c !! i = Some st ∧
    done st = false ∧ state_id st = x.

(** The states [todo] end done; those that were not are cancelled. *)
Definition cancels (todo : list nat) (c c' : Cells T) : Prop :=
  (∀ j, j ∉ todo → states c' !! j = states c !! j ∧ results c' !! j = results c !! j) ∧
  ∀ i st, i ∈ todo → states c !! i = Some st →
    if done st
    then states c' !! i = Some st ∧ results c' !! i = results c !! i
    else states c' !! i = Some (set_done st) ∧
         ∃ res, results c' !! i = Some res ∧ res_status res = kCancelled.

Lemma cancel_one_spec now i st todo c :
  cells_ok now c → live_in (i :: todo) c → states c !! i = Some st →
  ∃ c', cancel_one i c = Some c' ∧ cells_ok now c' ∧ live_in todo c' ∧ cancels [i] c c'.
Proof.
  intros Hok Hlive Hst. unfold cancel_one. rewrite Hst. simpl.
  assert (Hi : (i < length (states c))%nat) by (by eapply lookup_lt_Some).
  destruct (done st) eqn:Hd.
  - exists c. split_and!; auto.
    + intros x Hx. destruct (Hlive x Hx) as (j & sj & Hj & Hsj & Hdj & ?).
      exists j, sj. split_and!; auto. apply elem_of_cons in Hj as [->|]; [congruence|done].
    + split; [auto|]. intros j sj ->%list_elem_of_singleton Hsj.
      rewrite Hst in Hsj. injection Hsj as <-. by rewrite Hd.
  - destruct (lookup_state _ _ _ _ Hok Hst) as (r & res & Hreq & Hres & Hso).
    erewrite upd_result_Some by eauto using so_index. simpl.
    rewrite (upd_state_Some _ i st) by done. simpl.
    pose proof (kv_ReleaseSequence_spec (req_id (request st)) _ (ck_alloc _ _ Hok))
      as (_ & _ & _ & Hlrel).
    eexists. split; [done|]. split_and!.
    + eapply (put_ok now c i st); eauto using cancelled_state_ok.
      apply alloc_release. eapply alloc_same; [done|simpl; lia].
    + intros x Hx. simpl in Hx. rewrite Hlrel in Hx.
      destruct (Hlive x) as (j & sj & Hj & Hsj & Hdj & Hid); [set_solver|].
      assert (j ≠ i) by (intros ->; unfold state_id in Hid; set_solver).
      exists j, sj. simpl. rewrite list_lookup_insert_ne by done. set_solver.
    + split; simpl.
      * intros j Hj. rewrite !list_lookup_insert_ne by set_solver. done.
      * intros j sj ->%list_elem_of_singleton Hsj. rewrite Hst in Hsj. injection Hsj as <-.
        rewrite Hd. rewrite !list_lookup_insert_eq by
          (rewrite ?(ck_results _ _ Hok), <- ?(ck_states _ _ Hok); done). eauto.
Qed.

Lemma cancel_loop_spec now todo c :
  cells_ok now c → live_in todo c → NoDup todo → all_at (λ _, True) todo c →
  ∃ c', cancel_loop todo c = Some c' ∧ cells_ok now c' ∧
        kv_live (allocator c') = ∅ ∧ cancels todo c c'.
Proof.
  revert c. induction todo as [|i todo IH]; intros c Hok Hlive Hnd Hall; simpl.
  { exists c. split_and!; auto; [|split; [auto|set_solver]].
    apply elem_of_equiv_empty_L. intros x Hx. destruct (Hlive x Hx) as (j & _ & Hj & _). set_solver. }
  destruct (Hall i) as (st & Hst & _); [set_solver|].
  destruct (cancel_one_spec now i st todo c Hok Hlive Hst)
    as (c1 & -> & Hok1 & Hlive1 & Hfr1 & Hc1). simpl.
  apply NoDup_cons in Hnd as [Hi Hnd].
  destruct (IH c1) as (c2 & -> & Hok2 & Hempty & Hfr2 & Hc2); auto.
  { intros j Hj. destruct (Hall j) as (sj & Hsj & _); [set_solver|].
    exists sj. by rewrite (proj1 (Hfr1 j ltac:(set_solver))). }
  exists c2. split_and!; auto. split.
  - intros j Hj. destruct (Hfr1 j), (Hfr2 j); [set_solver..|]. split; congruence.
  - intros j sj Hj Hsj. destruct (decide (j = i)) as [->|Hne].
    + destruct (Hfr2 i Hi) as [-> ->]. apply Hc1; [set_solver|done].
    + destruct (Hfr1 j ltac:(set_solver)) as [E1 E2]. rewrite <- E1 in Hsj. rewrite <- E2.
      apply Hc2; [set_solver|done].
Qed.
End Scheduler.
