(* ===== verification/BatcherProps.v ===== *)
(** * Theorems on the continuous batcher

    The loop ends and every access is in range, whatever the allocator, as long
    as it implements [KvAllocatorSpec]; every sequence ends completed, rejected
    or cancelled; each step respects its budgets and the priorities. *)
From Stdlib Require Import Sorting.Sorted.
From stdpp Require Import prelude gmap strings list sorting.
From S2P Require Import Prelude KvCache KvCacheInv KvCacheProps Batcher BatcherInv.

(** ** [std::sort] *)


(** [by_priority] compares [(-priority, index)] lexicographically. *)
Definition rank (sts : list State) (i : nat) : Z * Z :=
  match sts !! i with
  | Some s => (- req_priority (request s), index s)
  | None => (0, 0)
  end.

Definition rank_le (sts : list State) (i j : nat) : Prop :=
  (rank sts i).1 < (rank sts j).1 ∨
  ((rank sts i).1 = (rank sts j).1 ∧ (rank sts i).2 ≤ (rank sts j).2).

Lemma by_priority_false sts i j :
  is_Some (sts !! i) → is_Some (sts !! j) →
  by_priority sts i j = false → rank_le sts j i.
Proof.
  intros [si Hi] [sj Hj]. unfold by_priority, rank_le, rank. rewrite Hi, Hj. simpl.
  destruct (req_priority (request si) =? req_priority (request sj)) eqn:E; simpl;
    intros ?; to_prop; lia.
Qed.

Lemma by_priority_true sts i j : by_priority sts i j = true → rank_le sts i j.
Proof.
  unfold by_priority, rank_le, rank. destruct (sts !! i) as [si|], (sts !! j) as [sj|]; try done.
  destruct (req_priority (request si) =? req_priority (request sj)) eqn:E; simpl;
    intros ?; to_prop; lia.
Qed.

Lemma rank_le_trans sts i j k : rank_le sts i j → rank_le sts j k → rank_le sts i k.
Proof. unfold rank_le. lia. Qed.

Lemma sort_insert_sorted sts x l :
  is_Some (sts !! x) → (∀ i, i ∈ l → is_Some (sts !! i)) →
  StronglySorted (rank_le sts) l →
  StronglySorted (rank_le sts) (sort_insert (by_priority sts) x l).
Proof.
  intros Hx Hl. induction 1 as [|y l Hs IH Hf]; simpl; [by repeat constructor|].
  destruct (by_priority sts x y) eqn:Hb.
  - apply by_priority_true in Hb. constructor.
    + by constructor.
    + constructor; [done|]. eapply Forall_impl; [done|]. intros z. by apply rank_le_trans.
  - apply by_priority_false in Hb; [|done|apply Hl; set_solver].
    constructor; [apply IH; set_solver|]. rewrite sort_insert_perm. by constructor.
Qed.

Lemma std_sort_sorted sts l :
  (∀ i, i ∈ l → is_Some (sts !! i)) →
  StronglySorted (rank_le sts) (std_sort (by_priority sts) l).
Proof.
  induction l as [|x l IH]; intros Hl; simpl; [constructor|].
  apply sort_insert_sorted.
  - apply Hl. set_solver.
  - intros i. rewrite elem_of_std_sort. intros. apply Hl. set_solver.
  - apply IH. set_solver.
Qed.

(** ** Candidates *)

Lemma elem_of_positions f sts i :
  i ∈ positions f sts ↔ ∃ s, sts !! i = Some s ∧ f s = true.
Proof.
  unfold positions. rewrite list_elem_of_filter, elem_of_seq. split.
  - intros [Hf _]. destruct (sts !! i); naive_solver.
  - intros (s & Hs & Hf). rewrite Hs. split; [done|]. apply lookup_lt_Some in Hs. lia.
Qed.

Lemma positions_NoDup f sts : NoDup (positions f sts).
Proof. apply NoDup_filter, NoDup_seq. Qed.

Lemma count_states_pos f sts :
  0 < count_states f sts ↔ ∃ i s, sts !! i = Some s ∧ f s = true.
Proof.
  unfold count_states. split.
  - intros Hlen. destruct (filter _ sts) as [|s l] eqn:Hf; [simpl in Hlen; lia|].
    assert (Hs : s ∈ filter (λ s, f s = true) sts) by (rewrite Hf; set_solver).
    apply list_elem_of_filter in Hs as [? [i ?]%list_elem_of_lookup]. eauto.
  - intros (i & s & Hi & Hs).
    assert (Hin : s ∈ filter (λ s, f s = true) sts).
    { apply list_elem_of_filter. eauto using list_elem_of_lookup_2. }
    destruct (filter _ sts); [set_solver|simpl; lia].
Qed.

Lemma prefill_candidates_spec sts i :
  i ∈ prefill_candidates sts ↔
  ∃ s, sts !! i = Some s ∧ done s = false ∧ prompt_ready s = false.
Proof.
  unfold prefill_candidates. rewrite elem_of_std_sort, elem_of_positions.
  split; intros (s & Hs & Hf); exists s.
  - to_prop. auto.
  - destruct Hf as [-> ->]. auto.
Qed.

Lemma decode_candidates_spec sts i :
  i ∈ decode_candidates sts ↔ ∃ s, sts !! i = Some s ∧ decodable s.
Proof.
  unfold decode_candidates. rewrite elem_of_std_sort, elem_of_positions.
  split; intros (s & Hs & Hf); exists s.
  - to_prop. unfold decodable. auto.
  - destruct Hf as (-> & -> & ?%Z.ltb_lt). auto.
Qed.

(** ** Sums and counts *)

Lemma sum_Z_app (l1 l2 : list Z) : sum_Z (l1 ++ l2) = sum_Z l1 + sum_Z l2.
Proof. induction l1; simpl; lia. Qed.

Lemma sum_Z_zero (l : list Z) : (∀ x, x ∈ l → x = 0) → sum_Z l = 0.
Proof.
  induction l as [|x l IH]; intros Hl; simpl; [done|].
  rewrite (Hl x), IH; [done|set_solver..].
Qed.

Lemma count_snoc (P : SchedulerStep → Prop) `{∀ x, Decision (P x)} l x :
  zlen (filter P (l ++ [x])) = zlen (filter P l) + (if decide (P x) then 1 else 0).
Proof.
  rewrite filter_app, length_app, Nat2Z.inj_add. f_equal.
  by rewrite filter_cons; destruct (decide (P x)).
Qed.

Lemma set_done_done st : done st = true → set_done st = st.
Proof. destruct st; simpl. by intros ->. Qed.

Lemma work_set_done sts : work (set_done <$> sts) = 0%nat.
Proof. induction sts as [|s sts IH]; [done|]. exact IH. Qed.

Section Steps.
Context {T : Type} `{KvAllocatorSpec T}.
Context (config_ : ContinuousBatcherConfig).
Context (Hprefill : 0 < max_prefill_tokens_per_step config_).
Context (Hdecode : 0 < max_decode_sequences_per_step config_).
Context (reqs : list SequenceRequest) (limit : Z).
Abbreviation overflow := (overflow reqs limit).
Implicit Types (c : Cells T).

(** ** One step *)

(** What [run_step] records of the step [now] from [c] to [c']. *)
Record step_ok (now : Z) (c c' : Cells T) (step : SchedulerStep) : Prop := mk_step_ok {
  st_index : step_index step = now;
  st_prefill : 0 ≤ step_prefill_tokens step ≤ max_prefill_tokens_per_step config_;
  st_decode : 0 ≤ step_decoded_tokens step ≤ max_decode_sequences_per_step config_;
  st_ids : zlen (step_decoded_sequence_ids step) = step_decoded_tokens step;
  st_queued : step_queued_sequences step = unfinished_count (states c);
  st_active : step_active_sequences step =
    count_states (λ s, negb (done s) && prompt_ready s) (states c');
  st_blocks : 0 ≤ step_kv_blocks_used step ≤ KvCache.total_blocks (kv_Stats (allocator c'));
  st_progress : progress (step_prefill_tokens step) (step_decoded_tokens step) c c';
}.

(** The invariant between two steps. *)
Definition step_inv (now : Z) (c : Cells T) : Prop :=
  sched_inv reqs limit now c ∧ ∀ i st, states c !! i = Some st → settled st.

Lemma all_positions c : all_at (λ _, True) (seq 0 (length (states c))) c.
Proof.
  intros i [_ Hi]%elem_of_seq. destruct (lookup_lt_is_Some_2 (states c) i) as [st ?]; eauto.
Qed.

Lemma progress_trans p g p' g' c1 c2 c3 :
  progress p g c1 c2 → progress p' g' c2 c3 → progress (p + p') (g + g') c1 c3.
Proof. intros [] []. constructor; [congruence|lia..]. Qed.

(** Either a prompt is not ready, and the prefill loop makes progress, or every
    unfinished sequence is decodable. *)
Lemma work_to_do now c :
  step_inv now c → 0 < unfinished_count (states c) →
  prefill_candidates (states c) ≠ [] ∨
  (prefill_candidates (states c) = [] ∧ decode_candidates (states c) ≠ []).
Proof.
  intros [Hinv Hset] (i & st & Hst & Hd)%count_states_pos. to_prop.
  destruct (prefill_candidates (states c)) as [|j l] eqn:Hpc; [right|by left].
  split; [done|]. intros Hdc.
  destruct (prompt_ready st) eqn:Hr.
  - assert (Hin : i ∈ decode_candidates (states c)).
    { apply decode_candidates_spec. exists st. split; [done|]. split_and!; auto. by eapply Hset. }
    rewrite Hdc in Hin. set_solver.
  - assert (Hin : i ∈ prefill_candidates (states c)).
    { apply prefill_candidates_spec. eauto. }
    rewrite Hpc in Hin. set_solver.
Qed.

Lemma run_step_spec now c :
  0 ≤ now → step_inv now c →
  unless overflow (run_step config_ now c) (λ '(c', step), step_inv now c' ∧
    step_ok now c c' step ∧
    (0 < unfinished_count (states c) → (work (states c') < work (states c))%nat)).
Proof using Hprefill Hdecode.
  intros Hnow Hsi. pose proof Hsi as [Hinv Hset]. unfold run_step.
  pose proof (prefill_loop_spec reqs limit now (prefill_candidates (states c))
    (max_prefill_tokens_per_step config_) 0 c Hinv (std_sort_NoDup _ _ (positions_NoDup _ _))
    ltac:(lia) ltac:(by intros i Hi%prefill_candidates_spec)) as Hpre.
  destruct (prefill_loop _ _ _ c) as [[c1 p1]|] eqn:Heq1; [|done]. simpl in Hpre |- *.
  destruct Hpre as (k & -> & Hk & Hinv1 & Hpg1 & Hw1).
  set (cands := decode_candidates (states c1)).
  set (chosen := take (Z.to_nat (decode_limit config_ cands)) cands).
  assert (Hlen : zlen chosen ≤ max_decode_sequences_per_step config_).
  { unfold chosen, decode_limit. rewrite length_take. lia. }
  eapply unless_bind; [apply (decode_loop_spec reqs limit now chosen c1 Hnow Hinv1)|].
  { eapply sublist_NoDup; [apply std_sort_NoDup, positions_NoDup|apply sublist_take]. }
  { intros i Hi. apply decode_candidates_spec.
    apply elem_of_take in Hi as (? & ? & _). by eapply list_elem_of_lookup_2. }
  intros [c2 ids] (Hinv2 & Hpg2 & Hids & Hw2).
  destruct (finish_empty_loop_spec reqs limit now (seq 0 (length (states c2))) c2 Hnow Hinv2)
    as (c3 & -> & Hinv3 & Hpg3 & _ & Hset3); [apply NoDup_seq|apply all_positions|].
  simpl.
  assert (Hpg : progress k (zlen ids) c c3).
  { pose proof (progress_trans _ _ _ _ _ _ _ (progress_trans _ _ _ _ _ _ _ Hpg1 Hpg2) Hpg3) as Hp.
    by rewrite !Z.add_0_r, Z.add_0_l in Hp. }
  split_and!.
  - split; [done|]. intros i st Hst. pose proof (lookup_lt_Some _ _ _ Hst) as Hi.
    rewrite (pg_length _ _ _ _ Hpg3) in Hi. destruct (Hset3 i) as (st' & Hst' & ?);
      [apply elem_of_seq; lia|]. rewrite Hst in Hst'. by injection Hst' as ->.
  - pose proof (kv_Stats_spec _ (ck_alloc _ _ _ _ (si_ok _ _ _ _ Hinv3))) as [Hu _].
    constructor; simpl; auto; lia.
  - intros Hun. destruct Hpg1, Hpg2, Hpg3.
    destruct (work_to_do now c Hsi Hun) as [Hne|[Hnil Hne]]; [specialize (Hw1 Hne); lia|].
    assert (Hc1 : c1 = c) by (rewrite Hnil in Heq1; by injection Heq1).
    assert (Hch : chosen ≠ []); [|specialize (Hw2 Hch); lia].
    rewrite <- Hc1 in Hne. fold cands in Hne.
    intros Hnone%(f_equal length). unfold chosen, decode_limit in Hnone.
    rewrite length_take in Hnone. apply Hne, length_zero_iff_nil. simpl in Hnone. lia.
Qed.

(** ** The scheduling loop *)

(** What every recorded step satisfies. *)
Record step_bounds (n : nat) (step : SchedulerStep) : Prop := mk_step_bounds {
  sb_index : step_index step = Z.of_nat n;
  sb_prefill : 0 ≤ step_prefill_tokens step ≤ max_prefill_tokens_per_step config_;
  sb_decode : 0 ≤ step_decoded_tokens step ≤ max_decode_sequences_per_step config_;
  sb_ids : zlen (step_decoded_sequence_ids step) = step_decoded_tokens step;
}.

(** The steps and the counters account for what happened to the states. *)
Record history (sts : list State) (steps : list SchedulerStep)
    (stats : ContinuousBatchingStats) : Prop := mk_history {
  hi_steps : ∀ n step, steps !! n = Some step → step_bounds n step;
  hi_prefilled : prefilled_tokens sts = sum_Z (step_prefill_tokens <$> steps);
  hi_generated : generated_total sts = sum_Z (step_decoded_tokens <$> steps);
  hi_total : total_generated_tokens stats = sum_Z (step_decoded_tokens <$> steps);
  hi_prefill_steps :
    prefill_steps stats = zlen (filter (λ s, 0 < step_prefill_tokens s) steps);
  hi_decode_steps :
    decode_steps stats = zlen (filter (λ s, 0 < step_decoded_tokens s) steps);
}.

Lemma history_snoc now c c' steps stats step stats' :
  history (states c) steps stats → step_ok now c c' step → now = zlen steps →
  prefill_steps stats' = prefill_steps stats + (if 0 <? step_prefill_tokens step then 1 else 0) →
  decode_steps stats' = decode_steps stats + (if 0 <? step_decoded_tokens step then 1 else 0) →
  total_generated_tokens stats' = total_generated_tokens stats + step_decoded_tokens step →
  history (states c') (steps ++ [step]) stats'.
Proof.
  intros [] [] -> Hps Hds Htg. destruct st_progress0. constructor; simpl.
  - intros n s [Hs|[Hn Hs]]%lookup_app_Some; [by auto|].
    apply list_lookup_singleton_Some in Hs as [Hn' <-].
    assert (n = length steps) as -> by lia. by constructor.
  - rewrite fmap_app, sum_Z_app. simpl. lia.
  - rewrite fmap_app, sum_Z_app. simpl. lia.
  - rewrite fmap_app, sum_Z_app. simpl. lia.
  - rewrite count_snoc, Hps. destruct (decide _); case_bool; lia.
  - rewrite count_snoc, Hds. destruct (decide _); case_bool; lia.
Qed.

(** Counting a step does not overflow within the limit. *)
Lemma count_step_history now c c' steps stats step :
  history (states c) steps stats → step_ok now c c' step → now = zlen steps →
  limit ≤ INT_MAX → zlen steps + 1 ≤ Z.of_nat (total_work reqs) →
  0 ≤ generated_total (states c') ≤ Z.of_nat (total_work reqs) →
  unless overflow (count_step step stats) (λ stats',
    history (states c') (steps ++ [step]) stats' ∧
    total_prompt_tokens stats' = total_prompt_tokens stats).
Proof.
  intros Hhi Hok Hnow Hlim Hlen Hgen. pose proof Hhi as [_ _ Hg Ht Hp Hd]. pose proof (st_progress _ _ _ _ Hok) as [_ _ Hpg _].
  pose proof (st_decode _ _ _ _ Hok).
  assert (Hover : ∀ n, 0 ≤ n → n ≤ Z.of_nat (total_work reqs) →
    ¬ (INT_MIN ≤ n ≤ INT_MAX) → overflow).
  { unfold BatcherInv.overflow, INT_MIN. lia. }
  pose proof (length_filter (λ s, 0 < step_prefill_tokens s) steps).
  pose proof (length_filter (λ s, 0 < step_decoded_tokens s) steps).
  unfold count_step. eapply (unless_bind _ _ _ (λ m, m = _)).
  { instantiate (1 := prefill_steps stats + (if 0 <? step_prefill_tokens step then 1 else 0)).
    destruct (0 <? step_prefill_tokens step); [|simpl; lia].
    apply unless_int, Hover; lia. }
  intros m ->. destruct (0 <? step_decoded_tokens step) eqn:Hdec; to_prop.
  2: { simpl. split; [|done]. eapply history_snoc; eauto; simpl; [|lia].
       rewrite (proj2 (Z.ltb_ge _ _)) by lia. lia. }
  eapply unless_bind; [apply unless_int, Hover; lia|]. intros n ->.
  eapply unless_bind; [apply unless_int, Hover; lia|]. intros n ->. simpl. split; [|done].
  eapply history_snoc; eauto. simpl. by rewrite (proj2 (Z.ltb_lt _ _)).
Qed.

(** How the loop ends: nothing is left in the allocator, every state is done,
    and either no state was cancelled or the callback answered [true]. *)
Record loop_end (is_cancelled : nat → bool) (calls : nat) (c : Cells T)
    (steps : list SchedulerStep) (stats : ContinuousBatchingStats) (calls' : nat)
    : Prop := mk_loop_end {
  le_ok : cells_ok reqs limit (zlen steps - 1) c;
  le_done : ∀ i st, states c !! i = Some st → done st = true;
  le_live : kv_live (allocator c) = ∅;
  le_history : history (states c) steps stats;
  le_polls : (∀ n, (calls ≤ n < calls + length steps)%nat → is_cancelled n = false);
  le_calls :
    (calls' = (calls + length steps)%nat ∧
       ∀ i res, results c !! i = Some res → res_status res ≠ kCancelled) ∨
    (calls' = S (calls + length steps) ∧ is_cancelled (calls + length steps)%nat = true);
}.

Lemma cancels_states now now' c c' :
  cells_ok reqs limit now c → cells_ok reqs limit now' c' →
  cancels (seq 0 (length (states c))) c c' → states c' = set_done <$> states c.
Proof.
  intros Hok Hok' [_ Hc]. apply list_eq. intros i. rewrite list_lookup_fmap.
  destruct (states c !! i) as [st|] eqn:Hst; simpl.
  - specialize (Hc i st ltac:(apply elem_of_seq; apply lookup_lt_Some in Hst; lia) Hst).
    destruct (done st) eqn:Hd; [|by destruct Hc]. by rewrite set_done_done; [destruct Hc|].
  - apply lookup_ge_None in Hst. apply lookup_ge_None.
    rewrite (ck_states _ _ _ _ Hok'), <- (ck_states _ _ _ _ Hok). done.
Qed.

Lemma history_set_done sts steps stats :
  history sts steps stats → history (set_done <$> sts) steps stats.
Proof.
  intros []. constructor; auto.
  - rewrite <- hi_prefilled0. unfold prefilled_tokens. by rewrite <- list_fmap_compose.
  - rewrite <- hi_generated0. unfold generated_total. by rewrite <- list_fmap_compose.
Qed.

(** Nothing unfinished: every state is done and holds nothing. *)
Lemma unfinished_done now c :
  sched_inv reqs limit now c → unfinished_count (states c) ≤ 0 →
  (∀ i st, states c !! i = Some st → done st = true) ∧ kv_live (allocator c) = ∅.
Proof.
  intros Hinv Hun.
  assert (Hall : ∀ i st, states c !! i = Some st → done st = true).
  { intros i st Hst. destruct (done st) eqn:Hd; [done|].
    assert (0 < unfinished_count (states c)); [|lia].
    apply count_states_pos. exists i, st. by rewrite Hd. }
  split; [done|]. apply elem_of_equiv_empty_L. intros x Hx.
  apply (si_live _ _ _ _ Hinv) in Hx as (i & st & Hst & Ha & _).
  unfold active in Ha. by rewrite (Hall _ _ Hst) in Ha.
Qed.

Lemma sched_live_in now c :
  sched_inv reqs limit now c → live_in (seq 0 (length (states c))) c.
Proof.
  intros Hinv x (i & st & Hst & Ha & Hid)%(si_live _ _ _ _ Hinv).
  exists i, st. unfold active in Ha. to_prop. split_and!; auto.
  apply elem_of_seq. apply lookup_lt_Some in Hst. lia.
Qed.

(** How the loop ends from a state that satisfies the invariant. *)
Lemma run_loop_spec is_cancelled fuel calls c steps stats :
  (work (states c) < fuel)%nat → step_inv (zlen steps - 1) c →
  history (states c) steps stats →
  (∀ n, (calls ≤ n < calls + length steps)%nat → is_cancelled n = false) →
  (length steps + work (states c) ≤ total_work reqs)%nat →
  unless overflow
    (run_loop config_ is_cancelled fuel (calls + length steps) (length steps) c steps stats)
    (λ '(c', steps', stats', calls'),
      loop_end is_cancelled calls c' steps' stats' calls' ∧
      (length steps' + work (states c') ≤ total_work reqs)%nat ∧
      total_prompt_tokens stats' = total_prompt_tokens stats).
Proof using Hprefill Hdecode.
  revert c steps stats. induction fuel as [|fuel IH];
    intros c steps stats Hfuel Hsi Hhi Hpoll Hwork; [lia|].
  simpl. pose proof Hsi as [Hinv Hset].
  destruct (unfinished_count (states c) <=? 0) eqn:Hun; to_prop.
  { destruct (unfinished_done _ _ Hinv Hun). split; [|auto].
    constructor; auto; [apply Hinv|]. left. split; [done|]. apply Hinv. }
  destruct (is_cancelled (calls + length steps)%nat) eqn:Hcan.
  { destruct (cancel_loop_spec reqs limit (zlen steps - 1) (seq 0 (length (states c))) c)
      as (c' & -> & Hok' & Hlive & Hc);
      [apply Hinv|by eapply sched_live_in|apply NoDup_seq|apply all_positions|].
    pose proof (cancels_states _ _ _ _ (si_ok _ _ _ _ Hinv) Hok' Hc) as Hst.
    simpl. split; [|split; [|done]].
    - constructor; auto.
      + rewrite Hst. intros i st. rewrite list_lookup_fmap.
        destruct (states c !! i); simpl; [by injection 1 as <-|done].
      + rewrite Hst. by apply history_set_done.
    - rewrite Hst, work_set_done. lia. }
  eapply unless_bind; [apply (run_step_spec (zlen steps) c); [lia|]|].
  { split; [|done]. eapply sched_inv_mono; [|done]. lia. }
  intros [c' step] (Hsi' & Hok & Hw). specialize (Hw Hun).
  pose proof (si_ok _ _ _ _ (proj1 Hsi')) as Hck.
  pose proof (generated_bounds _ _ _ _ Hck) as Hgen.
  pose proof (kv_limit_int _ (ck_alloc _ _ _ _ Hck)) as Hlim. rewrite (ck_limit _ _ _ _ Hck) in Hlim.
  eapply unless_bind; [eapply (count_step_history (zlen steps) c c'); eauto; lia|].
  intros stats' [Hhi' Htot]. eapply unless_bind.
  { apply unless_int. unfold BatcherInv.overflow, INT_MIN. lia. }
  intros _ _.
  assert (Hlen : length (steps ++ [step]) = S (length steps)) by (rewrite length_app; simpl; lia).
  specialize (IH c' (steps ++ [step]) stats'). rewrite Hlen, Nat.add_succ_r, Htot in IH.
  apply IH; auto; try lia.
  - by replace (Z.of_nat _ - 1) with (zlen steps) by lia.
  - intros n Hn. destruct (decide (n = calls + length steps)%nat) as [->|];
      [done|apply Hpoll; lia].
Qed.

(** ** The initial cells *)

Lemma init_sum (f : State → Z) rs :
  (∀ i r, f (init_state i r) = 0) → sum_Z (f <$> imap init_state rs) = 0.
Proof.
  intros Hf. apply sum_Z_zero. intros x (st & -> & Hst)%list_elem_of_fmap.
  by apply elem_of_lookup_imap in Hst as (i & r & -> & _).
Qed.

Lemma init_cells_inv requests :
  requests = reqs → limit = INT_MAX - ClampPositive (kv_block_tokens config_) 1 →
  step_inv (-1) (init_cells config_ requests : Cells T).
Proof.
  clear Hprefill Hdecode. intros -> Hlim. unfold init_cells. set (kc := mkKvCacheConfig _ _).
  destruct (kv_new_spec kc) as (Hinv & Hlive & Hwithin & Hl).
  assert (Hst : ∀ i st, imap init_state (sanitize <$> reqs) !! i = Some st →
    ∃ r, reqs !! i = Some r ∧ st = init_state i (sanitize r)).
  { intros i st. rewrite list_lookup_imap, list_lookup_fmap.
    destruct (reqs !! i); simpl; [|done]. intros [= <-]. eauto. }
  split.
  - constructor; simpl.
    + constructor; simpl; rewrite ?length_imap, ?length_fmap; auto; [by rewrite Hl, Hlim|..].
      { unfold generated_total. rewrite init_sum; [done|]. by intros. }
      intros i st (r & Hr & ->)%Hst. exists r, (init_result (sanitize r)).
      split_and!; auto; [by rewrite !list_lookup_fmap, Hr|].
      constructor; simpl; auto; try lia; try done. unfold result_ok. simpl. auto 10.
    + intros x. rewrite Hlive. split; [set_solver|].
      intros (i & st & (r & Hr & ->)%Hst & Ha & _). done.
    + intros i j si sj (r & Hr & ->)%Hst _ Ha. done.
    + intros i res. rewrite !list_lookup_fmap. destruct (reqs !! i); simpl; [|done].
      by intros [= <-].
  - simpl. intros i st (r & Hr & ->)%Hst _. done.
Qed.

Lemma init_history requests stats :
  prefill_steps stats = 0 → decode_steps stats = 0 → total_generated_tokens stats = 0 →
  history (states (init_cells config_ requests : Cells T)) [] stats.
Proof.
  clear Hprefill Hdecode. intros ? ? ?.
  constructor; simpl; try done; apply init_sum; intros; simpl; lia.
Qed.
End Steps.
