(* ===== verification/BatcherRun.v ===== *)
(** * Theorems on [ContinuousBatcher::Run]

    Proved for any allocator that implements [KvAllocatorSpec], from the lemmas
    on the scheduling loop; the witnesses run [KvBlockAllocator]. *)
From Stdlib Require Import Sorting.Sorted.
From stdpp Require Import prelude gmap strings list sorting.
From S2P Require Import Prelude KvCache KvCacheInv KvCacheProps.
From S2P Require Import Batcher BatcherInv BatcherProps.

(** ** What a result promises to its caller *)

(** The result [res] of the request [r], in a run of [total] steps. *)
Record result_final (err : string → Prop) (total : Z) (r : SequenceRequest)
    (res : SequenceResult) : Prop := mk_result_final {
  rf_id : res_id res = req_id r;
  rf_prompt : res_prompt_tokens res = Z.max 0 (req_prompt_tokens r);
  rf_first : res_first_token_step res = -1 ∨ 0 ≤ res_first_token_step res < total;
  rf_outcome :
    match res_status res with
    | kCompleted =>
        res_message res = "completed" ∧
        res_generated_tokens res = Z.max 0 (req_max_generated_tokens r) ∧
        0 ≤ res_completion_step res < total ∧
        res_first_token_step res ≤ res_completion_step res ∧
        (res_first_token_step res = -1 ↔ res_generated_tokens res = 0)
    | kRejected =>
        err (res_message res) ∧ res_completion_step res = -1 ∧
        0 ≤ res_generated_tokens res ≤ Z.max 0 (req_max_generated_tokens r)
    | kCancelled =>
        res_message res = "cancelled" ∧ res_completion_step res = -1 ∧
        res_generated_tokens res = 0
    end;
}.

Definition all_completed (rs : list SequenceResult) : Prop :=
  ∀ res, res ∈ rs → res_status res = kCompleted.

Lemma state_ok_final err now i r st res :
  state_ok err now i r st res → done st = true → result_final err (now + 1) r res.
Proof.
  intros [Hreq _ _ Hgen _ _ _ _ (Hid & Hp & Hf & Hres)] Hd. rewrite Hd in Hres.
  rewrite Hreq in *. simpl in *. constructor; auto; [lia|].
  destruct (res_status res).
  - destruct Hres as (? & ? & ? & -> & ? & ?). split_and!; auto; lia.
  - destruct Hres as (? & -> & ?). auto.
  - naive_solver.
Qed.

(** A completed sequence was wholly prefilled and decoded. *)
Lemma state_ok_completed err now i r st res :
  state_ok err now i r st res → done st = true → res_status res = kCompleted →
  prefill_remaining st = 0 ∧ generated st = res_generated_tokens res ∧
  request st = sanitize r.
Proof.
  intros [Hreq _ _ _ _ _ Hready _ (_ & _ & _ & Hres)] Hd Hc. rewrite Hd, Hc in Hres.
  destruct Hres as (_ & ? & _ & ? & _). auto.
Qed.

Lemma ClampPositive_pos v f : 0 < f → 0 < ClampPositive v f.
Proof. unfold ClampPositive. case_bool; to_prop; lia. Qed.

(** Every [int] of a run of [reqs] fits: the tokens of all prompts and answers,
    two steps for each request, and a block. *)
Definition run_fits (config : ContinuousBatcherConfig) (reqs : list SequenceRequest)
    : Prop :=
  Z.of_nat (total_work reqs) + kv_block_tokens config ≤ INT_MAX.

Section Runs.
Context {T : Type} `{KvAllocatorSpec T}.
Context (cfg : ContinuousBatcherConfig).
Abbreviation config_ := (make_ContinuousBatcher cfg).
Implicit Types (c : Cells T) (is_cancelled : nat → bool).

Lemma init_work (reqs : list SequenceRequest) :
  work (states (init_cells config_ reqs : Cells T)) = total_work reqs.
Proof.
  unfold work, init_cells, total_work. simpl.
  assert (Hw : ∀ (f : nat → SequenceRequest → State) rs,
    (∀ i r, state_work (f i (sanitize r)) = request_work r) →
    sum_list (state_work <$> imap f (sanitize <$> rs)) = sum_list (request_work <$> rs)).
  { intros f rs. revert f. induction rs as [|r rs IH]; intros f Hf; [done|].
    refine (f_equal2 Nat.add (Hf 0%nat r) (IH (f ∘ S) _)). intros. apply Hf. }
  apply Hw. intros i r. unfold state_work, request_work. simpl. lia.
Qed.

Abbreviation limit := (INT_MAX - kv_block_tokens config_).

Lemma overflow_not_fits reqs : overflow reqs limit → ¬ run_fits config_ reqs.
Proof. unfold overflow, run_fits. lia. Qed.

(** The tokens of the prompts are added up without overflow within the limit. *)
Lemma zero_stats_spec reqs :
  unless (overflow reqs limit) (zero_stats reqs) (λ stats,
    prefill_steps stats = 0 ∧ decode_steps stats = 0 ∧ total_generated_tokens stats = 0 ∧
    total_prompt_tokens stats = sum_Z (req_prompt_tokens ∘ sanitize <$> reqs)).
Proof.
  set (l := req_prompt_tokens ∘ sanitize <$> reqs).
  assert (Hl : ∀ x, x ∈ l → 0 ≤ x).
  { intros x (r & -> & _)%list_elem_of_fmap. simpl. lia. }
  assert (Hsum : 0 ≤ sum_Z l ∧ sum_Z l + zlen reqs ≤ Z.of_nat (total_work reqs)).
  { unfold l. clear. induction reqs as [|r reqs IH]; [done|].
    rewrite total_work_cons, fmap_cons, sum_Z_cons, length_cons. unfold request_work. simpl. lia. }
  assert (Hb : 0 < kv_block_tokens config_) by (by apply ClampPositive_pos).
  assert (Hover : ∀ n, 0 ≤ n ≤ Z.of_nat (total_work reqs) →
    ¬ (INT_MIN ≤ n ≤ INT_MAX) → overflow reqs limit).
  { unfold overflow, INT_MIN. lia. }
  unfold zero_stats. eapply unless_bind; [apply unless_int, Hover; lia|]. intros _ _.
  fold l. rewrite sum_int_spec by done.
  eapply unless_bind; [apply unless_int, Hover; lia|]. intros n ->. simpl. auto.
Qed.

(** The run and the cells it ends with. *)
Lemma Run_ends is_cancelled reqs calls :
  unless (overflow reqs limit) (Run (T := T) config_ is_cancelled reqs calls)
    (λ '(run, calls'), ∃ c steps stats,
      run = mkContinuousBatchingRun (results c) steps
              (final_stats stats steps (allocator c)) ∧
      loop_end config_ reqs limit is_cancelled calls c steps stats calls' ∧
      (length steps ≤ total_work reqs)%nat ∧
      total_prompt_tokens stats = sum_Z (req_prompt_tokens ∘ sanitize <$> reqs)).
Proof.
  assert (Hb : 0 < kv_block_tokens config_) by (by apply ClampPositive_pos).
  unfold Run. eapply unless_bind; [apply zero_stats_spec|].
  intros stats (? & ? & ? & Htot).
  pose proof (run_loop_spec config_ ltac:(by apply ClampPositive_pos)
      ltac:(by apply ClampPositive_pos) reqs limit is_cancelled
      (S (work (states (init_cells config_ reqs : Cells T)))) calls
      (init_cells config_ reqs) [] stats) as Hloop.
  rewrite Nat.add_0_r in Hloop. eapply unless_bind; [apply Hloop|].
  - lia.
  - apply (init_cells_inv config_ reqs limit reqs eq_refl).
    symmetry. unfold ClampPositive at 1. by rewrite (proj2 (Z.ltb_lt _ _) Hb).
  - by apply init_history.
  - simpl. intros n Hn. exfalso. lia.
  - simpl length. rewrite init_work. lia.
  - intros [[[c steps] stats'] calls'] (Hend & Hw & Htot'). simpl. exists c, steps, stats'.
    split_and!; [done..|lia|congruence].
Qed.

Lemma Run_end is_cancelled reqs calls run calls' :
  Run (T := T) config_ is_cancelled reqs calls = Some (run, calls') →
  ∃ c steps stats,
    run = mkContinuousBatchingRun (results c) steps
            (final_stats stats steps (allocator c)) ∧
    loop_end config_ reqs limit is_cancelled calls c steps stats calls' ∧
    (length steps ≤ total_work reqs)%nat ∧
    total_prompt_tokens stats = sum_Z (req_prompt_tokens ∘ sanitize <$> reqs).
Proof. intros Hrun. pose proof (Run_ends is_cancelled reqs calls) as He. by rewrite Hrun in He. Qed.

Lemma loop_end_state is_cancelled reqs calls c steps stats calls' i r :
  loop_end config_ reqs limit is_cancelled calls c steps stats calls' → reqs !! i = Some r →
  ∃ st res, states c !! i = Some st ∧ results c !! i = Some res ∧ done st = true ∧
    state_ok kv_error (zlen steps - 1) i r st res.
Proof.
  intros [Hok Hdone _ _ _ _] Hr.
  destruct (lookup_lt_is_Some_2 (states c) i) as [st Hst].
  { rewrite (ck_states _ _ _ _ Hok). by eapply lookup_lt_Some. }
  destruct (ck_state _ _ _ _ Hok _ _ Hst) as (r' & res & Hr' & Hres & Hso).
  rewrite Hr in Hr'. injection Hr' as <-. eauto 10.
Qed.

(** ** The sums at the end of a run *)

Lemma loop_end_sum is_cancelled reqs calls c steps stats calls' (f : State → Z)
    (g : SequenceRequest → Z) (R : Z → Z → Prop) :
  loop_end config_ reqs limit is_cancelled calls c steps stats calls' →
  (∀ i r st res, results c !! i = Some res → done st = true →
     state_ok kv_error (zlen steps - 1) i r st res → R (f st) (g r)) →
  Forall2 R (f <$> states c) (g <$> reqs).
Proof.
  intros Hend HR. rewrite Forall2_fmap. apply Forall2_same_length_lookup. split.
  - apply (ck_states _ _ _ _ (le_ok _ _ _ _ _ _ _ _ _ Hend)).
  - intros i st r Hst Hr.
    destruct (loop_end_state _ _ _ _ _ _ _ _ _ Hend Hr) as (st' & res & Hst' & Hres & Hd & Hok).
    rewrite Hst in Hst'. injection Hst' as <-. eauto.
Qed.

Lemma Forall2_sum_le l k : Forall2 Z.le l k → sum_Z l ≤ sum_Z k.
Proof. induction 1; simpl; lia. Qed.

Lemma Forall2_sum_eq l k : Forall2 eq l k → sum_Z l = sum_Z k.
Proof. induction 1; simpl; lia. Qed.

(** ** The theorems *)

(** A run that returns has one final result per request. *)
Lemma Run_final is_cancelled reqs calls :
  unless (¬ run_fits config_ reqs) (Run (T := T) config_ is_cancelled reqs calls)
    (λ '(run, calls'),
       Forall2 (result_final kv_error (total_steps (run_stats run))) reqs (run_results run)).
Proof.
  pose proof (Run_ends is_cancelled reqs calls) as He.
  destruct (Run _ _ _ _) as [[run calls']|]; [|by apply overflow_not_fits].
  destruct He as (c & steps & stats & -> & Hend & _). simpl.
  apply Forall2_same_length_lookup. split.
  - symmetry. apply (ck_results _ _ _ _ (le_ok _ _ _ _ _ _ _ _ _ Hend)).
  - intros i r res Hr Hres.
    destruct (loop_end_state _ _ _ _ _ _ _ _ _ Hend Hr) as (st & res' & _ & Hres' & Hd & Hok).
    rewrite Hres in Hres'. injection Hres' as <-.
    apply state_ok_final in Hok; [|done]. by replace (zlen steps - 1 + 1) with (zlen steps) in Hok by lia.
Qed.

(** C2: for any requests, any allocator that keeps its contract and any
    cancellation callback, [Run] makes no access out of range and returns one
    final result per request, in the order of the requests: completed with
    exactly the tokens asked for, rejected with an allocation error, or
    cancelled.  It always terminates: there is no run only for requests whose
    tokens and steps do not fit an [int] with a block to spare. *)
Theorem Run_results_final is_cancelled reqs calls :
  match Run (T := T) config_ is_cancelled reqs calls with
  | Some (run, calls') =>
      Forall2 (result_final kv_error (total_steps (run_stats run))) reqs (run_results run)
  | None => INT_MAX < Z.of_nat (total_work reqs) + kv_block_tokens config_
  end.
Proof.
  pose proof (Run_final is_cancelled reqs calls) as Hf. unfold run_fits in Hf.
  destruct (Run _ _ _ _) as [[run calls']|]; [exact Hf|]. by apply Z.nle_gt.
Qed.

(** C28: the steps are numbered from 0 and each one respects the prefill budget
    and the decode budget of the configuration; there are at most two steps plus
    one per token of each request. *)
Theorem Run_respects_budgets is_cancelled reqs calls run calls' :
  Run (T := T) config_ is_cancelled reqs calls = Some (run, calls') →
  (∀ n step, run_steps run !! n = Some step → step_bounds config_ n step) ∧
  total_steps (run_stats run) = zlen (run_steps run) ∧
  (length (run_steps run) ≤ total_work reqs)%nat.
Proof.
  intros (c & steps & stats & -> & Hend & Hlen & _)%Run_end. simpl. split_and!; auto. apply (hi_steps _ _ _ _ (le_history _ _ _ _ _ _ _ _ _ Hend)).
Qed.


(** C29: a run leaves nothing behind: the allocator it ends with has no active
    sequence, whatever was rejected or cancelled. *)
Theorem Run_releases_everything is_cancelled reqs calls run calls' :
  Run (T := T) config_ is_cancelled reqs calls = Some (run, calls') →
  active_sequences (kv_cache (run_stats run)) = 0 ∧
  0 ≤ used_blocks (kv_cache (run_stats run)) ≤ KvCache.total_blocks (kv_cache (run_stats run)).
Proof.
  intros (c & steps & stats & -> & Hend & _)%Run_end. simpl.
  pose proof (kv_Stats_spec _ (ck_alloc _ _ _ _ (le_ok _ _ _ _ _ _ _ _ _ Hend))) as [Hu ->].
  by rewrite (le_live _ _ _ _ _ _ _ _ _ Hend), size_empty.
Qed.

(** C30: the callback is asked once before each step; a run never takes a step
    after a [true] answer, and a sequence is cancelled only after one. *)
Theorem Run_cancellation is_cancelled reqs calls run calls' :
  Run (T := T) config_ is_cancelled reqs calls = Some (run, calls') →
  let polls := (calls + length (run_steps run))%nat in
  (∀ n, (calls ≤ n < polls)%nat → is_cancelled n = false) ∧
  ((∃ res, res ∈ run_results run ∧ res_status res = kCancelled) →
     is_cancelled polls = true ∧ calls' = S polls).
Proof.
  intros (c & steps & stats & -> & Hend & _)%Run_end. simpl. split; [apply (le_polls _ _ _ _ _ _ _ _ _ Hend)|].
  intros (res & [i Hi]%list_elem_of_lookup & Hc).
  destruct (le_calls _ _ _ _ _ _ _ _ _ Hend) as [[_ Hno]|[-> ->]]; [|done].
  by destruct (Hno _ _ Hi).
Qed.
End Runs.

(** ** Priorities *)

(** C40: the comparator is a strict total order on the states of a run, so that
    [std::sort] is defined on it and has only one result. *)
Theorem by_priority_strict_total sts :
  (∀ i s, sts !! i = Some s → index s = Z.of_nat i) →
  ∀ i j k, is_Some (sts !! i) → is_Some (sts !! j) → is_Some (sts !! k) →
  by_priority sts i i = false ∧
  (by_priority sts i j = true → by_priority sts j k = true → by_priority sts i k = true) ∧
  (i ≠ j → by_priority sts i j = negb (by_priority sts j i)).
Proof.
  intros Hidx i j k [si Hi] [sj Hj] [sk Hk]. unfold by_priority. rewrite Hi, Hj, Hk.
  pose proof (Hidx _ _ Hi). pose proof (Hidx _ _ Hj). pose proof (Hidx _ _ Hk).
  repeat (case_bool; to_prop); split_and!; intros; to_prop;
    try apply eq_true_iff_eq; rewrite ?negb_true_iff, ?Z.ltb_lt, ?Z.ltb_ge; lia.
Qed.

Definition well_indexed (sts : list State) : Prop :=
  ∀ i s, sts !! i = Some s → index s = Z.of_nat i.

(** [j] does not come before [i] for [std::sort]. *)
Definition not_before (sts : list State) (i j : nat) : Prop := by_priority sts j i = false.

Lemma rank_le_not_before sts i j :
  is_Some (sts !! i) → is_Some (sts !! j) → rank_le sts i j ↔ not_before sts i j.
Proof.
  intros [si Hi] [sj Hj]. unfold rank_le, rank, not_before, by_priority. rewrite Hi, Hj. simpl.
  case_bool; to_prop; rewrite Z.ltb_ge; lia.
Qed.

Lemma rank_le_antisym sts i j :
  well_indexed sts → is_Some (sts !! i) → is_Some (sts !! j) →
  rank_le sts i j → rank_le sts j i → i = j.
Proof.
  intros Hidx [si Hi] [sj Hj]. unfold rank_le, rank. rewrite Hi, Hj. simpl.
  pose proof (Hidx _ _ Hi). pose proof (Hidx _ _ Hj). lia.
Qed.

(** Whatever algorithm [std::sort] uses, a permutation of the candidates
    that is sorted for [by_priority] is the list the model computes. *)
Theorem std_sort_canonical sts l l' :
  well_indexed sts → (∀ i, i ∈ l → is_Some (sts !! i)) →
  l' ≡ₚ l → StronglySorted (not_before sts) l' → l' = std_sort (by_priority sts) l.
Proof.
  intros Hidx Hl Hperm Hsorted.
  apply (StronglySorted_unique_strong (rank_le sts)); [| |by apply std_sort_sorted|].
  - intros i j Hi Hj. rewrite Hperm in Hi. rewrite elem_of_std_sort in Hj.
    apply rank_le_antisym; auto.
  - assert (Hl' : ∀ i, i ∈ l' → is_Some (sts !! i)) by (intros i; rewrite Hperm; auto).
    clear Hperm. induction Hsorted as [|i l' Hs IH Hf]; constructor.
    + apply IH. intros j Hj. apply Hl'. set_solver.
    + rewrite Forall_forall in *. intros j Hj. apply rank_le_not_before; [apply Hl'; set_solver..|].
      by apply Hf.
  - by rewrite Hperm, std_sort_perm.
Qed.

(** A step decodes by priority: a sequence left out of the batch does not
    come before one that is in it. *)
Theorem decode_batch_by_priority sts n i j :
  i ∈ take n (decode_candidates sts) → j ∈ drop n (decode_candidates sts) →
  not_before sts i j.
Proof.
  intros Hi Hj.
  assert (Hall : ∀ k, k ∈ decode_candidates sts → is_Some (sts !! k)).
  { intros k (s & Hs & _)%decode_candidates_spec. eauto. }
  assert (Hs : StronglySorted (rank_le sts) (decode_candidates sts)).
  { apply std_sort_sorted. intros k (s & Hs & _)%elem_of_positions. eauto. }
  rewrite <- (take_drop n (decode_candidates sts)) in Hall, Hs.
  apply rank_le_not_before; [apply Hall; set_solver..|].
  by eapply (StronglySorted_app_1_elem_of (rank_le sts)); [exact Hs|..].
Qed.

(** ** A run on [KvBlockAllocator]

    Three requests on eight blocks of two tokens: the second has the higher
    priority, the third asks for a negative prompt, which is read as empty. *)
Definition demo_config : ContinuousBatcherConfig :=
  mkContinuousBatcherConfig 4 2 8 2.

Definition demo_requests : list SequenceRequest :=
  [mkSequenceRequest "a" 6 2 0 EmptyString 0;
   mkSequenceRequest "b" 3 3 5 "k" 2;
   mkSequenceRequest "c" (-1) 1 0 EmptyString 0].

Abbreviation demo_run_with is_cancelled :=
  (Run (T := KvBlockAllocator.Impl) (make_ContinuousBatcher demo_config) is_cancelled
    demo_requests 0).

Definition never (n : nat) : bool := false.
Definition third_call (n : nat) : bool := (n =? 2)%nat.

Lemma Run_respects_budgets_witness :
  ∃ run calls', demo_run_with never = Some (run, calls') ∧
    length (run_steps run) = 4%nat ∧
    (∀ n step, run_steps run !! n = Some step →
       step_bounds (make_ContinuousBatcher demo_config) n step) ∧
    total_steps (run_stats run) = zlen (run_steps run) ∧
    (length (run_steps run) ≤ sum_list (request_work <$> demo_requests))%nat.
Proof.
  do 2 eexists. split; [vm_compute; reflexivity|]. split; [reflexivity|].
  eapply (Run_respects_budgets (T := KvBlockAllocator.Impl) demo_config never demo_requests 0).
  vm_compute. reflexivity.
Defined.


Lemma Run_releases_everything_witness :
  ∃ run calls', demo_run_with third_call = Some (run, calls') ∧
    active_sequences (kv_cache (run_stats run)) = 0 ∧
    0 ≤ used_blocks (kv_cache (run_stats run)) ≤ KvCache.total_blocks (kv_cache (run_stats run)).
Proof.
  do 2 eexists. split; [vm_compute; reflexivity|].
  eapply (Run_releases_everything (T := KvBlockAllocator.Impl) demo_config third_call demo_requests 0).
  vm_compute. reflexivity.
Defined.

Lemma Run_cancellation_witness :
  ∃ run calls', demo_run_with third_call = Some (run, calls') ∧
    calls' = S (0 + length (run_steps run)) ∧
    third_call (0 + length (run_steps run)) = true.
Proof.
  do 2 eexists. split; [vm_compute; reflexivity|]. apply and_comm.
  eapply (Run_cancellation (T := KvBlockAllocator.Impl) demo_config third_call demo_requests 0);
    [vm_compute; reflexivity|].
  eexists. split; [apply list_elem_of_here|reflexivity].
Defined.

(** The states of a run on the two first requests, when both are ready. *)
Definition demo_states : list State :=
  [mkState (mkSequenceRequest "a" 6 2 0 EmptyString 0) 0 0 0 true true false;
   mkState (mkSequenceRequest "b" 3 3 5 "k" 2) 1 0 0 true true false].

Lemma demo_states_indexed : well_indexed demo_states.
Proof. intros [|[|i]] s H; simplify_eq/=; reflexivity. Qed.

Lemma by_priority_strict_total_witness :
  by_priority demo_states 0 1 = negb (by_priority demo_states 1 0).
Proof.
  apply (by_priority_strict_total demo_states demo_states_indexed 0 1 0); eauto.
Defined.

Lemma std_sort_canonical_witness :
  [1; 0]%nat = std_sort (by_priority demo_states) [0; 1]%nat.
Proof.
  apply std_sort_canonical.
  - apply demo_states_indexed.
  - intros i. rewrite !elem_of_cons, elem_of_nil. intros [->|[->|[]]]; eauto.
  - apply Permutation_swap.
  - repeat constructor.
Defined.

Lemma decode_batch_by_priority_witness : not_before demo_states 1 0.
Proof.
  apply (decode_batch_by_priority demo_states 1); vm_compute;
    apply list_elem_of_here.
Defined.
