(* ===== verification/KvCacheTheorems.v ===== *)
(** * The contract of the KV-cache block allocator

    What the public operations of [KvBlockAllocator] promise in every state
    that a sequence of calls can reach. *)
From stdpp Require Import prelude gmap strings list.
From S2P Require Import Prelude KvCache KvCacheInv KvCacheProps.
Import KvBlockAllocator.

(** ** Every call *)

(** C4: from a new allocator, no sequence of calls, whatever their arguments,
    makes an access out of range, and the invariant holds in between: a call is
    undefined exactly when a sum of token counts overflows [int], which
    [call_fits] decides from the arguments and the tokens of the sequence. *)
Theorem kv_calls_return cfg s call :
  reachable cfg s →
  if call_fits call s then ∃ s', kv_run call s = Some s' ∧ reachable cfg s' ∧ wf s'
  else kv_run call s = None.
Proof.
  intros Hr. destruct (reachable_wf _ _ Hr) as [Hwf _].
  pose proof (kv_run_wf call s Hwf) as Hc. destruct (call_fits call s); [|done].
  destruct Hc as (s' & Hrun & Hwf' & _). eauto using reachable_call.
Qed.


(** C31: everything [AppendTokens] may do: refuse an unknown id, do nothing for a
    count that is not positive, extend the sequence by the blocks that the new
    tokens need, or fail for lack of blocks and change at most idle prefixes.
    It is undefined exactly when the token or block counts overflow [int]. *)
Theorem AppendTokens_contract cfg s id count :
  reachable cfg s →
  if append_fits id count s
  then ∃ r s', AppendTokens id count s = Some (r, s') ∧ append_case id count s r s'
  else AppendTokens id count s = None.
Proof. intros [Hwf _]%reachable_wf. by apply AppendTokens_cases. Qed.

(** C32: [ReleaseSequence] erases the sequence, frees its private blocks, takes
    one reference off its shared blocks and touches nothing else. *)
Theorem ReleaseSequence_contract cfg s id q :
  reachable cfg s → sequences s !! id = Some q →
  let s' := ReleaseSequence id s in
  sequences s' = delete id (sequences s) ∧ prefix_cache s' = prefix_cache s ∧
  stats s' = stats s ∧
  ∀ i b, blocks s !! i = Some b → blocks s' !! i = Some (released (seq_block_ids q) i b).
Proof.
  intros [Hwf _]%reachable_wf Hq. destruct (ReleaseSequence_frame id s) as (_ & ? & ? & ? & _).
  split_and!; auto. intros i b. by apply ReleaseSequence_lookup.
Qed.

(** ** Exhaustion *)

(** C33: an allocation of blocks fails only when, after eviction, fewer blocks
    than asked for are free and no cached prefix is idle; the blocks of a
    success are distinct, were unreferenced, and carry the caller's key. *)
Theorem AllocateBlocks_complete cfg s n key ids s' :
  reachable cfg s → 0 < n → AllocateBlocks n key s = (ids, s') →
  (zlen ids = n ∧ NoDup ids ∧
   ∀ id, id ∈ ids → vec_at (blocks s') id = Some (mkBlock true 1 key) ∧
     ∃ b, vec_at (blocks s) id = Some b ∧ ref_count b = 0) ∨
  (ids = [] ∧ FreeBlockCount s' < n ∧
   ∀ k e, prefix_cache s' !! k = Some e → PrefixEntryIsIdle s' e = false).
Proof.
  intros [Hwf _]%reachable_wf Hn Hall.
  destruct (AllocateBlocks_spec _ _ _ _ _ _ Hwf Hall)
    as [(Hl & Hal & _)|(_ & -> & _ & _ & Hf & Hidle)]; [left|right; auto].
  split_and!; [lia|apply Hal|]. intros id Hid.
  destruct (al_fresh _ _ _ _ Hal _ Hid) as [Hb _]. split; [done|].
  apply vec_at_Some in Hb as [H0 Hb]. apply lookup_lt_Some in Hb.
  rewrite (al_length _ _ _ _ Hal) in Hb.
  destruct (lookup_lt_is_Some_2 _ _ Hb) as [b Hb0]. exists b.
  destruct (al_blocks _ _ _ _ Hal _ _ Hb0) as [[_ ?]|[Hni _]].
  - by rewrite vec_at_Some.
  - rewrite Z2Nat.id in Hni by done. done.
Qed.

(** ** Sharing *)

(** A sequence holds the block [id] [occ id] times; a private block is held
    once, in one sequence. *)
Lemma private_block_holders s i b :
  wf s → blocks s !! i = Some b → occupied b = true → cached_prefix_key b = EmptyString →
  holders (sequences s) (Z.of_nat i) = 1%nat.
Proof.
  intros Hwf Hb Ho Hk. pose proof (wf_private _ _ Hwf _ _ Hb Ho Hk) as H1.
  rewrite (wf_refs _ _ Hwf _ _ Hb), occ_nil in H1. lia.
Qed.

Lemma holders_two m k1 k2 q1 q2 id :
  k1 ≠ k2 → m !! k1 = Some q1 → m !! k2 = Some q2 →
  id ∈ seq_block_ids q1 → id ∈ seq_block_ids q2 → (1 < holders m id)%nat.
Proof.
  intros Hne H1 H2 Hi1 Hi2. rewrite (holders_delete m k1 q1) by done.
  assert (0 < holders (delete k1 m) id)%nat.
  { eapply holders_pos; [|done]. by rewrite lookup_delete_ne. }
  apply occ_pos in Hi1. lia.
Qed.

Lemma seq_block s id q i :
  wf s → sequences s !! id = Some q → i ∈ seq_block_ids q →
  ∃ b, blocks s !! Z.to_nat i = Some b ∧ 0 ≤ i ∧ occupied b = true ∧
    (cached_prefix_key b = EmptyString →
     i ∈ drop (Z.to_nat (prefix_block_count q)) (seq_block_ids q)) ∧
    (cached_prefix_key b ≠ EmptyString →
     i ∈ take (Z.to_nat (prefix_block_count q)) (seq_block_ids q)).
Proof.
  intros Hwf Hq Hi. destruct (wf_sequences _ _ Hwf _ _ Hq) as [_ (_ & _ & Hpre & Hsuf)].
  rewrite <- (take_drop (Z.to_nat (prefix_block_count q)) (seq_block_ids q)) in Hi.
  apply elem_of_app in Hi as [Hi|Hi].
  - destruct (Hpre _ Hi) as (b & [? ?]%vec_at_Some & ? & ?). exists b. split_and!; auto. done.
  - destruct (Hsuf _ Hi) as (b & [? ?]%vec_at_Some & ? & ?). exists b. split_and!; auto. done.
Qed.

(** C17: two sequences share a block only as part of a cached prefix: the block
    carries a prefix key and lies in the prefix part of both; what a sequence
    stores beyond its prefix is its own. *)
Theorem shared_blocks_are_prefix cfg s id1 id2 q1 q2 i :
  reachable cfg s → id1 ≠ id2 →
  sequences s !! id1 = Some q1 → sequences s !! id2 = Some q2 →
  i ∈ seq_block_ids q1 → i ∈ seq_block_ids q2 →
  i ∈ take (Z.to_nat (prefix_block_count q1)) (seq_block_ids q1) ∧
  i ∈ take (Z.to_nat (prefix_block_count q2)) (seq_block_ids q2) ∧
  ∃ b, vec_at (blocks s) i = Some b ∧ cached_prefix_key b ≠ EmptyString.
Proof.
  intros [Hwf _]%reachable_wf Hne H1 H2 Hi1 Hi2.
  pose proof (holders_two _ _ _ _ _ _ Hne H1 H2 Hi1 Hi2) as Hh.
  destruct (seq_block _ _ _ _ Hwf H1 Hi1) as (b & Hb & H0 & Ho & _ & Hp1).
  destruct (seq_block _ _ _ _ Hwf H2 Hi2) as (b' & Hb' & _ & _ & _ & Hp2).
  assert (b' = b) as -> by congruence.
  destruct (decide (cached_prefix_key b = EmptyString)) as [Hk|Hk].
  - pose proof (private_block_holders _ _ _ Hwf Hb Ho Hk) as H. rewrite Z2Nat.id in H by done. lia.
  - split_and!; auto. exists b. by rewrite vec_at_Some.
Qed.

(** ** Accounting *)

(** C39: [Stats] accounts for every block: free and used blocks are the total of
    the configuration, and the watermark lies between the use and the total. *)
Theorem Stats_accounting cfg s :
  reachable cfg s →
  KvCache.total_blocks (Stats s) = ClampPositive (cfg_total_blocks cfg) 1 ∧
  used_blocks (Stats s) + free_blocks (Stats s) = KvCache.total_blocks (Stats s) ∧
  0 ≤ free_blocks (Stats s) ∧
  0 ≤ used_blocks (Stats s) ≤ high_watermark_blocks (Stats s) ∧
  high_watermark_blocks (Stats s) ≤ KvCache.total_blocks (Stats s).
Proof.
  intros [Hwf Hc]%reachable_wf. simpl. pose proof (wf_watermark _ _ Hwf).
  pose proof (wf_used_nonneg s). rewrite (wf_length _ _ Hwf), Hc in *. simpl in *.
  unfold UsedBlockCount in *. rewrite FreeBlockCount_eq, (wf_length _ _ Hwf), Hc in *. simpl in *. lia.
Qed.

(** A sequence holds enough blocks for its tokens, and fewer than three
    blocks more: its prefix, its suffix and its generated tokens end in a
    partial block each. *)
Theorem SequenceBlockCount_bounds cfg s id q :
  reachable cfg s → sequences s !! id = Some q →
  let tpb := cfg_tokens_per_block (config s) in
  let tokens := prompt_tokens q + generated_tokens q in
  tokens ≤ SequenceBlockCount id s * tpb < tokens + 3 * tpb.
Proof.
  intros [Hwf _]%reachable_wf Hq. unfold SequenceBlockCount. rewrite Hq. simpl.
  destruct (wf_sequences _ _ Hwf _ _ Hq) as [_ (Hg & (c & Hc & _ & ->) & _)].
  pose proof (wf_tpb _ _ Hwf) as Ht.
  pose proof (ceil_div_spec c _ Ht ltac:(lia)).
  pose proof (ceil_div_spec (prompt_tokens q - c) _ Ht ltac:(lia)).
  pose proof (ceil_div_spec (generated_tokens q) _ Ht ltac:(lia)). nia.
Qed.

(** ** Witnesses

    Two sequences that share a cached prefix of one block, on four blocks of two
    tokens. *)
Definition demo_config : KvCacheConfig := mkKvCacheConfig 4 2.

Definition demo_calls : list kv_call := [CallAllocate "a" 4 "k" 2; CallAllocate "b" 3 "k" 2].

Definition demo_state : Impl := default (init demo_config) (kv_runs demo_calls (init demo_config)).

Lemma demo_reachable : reachable demo_config demo_state.
Proof.
  unfold demo_state. destruct (kv_runs _ _) as [s|] eqn:Hrun; [|constructor].
  eapply kv_runs_reachable; [constructor|done].
Qed.

Lemma kv_calls_return_witness :
  ∃ s', kv_run (CallAllocate "c" 2 "k" 1) demo_state = Some s' ∧ reachable demo_config s' ∧ wf s'.
Proof.
  apply (kv_calls_return demo_config demo_state (CallAllocate "c" 2 "k" 1)), demo_reachable.
Defined.


Lemma AppendTokens_contract_witness :
  ∃ r s', AppendTokens "a" 3 demo_state = Some (r, s') ∧ append_case "a" 3 demo_state r s'.
Proof. apply (AppendTokens_contract demo_config demo_state "a" 3), demo_reachable. Defined.

Lemma ReleaseSequence_contract_witness :
  sequences (ReleaseSequence "a" demo_state) = delete "a" (sequences demo_state).
Proof.
  eapply (ReleaseSequence_contract demo_config demo_state "a");
    [apply demo_reachable|vm_compute; reflexivity].
Defined.

Lemma AllocateBlocks_complete_witness :
  ∃ s', AllocateBlocks 2 "x" demo_state = ([], s') ∧ FreeBlockCount s' < 2.
Proof.
  eexists. split; [vm_compute; reflexivity|].
  destruct (AllocateBlocks_complete demo_config demo_state 2 "x" [] (AllocateBlocks 2 "x" demo_state).2)
    as [[Hlen _]|(_ & Hfree & _)];
    [apply demo_reachable|reflexivity|vm_compute; reflexivity|discriminate|exact Hfree].
Defined.

Lemma shared_blocks_are_prefix_witness :
  ∃ b, vec_at (blocks demo_state) 0 = Some b ∧ cached_prefix_key b ≠ EmptyString.
Proof.
  eapply (shared_blocks_are_prefix demo_config demo_state "a" "b" _ _ 0);
    [apply demo_reachable|discriminate|vm_compute; reflexivity|vm_compute; reflexivity
    |apply list_elem_of_here|apply list_elem_of_here].
Defined.

Lemma Stats_accounting_witness :
  used_blocks (Stats demo_state) + free_blocks (Stats demo_state) = 4.
Proof.
  destruct (Stats_accounting demo_config demo_state demo_reachable) as (Ht & Hs & _).
  rewrite Hs, Ht. reflexivity.
Defined.

Lemma SequenceBlockCount_bounds_witness :
  3 ≤ SequenceBlockCount "b" demo_state * 2 < 9.
Proof.
  apply (SequenceBlockCount_bounds demo_config demo_state "b" (mkSequence 3 0 1 [0; 2]));
    [apply demo_reachable|vm_compute; reflexivity].
Defined.
