(* ===== verification/KvCacheReclaim.v ===== *)
(** * Reclaiming the blocks of cached prefixes

    [AllocatePrompt] overwrites the cache entry of a key whose token count has
    changed.  The blocks of the old entry are then named by no entry, and once
    no sequence references them nothing can free them: this file shows that they
    are lost for good, and that nothing is lost when every key always comes with
    the same number of tokens. *)
From stdpp Require Import prelude gmap strings list.
From S2P Require Import Prelude KvCache KvCacheInv KvCacheProps.
Import KvBlockAllocator.

(** ** Blocks out of reach of eviction *)

(** An entry of the cache names the block [id]. *)
Definition in_cache (s : Impl) (id : Z) : Prop :=
  ∃ k e, prefix_cache s !! k = Some e ∧ id ∈ block_ids e.

(** The block [i] is [b], in use and named by no entry of the cache. *)
Record unlisted (s : Impl) (i : nat) (b : Block) : Prop := mk_unlisted {
  ul_block : blocks s !! i = Some b;
  ul_occupied : occupied b = true;
  ul_cache : ¬ in_cache s (Z.of_nat i);
}.

Lemma unlisted_dec s id :
  forallb (λ ke, negb (bool_decide (id ∈ block_ids ke.2))) (map_in_order (prefix_cache s)) = true →
  ¬ in_cache s id.
Proof.
  rewrite forallb_forall. intros Hall (k & e & He & Hi).
  apply elem_of_map_in_order, list_elem_of_In in He. specialize (Hall _ He). simpl in Hall.
  rewrite bool_decide_true in Hall by done. done.
Qed.

Lemma unlisted_evict_one k e s i b :
  prefix_cache s !! k = Some e → unlisted s i b → unlisted (evict_one k e s) i b.
Proof.
  intros He [Hb Ho Hc]. destruct (FreeBlocks_frame (block_ids e) s) as (_ & _ & Hp & _).
  constructor; [|done|].
  - simpl. rewrite FreeBlocks_lookup, decide_False; [done|].
    intros Hi. apply Hc. by exists k, e.
  - intros (k' & e' & He' & Hi). apply Hc. exists k', e'. split; [|done].
    simpl in He'. rewrite Hp in He'. apply lookup_delete_Some in He'. apply He'.
Qed.

Lemma unlisted_evict_loop required items s i b :
  NoDup items.*1 → (∀ k e, (k, e) ∈ items → prefix_cache s !! k = Some e) →
  unlisted s i b → unlisted (evict_loop required items s) i b.
Proof.
  revert s. induction items as [|[k e] items IH]; intros s Hnd Hin Hu; simpl; [done|].
  apply NoDup_cons in Hnd as [Hk Hnd].
  case_bool; [|done].
  destruct (PrefixEntryIsIdle s e); [|apply IH; [done|intros; apply Hin; set_solver|done]].
  assert (He : prefix_cache s !! k = Some e) by (apply Hin; set_solver).
  apply IH; [done| |by apply unlisted_evict_one].
  intros k' e' Hi. destruct (FreeBlocks_frame (block_ids e) s) as (_ & _ & Hp & _).
  simpl. rewrite Hp. rewrite lookup_delete_ne; [apply Hin; set_solver|].
  intros ->. apply Hk. by apply (list_elem_of_fmap_2 fst) in Hi.
Qed.

Lemma unlisted_AllocateBlocks n key s ids s' i b :
  AllocateBlocks n key s = (ids, s') → unlisted s i b →
  unlisted s' i b ∧ Z.of_nat i ∉ ids.
Proof.
  unfold AllocateBlocks. case_bool; [intros [= <- <-]; set_solver|].
  unfold EnsureFreeBlocks. intros Hall Hu.
  assert (Hev : unlisted (EvictIdlePrefixesUntil n s) i b).
  { apply unlisted_evict_loop; [apply map_in_order_NoDup| |done].
    intros k e. by rewrite elem_of_map_in_order. }
  assert (Hscan : ∀ s1, unlisted s1 i b →
    (let '(bs, allocated) := alloc_scan key (Z.to_nat n) 0 (blocks s1) in
     (allocated, RefreshHighWatermark (set_blocks bs s1))) = (ids, s') →
    unlisted s' i b ∧ Z.of_nat i ∉ ids).
  { intros s1 [Hb Ho Hc]. pose proof (alloc_scan_lookup key (Z.to_nat n) 0 _ _ _ Hb) as Hl.
    destruct (alloc_scan _ _ _ _) as [bs al]. intros [= <- <-].
    case_decide as Hi; simpl in Hl; [destruct Hl; congruence|]. by split; [constructor|]. }
  destruct (n <=? FreeBlockCount s); [by apply (Hscan s)|].
  destruct (n <=? FreeBlockCount _); [by apply (Hscan (EvictIdlePrefixesUntil n s))|].
  injection Hall as <- <-. split; [|set_solver]. destruct Hev. by constructor.
Qed.

(** ** A leaked block stays leaked *)

(** No sequence references it, no entry of the cache names it, yet it is in use. *)
Definition leaked (s : Impl) (i : nat) : Prop :=
  ∃ b, unlisted s i b ∧ ref_count b = 0.

Lemma unlisted_add_refs d ids s bs i b :
  add_refs d ids (blocks s) = Some bs → Z.of_nat i ∉ ids → unlisted s i b →
  unlisted (set_blocks bs s) i b.
Proof.
  intros Hadd Hi [Hb Ho Hc]. constructor; auto. simpl.
  destruct (add_refs_lookup _ _ _ _ i Hadd) as [_ ->]. rewrite Hb. simpl. f_equal.
  apply occ_zero in Hi. rewrite Hi. destruct b. unfold add_ref. simpl. f_equal. lia.
Qed.

Lemma unlisted_frame s s' i b :
  blocks s' = blocks s → prefix_cache s' = prefix_cache s →
  unlisted s i b → unlisted s' i b.
Proof.
  intros Eb Ep [Hb Ho Hc]. constructor; [congruence|done|].
  intros (k & e & He & Hi). apply Hc. exists k, e. by rewrite <- Ep.
Qed.

Lemma unlisted_hit s id q e k n2 n r s' i b :
  prefix_cache s !! k = Some e →
  AllocatePrompt_hit s id q e n2 n = Some (r, s') → unlisted s i b → unlisted s' i b.
Proof.
  intros He. unfold AllocatePrompt_hit.
  destruct (add_refs 1 (block_ids e) (blocks s)) as [bs|] eqn:Hadd; simpl; [|done].
  intros Hrun Hu. assert (Hi : Z.of_nat i ∉ block_ids e).
  { intros Hi. apply (ul_cache _ _ _ Hu). by exists k, e. }
  pose proof (unlisted_add_refs _ _ _ _ _ _ Hadd Hi Hu) as Hu1.
  destruct (AllocateBlocks n2 EmptyString (set_blocks bs s)) as [suffix s2] eqn:Hall.
  destruct (unlisted_AllocateBlocks _ _ _ _ _ _ _ Hall Hu1) as [Hu2 _].
  destruct (bool_decide _).
  - destruct (add_refs (-1) (block_ids e) (blocks s2)) as [bs'|] eqn:Hsub; simpl in Hrun; [|done].
    injection Hrun as <- <-. by eapply unlisted_add_refs.
  - injection Hrun as <- <-. by apply (unlisted_frame s2).
Qed.

Lemma unlisted_miss s id q k c n2 n i b :
  unlisted s i b → unlisted (AllocatePrompt_miss s id q k c n2 n).2 i b.
Proof.
  intros Hu. unfold AllocatePrompt_miss.
  destruct (AllocateBlocks (prefix_block_count q) k s) as [prefix s1] eqn:Hall1.
  destruct (unlisted_AllocateBlocks _ _ _ _ _ _ _ Hall1 Hu) as [Hu1 Hi1].
  destruct (bool_decide _); [done|].
  destruct (AllocateBlocks n2 EmptyString s1) as [suffix s2] eqn:Hall2.
  destruct (unlisted_AllocateBlocks _ _ _ _ _ _ _ Hall2 Hu1) as [Hu2 Hi2].
  destruct (bool_decide _); simpl.
  - destruct Hu2 as [Hb Ho Hc]. destruct (FreeBlocks_frame prefix s2) as (_ & _ & Hp & _).
    constructor; [by rewrite FreeBlocks_lookup, decide_False|done|].
    intros (k' & e & He & Hi). apply Hc. exists k', e. by rewrite <- Hp.
  - destruct (bool_decide _ && _); [|by apply (unlisted_frame s2)].
    destruct Hu2 as [Hb Ho Hc]. constructor; [done..|]. simpl.
    intros (k' & e & He & Hi). simpl in He.
    apply lookup_insert_Some in He as [[_ <-]|[_ He]]; [done|]. apply Hc. by exists k', e.
Qed.

Lemma unlisted_AllocatePrompt id p k t s r s' i b :
  wf s → AllocatePrompt id p k t s = Some (r, s') → unlisted s i b → unlisted s' i b.
Proof.
  intros Hwf. unfold AllocatePrompt. rewrite AllocatePrompt_new_eq by apply (wf_tpb _ _ Hwf).
  unfold place_prompt. intros Hrun Hu.
  assert (Hm : ∀ s0 q k c n2 n, unlisted s0 i b →
    Some (AllocatePrompt_miss s0 id q k c n2 n) = Some (r, s') → unlisted s' i b).
  { intros s0 q k0 c n2 n Hu0 [= Heq].
    pose proof (unlisted_miss s0 id q k0 c n2 n i b Hu0) as H. by rewrite Heq in H. }
  assert (Hu' : unlisted (set_stats (incr_misses (stats s)) s) i b) by by destruct Hu; constructor.
  do 2 (destruct (bool_decide _) in Hrun; [by injection Hrun as <- <-|]).
  destruct (prompt_fits s p k t); [|done]. cbv zeta in Hrun.
  destruct (bool_decide _ && _); [|by eauto].
  destruct (prefix_cache s !! k) as [e|] eqn:He; [|by eauto].
  destruct (_ =? _) in Hrun; [by eapply unlisted_hit|by eauto].
Qed.

(** What an append changes is what its allocation of blocks changes. *)
Lemma AppendTokens_blocks id n s r s' :
  AppendTokens id n s = Some (r, s') →
  ∃ m ids s1, AllocateBlocks m EmptyString s = (ids, s1) ∧
    blocks s' = blocks s1 ∧ prefix_cache s' = prefix_cache s1.
Proof.
  unfold AppendTokens. assert (Hnone : AllocateBlocks 0 EmptyString s = ([], s)) by done.
  destruct (sequences s !! id); [|intros [= _ <-]; eauto 10].
  case_bool; [intros [= _ <-]; eauto 10|]. cbv zeta.
  destruct (CeilDiv _ _) as [before|]; [simpl|done]. destruct (int_of _) as [total|]; [simpl|done].
  destruct (CeilDiv _ _) as [after|]; [simpl|done].
  destruct (AllocateBlocks (after - before) _ _) as [ids s1] eqn:Hall.
  destruct (bool_decide _); intros [= _ <-]; eauto 10.
Qed.

Lemma unlisted_AppendTokens id n s r s' i b :
  AppendTokens id n s = Some (r, s') → unlisted s i b → unlisted s' i b.
Proof.
  intros (m & ids & s1 & Hall & Hb & Hp)%AppendTokens_blocks Hu.
  destruct (unlisted_AllocateBlocks _ _ _ _ _ _ _ Hall Hu) as [Hu1 _]. by apply (unlisted_frame s1).
Qed.

Lemma unlisted_ReleaseSequence id s i b :
  wf s → ref_count b = 0 → unlisted s i b → unlisted (ReleaseSequence id s) i b.
Proof.
  intros Hwf Hr Hu. destruct (sequences s !! id) as [q|] eqn:Hq.
  - destruct (ReleaseSequence_frame id s) as (_ & _ & Hp & _). destruct Hu as [Hb Ho Hc].
    constructor; [|done|].
    + rewrite (ReleaseSequence_lookup _ _ _ _ _ Hwf Hq Hb). unfold released.
      rewrite decide_False; [done|]. intros Hi.
      pose proof (wf_held _ _ _ _ (Z.of_nat i) b Hwf Hq Hi) as H. rewrite vec_at_nat in H.
      specialize (H Hb). lia.
    + intros (k & e & He & Hi). apply Hc. exists k, e. by rewrite <- Hp.
  - unfold ReleaseSequence. by rewrite Hq.
Qed.

(** A leaked block can never be used again: whatever is called, it stays
    leaked. *)
Theorem leaked_forever cfg s i call s' :
  reachable cfg s → leaked s i → kv_run call s = Some s' → leaked s' i.
Proof.
  intros [Hwf _]%reachable_wf (b & Hu & Hr). exists b. split; [|done].
  destruct call as [id p k t|id n|id]; simpl in *.
  - apply fmap_Some in H as ([r s''] & Hrun & ->). by eapply unlisted_AllocatePrompt.
  - apply fmap_Some in H as ([r s''] & Hrun & ->). by eapply unlisted_AppendTokens.
  - injection H as <-. by apply unlisted_ReleaseSequence.
Qed.

(** ** How a block gets out of reach

    A block that is in use stays as it is while blocks are allocated, if it is
    referenced or if there is nothing to evict. *)
Lemma AllocateBlocks_stays extra n key s ids s' i b :
  wf_with extra s → AllocateBlocks n key s = (ids, s') → zlen ids = Z.max 0 n →
  blocks s !! i = Some b → occupied b = true → ref_count b ≠ 0 ∨ n ≤ FreeBlockCount s →
  blocks s' !! i = Some b ∧ Z.of_nat i ∉ ids.
Proof.
  intros Hwf Hall Hlen Hb Ho [Hr|Hfree].
  { destruct (AllocateBlocks_spec _ _ _ _ _ _ Hwf Hall) as [(_ & Hal & _)|(Hn & -> & _)];
      [|simpl in Hlen; lia].
    destruct (al_referenced _ _ _ _ _ _ Hal Hb Hr). done. }
  unfold AllocateBlocks, EnsureFreeBlocks in Hall.
  destruct (n <=? 0); [injection Hall as <- <-; split; [done|set_solver]|].
  rewrite (proj2 (Z.leb_le _ _) Hfree) in Hall.
  pose proof (alloc_scan_lookup key (Z.to_nat n) 0 _ _ _ Hb) as Hl.
  destruct (alloc_scan _ _ _ _) as [bs al]. injection Hall as <- <-.
  case_decide as Hi; simpl in Hl; [destruct Hl; congruence|done].
Qed.

Lemma AllocateBlocks_free extra n key s ids s' :
  wf_with extra s → AllocateBlocks n key s = (ids, s') → n ≤ FreeBlockCount s →
  FreeBlockCount s' = FreeBlockCount s - zlen ids.
Proof.
  intros Hwf Hall Hfree. unfold AllocateBlocks, EnsureFreeBlocks in Hall.
  destruct (n <=? 0); [injection Hall as <- <-; simpl; lia|].
  rewrite (proj2 (Z.leb_le _ _) Hfree) in Hall.
  pose proof (alloc_scan_free_count key (Z.to_nat n) (blocks s) 0) as Hc.
  destruct (alloc_scan _ _ _ _) as [bs al]. injection Hall as <- <-.
  rewrite !FreeBlockCount_eq. simpl in *. lia.
Qed.

(** The block of an entry carries its key and is named by no other entry. *)
Lemma entry_block s k e i b :
  wf s → prefix_cache s !! k = Some e → Z.of_nat i ∈ block_ids e → blocks s !! i = Some b →
  occupied b = true ∧ cached_prefix_key b = k ∧ k ≠ EmptyString ∧
  ∀ k' e', prefix_cache s !! k' = Some e' → Z.of_nat i ∈ block_ids e' → k' = k.
Proof.
  intros Hwf He Hi Hb.
  assert (Htag : ∀ k e, prefix_cache s !! k = Some e → Z.of_nat i ∈ block_ids e →
    occupied b = true ∧ cached_prefix_key b = k ∧ k ≠ EmptyString).
  { intros k' e' He' Hi'. destruct (wf_entries _ _ Hwf _ _ He') as (Hk & _ & _ & _ & Ht).
    destruct (Ht _ Hi') as (b' & Hb' & ? & ?). rewrite vec_at_nat in Hb'. naive_solver. }
  destruct (Htag _ _ He Hi) as (? & ? & ?). split_and!; [done..|].
  intros k' e' He' Hi'. destruct (Htag _ _ He' Hi') as (_ & ? & _). congruence.
Qed.

(** A miss that overwrites the entry of [k] leaves a block of it unlisted. *)
Lemma miss_unlists s id p c n k e i b :
  wf s → prefix_cache s !! k = Some e → Z.of_nat i ∈ block_ids e → blocks s !! i = Some b →
  0 < c ≤ p → let tpb := cfg_tokens_per_block (config s) in
  let q := mkSequence p 0 (ceil_div c tpb) [] in
  ref_count b ≠ 0 ∨ ceil_div c tpb + ceil_div (p - c) tpb ≤ FreeBlockCount s →
  let '(r, s') := AllocatePrompt_miss s id q k c (ceil_div (p - c) tpb) n in
  ok r = true → unlisted s' i b.
Proof.
  intros Hwf He Hi Hb Hc tpb q Hstay. unfold AllocatePrompt_miss. simpl.
  destruct (entry_block _ _ _ _ _ Hwf He Hi Hb) as (Ho & _ & Hk & Honly).
  pose proof (ceil_div_nonneg c _ (wf_tpb _ _ Hwf)). pose proof (ceil_div_nonneg (p - c) _ (wf_tpb _ _ Hwf)).
  destruct (AllocateBlocks (ceil_div c tpb) k s) as [prefix s1] eqn:Hall1.
  case_bool_decide as Hlen1; [done|].
  destruct (AllocateBlocks _ EmptyString s1) as [suffix s2] eqn:Hall2.
  case_bool_decide as Hlen2; [done|].
  rewrite bool_decide_true, (proj2 (Z.ltb_lt 0 c)) by (done || lia). simpl. intros _.
  destruct (AllocateBlocks_spec _ _ _ _ _ _ Hwf Hall1) as [(_ & Hal1 & Hwf1)|(Hn & -> & _)];
    [|simpl in Hlen1; unfold tpb in *; lia].
  destruct (AllocateBlocks_stays [] _ _ _ _ _ i b Hwf Hall1) as [Hb1 Hi1]; [lia|done..| |].
  { destruct Hstay; [by left|right]. unfold tpb in *. lia. }
  destruct (AllocateBlocks_stays _ _ _ _ _ _ i b Hwf1 Hall2) as [Hb2 Hi2]; [lia|done..| |].
  { destruct Hstay; [by left|right].
    rewrite (AllocateBlocks_free _ _ _ _ _ _ Hwf Hall1); unfold tpb in *; lia. }
  destruct (AllocateBlocks_spec _ _ _ _ _ _ Hwf1 Hall2) as [(_ & Hal2 & _)|(Hn & -> & _)];
    [|simpl in Hlen2; lia].
  constructor; [done..|]. simpl. intros (k' & e' & He' & Hi'). simpl in He'.
  apply lookup_insert_Some in He' as [[_ <-]|[Hne He']]; [done|]. apply Hne. symmetry.
  eapply Honly; [|exact Hi']. eapply lookup_weaken; [exact He'|].
  etrans; [apply (al_cache _ _ _ _ Hal2)|apply Hal1].
Qed.

(** An unlisted block with a key stays so, whatever is called. *)
Lemma unlisted_run call s s' i b :
  wf s → kv_run call s = Some s' → unlisted s i b → cached_prefix_key b ≠ EmptyString →
  ∃ b', unlisted s' i b' ∧ cached_prefix_key b' = cached_prefix_key b.
Proof.
  intros Hwf Hrun Hu Hk. destruct call as [id p k t|id n|id]; simpl in Hrun.
  - apply fmap_Some in Hrun as ([r s''] & Hrun & ->). eauto using unlisted_AllocatePrompt.
  - apply fmap_Some in Hrun as ([r s''] & Hrun & ->). eauto using unlisted_AppendTokens.
  - injection Hrun as <-. destruct (sequences s !! id) as [q|] eqn:Hq.
    2:{ exists b. unfold ReleaseSequence. by rewrite Hq. }
    destruct Hu as [Hb Ho Hc]. destruct (ReleaseSequence_frame id s) as (_ & _ & Hp & _).
    pose proof (ReleaseSequence_lookup _ _ _ _ _ Hwf Hq Hb) as Hr. unfold released in Hr.
    rewrite (decide_False (P := cached_prefix_key b = EmptyString)) in Hr by done.
    assert (Hc' : ¬ in_cache (ReleaseSequence id s) (Z.of_nat i)).
    { intros (k & e & He & Hi). apply Hc. exists k, e. by rewrite <- Hp. }
    case_decide; (eexists; split; [by constructor; [exact Hr| |]|done]).
Qed.

Lemma unlisted_runs calls s s' i b :
  wf s → kv_runs calls s = Some s' → unlisted s i b → cached_prefix_key b ≠ EmptyString →
  wf s' ∧ ∃ b', unlisted s' i b'.
Proof.
  revert s b. induction calls as [|call calls IH]; intros s b Hwf; simpl; [intros [= <-]; eauto|].
  destruct (kv_run call s) as [s1|] eqn:Hrun; simpl; [|done]. intros Hruns Hu Hk.
  destruct (unlisted_run _ _ _ _ _ Hwf Hrun Hu Hk) as (b1 & Hu1 & Hk1).
  pose proof (kv_run_wf call s Hwf) as Hc. destruct (call_fits call s); [|congruence].
  destruct Hc as (s1' & Hrun' & Hwf1 & _). rewrite Hrun in Hrun'. injection Hrun' as <-.
  eapply IH; [done..|]. congruence.
Qed.

(** C38: a prompt whose key is cached with another token count overwrites the
    entry, and if it is admitted, every block of the old entry that was
    referenced, and every block at all when enough were free, is lost: whatever
    is called from then on, it is in use and in no entry, so that it is never
    given to anyone; once every sequence is released nobody holds it either. *)
Theorem prefix_overwrite_leaks cfg s id p k t e i b r s' :
  reachable cfg s → prefix_cache s !! k = Some e → Z.of_nat i ∈ block_ids e →
  blocks s !! i = Some b →
  let c := cacheable (Z.max 0 p) k t in
  0 < c → token_count e ≠ c →
  ref_count b ≠ 0 ∨ prompt_blocks s (Z.max 0 p) c ≤ FreeBlockCount s →
  AllocatePrompt id p k t s = Some (r, s') → ok r = true →
  ∀ calls s'', kv_runs calls s' = Some s'' →
    (∃ b', unlisted s'' i b') ∧ (sequences s'' = ∅ → leaked s'' i).
Proof.
  intros [Hwf Hcfg]%reachable_wf He Hi Hb c Hc Hne Hstay Hrun Hok calls s'' Hruns.
  destruct (entry_block _ _ _ _ _ Hwf He Hi Hb) as (_ & Hkey & Hk & _).
  pose proof (cacheable_range (Z.max 0 p) k t ltac:(lia)) as Hcr. fold c in Hcr.
  pose proof (AllocatePrompt_cases id p k t s Hwf) as Hcase.
  destruct (allocate_fits id p k t s); [|congruence].
  destruct Hcase as (r1 & s1 & Hrun1 & Hcase). rewrite Hrun in Hrun1. injection Hrun1 as <- <-.
  destruct (prompt_case_wf _ _ _ _ _ _ _ Hwf Hcase) as [Hwf' _].
  assert (Hu : unlisted s' i b).
  { unfold AllocatePrompt in Hrun. rewrite AllocatePrompt_new_eq in Hrun by apply (wf_tpb _ _ Hwf).
    do 2 (destruct (bool_decide _) in Hrun; [by injection Hrun as <- _|]).
    destruct (prompt_fits s p k t); [|done]. unfold place_prompt in Hrun. fold c in Hrun.
    rewrite bool_decide_true, (proj2 (Z.ltb_lt 0 c)), He, (proj2 (Z.eqb_neq _ _) Hne) in Hrun by done.
    cbn [andb] in Hrun. injection Hrun as Hmiss.
    pose proof (miss_unlists _ id (Z.max 0 p) c (prompt_blocks s (Z.max 0 p) c) k e i b
      (wf_incr_misses _ _ Hwf) He Hi Hb ltac:(lia) Hstay) as Hm.
    simpl in Hm. rewrite Hmiss in Hm. by apply Hm. }
  destruct (unlisted_runs _ _ _ _ _ Hwf' Hruns Hu ltac:(congruence)) as (Hwf'' & b' & Hu').
  split; [by exists b'|]. intros Hs. exists b'. split; [done|].
  rewrite (wf_refs _ _ Hwf'' _ _ (ul_block _ _ _ Hu')), Hs, holders_empty. done.
Qed.

(** ** One token count per key: nothing is lost *)

Section Uniform.
Context (tokens_of : string → Z).

(** Every tagged block is named by the entry of its tag, [pending] ones apart,
    and every entry has the token count of its key. *)
Record listed (pending : list Z) (s : Impl) : Prop := mk_listed {
  li_counts : ∀ k e, prefix_cache s !! k = Some e → token_count e = tokens_of k;
  li_blocks : ∀ i b, blocks s !! i = Some b → cached_prefix_key b ≠ EmptyString →
    Z.of_nat i ∈ pending ∨
    ∃ e, prefix_cache s !! cached_prefix_key b = Some e ∧ Z.of_nat i ∈ block_ids e;
}.

Lemma listed_frame pending s s' :
  blocks s' = blocks s → prefix_cache s' = prefix_cache s → listed pending s → listed pending s'.
Proof. intros Eb Ep []. constructor; rewrite ?Eb, ?Ep; auto. Qed.

Lemma listed_evict_one pending k e s :
  prefix_cache s !! k = Some e → listed pending s → listed pending (evict_one k e s).
Proof.
  intros He [Hc Hb]. destruct (FreeBlocks_frame (block_ids e) s) as (_ & _ & Hp & _).
  constructor; simpl; rewrite Hp.
  - intros k' e' [_ ?]%lookup_delete_Some. auto.
  - intros i b. rewrite FreeBlocks_lookup. case_decide as Hi.
    + destruct (blocks s !! i); simpl; [by injection 1 as <-|done].
    + intros Hl Hk. destruct (Hb _ _ Hl Hk) as [|(e' & He' & Hi')]; [auto|right].
      exists e'. rewrite lookup_delete_ne; [done|]. intros ->. congruence.
Qed.

Lemma listed_evict_loop pending required items s :
  NoDup items.*1 → (∀ k e, (k, e) ∈ items → prefix_cache s !! k = Some e) →
  listed pending s → listed pending (evict_loop required items s).
Proof.
  revert s. induction items as [|[k e] items IH]; intros s Hnd Hin Hu; simpl; [done|].
  apply NoDup_cons in Hnd as [Hk Hnd]. case_bool; [|done].
  destruct (PrefixEntryIsIdle s e); [|apply IH; [done|intros; apply Hin; set_solver|done]].
  assert (He : prefix_cache s !! k = Some e) by (apply Hin; set_solver).
  apply IH; [done| |by apply listed_evict_one].
  intros k' e' Hi. destruct (FreeBlocks_frame (block_ids e) s) as (_ & _ & Hp & _).
  simpl. rewrite Hp. rewrite lookup_delete_ne; [apply Hin; set_solver|].
  intros ->. apply Hk. by apply (list_elem_of_fmap_2 fst) in Hi.
Qed.

(** The blocks just allocated are pending, unless they carry no key. *)
Lemma listed_AllocateBlocks pending n key s ids s' :
  AllocateBlocks n key s = (ids, s') → listed pending s →
  listed ((if bool_decide (key = EmptyString) then [] else ids) ++ pending) s'.
Proof.
  unfold AllocateBlocks, EnsureFreeBlocks. intros Hall Hl.
  assert (Hweak : ∀ s0 extra, listed pending s0 → listed (extra ++ pending) s0).
  { intros s0 extra [Hc Hb]. constructor; [done|]. intros i b Hi Hk.
    destruct (Hb _ _ Hi Hk); set_solver. }
  destruct (n <=? 0) in Hall; [injection Hall as <- <-; auto|].
  assert (Hev : listed pending (EvictIdlePrefixesUntil n s)).
  { apply listed_evict_loop; [apply map_in_order_NoDup| |done].
    intros k e. by rewrite elem_of_map_in_order. }
  assert (Hscan : ∀ s1, listed pending s1 →
    (let '(bs, allocated) := alloc_scan key (Z.to_nat n) 0 (blocks s1) in
     (allocated, RefreshHighWatermark (set_blocks bs s1))) = (ids, s') →
    listed ((if bool_decide (key = EmptyString) then [] else ids) ++ pending) s').
  { intros s1 [Hc Hb]. pose proof (alloc_scan_lookup key (Z.to_nat n) 0 (blocks s1)) as Hlk.
    pose proof (alloc_scan_length key (Z.to_nat n) 0 (blocks s1)) as Hlen.
    destruct (alloc_scan _ _ _ _) as [bs al]. intros [= <- <-]. constructor; [done|].
    simpl in *. intros i b Hi Hk. destruct (lookup_lt_is_Some_2 (blocks s1) i) as [b0 Hb0].
    { rewrite <- Hlen. by eapply lookup_lt_Some. }
    specialize (Hlk _ _ Hb0). case_decide as Hin.
    - destruct Hlk as [_ Hlk]. rewrite Hi in Hlk. injection Hlk as ->. simpl in Hk.
      rewrite bool_decide_false by done. set_solver.
    - rewrite Hi in Hlk. injection Hlk as ->. destruct (Hb _ _ Hb0 Hk); set_solver. }
  destruct (n <=? FreeBlockCount s); [by apply (Hscan s)|].
  destruct (n <=? FreeBlockCount _); [by apply (Hscan (EvictIdlePrefixesUntil n s))|].
  injection Hall as <- <-. apply Hweak. destruct Hev. by constructor.
Qed.

Lemma listed_add_refs pending d ids s bs :
  add_refs d ids (blocks s) = Some bs → listed pending s → listed pending (set_blocks bs s).
Proof.
  intros Hadd [Hc Hb]. constructor; [done|]. simpl. intros i b.
  destruct (add_refs_lookup _ _ _ _ i Hadd) as [_ ->].
  destruct (blocks s !! i) as [b0|] eqn:Hb0; simpl; [|done]. intros [= <-]. simpl. eauto.
Qed.

Lemma listed_hit s id q e n2 n r s' :
  AllocatePrompt_hit s id q e n2 n = Some (r, s') → listed [] s → listed [] s'.
Proof.
  unfold AllocatePrompt_hit. intros Hrun Hl.
  destruct (add_refs 1 (block_ids e) (blocks s)) as [bs|] eqn:Hadd; simpl in Hrun; [|done].
  pose proof (listed_add_refs _ _ _ _ _ Hadd Hl) as Hl1.
  destruct (AllocateBlocks n2 EmptyString (set_blocks bs s)) as [suffix s2] eqn:Hall.
  pose proof (listed_AllocateBlocks _ _ _ _ _ _ Hall Hl1) as Hl2. simpl in Hl2.
  destruct (bool_decide _).
  - destruct (add_refs (-1) (block_ids e) (blocks s2)) as [bs'|] eqn:Hsub; simpl in Hrun; [|done].
    injection Hrun as <- <-. by eapply listed_add_refs.
  - injection Hrun as <- <-. by apply (listed_frame _ s2).
Qed.

(** The prefix of a miss is freed or registered: it is no longer pending. *)
Lemma listed_free prefix s : listed prefix s → listed [] (foldl FreeBlock s prefix).
Proof.
  intros [Hc Hb]. destruct (FreeBlocks_frame prefix s) as (_ & _ & Hp & _).
  constructor; rewrite Hp; [done|]. intros i b. rewrite FreeBlocks_lookup.
  case_decide as Hi; [destruct (blocks s !! i); simpl; [by injection 1 as <-|done]|].
  intros Hl Hk. destruct (Hb _ _ Hl Hk); set_solver.
Qed.

Lemma listed_register k c prefix s :
  prefix_cache s !! k = None → c = tokens_of k →
  (∀ i, i ∈ prefix → vec_at (blocks s) i = Some (mkBlock true 1 k)) →
  listed prefix s →
  listed [] (set_prefix_cache (<[k := mkPrefixEntry c prefix]> (prefix_cache s)) s).
Proof.
  intros Hnone Hc Hfresh [Hcnt Hb]. constructor; simpl.
  - intros k' e [[<- <-]|[_ ?]]%lookup_insert_Some; auto.
  - intros i b Hi Hk. right. destruct (Hb _ _ Hi Hk) as [Hin|(e & He & Hin)].
    + specialize (Hfresh _ Hin). rewrite vec_at_nat, Hi in Hfresh. injection Hfresh as ->.
      simpl. eexists. by rewrite lookup_insert_eq.
    + exists e. rewrite lookup_insert_ne; [done|]. intros ->. congruence.
Qed.

Lemma listed_weaken pending pending' s :
  (∀ i, i ∈ pending → i ∈ pending') → listed pending s → listed pending' s.
Proof. intros Hsub [Hc Hb]. constructor; [done|]. intros i b Hi Hk. destruct (Hb _ _ Hi Hk); auto. Qed.

Lemma listed_miss s id p c k n2 n :
  wf s → 0 ≤ c → 0 ≤ n2 → (k = EmptyString → c = 0) →
  (0 < c → prefix_cache s !! k = None ∧ c = tokens_of k) → listed [] s →
  let q := mkSequence p 0 (ceil_div c (cfg_tokens_per_block (config s))) [] in
  listed [] (AllocatePrompt_miss s id q k c n2 n).2.
Proof.
  intros Hwf Hc Hn2 Hk Hnew Hl. unfold AllocatePrompt_miss. simpl.
  set (n1 := ceil_div c _).
  assert (Hn1 : 0 ≤ n1) by apply ceil_div_nonneg, (wf_tpb _ _ Hwf).
  destruct (AllocateBlocks n1 k s) as [prefix s1] eqn:Hall1.
  pose proof (listed_AllocateBlocks _ _ _ _ _ _ Hall1 Hl) as Hl1. rewrite app_nil_r in Hl1.
  destruct (AllocateBlocks_spec _ _ _ _ _ _ Hwf Hall1)
    as [(Hlen1 & Hal1 & Hwf1)|(Hpos1 & -> & Hwf1 & _)].
  2:{ rewrite bool_decide_true by (simpl; lia). simpl. by destruct (bool_decide _) in Hl1. }
  rewrite bool_decide_false by lia.
  destruct (AllocateBlocks n2 EmptyString s1) as [suffix s2] eqn:Hall2.
  apply (listed_AllocateBlocks _ _ _ _ _ _ Hall2) in Hl1. simpl in Hl1.
  apply (listed_weaken _ prefix) in Hl1; [|intros i; destruct (bool_decide _); set_solver].
  destruct (AllocateBlocks_spec _ _ _ _ _ _ Hwf1 Hall2)
    as [(Hlen2 & Hal2 & _)|(Hpos2 & -> & _)].
  2:{ rewrite bool_decide_true by (simpl; lia). by apply listed_free. }
  rewrite bool_decide_false by lia.
  destruct (bool_decide (k ≠ EmptyString) && (0 <? c)) eqn:Hreg; simpl.
  - to_prop. destruct Hnew as [Hnone Htok]; [done|].
    apply (listed_frame [] (set_prefix_cache
      (<[k := mkPrefixEntry c prefix]> (prefix_cache s2)) s2)); [done..|].
    apply listed_register; [|done| |done].
    + apply eq_None_not_Some. intros [e He]. rewrite (lookup_weaken _ _ _ _ He) in Hnone; [done|].
      etrans; [apply Hal2|apply Hal1].
    + apply (fresh_stays s k _ _ _ Hal1).
      intros i b Hb Hr. by apply (al_referenced _ _ _ _ i b Hal2 Hb Hr).
  - assert (c = 0) as Hc0.
    { destruct (decide (k = EmptyString)) as [|Hne]; [auto|].
      rewrite bool_decide_true in Hreg by done. simpl in Hreg. to_prop. lia. }
    apply (listed_frame [] s2); [done..|]. assert (prefix = []) as ->; [|done].
    apply length_zero_iff_nil. unfold n1 in Hlen1. rewrite Hc0, ceil_div_zero in Hlen1. lia.
Qed.

(** The calls that always give a key the same number of tokens. *)
Definition uniform (call : kv_call) : Prop :=
  match call with
  | CallAllocate id p k t =>
      let c := cacheable (Z.max 0 p) k t in 0 < c → c = tokens_of k
  | _ => True
  end.

Lemma listed_AllocatePrompt id p k t s r s' :
  wf s → uniform (CallAllocate id p k t) → listed [] s →
  AllocatePrompt id p k t s = Some (r, s') → listed [] s'.
Proof.
  intros Hwf Hu Hl. unfold AllocatePrompt. rewrite AllocatePrompt_new_eq by apply (wf_tpb _ _ Hwf).
  unfold place_prompt. simpl in Hu.
  pose proof (cacheable_range (Z.max 0 p) k t ltac:(lia)) as Hc.
  assert (Hk : k = EmptyString → cacheable (Z.max 0 p) k t = 0) by by intros ->.
  set (c := cacheable _ _ _) in *. intros Hrun.
  do 2 (destruct (bool_decide _) in Hrun; [by injection Hrun as <- <-|]).
  pose proof (ceil_div_nonneg (Z.max 0 p - c) _ (wf_tpb _ _ Hwf)) as Hn2.
  assert (Hl' : listed [] (set_stats (incr_misses (stats s)) s)) by by destruct Hl; constructor.
  assert (Hm : ∀ s0 n, wf s0 → config s0 = config s → listed [] s0 →
    (0 < c → prefix_cache s0 !! k = None ∧ c = tokens_of k) →
    Some (AllocatePrompt_miss s0 id (mkSequence (Z.max 0 p) 0
      (ceil_div c (cfg_tokens_per_block (config s))) []) k c
      (ceil_div (Z.max 0 p - c) (cfg_tokens_per_block (config s))) n) = Some (r, s') → listed [] s').
  { intros s0 n Hwf0 Hcfg Hl0 Hnew [= Heq]. rewrite <- Hcfg in *.
    pose proof (listed_miss s0 id (Z.max 0 p) c k _ n Hwf0 ltac:(lia) Hn2 Hk Hnew Hl0) as H.
    simpl in H. by rewrite Heq in H. }
  destruct (prompt_fits s p k t); [|done]. cbv zeta in Hrun.
  destruct (bool_decide (k ≠ EmptyString) && (0 <? c)) eqn:Hreg; to_prop.
  - destruct (prefix_cache s !! k) as [e|] eqn:He.
    + pose proof (li_counts _ _ Hl _ _ He) as Htc.
      rewrite (proj2 (Z.eqb_eq (token_count e) c)) in Hrun by (rewrite Htc; symmetry; auto).
      by eapply listed_hit.
    + eapply Hm; [..|exact Hrun]; auto. by apply wf_incr_misses.
  - eapply Hm; [..|exact Hrun]; auto. intros Hpos.
    destruct (decide (k = EmptyString)) as [->|Hne]; [rewrite Hk in Hpos by done; lia|].
    rewrite bool_decide_true in Hreg by done. simpl in Hreg. to_prop. lia.
Qed.

Lemma listed_AppendTokens id n s r s' :
  AppendTokens id n s = Some (r, s') → listed [] s → listed [] s'.
Proof.
  intros (m & ids & s1 & Hall & Hb & Hp)%AppendTokens_blocks Hl.
  pose proof (listed_AllocateBlocks _ _ _ _ _ _ Hall Hl) as Hl1. simpl in Hl1.
  by eapply listed_frame; [..|exact Hl1].
Qed.

Lemma listed_ReleaseSequence id s : wf s → listed [] s → listed [] (ReleaseSequence id s).
Proof.
  intros Hwf [Hc Hb]. destruct (sequences s !! id) as [q|] eqn:Hq.
  - destruct (ReleaseSequence_frame id s) as (_ & _ & Hp & _ & Hlen).
    constructor; rewrite Hp; [done|]. intros i b Hi Hk.
    destruct (lookup_lt_is_Some_2 (blocks s) i) as [b0 Hb0].
    { rewrite <- Hlen. by eapply lookup_lt_Some. }
    rewrite (ReleaseSequence_lookup _ _ _ _ _ Hwf Hq Hb0) in Hi. injection Hi as <-.
    unfold released in *. repeat case_decide; simpl in *; try done; eauto.
  - unfold ReleaseSequence. by rewrite Hq.
Qed.

Inductive uniformly_reachable (cfg : KvCacheConfig) : Impl → Prop :=
| uniform_init : uniformly_reachable cfg (init cfg)
| uniform_call call s s' : uniformly_reachable cfg s → uniform call →
    kv_run call s = Some s' → uniformly_reachable cfg s'.

Lemma uniformly_reachable_listed cfg s :
  uniformly_reachable cfg s → wf s ∧ listed [] s ∧ reachable cfg s.
Proof.
  induction 1 as [|call s s' _ (Hwf & Hl & Hr) Hu Hrun].
  - split_and!; [apply wf_init| |constructor]. constructor; [done|].
    intros i b [-> _]%lookup_replicate. done.
  - assert (Hr' : reachable cfg s') by eauto using reachable_call.
    destruct (reachable_wf _ _ Hr') as [Hwf' _]. split_and!; [done| |done].
    destruct call as [id p k t|id n|id]; simpl in Hrun.
    + apply fmap_Some in Hrun as ([r s''] & Hrun & ->). exact (listed_AllocatePrompt _ _ _ _ _ _ _ Hwf Hu Hl Hrun).
    + apply fmap_Some in Hrun as ([r s''] & Hrun & ->). by eapply listed_AppendTokens.
    + injection Hrun as <-. by apply listed_ReleaseSequence.
Qed.

(** When nothing is live, every block can be allocated. *)
Lemma idle_pool_allocates cfg s n key ids s' :
  uniformly_reachable cfg s → sequences s = ∅ → n ≤ cfg_total_blocks (config s) →
  AllocateBlocks n key s = (ids, s') → zlen ids = Z.max 0 n.
Proof.
  intros (Hwf & Hl & _)%uniformly_reachable_listed Hs Hn Hall.
  pose proof (listed_AllocateBlocks _ _ _ _ _ _ Hall Hl) as Hl'.
  destruct (AllocateBlocks_spec _ _ _ _ _ _ Hwf Hall)
    as [(? & _)|(Hpos & -> & Hwf' & Hev & Hfree & Hidle)]; [done|exfalso].
  assert (Href : ∀ i b, blocks s' !! i = Some b → ref_count b = 0).
  { intros i b Hb. rewrite (wf_refs _ _ Hwf' _ _ Hb), (ev_sequences _ _ Hev). simpl.
    by rewrite Hs, holders_empty. }
  assert (Hcache : ∀ k e, prefix_cache s' !! k ≠ Some e).
  { intros k e He. specialize (Hidle _ _ He). apply not_true_iff_false in Hidle. apply Hidle.
    apply PrefixEntryIsIdle_spec. intros id Hid.
    destruct (wf_entries _ _ Hwf' _ _ He) as (_ & _ & _ & _ & Htag).
    destruct (Htag _ Hid) as (b & [H0 Hb]%vec_at_Some & _). exists b. rewrite vec_at_Some. eauto. }
  assert (Hocc : ∀ i b, blocks s' !! i = Some b → occupied b = false).
  { intros i b Hb. destruct (occupied b) eqn:Ho; [|done].
    pose proof (Href _ _ Hb) as H0. pose proof (wf_unreferenced _ _ _ _ Hwf' Hb H0 Ho) as Hk.
    replace ((if bool_decide (key = EmptyString) then [] else []) ++ []) with (@nil Z) in Hl'
      by by destruct (bool_decide _).
    destruct (li_blocks _ _ Hl' _ _ Hb Hk) as [?|(e & He & _)]; [set_solver|].
    by destruct (Hcache _ _ He). }
  assert (Hall' : free_count (blocks s') = length (blocks s')).
  { unfold free_count. f_equal. clear -Hocc. induction (blocks s') as [|b bs IH]; [done|].
    rewrite filter_cons, decide_True by exact (Hocc 0%nat b eq_refl).
    f_equal. apply IH. intros i b'. apply (Hocc (S i)). }
  rewrite FreeBlockCount_eq, Hall', (ev_length _ _ Hev) in Hfree. simpl in Hfree.
  rewrite (wf_length _ _ Hwf) in Hfree. lia.
Qed.
End Uniform.

(** C22: when every prefix key always comes with the same number of tokens, no
    block is ever leaked, and once every sequence is released the whole pool can
    be given to one prompt, whose block count is computed without overflow. *)
Theorem uniform_keys_reclaim tokens_of cfg s :
  uniformly_reachable tokens_of cfg s →
  (∀ i, ¬ leaked s i) ∧
  (sequences s = ∅ → ∀ id p t, id ≠ EmptyString →
     let n := ceil_div (Z.max 0 p) (cfg_tokens_per_block (config s)) in
     n ≤ cfg_total_blocks (config s) →
     Z.max 0 p + cfg_tokens_per_block (config s) ≤ INT_MAX →
     ∃ s', AllocatePrompt id p EmptyString t s = Some (AllocationOk n false, s')).
Proof.
  intros Hur. pose proof (uniformly_reachable_listed _ _ _ Hur) as (Hwf & Hl & _). split.
  - intros i (b & [Hb Ho Hc] & Hr). pose proof (wf_unreferenced _ _ _ _ Hwf Hb Hr Ho) as Hk.
    destruct (li_blocks _ _ _ Hl _ _ Hb Hk) as [?|(e & He & Hi)]; [set_solver|].
    apply Hc. eexists. eauto.
  - intros Hs id p t Hid n Hn Hfit. unfold AllocatePrompt.
    rewrite AllocatePrompt_new_eq, prompt_fits_small by (done || apply (wf_tpb _ _ Hwf)).
    unfold place_prompt, prompt_blocks. cbv zeta.
    rewrite bool_decide_false by done. rewrite bool_decide_false by (rewrite Hs, lookup_empty; by intros [? ?]).
    rewrite cacheable_no_key, ceil_div_zero, Z.sub_0_r, bool_decide_false by auto. simpl.
    fold n. unfold AllocatePrompt_miss. simpl.
    destruct (AllocateBlocks n EmptyString s) as [ids s'] eqn:Hall.
    pose proof (idle_pool_allocates _ _ _ _ _ _ _ Hur Hs Hn Hall) as Hlen.
    pose proof (ceil_div_nonneg (Z.max 0 p) _ (wf_tpb _ _ Hwf)) as H0. fold n in H0.
    rewrite bool_decide_false by lia. simpl. eauto.
Qed.

(** ** Witnesses *)

(** Two requests of the same key with prefixes of 4 and 8 tokens, both released,
    on three blocks of four tokens: the block 0 is lost. *)
Definition leaking_config : KvCacheConfig := mkKvCacheConfig 3 4.

Definition leaking_calls : list kv_call :=
  [CallAllocate "a" 4 "k" 4; CallRelease "a"; CallAllocate "b" 8 "k" 8; CallRelease "b"].

Definition after (calls : list kv_call) (cfg : KvCacheConfig) : Impl :=
  default (init cfg) (kv_runs calls (init cfg)).

Lemma after_reachable calls cfg : reachable cfg (after calls cfg).
Proof.
  unfold after. destruct (kv_runs calls (init cfg)) as [s|] eqn:Hrun; simpl; [|constructor].
  eapply kv_runs_reachable; [constructor|done].
Qed.

Lemma leaked_forever_witness :
  leaked (after leaking_calls leaking_config) 0 ∧
  leaked (ReleaseSequence "b" (after leaking_calls leaking_config)) 0.
Proof.
  match goal with |- ?P ∧ _ => assert (Hl : P) end.
  { eexists. split; [constructor; [reflexivity|reflexivity|]|reflexivity].
    apply unlisted_dec. vm_compute. reflexivity. }
  split; [exact Hl|].
  eapply (leaked_forever leaking_config _ 0 (CallRelease "b"));
    [apply after_reachable|exact Hl|reflexivity].
Defined.

Lemma prefix_overwrite_leaks_witness :
  ∃ s r s' s'', AllocatePrompt "b" 8 "k" 8 s = Some (r, s') ∧ kv_runs [CallRelease "b"] s' = Some s'' ∧
    leaked s'' 0 ∧
    (fst <$> AllocatePrompt "c" 12 EmptyString 0 s'') = Some (AllocationError "kv cache exhausted").
Proof.
  exists (after [CallAllocate "a" 4 "k" 4; CallRelease "a"] leaking_config). do 3 eexists.
  split; [vm_compute; reflexivity|]. split; [vm_compute; reflexivity|].
  split; [|vm_compute; reflexivity].
  eapply (prefix_overwrite_leaks leaking_config
    (after [CallAllocate "a" 4 "k" 4; CallRelease "a"] leaking_config) "b" 8 "k" 8
    (mkPrefixEntry 4 [0]) 0 (mkBlock true 0 "k")) with (calls := [CallRelease "b"]);
    [apply after_reachable|vm_compute; reflexivity|apply list_elem_of_here|vm_compute; reflexivity
    |vm_compute; reflexivity|vm_compute; discriminate|right; vm_compute; discriminate
    |vm_compute; reflexivity|reflexivity|vm_compute; reflexivity|vm_compute; reflexivity].
Defined.

Definition four_tokens (k : string) : Z := 4.

Lemma uniform_keys_reclaim_witness :
  ∃ s s', kv_runs [CallAllocate "a" 4 "k" 4; CallRelease "a"] (init leaking_config) = Some s ∧
    AllocatePrompt "c" 12 EmptyString 0 s = Some (AllocationOk 3 false, s').
Proof.
  eexists.
  assert (Hur : uniformly_reachable four_tokens leaking_config
    (after [CallAllocate "a" 4 "k" 4; CallRelease "a"] leaking_config)).
  { apply (uniform_call _ _ (CallRelease "a")
      (after [CallAllocate "a" 4 "k" 4] leaking_config)); [|done|vm_compute; reflexivity].
    apply (uniform_call _ _ (CallAllocate "a" 4 "k" 4) (init leaking_config)
      (after [CallAllocate "a" 4 "k" 4] leaking_config)); [constructor|done|vm_compute; reflexivity]. }
  destruct (uniform_keys_reclaim four_tokens leaking_config _ Hur) as [_ Hall].
  destruct (Hall eq_refl "c" 12 0) as [s' Hs']; [done|vm_compute; discriminate..|].
  exists s'. split; [vm_compute; reflexivity|exact Hs'].
Defined.
