(* ===== verification/Backend.v ===== *)
(** * Backends

    The interface of [src/backend/inference_backend.h]: requests, results,
    stream events, the abstract class [InferenceBackend] and its default
    [ProcessStream].  A backend runs in a world that answers the cancellation
    callback, the clock and the stream callback; [M] is the monad of code that
    runs in a world. *)
From stdpp Require Import prelude gmap strings list.
From S2P Require Import Prelude CxxText.

(** ** Code that runs in a world

    [None] is undefined behaviour, or a loop that has not ended within its
    fuel. *)
Definition M (W A : Type) : Type := W → option (A * W).

Section Monad.
Context {W : Type}.

Definition done_with {A} (x : A) : M W A := λ w, Some (x, w).
Definition undefined {A} : M W A := λ _, None.
Definition and_then {A B} (m : M W A) (k : A → M W B) : M W B :=
  λ w, match m w with Some (x, w') => k x w' | None => None end.
Definition of_option {A} (x : option A) : M W A := λ w, (λ x, (x, w)) <$> x.
(** An operation of the world that always answers. *)
Definition ask {A} (f : W → A * W) : M W A := λ w, Some (f w).

Lemma and_then_Some {A B} (m : M W A) (k : A → M W B) w y w' :
  and_then m k w = Some (y, w') ↔ ∃ x w1, m w = Some (x, w1) ∧ k x w1 = Some (y, w').
Proof. unfold and_then. destruct (m w) as [[x w1]|]; naive_solver. Qed.

Lemma and_then_ran {A B} (m : M W A) (f : A → M W B) w x w' :
  m w = Some (x, w') → and_then m f w = f x w'.
Proof. intros Hrun. unfold and_then. by rewrite Hrun. Qed.

Lemma ask_Some {A} (op : W → A * W) w x w' : ask op w = Some (x, w') → op w = (x, w').
Proof. unfold ask. destruct (op w). congruence. Qed.

(** Code that is defined and ends in every world. *)
Definition returns {A} (m : M W A) : Prop := ∀ w, ∃ x w', m w = Some (x, w').

Lemma returns_done {A} (x : A) : returns (done_with x).
Proof. intros w. by exists x, w. Qed.
Lemma returns_ask {A} (f : W → A * W) : returns (ask f).
Proof. intros w. unfold ask. destruct (f w) as [x w']. by exists x, w'. Qed.
Lemma returns_bind {A B} (m : M W A) (k : A → M W B) :
  returns m → (∀ x, returns (k x)) → returns (and_then m k).
Proof.
  intros Hm Hk w. unfold and_then. destruct (Hm w) as (x & w' & ->). apply Hk.
Qed.
Lemma returns_after {A B} (m : M W A) (k : A → M W B) w x w1 :
  m w = Some (x, w1) → returns (k x) → ∃ y w', and_then m k w = Some (y, w').
Proof. intros Hm Hk. unfold and_then. rewrite Hm. apply Hk. Qed.

(** Code that does not change what [obs] shows of the world. *)
Definition keeps {A X} (obs : W → X) (m : M W A) : Prop :=
  ∀ w x w', m w = Some (x, w') → obs w' = obs w.

Lemma keeps_done {A X} (obs : W → X) (x : A) : keeps obs (done_with x).
Proof. by intros w y w' [= <- <-]. Qed.
Lemma keeps_undefined {A X} (obs : W → X) : keeps obs (@undefined A).
Proof. by intros w y w'. Qed.
Lemma keeps_ask {A X} (obs : W → X) (f : W → A * W) :
  (∀ w, obs (f w).2 = obs w) → keeps obs (ask f).
Proof. intros Hf w y w' [= Heq]. specialize (Hf w). by rewrite Heq in Hf. Qed.
Lemma keeps_bind {A B X} (obs : W → X) (m : M W A) (k : A → M W B) :
  keeps obs m → (∀ x, keeps obs (k x)) → keeps obs (and_then m k).
Proof.
  intros Hm Hk w y w' (x & w1 & Hx & Hy)%and_then_Some.
  by rewrite (Hk _ _ _ _ Hy), (Hm _ _ _ Hx).
Qed.
Lemma keeps_ask_read {A X} (obs : W → X) (f : W → A) : keeps obs (ask (λ w, (f w, w))).
Proof. by apply keeps_ask. Qed.
End Monad.

#[export] Hint Resolve keeps_done keeps_undefined keeps_ask_read keeps_ask : laminar.

(** Follow the structure of the code. *)
Ltac keeps_step :=
  match goal with
  | |- keeps _ (and_then _ _) => apply keeps_bind; [|intros ?]
  | |- keeps _ (if ?b then _ else _) => destruct b
  | |- keeps _ (match ?x with _ => _ end) => destruct x
  | |- keeps _ (let _ := _ in _) => cbv zeta
  | |- keeps _ _ => solve [eauto with laminar typeclass_instances]
  end.
Ltac keeps_tac := repeat keeps_step.

#[export] Hint Resolve returns_done returns_ask : laminar.

(** Follow the structure of the code. *)
Ltac returns_step :=
  match goal with
  | |- returns (and_then _ _) => apply returns_bind; [|intros ?]
  | |- returns (if ?b then _ else _) => destruct b
  | |- returns (match ?x with _ => _ end) => destruct x
  | |- returns (let _ := _ in _) => cbv zeta
  | |- returns _ => solve [auto with laminar]
  end.
Ltac returns_tac := repeat returns_step.

Notation "'let*' x := m 'in' k" := (and_then m (λ x, k))
  (at level 200, x binder, m at level 200, k at level 200, right associativity) : laminar_scope.
Notation "'let*' ' p := m 'in' k" := (and_then m (λ x, let 'p := x in k))
  (at level 200, p strict pattern, m at level 200, k at level 200, right associativity)
  : laminar_scope.

(** What every backend asks of its world: the callback [is_cancelled], the
    monotonic clock in nanoseconds, and sleeping. *)
Class Host (W : Type) := {
  is_cancelled : W → bool * W;
  steady_now : W → Z * W;
  sleep_for_ms : Z → W → unit * W;
}.

(** What the code that uses the operating system asks of it for any descriptor. *)
Class Files (W : Type) := {
  fcntl_getfl : Z → W → Z * W;
  fcntl_setfl : Z → Z → W → Z * W;
  close : Z → W → Z * W;
  errno : W → Z;
}.

Definition O_NONBLOCK : Z := 2048.
Definition EINTR : Z := 4.
Definition EAGAIN : Z := 11.

(** Code that only polls the callback, given as a function of the answers to its
    calls that says how many it made. *)
Section Polls.
Context {W : Type} `{Host W}.

Definition polled (n : nat) (w : W) : W := Nat.iter n (λ w, (is_cancelled w).2) w.
Definition poll_at (w : W) (n : nat) : bool := (is_cancelled (polled n w)).1.
Definition with_polls {A} (f : (nat → bool) → option (A * nat)) : M W A :=
  λ w, (λ '(x, n), (x, polled n w)) <$> f (poll_at w).
End Polls.

(** [duration_cast<microseconds>(b - a).count()] *)
Definition elapsed_micros (a b : Z) : Z := Z.quot (b - a) 1000.

(** ** Data *)

Inductive BackendKind :=
  | kSimulator | kTinyTextModel | kTinyLLM | kContinuousTinyLLM | kOnnxRuntime
  | kLlamaCpp | kLlamaServer.

#[export] Instance BackendKind_eq_dec : EqDecision BackendKind.
Proof. solve_decision. Defined.

Inductive BackendStatusCode := kOk | kCancelledCode | kInvalidArgument | kUnavailable.

#[export] Instance BackendStatusCode_eq_dec : EqDecision BackendStatusCode.
Proof. solve_decision. Defined.

Record BackendRequest := mkBackendRequest {
  id : string;
  prompt : string;
  trace_id : string;
}.

Abbreviation metadata_map := (gmap string string).

Record BackendResult := mkBackendResult {
  code : BackendStatusCode;
  message : string;
  outputs : list string;
  output_metadata : list metadata_map;
}.

(** [BackendResult{}] *)
Definition empty_result : BackendResult := mkBackendResult kOk EmptyString [] [].

Definition push_output (out : string) (r : BackendResult) : BackendResult :=
  mkBackendResult (code r) (message r) (outputs r ++ [out]) (output_metadata r).
Definition push_metadata (m : metadata_map) (r : BackendResult) : BackendResult :=
  mkBackendResult (code r) (message r) (outputs r) (output_metadata r ++ [m]).

Record BackendStreamEvent := mkBackendStreamEvent {
  event_type : string;
  delta : string;
  result : string;
  metadata : metadata_map;
}.

Definition CancelledResult : BackendResult :=
  mkBackendResult kCancelledCode "batch cancelled" [] [].
Definition UnavailableResult (msg : string) : BackendResult :=
  mkBackendResult kUnavailable msg [] [].

(** ** The abstract class

    [B] is the state of the backend object; the methods return its new state. *)
Class InferenceBackend (B W : Type) := {
  Name : B → string;
  ProcessBatch : B → list BackendRequest → M W (BackendResult * B);
}.

(** [InferenceBackend::ProcessStream], [emit] being the stream callback. *)
Definition default_ProcessStream {B W} `{InferenceBackend B W}
    (emit : BackendStreamEvent → M W bool) (b : B) (request : BackendRequest)
    : M W (BackendResult * B) :=
  let* '(res, b) := ProcessBatch b [request] in
  if negb (bool_decide (code res = kOk)) then done_with (res, b)
  else match outputs res with
       | [out] =>
           let event := mkBackendStreamEvent "done" EmptyString out
             (match output_metadata res with m :: _ => m | [] => ∅ end) in
           let* written := emit event in
           if negb written then done_with (CancelledResult, b) else done_with (res, b)
       | _ => done_with (UnavailableResult "backend returned the wrong number of outputs", b)
       end.

(** The virtual method [ProcessStream]; a class that does not override it has
    the default as its instance. *)
Class StreamingBackend (B W : Type) `{InferenceBackend B W} := {
  ProcessStream : (BackendStreamEvent → M W bool) → B → BackendRequest → M W (BackendResult * B);
}.

(** ** The contract

    What a caller relies on: a successful batch has one output per request and,
    if any metadata, one record per request; an unsuccessful one says why. *)
Definition result_for (requests : list BackendRequest) (r : BackendResult) : Prop :=
  match code r with
  | kOk =>
      length (outputs r) = length requests ∧
      (output_metadata r = [] ∨ length (output_metadata r) = length requests)
  | kCancelledCode => r = CancelledResult
  | kInvalidArgument => False
  | kUnavailable => True
  end.

Class BackendSpec (B W : Type) `{InferenceBackend B W} := {
  backend_inv : B → Prop;
  ProcessBatch_result b requests w r b' w' :
    backend_inv b → ProcessBatch b requests w = Some ((r, b'), w') →
    result_for requests r ∧ backend_inv b' ∧ Name b' = Name b;
}.

(** The result of a stream: a successful one has one output. *)
Definition stream_result (r : BackendResult) : Prop :=
  match code r with
  | kOk => length (outputs r) = 1%nat
  | kCancelledCode => r = CancelledResult
  | kInvalidArgument => False
  | kUnavailable => True
  end.

Class StreamingSpec (B W : Type) `{StreamingBackend B W} `{!BackendSpec B W} := {
  ProcessStream_result emit b request w r b' w' :
    backend_inv b → ProcessStream emit b request w = Some ((r, b'), w') →
    stream_result r ∧ backend_inv b' ∧ Name b' = Name b;
}.

(** A backend that answers every batch that it can serve, and stays able to. *)
Class BackendProgress (B W : Type) `{BackendSpec B W} := {
  progress_inv : B → Prop;
  servable : list BackendRequest → Prop;
  ProcessBatch_progress b requests w :
    backend_inv b → progress_inv b → servable requests →
    ∃ r b' w', ProcessBatch b requests w = Some ((r, b'), w') ∧ progress_inv b';
}.

(** The default [ProcessStream] keeps the contract of the batches. *)
Lemma default_ProcessStream_result {B W} `{BackendSpec B W} emit b request w r b' w' :
  backend_inv b → default_ProcessStream emit b request w = Some ((r, b'), w') →
  stream_result r ∧ backend_inv b' ∧ Name b' = Name b.
Proof.
  intros Hb. unfold default_ProcessStream. rewrite and_then_Some. intros ([res b1] & w1 & Hbatch & Hrun).
  apply ProcessBatch_result in Hbatch as (Hr & Hb1 & Hname); [|done].
  case_bool_decide as Hok; cbn [negb] in Hrun.
  - destruct (outputs res) as [|out [|]] eqn:Houts; [by injection Hrun as <- <- <-| |by injection Hrun as <- <- <-].
    apply and_then_Some in Hrun as (written & w2 & _ & Hrun).
    destruct written; injection Hrun as <- <- <-; [|done]. unfold stream_result. by rewrite Hok, Houts.
  - injection Hrun as <- <- <-. split; [|done]. unfold result_for, stream_result in *. by destruct (code res).
Qed.

(** The body of a loop over the requests that keeps a result: [None] goes on,
    [Some r] returns [r]. *)
Fixpoint for_requests {W A} (body : A → BackendResult → M W (BackendResult + BackendResult))
    (requests : list A) (acc : BackendResult) : M W BackendResult :=
  match requests with
  | [] => done_with acc
  | request :: rest =>
      let* step := body request acc in
      match step with
      | inl r => done_with r
      | inr acc' => for_requests body rest acc'
      end
  end.

(** ** Batches, request by request *)

(** A result that ends a batch early. *)
Definition failed_result (r : BackendResult) : Prop := r = CancelledResult ∨ code r = kUnavailable.

Lemma for_requests_inv_for {W A} body (P : A → Prop) (I : list A → BackendResult → Prop)
    done requests acc (w : W) r w' :
  (∀ done request acc w step w', P request → I done acc → body request acc w = Some (step, w') →
    match step with inl r => failed_result r | inr acc' => I (done ++ [request]) acc' end) →
  Forall P requests → I done acc → for_requests body requests acc w = Some (r, w') →
  failed_result r ∨ I (done ++ requests) r.
Proof.
  intros Hbody HP. revert done acc w.
  induction HP as [|request requests Hp _ IH]; intros done acc w Hacc; simpl.
  { intros [= <- <-]. right. by rewrite app_nil_r. }
  rewrite and_then_Some. intros (step & w1 & Hstep & Hrun).
  apply Hbody with (done := done) in Hstep; [|done..]. destruct step as [r1|acc1].
  - injection Hrun as <- <-. by left.
  - apply IH with (done := done ++ [request]) in Hrun; [|done]. by rewrite <- app_assoc in Hrun.
Qed.

Lemma for_requests_inv {W A} body (I : list A → BackendResult → Prop)
    done requests acc (w : W) r w' :
  (∀ done request acc w step w', I done acc → body request acc w = Some (step, w') →
    match step with inl r => failed_result r | inr acc' => I (done ++ [request]) acc' end) →
  I done acc → for_requests body requests acc w = Some (r, w') →
  failed_result r ∨ I (done ++ requests) r.
Proof.
  intros Hbody. apply (for_requests_inv_for _ (λ _, True)); [|by apply Forall_true].
  intros; by eapply Hbody.
Qed.

Lemma for_requests_returns_for {W A} (P : A → Prop) (body : A → _ → M W _) requests acc :
  (∀ request acc, P request → returns (body request acc)) → Forall P requests →
  returns (for_requests body requests acc).
Proof.
  intros Hbody HP. revert acc. induction HP as [|request requests Hp _ IH]; intros acc; simpl;
    [auto with laminar|]. apply returns_bind; [auto|]. intros [r|acc']; auto with laminar.
Qed.

Lemma for_requests_returns {W A} (body : A → _ → M W _) requests acc :
  (∀ request acc, returns (body request acc)) → returns (for_requests body requests acc).
Proof. intros Hbody. apply (for_requests_returns_for (λ _, True)); [auto|by apply Forall_true]. Qed.

(** Outputs and metadata that answer the requests, one each. *)
Definition answers {A} (R : A → string → metadata_map → Prop)
    (requests : list A) (r : BackendResult) : Prop :=
  code r = kOk ∧ length (outputs r) = length requests ∧
  length (output_metadata r) = length requests ∧
  ∀ n request out m, requests !! n = Some request → outputs r !! n = Some out →
    output_metadata r !! n = Some m → R request out m.

Lemma answers_push {A} (R : A → string → metadata_map → Prop) done r request out m :
  answers R done r → R request out m →
  answers R (done ++ [request]) (push_metadata m (push_output out r)).
Proof.
  intros (Hc & Ho & Hm & Hall) HR. split_and!; [done|simpl; rewrite !length_app; simpl; lia..|].
  intros n request' out' m'. simpl.
  destruct (decide (n < length done)%nat) as [Hn|Hn].
  - rewrite !lookup_app_l by lia. apply Hall.
  - rewrite !lookup_app_r by lia. rewrite Ho, Hm. destruct (n - length done)%nat; [|done].
    by intros [= <-] [= <-] [= <-].
Qed.

Lemma answers_nil {A} (R : A → string → metadata_map → Prop) : answers R [] empty_result.
Proof. by split_and!. Qed.

Lemma answers_result_for {A} (R : A → string → metadata_map → Prop) (elems : list A) requests r :
  length elems = length requests → answers R elems r → result_for requests r.
Proof. intros Hl (Hc & Ho & Hm & _). unfold result_for. rewrite Hc, <- Hl. auto. Qed.

Lemma failed_result_for requests r : failed_result r → result_for requests r.
Proof. intros [->|Hc]; unfold result_for; [done|]. by rewrite Hc. Qed.

(** Outputs that answer the requests, one each, without metadata. *)
Definition answers_plain (R : BackendRequest → string → Prop)
    (requests : list BackendRequest) (r : BackendResult) : Prop :=
  code r = kOk ∧ output_metadata r = [] ∧ Forall2 R requests (outputs r).

Lemma answers_plain_push R done r request out :
  answers_plain R done r → R request out → answers_plain R (done ++ [request]) (push_output out r).
Proof.
  intros (Hc & Hm & Hall) HR. split_and!; [done..|]. simpl. apply Forall2_app; auto.
Qed.

Lemma answers_plain_nil R : answers_plain R [] empty_result.
Proof. by split_and!. Qed.

Lemma answers_plain_result_for R requests r : answers_plain R requests r → result_for requests r.
Proof.
  intros (Hc & Hm & Hall). unfold result_for. rewrite Hc. split; [|by left].
  symmetry. by eapply Forall2_length.
Qed.

(** *** Requests in turn

    [R w request x w']: the request is answered with [x], from [w] to [w'].  The
    requests of a batch are answered one after the other, in their order. *)
Inductive in_turn {W A X} (R : W → A → X → W → Prop) : W → list A → list X → W → Prop :=
| in_turn_nil w : in_turn R w [] [] w
| in_turn_cons w request x w1 requests xs w' :
    R w request x w1 → in_turn R w1 requests xs w' →
    in_turn R w (request :: requests) (x :: xs) w'.

Lemma in_turn_length {W A X} (R : W → A → X → W → Prop) w requests xs w' :
  in_turn R w requests xs w' → length xs = length requests.
Proof. induction 1; simpl; congruence. Qed.

(** A result whose outputs, and metadata, are those answers. *)
Definition answers_in_turn {W A} (R : W → A → string * metadata_map → W → Prop)
    (w : W) (requests : list A) (r : BackendResult) (w' : W) : Prop :=
  ∃ xs, in_turn R w requests xs w' ∧
    code r = kOk ∧ outputs r = xs.*1 ∧ output_metadata r = xs.*2.

Definition answers_plain_in_turn {W A} (R : W → A → string → W → Prop)
    (w : W) (requests : list A) (r : BackendResult) (w' : W) : Prop :=
  in_turn R w requests (outputs r) w' ∧ code r = kOk ∧ output_metadata r = [].

Lemma for_requests_in_turn {W A X} (R : W → A → X → W → Prop)
    (push : X → BackendResult → BackendResult) body requests acc (w : W) r w' :
  (∀ request acc w step w', body request acc w = Some (step, w') →
    match step with
    | inl r => failed_result r
    | inr acc' => ∃ x, acc' = push x acc ∧ R w request x w'
    end) →
  for_requests body requests acc w = Some (r, w') →
  failed_result r ∨ ∃ xs, in_turn R w requests xs w' ∧ r = foldl (λ acc x, push x acc) acc xs.
Proof.
  intros Hbody. revert acc w. induction requests as [|request requests IH]; intros acc w; simpl.
  { intros [= <- <-]. right. exists []. split; [constructor|done]. }
  rewrite and_then_Some. intros (step & w1 & Hstep%Hbody & Hrun). destruct step as [r1|acc1].
  - injection Hrun as <- <-. by left.
  - destruct Hstep as (x & -> & HR). apply IH in Hrun as [?|(xs & Hxs & ->)]; [by left|right].
    exists (x :: xs). split; [by econstructor|done].
Qed.

Definition push_answer (x : string * metadata_map) (r : BackendResult) : BackendResult :=
  push_metadata x.2 (push_output x.1 r).

Lemma push_answers xs acc :
  let r := foldl (λ acc x, push_answer x acc) acc xs in
  code r = code acc ∧ outputs r = outputs acc ++ xs.*1 ∧
  output_metadata r = output_metadata acc ++ xs.*2.
Proof.
  revert acc. induction xs as [|[out m] xs IH]; intros acc; simpl.
  { by rewrite !app_nil_r. }
  destruct (IH (push_answer (out, m) acc)) as (-> & -> & ->). simpl. by rewrite <- !app_assoc.
Qed.

Lemma push_outputs xs acc :
  let r := foldl (λ acc x, push_output x acc) acc xs in
  code r = code acc ∧ outputs r = outputs acc ++ xs ∧ output_metadata r = output_metadata acc.
Proof.
  revert acc. induction xs as [|out xs IH]; intros acc; simpl; [by rewrite app_nil_r|].
  destruct (IH (push_output out acc)) as (-> & -> & ->). simpl. by rewrite <- app_assoc.
Qed.

(** The loop of a batch from an empty result. *)
Lemma for_requests_answers {W A} (R : W → A → string * metadata_map → W → Prop) body
    requests (w : W) r w' :
  (∀ request acc w step w', body request acc w = Some (step, w') →
    match step with
    | inl r => failed_result r
    | inr acc' => ∃ x, acc' = push_answer x acc ∧ R w request x w'
    end) →
  for_requests body requests empty_result w = Some (r, w') →
  failed_result r ∨ answers_in_turn R w requests r w'.
Proof.
  intros Hbody Hrun. apply (for_requests_in_turn R push_answer) in Hrun as [?|(xs & Hxs & ->)];
    [by left|right|done]. exists xs. split; [done|apply push_answers].
Qed.

Lemma for_requests_plain {W A} (R : W → A → string → W → Prop) body requests (w : W) r w' :
  (∀ request acc w step w', body request acc w = Some (step, w') →
    match step with
    | inl r => failed_result r
    | inr acc' => ∃ x, acc' = push_output x acc ∧ R w request x w'
    end) →
  for_requests body requests empty_result w = Some (r, w') →
  failed_result r ∨ answers_plain_in_turn R w requests r w'.
Proof.
  intros Hbody Hrun. apply (for_requests_in_turn R push_output) in Hrun as [?|(xs & Hxs & ->)];
    [by left|right|done]. pose proof (push_outputs xs empty_result) as (Hc & Ho & Hm).
  unfold answers_plain_in_turn. rewrite Hc, Ho, Hm. done.
Qed.

Lemma answers_in_turn_result {W A} (R : W → A → string * metadata_map → W → Prop)
    w (elems : list A) requests r w' :
  length elems = length requests → answers_in_turn R w elems r w' → result_for requests r.
Proof.
  intros Hl (xs & Hxs%in_turn_length & Hc & Ho & Hm). unfold result_for.
  rewrite Hc, Ho, Hm, !length_fmap, Hxs. auto.
Qed.

Lemma answers_plain_in_turn_result {W} (R : W → BackendRequest → string → W → Prop) w requests r w' :
  answers_plain_in_turn R w requests r w' → result_for requests r.
Proof.
  intros (Ho%in_turn_length & Hc & Hm). unfold result_for. rewrite Hc. split; [done|by left].
Qed.

(** ** The size of a batch

    gRPC receives messages of 4 MiB at most unless it is told otherwise, which
    [RunServer] does not do; a request takes two bytes of its message besides its
    prompt. *)
Definition message_limit : Z := 4194304.

Definition prompt_received (request : BackendRequest) : Prop :=
  size_of (prompt request) ≤ message_limit.

Definition batch_bytes (requests : list BackendRequest) : Z :=
  sum_Z ((λ request, 2 + size_of (prompt request)) <$> requests).

Definition batch_received (requests : list BackendRequest) : Prop :=
  batch_bytes requests ≤ message_limit.

Lemma batch_bytes_bounds requests request :
  0 ≤ batch_bytes requests ∧
  (request ∈ requests → size_of (prompt request) ≤ batch_bytes requests).
Proof.
  unfold batch_bytes. induction requests as [|r requests [IH0 IH]]; [split; [done|set_solver]|].
  rewrite fmap_cons, sum_Z_cons. unfold size_of in *. split; [lia|].
  intros [->|Hin]%elem_of_cons; [lia|]. specialize (IH Hin). lia.
Qed.

Lemma batch_received_prompts requests :
  batch_received requests → Forall prompt_received requests.
Proof.
  intros Hb. apply Forall_forall. intros r Hr. unfold prompt_received, batch_received in *.
  pose proof (proj2 (batch_bytes_bounds requests r) Hr). lia.
Qed.
