(* ===== verification/Simulator.v ===== *)
(** * The simulator backend

    [SimulatorBackend] of [src/backend/inference_backend.cc]: it sleeps for a
    time that depends on the batch, in slices of 5 ms between which it polls the
    cancellation callback, and echoes the prompts. *)
From stdpp Require Import prelude gmap strings list.
From S2P Require Import Prelude CxxText Backend.

Record SimulatorBackend := mkSimulator {
  base_latency_ms_ : Z;
  per_request_latency_ms_ : Z;
}.

(** The constructor. *)
Definition make_SimulatorBackend (base per_request : Z) : SimulatorBackend :=
  mkSimulator (Z.max base 0) (Z.max per_request 0).

(** [base_latency_ms_ + (batch_size * per_request_latency_ms_)] *)
Definition total_latency (b : SimulatorBackend) (batch_size : Z) : option Z :=
  product ← int_of (batch_size * per_request_latency_ms_ b);
  int_of (base_latency_ms_ b + product).

Definition simulator_output (prompt : string) (batch_size latency : Z) : string :=
  "Processed: '" +:+ prompt +:+ "' (backend=simulator, batch_size=" +:+
  to_string batch_size +:+ ", latency=" +:+ to_string latency +:+ "ms)".

Section Simulator.
Context {W : Type} `{Host W}.

(** The sleeping loop: whether it was cancelled. *)
Fixpoint sleep_loop (fuel : nat) (remaining : Z) : M W bool :=
  match fuel with
  | O => undefined
  | S fuel =>
      if remaining <=? 0 then done_with false
      else
        let* cancelled := ask is_cancelled in
        if cancelled then done_with true
        else
          let step_ms := Z.min remaining 5 in
          let* _ := ask (sleep_for_ms step_ms) in
          sleep_loop fuel (remaining - step_ms)
  end.

Definition Simulator_ProcessBatch (b : SimulatorBackend) (requests : list BackendRequest)
    : M W (BackendResult * SimulatorBackend) :=
  let batch_size := zlen requests in
  let* latency := of_option (total_latency b batch_size) in
  let* cancelled := sleep_loop (S (Z.to_nat latency)) latency in
  if cancelled then done_with (CancelledResult, b)
  else
    let* cancelled := ask is_cancelled in
    if cancelled then done_with (CancelledResult, b)
    else done_with
      (mkBackendResult kOk EmptyString
        ((λ request, simulator_output (prompt request) batch_size latency) <$> requests) [], b).

#[export] Instance Simulator_backend : InferenceBackend SimulatorBackend W := {|
  Name _ := "simulator";
  ProcessBatch := Simulator_ProcessBatch;
|}.
#[export] Instance Simulator_streaming : StreamingBackend SimulatorBackend W := {|
  ProcessStream := default_ProcessStream;
|}.
End Simulator.

(** ** The batch *)

Section SimulatorProofs.
Context {W : Type} `{Host W}.

Lemma sleep_loop_total fuel remaining (w : W) :
  (Z.to_nat remaining < fuel)%nat → ∃ cancelled w', sleep_loop fuel remaining w = Some (cancelled, w').
Proof.
  revert remaining w. induction fuel as [|fuel IH]; intros remaining w Hf; [lia|]. simpl.
  case_bool; [by repeat econstructor|]. to_prop. unfold and_then, ask, done_with.
  destruct (is_cancelled w) as [[] w1]; [by eauto|].
  destruct (sleep_for_ms _ w1) as [[] w2]. apply IH. lia.
Qed.

Lemma total_latency_Some b n :
  0 ≤ base_latency_ms_ b → 0 ≤ per_request_latency_ms_ b → 0 ≤ n →
  base_latency_ms_ b + n * per_request_latency_ms_ b ≤ INT_MAX →
  total_latency b n = Some (base_latency_ms_ b + n * per_request_latency_ms_ b).
Proof.
  intros. unfold total_latency. unfold INT_MAX in *.
  rewrite int_of_Some by (unfold INT_MIN, INT_MAX; nia). simpl.
  apply int_of_Some. unfold INT_MIN, INT_MAX. nia.
Qed.

Lemma Simulator_result b requests (w : W) r b' w' :
  Simulator_ProcessBatch b requests w = Some ((r, b'), w') →
  b' = b ∧ result_for requests r.
Proof.
  unfold Simulator_ProcessBatch. rewrite and_then_Some. intros (latency & w1 & _ & Hrun).
  apply and_then_Some in Hrun as (cancelled & w2 & _ & Hrun).
  destruct cancelled; [by injection Hrun as <- <- <-|].
  apply and_then_Some in Hrun as (cancelled & w3 & _ & Hrun).
  destruct cancelled; injection Hrun as <- <- <-; [done|].
  split; [done|]. unfold result_for, code, outputs, output_metadata. rewrite length_fmap. auto.
Qed.

#[export, refine] Instance Simulator_spec : BackendSpec SimulatorBackend W := {|
  backend_inv _ := True;
|}.
Proof. intros b requests w r b' w' _ [-> ?]%Simulator_result. done. Defined.

(** Latencies of at most a minute do not overflow, for that many requests. *)
Lemma Simulator_defined b requests (w : W) :
  0 ≤ base_latency_ms_ b ≤ 60000 → 0 ≤ per_request_latency_ms_ b ≤ 60000 → zlen requests ≤ 35790 →
  ∃ r w', Simulator_ProcessBatch b requests w = Some ((r, b), w').
Proof.
  intros Hb Hp Hn. set (latency := base_latency_ms_ b + zlen requests * per_request_latency_ms_ b).
  assert (Hl : total_latency b (zlen requests) = Some latency).
  { apply total_latency_Some; try lia. unfold INT_MAX. nia. }
  destruct (sleep_loop_total (S (Z.to_nat latency)) latency w) as (cancelled & w1 & Hs); [lia|].
  unfold Simulator_ProcessBatch. rewrite Hl.
  cbv beta iota delta [and_then of_option fmap option_fmap option_map]. rewrite Hs.
  destruct cancelled; [by repeat econstructor|]. unfold ask.
  destruct (is_cancelled w1) as [[] w2]; by repeat econstructor.
Qed.

#[export, refine] Instance Simulator_progress : BackendProgress SimulatorBackend W := {|
  progress_inv b := 0 ≤ base_latency_ms_ b ≤ 60000 ∧ 0 ≤ per_request_latency_ms_ b ≤ 60000;
  servable requests := zlen requests ≤ 35790;
|}.
Proof.
  intros b requests w _ [Hb Hp] Hn. destruct (Simulator_defined b requests w Hb Hp Hn) as (r & w' & Hrun).
  by exists r, b, w'.
Defined.

(** The simulator always returns: with latencies of at most a minute, the
    most the configuration lets through, and at most 35,790 requests, the
    latency does not overflow and the sleeping loop ends. *)
Theorem Simulator_returns base per_request requests (w : W) :
  base ≤ 60000 → per_request ≤ 60000 → zlen requests ≤ 35790 →
  let b := make_SimulatorBackend base per_request in
  ∃ r w', Simulator_ProcessBatch b requests w = Some ((r, b), w') ∧ result_for requests r.
Proof.
  intros Hb Hp Hn b. assert (Hrun : ∃ r w', Simulator_ProcessBatch b requests w = Some ((r, b), w'))
    by (apply Simulator_defined; simpl; lia).
  destruct Hrun as (r & w' & Hrun). exists r, w'. split; [done|]. by apply Simulator_result in Hrun as [_ ?].
Qed.
End SimulatorProofs.

(** ** Witness *)

(** A world in which the batch is cancelled after some polls, if ever. *)
#[export] Instance countdown_host : Host Z := {|
  is_cancelled n := (n =? 0, n - 1);
  steady_now n := (0, n);
  sleep_for_ms _ n := (tt, n);
|}.

Lemma Simulator_returns_witness :
  ∃ r w', Simulator_ProcessBatch (make_SimulatorBackend 10 5)
      [mkBackendRequest "1" "a" "t"; mkBackendRequest "2" "b" "t"] (-1)
    = Some ((r, make_SimulatorBackend 10 5), w') ∧
    result_for [mkBackendRequest "1" "a" "t"; mkBackendRequest "2" "b" "t"] r.
Proof. apply (Simulator_returns 10 5); [lia|lia|vm_compute; congruence]. Defined.
