(* ===== verification/LlamaProtocol.v ===== *)
(** * The protocol of the llama.cpp server

    URLs, request bodies, response chunks, and the two readers of an event
    stream: [ParseLlamaServerCompletion], on a whole body, and the lambdas
    [consume_line] and [on_body] of [LlamaServerBackend::ProcessStream], on the
    pieces of a body as they arrive. *)
From Stdlib Require Import Strings.Ascii Floats.SpecFloat.
From stdpp Require Import prelude gmap strings list.
From S2P Require Import Prelude CxxText Json CxxFloat Backend.

(** ** URLs *)

Record ParsedHttpUrl := mkParsedHttpUrl {
  valid : bool;
  host : string;
  port : string;
  path : string;
}.

Definition is_empty (s : string) : bool := bool_decide (s = EmptyString).

Definition ParseHttpUrl (raw_url : string) : ParsedHttpUrl :=
  if negb (starts_with "http://" raw_url)
  then mkParsedHttpUrl false EmptyString EmptyString EmptyString
  else
    let rest := drop_chars 7 raw_url in
    let '(authority, url_path) :=
      match split_char slash rest with
      | None => (rest, "/")
      | Some (before, after) => (before, String slash after)
      end in
    if is_empty authority then mkParsedHttpUrl false EmptyString EmptyString url_path
    else
      let '(url_host, url_port) :=
        match rsplit_char colon authority with
        | None => (authority, "80")
        | Some (before, after) => (before, after)
        end in
      mkParsedHttpUrl
        (negb (is_empty url_host) && negb (is_empty url_port) && negb (is_empty url_path))
        url_host url_port url_path.

Definition EndpointForOutput (raw_url : string) : string :=
  let parsed := ParseHttpUrl raw_url in
  if negb (valid parsed) then raw_url
  else host parsed +:+ ":" +:+ port parsed +:+ path parsed.

(** ** Requests *)

Definition BuildLlamaServerRequestBody (prompt : string) (max_tokens : Z)
    (temperature : spec_float) (cache_prompt stream timings_per_token : bool) : string :=
  "{" +:+ json_key "prompt" +:+ ":" +:+ JsonStringValue prompt +:+
  "," +:+ json_key "n_predict" +:+ ":" +:+ to_string max_tokens +:+
  "," +:+ json_key "temperature" +:+ ":" +:+ FloatToString temperature +:+
  "," +:+ json_key "stream" +:+ ":" +:+ BoolToJson stream +:+
  "," +:+ json_key "cache_prompt" +:+ ":" +:+ BoolToJson cache_prompt +:+
  "," +:+ json_key "return_tokens" +:+ ":" +:+ BoolToJson timings_per_token +:+
  "," +:+ json_key "timings_per_token" +:+ ":" +:+ BoolToJson timings_per_token +:+ "}".

(** ** Responses *)

Record LlamaServerCompletion := mkLlamaServerCompletion {
  content : string;
  tokens_predicted : Z;
  tokens_evaluated : Z;
  stream_chunks : Z;
}.

Definition empty_completion : LlamaServerCompletion :=
  mkLlamaServerCompletion EmptyString (-1) (-1) 0.

Record LlamaServerChunk := mkLlamaServerChunk {
  chunk_done : bool;
  has_content : bool;
  chunk_content : string;
  chunk_tokens_predicted : Z;
  chunk_tokens_evaluated : Z;
}.

Definition ParseLlamaServerChunk (data : string) : LlamaServerChunk :=
  let trimmed := TrimWhitespace data in
  if bool_decide (trimmed = "[DONE]") then mkLlamaServerChunk true false EmptyString (-1) (-1)
  else
    let content := ExtractJsonStringField trimmed "content" in
    mkLlamaServerChunk false (bool_decide (is_Some content)) (default EmptyString content)
      (default (-1) (ExtractJsonIntField trimmed "tokens_predicted"))
      (default (-1) (ExtractJsonIntField trimmed "tokens_evaluated")).

(** The updates of the token counts by a chunk. *)
Definition note_counts (chunk : LlamaServerChunk) (c : LlamaServerCompletion)
    : LlamaServerCompletion :=
  mkLlamaServerCompletion (content c)
    (if 0 <=? chunk_tokens_predicted chunk then chunk_tokens_predicted chunk
     else tokens_predicted c)
    (if 0 <=? chunk_tokens_evaluated chunk then chunk_tokens_evaluated chunk
     else tokens_evaluated c)
    (stream_chunks c).

Definition append_content (text : string) (c : LlamaServerCompletion) : LlamaServerCompletion :=
  mkLlamaServerCompletion (content c +:+ text) (tokens_predicted c) (tokens_evaluated c)
    (stream_chunks c).

Definition count_chunk (c : LlamaServerCompletion) : LlamaServerCompletion :=
  mkLlamaServerCompletion (content c) (tokens_predicted c) (tokens_evaluated c)
    (stream_chunks c + 1).

Definition MergeLlamaServerJsonChunk (json : string) (completion : LlamaServerCompletion)
    : LlamaServerCompletion :=
  let chunk := ParseLlamaServerChunk json in
  if chunk_done chunk then completion
  else note_counts chunk
         (if has_content chunk then append_content (chunk_content chunk) completion
          else completion).

(** The lines [std::getline] reads: a last line without a newline counts unless
    it is empty. *)
Fixpoint getlines (line s : string) : list string :=
  match s with
  | EmptyString => if is_empty line then [] else [line]
  | String c r =>
      if bool_decide (c = newline) then line :: getlines EmptyString r
      else getlines (line +:+ char c) r
  end.

(** One iteration of the loop of [ParseLlamaServerCompletion]. *)
Definition completion_line (completion : LlamaServerCompletion) (line : string)
    : LlamaServerCompletion :=
  let line := TrimWhitespace line in
  if negb (starts_with "data:" line) then completion
  else
    let data := TrimWhitespace (drop_chars 5 line) in
    if is_empty data || bool_decide (data = "[DONE]") then completion
    else MergeLlamaServerJsonChunk data (count_chunk completion).

Definition ParseLlamaServerCompletion (body : string) (stream : bool) : LlamaServerCompletion :=
  if negb stream then MergeLlamaServerJsonChunk body empty_completion
  else foldl completion_line empty_completion (getlines EmptyString body).

(** ** Streaming *)

(** The variables the lambdas of [ProcessStream] capture. *)
Record StreamState := mkStreamState {
  completion : LlamaServerCompletion;
  pending_line : string;
  token_index : Z;
}.

Definition initial_stream : StreamState := mkStreamState empty_completion EmptyString 0.

Definition token_event (delta : string) (index : Z) (c : LlamaServerCompletion)
    : BackendStreamEvent :=
  mkBackendStreamEvent "token" delta EmptyString
    (list_to_map [("stream", "true");
                  ("token_index", to_string index);
                  ("delta_chars", to_string (size_of delta));
                  ("stream_chunks", to_string (stream_chunks c));
                  ("tokens_predicted", to_string (tokens_predicted c));
                  ("tokens_evaluated", to_string (tokens_evaluated c))]).

Section Streaming.
Context {W : Type} (emit : BackendStreamEvent → M W bool).

(** [consume_line]: whether to go on, and the captured variables. *)
Definition consume_line (line : string) (st : StreamState) : M W (bool * StreamState) :=
  let line := TrimWhitespace line in
  if negb (starts_with "data:" line) then done_with (true, st)
  else
    let data := TrimWhitespace (drop_chars 5 line) in
    if is_empty data then done_with (true, st)
    else
      let chunk := ParseLlamaServerChunk data in
      if chunk_done chunk then done_with (true, st)
      else
        let c := note_counts chunk (count_chunk (completion st)) in
        if negb (has_content chunk)
        then done_with (true, mkStreamState c (pending_line st) (token_index st))
        else
          let c := append_content (chunk_content chunk) c in
          let* go_on := emit (token_event (chunk_content chunk) (token_index st) c) in
          done_with (go_on, mkStreamState c (pending_line st) (token_index st + 1)).

(** The loop of [on_body], which takes the complete lines off [pending_line]. *)
Fixpoint consume_lines (fuel : nat) (st : StreamState) : M W (bool * StreamState) :=
  match fuel with
  | O => undefined
  | S fuel =>
      match split_char newline (pending_line st) with
      | None => done_with (true, st)
      | Some (line, rest) =>
          let* '(go_on, st) :=
            consume_line line (mkStreamState (completion st) rest (token_index st)) in
          if negb go_on then done_with (false, st) else consume_lines fuel st
      end
  end.

Definition on_body (data : string) (st : StreamState) : M W (bool * StreamState) :=
  let pending := pending_line st +:+ data in
  consume_lines (S (str_length pending)) (mkStreamState (completion st) pending (token_index st)).

(** What [ProcessStream] does with the text after the last newline. *)
Definition finish_stream (st : StreamState) : M W (bool * StreamState) :=
  if is_empty (pending_line st) then done_with (true, st)
  else consume_line (pending_line st) (mkStreamState (completion st) EmptyString (token_index st)).
End Streaming.

(** ** Output *)

Definition BuildLlamaServerMetadata (stream cache_prompt timings_per_token : bool)
    (c : LlamaServerCompletion) (prompt_chars generated_chars ttft_micros : Z) : metadata_map :=
  list_to_map [("stream", BoolToJson stream);
               ("cache_prompt", BoolToJson cache_prompt);
               ("timings_per_token", BoolToJson timings_per_token);
               ("stream_chunks", to_string (stream_chunks c));
               ("ttft_micros", to_string ttft_micros);
               ("tokens_predicted", to_string (tokens_predicted c));
               ("tokens_evaluated", to_string (tokens_evaluated c));
               ("prompt_chars", to_string prompt_chars);
               ("generated_chars", to_string generated_chars)].

Definition FormatLlamaServerOutput (generated endpoint : string)
    (prompt_chars generated_chars duration_micros batch_size max_tokens : Z)
    (temperature : spec_float) (cache_prompt stream timings_per_token : bool)
    (stream_chunks ttft_micros tokens_predicted tokens_evaluated : Z) : string :=
  "LlamaServer(backend=llama_server, generated='" +:+ EscapeSingleQuoted generated +:+
  "', prompt_chars=" +:+ to_string prompt_chars +:+
  ", generated_chars=" +:+ to_string generated_chars +:+
  ", duration_micros=" +:+ to_string duration_micros +:+
  ", batch_size=" +:+ to_string batch_size +:+
  ", endpoint='" +:+ EscapeSingleQuoted endpoint +:+ "'" +:+
  ", max_tokens=" +:+ to_string max_tokens +:+
  ", temperature=" +:+ FloatToString temperature +:+
  ", cache_prompt=" +:+ BoolToJson cache_prompt +:+
  ", stream=" +:+ BoolToJson stream +:+
  ", timings_per_token=" +:+ BoolToJson timings_per_token +:+
  ", stream_chunks=" +:+ to_string stream_chunks +:+
  ", ttft_micros=" +:+ to_string ttft_micros +:+
  ", tokens_predicted=" +:+ to_string tokens_predicted +:+
  ", tokens_evaluated=" +:+ to_string tokens_evaluated +:+ ")".
