(* ===== verification/LlamaProtocolProps.v ===== *)
(** * Theorems on the protocol of the llama.cpp server

    URLs, request bodies, and the agreement of the two readers of an event
    stream. *)
From Stdlib Require Import Strings.Ascii Floats.SpecFloat.
From stdpp Require Import prelude gmap strings list.
From S2P Require Import Prelude CxxText CxxTextProps Json JsonProps CxxFloat Backend LlamaProtocol.

Lemma is_empty_spec s : is_empty s = true ↔ s = EmptyString.
Proof. apply bool_decide_eq_true. Qed.

Lemma is_empty_false s : is_empty s = false ↔ s ≠ EmptyString.
Proof. apply bool_decide_eq_false. Qed.

(** ** URLs *)

(** A valid URL, by its parts. *)
Definition url_text (url_host : string) (url_port : option string) (url_path : string) : string :=
  "http://" +:+ url_host +:+
  match url_port with Some p => String colon p | None => EmptyString end +:+ url_path.

Definition url_path_ok (p : string) : Prop := p = EmptyString ∨ ∃ r, p = String slash r.

Lemma ParseHttpUrl_rest rest :
  ParseHttpUrl ("http://" +:+ rest) =
    (let '(authority, url_path) :=
       match split_char slash rest with
       | None => (rest, "/")
       | Some (before, after) => (before, String slash after)
       end in
     if is_empty authority then mkParsedHttpUrl false EmptyString EmptyString url_path
     else
       let '(url_host, url_port) :=
         match rsplit_char colon authority with
         | None => (authority, "80")
         | Some (before, after) => (before, after)
         end in
       mkParsedHttpUrl
         (negb (is_empty url_host) && negb (is_empty url_port) && negb (is_empty url_path))
         url_host url_port url_path).
Proof. unfold ParseHttpUrl. by rewrite starts_with_app. Qed.

Lemma split_path authority p :
  lacks slash authority → url_path_ok p →
  match split_char slash (authority +:+ p) with
  | None => (authority +:+ p, "/")
  | Some (before, after) => (before, String slash after)
  end = (authority, if is_empty p then "/" else p).
Proof.
  intros Hl [->|[r ->]].
  - rewrite sapp_nil_r. apply split_char_None in Hl. by rewrite Hl.
  - by rewrite split_char_app.
Qed.

(** C26: a URL that is written from a host, a port and a path is parsed into
    them; without a port it is 80, without a path it is the root. *)
Theorem ParseHttpUrl_parses url_host url_port url_path :
  url_host ≠ EmptyString → lacks slash url_host →
  match url_port with
  | Some p => p ≠ EmptyString ∧ lacks slash p ∧ lacks colon p
  | None => lacks colon url_host
  end → url_path_ok url_path →
  ParseHttpUrl (url_text url_host url_port url_path) =
    mkParsedHttpUrl true url_host (default "80" url_port)
      (if is_empty url_path then "/" else url_path).
Proof.
  intros Hh Hs Hp Hpath. unfold url_text. rewrite ParseHttpUrl_rest.
  set (path' := if is_empty url_path then "/" else url_path).
  assert (Hpath' : is_empty path' = false).
  { unfold path'. destruct (is_empty url_path) eqn:E; [done|exact E]. }
  destruct url_port as [p|]; simpl.
  - destruct Hp as (Hp0 & Hps & Hpc). rewrite <- sapp_cons, <- sapp_assoc.
    rewrite split_path by (auto; rewrite lacks_app, lacks_cons; auto). fold path'.
    rewrite (proj2 (is_empty_false (url_host +:+ String colon p))) by by destruct url_host.
    rewrite rsplit_char_app, Hpath', !(proj2 (is_empty_false _)); done.
  - rewrite split_path by auto. fold path'.
    apply rsplit_char_None in Hp. by rewrite Hp, Hpath', !(proj2 (is_empty_false _)).
Qed.

(** A parsed URL is accepted only if it is [http://], a nonempty host, a
    nonempty port or none, and a path: what is sent to the server is what the
    URL says. *)
Theorem ParseHttpUrl_sound raw :
  valid (ParseHttpUrl raw) = true →
  let p := ParseHttpUrl raw in
  host p ≠ EmptyString ∧ port p ≠ EmptyString ∧ lacks slash (host p) ∧
  ((∃ r, path p = String slash r ∧ raw = "http://" +:+ host p +:+ String colon (port p) +:+ path p) ∨
   (∃ r, path p = String slash r ∧ port p = "80" ∧ raw = "http://" +:+ host p +:+ path p) ∨
   (path p = "/" ∧ raw = "http://" +:+ host p +:+ String colon (port p)) ∨
   (path p = "/" ∧ port p = "80" ∧ raw = "http://" +:+ host p)).
Proof.
  destruct (starts_with "http://" raw) eqn:Hraw; [|unfold ParseHttpUrl; by rewrite Hraw].
  apply starts_with_spec in Hraw as [rest ->]. rewrite ParseHttpUrl_rest.
  destruct (split_char slash rest) as [[authority after]|] eqn:Hs.
  - apply split_char_Some in Hs as [-> Hl]. destruct (is_empty authority); [done|].
    destruct (rsplit_char colon authority) as [[h p]|] eqn:Hr; simpl; intros Hv; to_prop;
      repeat match goal with H : is_empty _ = false |- _ => apply is_empty_false in H end.
    + apply rsplit_char_Some in Hr as [-> _]. rewrite lacks_app in Hl. destruct Hl as [Hl _].
      split_and!; auto. left. exists after. split; [done|]. by rewrite sapp_assoc, sapp_cons.
    + split_and!; auto. right. left. exists after. auto.
  - apply split_char_None in Hs. destruct (is_empty rest); [done|].
    destruct (rsplit_char colon rest) as [[h p]|] eqn:Hr; simpl; intros Hv; to_prop;
      repeat match goal with H : is_empty _ = false |- _ => apply is_empty_false in H end.
    + apply rsplit_char_Some in Hr as [-> _]. rewrite lacks_app in Hs. destruct Hs as [Hs _].
      split_and!; auto.
    + split_and!; auto 6.
Qed.

(** ** Request bodies *)

(** The body after the prompt. *)
Definition body_tail (temperature : spec_float)
    (cache_prompt stream timings_per_token : bool) : string :=
  "," +:+ json_key "temperature" +:+ ":" +:+ FloatToString temperature +:+
  "," +:+ json_key "stream" +:+ ":" +:+ BoolToJson stream +:+
  "," +:+ json_key "cache_prompt" +:+ ":" +:+ BoolToJson cache_prompt +:+
  "," +:+ json_key "return_tokens" +:+ ":" +:+ BoolToJson timings_per_token +:+
  "," +:+ json_key "timings_per_token" +:+ ":" +:+ BoolToJson timings_per_token +:+ "}".

Lemma request_body_eq prompt max_tokens temperature cache_prompt stream timings :
  BuildLlamaServerRequestBody prompt max_tokens temperature cache_prompt stream timings =
  object_with "prompt" prompt ("," +:+ json_key "n_predict" +:+ ":" +:+ to_string max_tokens +:+
    body_tail temperature cache_prompt stream timings).
Proof. reflexivity. Qed.

(** In a search for another field, the first field of an object is skipped, or
    the search ends with the text of that field. *)
Lemma find_after_text f v tail y :
  plain_field f → starts_with (f +:+ quote) tail = false →
  (∃ x, split_at (json_key f) tail = Some (x, y)) →
  ∃ x z, split_at (json_key f) (JsonStringValue v +:+ tail) = Some (x, z) ∧ (z = tail ∨ z = y).
Proof.
  intros Hf Htail [x0 Hx0]. rewrite JsonStringValue_app.
  destruct (split_at (json_key f) (JsonEscape v +:+ String dquote tail)) as [[x z]|] eqn:Hin.
  - destruct (starts_with (json_key f) (String dquote (JsonEscape v +:+ String dquote tail))) eqn:Hs.
    + pose proof Hs as [r Hr]%starts_with_spec. rewrite Hr, split_at_here.
      change (json_key f) with (String dquote (f +:+ quote)) in *.
      rewrite starts_with_cons in Hs. to_prop. destruct Hf as (_ & Hq & Hb).
      apply escaped_starts_with in H0 as [-> He]; [|done..].
      injection Hr as Hr. rewrite He, sapp_assoc in Hr. apply sapp_inj_l in Hr as [= ->]. eauto.
    + rewrite split_at_skip, Hin by done. simpl. do 2 eexists. split; [done|].
      apply split_at_escaped_end in Hin as [->|[x' Hx']]; auto. right. congruence.
  - exfalso. assert (Hnone : ∀ p, split_at (json_key f) (JsonEscape p +:+ String dquote tail) ≠ None); [|by eapply Hnone].
    clear Hin v. intros p. change (json_key f) with (String dquote (f +:+ quote)) in *.
    assert (Hskip : ∀ c s, split_at (String dquote (f +:+ quote)) s ≠ None →
      split_at (String dquote (f +:+ quote)) (String c s) ≠ None).
    { intros c s Hs. destruct (starts_with (String dquote (f +:+ quote)) (String c s)) eqn:E.
      - apply starts_with_spec in E as [r ->]. by rewrite split_at_here.
      - rewrite split_at_skip by done. by destruct (split_at _ s) as [[]|]. }
    induction (JsonEscape p) as [|c s IH]; [apply Hskip; by rewrite Hx0|apply Hskip, IH].
Qed.

(** The texts of the numbers and of the booleans are literals. *)
Lemma to_string_literal n : all_chars literal_char (to_string n) = true.
Proof.
  eapply all_chars_impl; [|apply to_string_chars]. intros c Hc. unfold literal_char.
  repeat case_bool_decide; simpl; subst; done.
Qed.

Lemma pad_zeros_literal p n : all_chars literal_char (pad_zeros p n) = true.
Proof.
  unfold pad_zeros. induction (p - str_length (to_string n))%nat as [|k IH];
    [apply to_string_literal|]. exact IH.
Qed.

Lemma fixed_digits_literal p n : all_chars literal_char (fixed_digits p n) = true.
Proof.
  unfold fixed_digits. rewrite all_chars_app, to_string_literal. destruct (p =? 0)%nat; [done|].
  rewrite all_chars_app, pad_zeros_literal. done.
Qed.

Lemma fixed_literal p f : all_chars literal_char (fixed p f) = true.
Proof.
  unfold fixed. destruct f as [s|[]| |s m e]; try done; cbv zeta;
    rewrite all_chars_app, fixed_digits_literal; by destruct s.
Qed.

Lemma BoolToJson_literal b : all_chars literal_char (BoolToJson b) = true.
Proof. by destruct b. Qed.

Lemma request_body_decodes prompt max_tokens temperature cache_prompt stream timings :
  json_object (BuildLlamaServerRequestBody prompt max_tokens temperature cache_prompt stream timings) =
  Some [("prompt", text_field prompt);
        ("n_predict", literal_field (to_string max_tokens));
        ("temperature", literal_field (FloatToString temperature));
        ("stream", literal_field (BoolToJson stream));
        ("cache_prompt", literal_field (BoolToJson cache_prompt));
        ("return_tokens", literal_field (BoolToJson timings));
        ("timings_per_token", literal_field (BoolToJson timings))].
Proof.
  rewrite request_body_eq. unfold object_with.
  set (s := json_key "prompt" +:+ _).
  assert (Hs : ∃ k, str_length s = (7 + k)%nat) by (unfold s; simpl; eauto).
  change (json_object ("{" +:+ s)) with (json_members (str_length s) s). destruct Hs as [k ->]. unfold s, body_tail.
  pose proof (λ text rest Ht, json_value_literal text "," rest Ht (or_introl eq_refl)) as Hnext.
  pose proof (λ text Ht, json_value_literal text "}" EmptyString Ht (or_intror eq_refl)) as Hlast.
  simpl plus.
  rewrite (json_members_next _ "prompt" (JsonStringValue prompt) (text_field prompt));
    [|done|apply json_value_text].
  erewrite (json_members_next _ "n_predict"); [|done|apply Hnext, to_string_literal].
  erewrite (json_members_next _ "temperature"); [|done|apply Hnext, fixed_literal].
  erewrite (json_members_next _ "stream"); [|done|apply Hnext, BoolToJson_literal].
  erewrite (json_members_next _ "cache_prompt"); [|done|apply Hnext, BoolToJson_literal].
  erewrite (json_members_next _ "return_tokens"); [|done|apply Hnext, BoolToJson_literal].
  erewrite (json_members_last _ "timings_per_token"); [done|done|apply Hlast, BoolToJson_literal].
Qed.

(** C25: the body of a request says what was asked, for any prompt and any
    settings: a JSON parser reads in it exactly the seven members, the prompt,
    character for character, the token limit, the temperature and the four flags,
    each under its own name; and the project's own reader finds the token limit,
    and the prompt when it has no control characters but newlines, returns and
    tabs. *)
Theorem request_body_reads_back prompt max_tokens temperature cache_prompt stream timings :
  INT_MIN ≤ max_tokens ≤ INT_MAX →
  let body := BuildLlamaServerRequestBody prompt max_tokens temperature cache_prompt stream timings in
  json_object body = Some
    [("prompt", text_field prompt);
     ("n_predict", literal_field (to_string max_tokens));
     ("temperature", literal_field (FloatToString temperature));
     ("stream", literal_field (BoolToJson stream));
     ("cache_prompt", literal_field (BoolToJson cache_prompt));
     ("return_tokens", literal_field (BoolToJson timings));
     ("timings_per_token", literal_field (BoolToJson timings))] ∧
  ExtractJsonIntField body "n_predict" = Some max_tokens ∧
  (all_chars readable prompt = true → ExtractJsonStringField body "prompt" = Some prompt).
Proof.
  intros Hm body. unfold body. split; [apply request_body_decodes|]. rewrite request_body_eq. split.
  2:{ intros Hp. unfold ExtractJsonStringField. rewrite find_first_field, JsonStringValue_app by done.
      simpl. by rewrite read_json_escaped, reread_text. }
  set (number := to_string max_tokens +:+ body_tail temperature cache_prompt stream timings).
  set (t := String colon number).
  assert (Htail : split_at (json_key "n_predict") ("," +:+ json_key "n_predict" +:+ t) = Some (",", t)).
  { rewrite (split_at_no_match _ ",") by done. by rewrite split_at_here. }
  destruct (find_after_text "n_predict" prompt ("," +:+ json_key "n_predict" +:+ t) t)
    as (x & z & Hz & Hor); [by split_and!|done|by eauto|].
  assert (Hcolon : ∃ u, split_char colon z = Some (u, number)).
  { destruct Hor as [-> | ->]; [|by eexists].
    rewrite <- sapp_assoc. eexists. by rewrite (split_char_app_r colon _ t EmptyString number). }
  destruct Hcolon as [u Hu]. unfold ExtractJsonIntField, find_json_value, object_with.
  change ("{" +:+ json_key "prompt" +:+ ":" +:+ ?s) with (("{" +:+ json_key "prompt" +:+ ":") +:+ s).
  rewrite split_at_no_match by reflexivity.
  change (":" +:+ number) with t. rewrite Hz. simpl. rewrite Hu. simpl.
  rewrite strtol_skip. unfold number. rewrite strtol_to_string; [|unfold LONG_MIN, LONG_MAX, INT_MIN, INT_MAX in *; lia|done].
  simpl. f_equal. by apply to_int_id.
Qed.

(** ** Witnesses *)

Lemma ParseHttpUrl_parses_witness :
  ParseHttpUrl (url_text "::1" (Some "8081") "/completion") = mkParsedHttpUrl true "::1" "8081" "/completion".
Proof.
  apply (ParseHttpUrl_parses "::1" (Some "8081") "/completion"); [done|done|by split_and!|].
  right. by exists "completion".
Defined.

Lemma ParseHttpUrl_sound_witness :
  valid (ParseHttpUrl "http://llama:8080") = true ∧ lacks slash (host (ParseHttpUrl "http://llama:8080")).
Proof. split; [reflexivity|]. apply (ParseHttpUrl_sound "http://llama:8080"). reflexivity. Defined.

(** The prompt names the field that is looked for. *)
Lemma request_body_reads_back_witness :
  ExtractJsonIntField
    (BuildLlamaServerRequestBody "n_predict" 128 (Float32.literal 8 1) true true false) "n_predict" = Some 128.
Proof. apply request_body_reads_back. unfold INT_MIN, INT_MAX. lia. Defined.
