(* ===== verification/LlamaStream.v ===== *)
(** * Theorems on the event stream of the llama.cpp server

    Whatever the pieces in which a body arrives, the streaming reader ends with
    the completion that the whole-body reader computes, and the deltas it emits
    add up to the content. *)
From Stdlib Require Import Strings.Ascii.
From stdpp Require Import prelude gmap strings list.
From S2P Require Import Prelude CxxText CxxTextProps Json JsonProps Backend.
From S2P Require Import LlamaProtocol LlamaProtocolProps.

(** ** Lines *)

(** The complete lines of a text, after a first piece of line, and the rest. *)
Fixpoint cut_lines (line s : string) : list string * string :=
  match s with
  | EmptyString => ([], line)
  | String c r =>
      if bool_decide (c = newline)
      then let '(ls, rest) := cut_lines EmptyString r in (line :: ls, rest)
      else cut_lines (line +:+ char c) r
  end.

Lemma cut_lines_app line a b :
  cut_lines line (a +:+ b) =
    let '(ls, rest) := cut_lines line a in
    let '(ls', rest') := cut_lines rest b in (ls ++ ls', rest').
Proof.
  revert line. induction a as [|c a IH]; intros line; simpl; [by destruct (cut_lines line b)|].
  case_bool; rewrite IH; [|done]. destruct (cut_lines EmptyString a) as [ls rest].
  by destruct (cut_lines rest b).
Qed.

Lemma getlines_cut line s :
  getlines line s = let '(ls, rest) := cut_lines line s in ls ++ (if is_empty rest then [] else [rest]).
Proof.
  revert line. induction s as [|c s IH]; intros line; simpl; [done|].
  case_bool; rewrite IH; [|done]. by destruct (cut_lines EmptyString s).
Qed.

Lemma cut_lines_lacks line s : lacks newline line → lacks newline (cut_lines line s).2.
Proof.
  revert line. induction s as [|c s IH]; intros line Hl; simpl; [done|].
  case_bool_decide as Hc.
  - specialize (IH EmptyString). destruct (cut_lines EmptyString s). by apply IH.
  - apply IH. rewrite lacks_app. split; [done|]. by apply lacks_cons.
Qed.

Lemma cut_lines_none line s : lacks newline s → cut_lines line s = ([], line +:+ s).
Proof.
  revert line. induction s as [|c s IH]; intros line; simpl; [by rewrite sapp_nil_r|].
  rewrite lacks_cons. intros [Hc Hl]. rewrite bool_decide_false by done.
  by rewrite IH, sapp_assoc.
Qed.

Lemma cut_lines_split line s a b :
  split_char newline s = Some (a, b) →
  cut_lines line s = let '(ls, rest) := cut_lines EmptyString b in ((line +:+ a) :: ls, rest).
Proof.
  intros [-> Hl]%split_char_Some. rewrite cut_lines_app, cut_lines_none by done. simpl.
  by destruct (cut_lines EmptyString b).
Qed.

(** ** A reader whose callback always accepts *)

Section Accepting.
Context {W : Type} (emit : BackendStreamEvent → M W bool).
Context (Hemit : ∀ e w, ∃ w', emit e w = Some (true, w')).

(** Both readers do the same to the completion at each line. *)
Lemma consume_line_completion line st w :
  ∃ st' w', consume_line emit line st w = Some ((true, st'), w') ∧
    completion st' = completion_line (completion st) line ∧ pending_line st' = pending_line st.
Proof using Hemit.
  unfold consume_line, completion_line. set (l := TrimWhitespace line).
  destruct (negb (starts_with "data:" l)); [by repeat econstructor|].
  set (data := TrimWhitespace (drop_chars 5 l)).
  destruct (is_empty data); [by repeat econstructor|]. simpl.
  unfold MergeLlamaServerJsonChunk, ParseLlamaServerChunk.
  rewrite (TrimWhitespace_id data) by apply TrimWhitespace_trimmed.
  destruct (bool_decide (data = "[DONE]")) eqn:Hd; simpl; [by repeat econstructor|].
  destruct (bool_decide (is_Some _)); simpl; [|by repeat econstructor].
  match goal with |- context [emit ?e] => destruct (Hemit e w) as [w' Hw] end.
  unfold and_then. rewrite Hw. by repeat econstructor.
Qed.

Lemma consume_lines_completion fuel st w :
  (str_length (pending_line st) < fuel)%nat →
  ∃ st' w', consume_lines emit fuel st w = Some ((true, st'), w') ∧
    let '(ls, rest) := cut_lines EmptyString (pending_line st) in
    completion st' = foldl completion_line (completion st) ls ∧ pending_line st' = rest.
Proof using Hemit.
  revert st w. induction fuel as [|fuel IH]; intros st w Hf; [lia|]. simpl.
  destruct (split_char newline (pending_line st)) as [[line rest]|] eqn:Hs.
  - rewrite (cut_lines_split EmptyString _ _ _ Hs).
    destruct (consume_line_completion line (mkStreamState (completion st) rest (token_index st)) w)
      as (st1 & w1 & Hrun & Hc & Hp). unfold and_then. rewrite Hrun. simpl in *.
    apply split_char_Some in Hs as [Hs _]. rewrite Hs, str_length_app in Hf. simpl in Hf.
    destruct (IH st1 w1) as (st2 & w2 & Hrun2 & Hfin); [rewrite Hp; lia|].
    exists st2, w2. split; [done|]. rewrite Hp, Hc in Hfin.
    by destruct (cut_lines EmptyString rest).
  - apply split_char_None in Hs. rewrite cut_lines_none by done. exists st, w. done.
Qed.

(** The pieces of a body, one after the other. *)
Fixpoint feed (pieces : list string) (st : StreamState) : M W (bool * StreamState) :=
  match pieces with
  | [] => done_with (true, st)
  | piece :: rest =>
      let* '(go_on, st) := on_body emit piece st in
      if negb go_on then done_with (false, st) else feed rest st
  end.

Definition stream_body (pieces : list string) : M W (bool * StreamState) :=
  let* '(go_on, st) := feed pieces initial_stream in
  if negb go_on then done_with (false, st) else finish_stream emit st.

Lemma cut_pending line s : lacks newline line → cut_lines EmptyString (line +:+ s) = cut_lines line s.
Proof.
  intros Hl. rewrite cut_lines_app, cut_lines_none by done. simpl. by destruct (cut_lines line s).
Qed.

Lemma feed_completion pieces st w :
  lacks newline (pending_line st) →
  ∃ st' w', feed pieces st w = Some ((true, st'), w') ∧
    let '(ls, rest) := cut_lines (pending_line st) (foldr String.append EmptyString pieces) in
    completion st' = foldl completion_line (completion st) ls ∧ pending_line st' = rest.
Proof using Hemit.
  revert st w. induction pieces as [|piece pieces IH]; intros st w Hl; simpl.
  { exists st, w. done. }
  unfold on_body.
  set (st0 := mkStreamState (completion st) (pending_line st +:+ piece) (token_index st)).
  destruct (consume_lines_completion (S (str_length (pending_line st +:+ piece))) st0 w)
    as (st1 & w1 & Hrun & Hcut); [simpl; lia|].
  unfold and_then. rewrite Hrun. simpl negb. cbv iota.
  simpl in Hcut. rewrite cut_pending in Hcut by done.
  pose proof (cut_lines_lacks _ piece Hl) as Hl1.
  rewrite cut_lines_app. destruct (cut_lines (pending_line st) piece) as [ls1 rest1].
  destruct Hcut as [Hc1 Hp1]. simpl in Hl1.
  destruct (IH st1 w1) as (st2 & w2 & Hrun2 & Hcut2); [congruence|].
  exists st2, w2. split; [done|]. rewrite Hp1, Hc1 in Hcut2.
  destruct (cut_lines rest1 _) as [ls2 rest2]. by rewrite foldl_app.
Qed.

(** C11: the two readers agree: whatever the pieces in which a body arrives, cut
    anywhere, the streaming reader ends with the completion that
    [ParseLlamaServerCompletion] computes from the whole body. *)
Theorem stream_agrees_with_body pieces w :
  ∃ st w', stream_body pieces w = Some ((true, st), w') ∧
    completion st = ParseLlamaServerCompletion (foldr String.append EmptyString pieces) true.
Proof using Hemit.
  unfold stream_body, ParseLlamaServerCompletion. simpl.
  destruct (feed_completion pieces initial_stream w) as (st & w1 & Hrun & Hcut); [done|].
  unfold and_then. rewrite Hrun. simpl negb. cbv iota. rewrite getlines_cut.
  simpl in Hcut. destruct (cut_lines EmptyString _) as [ls rest]. destruct Hcut as [Hc Hp].
  unfold finish_stream. rewrite Hp. destruct (is_empty rest).
  - exists st, w1. by rewrite app_nil_r, Hc.
  - destruct (consume_line_completion rest
      (mkStreamState (completion st) EmptyString (token_index st)) w1) as (st2 & w2 & Hrun2 & Hc2 & _).
    exists st2, w2. split; [exact Hrun2|]. rewrite Hc2, foldl_app, Hc. done.
Qed.
End Accepting.

(** ** What the callback sees *)

Definition deltas (log : list BackendStreamEvent) : string :=
  foldr String.append EmptyString (delta <$> log).

Lemma deltas_app l k : deltas (l ++ k) = deltas l +:+ deltas k.
Proof.
  unfold deltas. rewrite fmap_app. induction (delta <$> l) as [|d ds IH]; simpl; [done|].
  by rewrite IH, sapp_assoc.
Qed.

(** The events so far are the tokens of the content, numbered from 0. *)
Record log_ok (st : StreamState) (log : list BackendStreamEvent) : Prop := mk_log_ok {
  lo_content : content (completion st) = deltas log;
  lo_index : token_index st = zlen log;
  lo_events : ∀ n e, log !! n = Some e →
    event_type e = "token" ∧ metadata e !! "token_index" = Some (to_string (Z.of_nat n)) ∧
    metadata e !! "delta_chars" = Some (to_string (size_of (delta e)));
}.

(** A world in which the events that were emitted can be seen. *)
Section Events.
Context {W : Type} (emit : BackendStreamEvent → M W bool) (events : W → list BackendStreamEvent).
Context (Hemit : ∀ e w b w', emit e w = Some (b, w') → events w' = events w ++ [e]).

Lemma consume_line_log line st w go st' w' :
  consume_line emit line st w = Some ((go, st'), w') →
  log_ok st (events w) → log_ok st' (events w').
Proof using Hemit.
  unfold consume_line. intros Hrun [Hc Hi He].
  destruct (negb (starts_with _ _)); [by injection Hrun as <- <- <-|].
  destruct (is_empty _); [by injection Hrun as <- <- <-|].
  destruct (chunk_done _); [by injection Hrun as <- <- <-|].
  destruct (negb (has_content _)); [by injection Hrun as <- <- <-|].
  apply and_then_Some in Hrun as (b & w1 & Hrun%Hemit & Hdone). injection Hdone as <- <- <-.
  rewrite Hrun. constructor; simpl.
  - rewrite Hc, deltas_app. unfold deltas at 3. simpl. by rewrite sapp_nil_r.
  - rewrite length_app, Hi. simpl. lia.
  - intros n e [Hn|[Hlen Hn]]%lookup_app_Some; [by apply He|].
    apply list_lookup_singleton_Some in Hn as [Hn <-].
    assert (n = length (events w)) as -> by lia. by rewrite <- Hi.
Qed.

Lemma consume_lines_log fuel st w go st' w' :
  consume_lines emit fuel st w = Some ((go, st'), w') →
  log_ok st (events w) → log_ok st' (events w').
Proof using Hemit.
  revert st w. induction fuel as [|fuel IH]; intros st w; simpl; [done|].
  destruct (split_char newline (pending_line st)) as [[line rest]|].
  - intros Hrun Hok. apply and_then_Some in Hrun as ([go1 st1] & w1 & Hline & Hrun).
    apply consume_line_log in Hline; [|by destruct Hok; constructor].
    destruct (negb go1); [by injection Hrun as <- <- <-|eauto].
  - by intros [= <- <- <-].
Qed.

Lemma on_body_log data st w go st' w' :
  on_body emit data st w = Some ((go, st'), w') → log_ok st (events w) → log_ok st' (events w').
Proof using Hemit.
  intros Hrun Hok. apply consume_lines_log in Hrun; [done|]. by destruct Hok; constructor.
Qed.

Lemma finish_stream_log st w go st' w' :
  finish_stream emit st w = Some ((go, st'), w') → log_ok st (events w) → log_ok st' (events w').
Proof using Hemit.
  unfold finish_stream. intros Hrun Hok. destruct (is_empty _); [by injection Hrun as <- <- <-|].
  eapply consume_line_log; [exact Hrun|]. by destruct Hok; constructor.
Qed.

Lemma feed_log pieces st w go st' w' :
  feed emit pieces st w = Some ((go, st'), w') → log_ok st (events w) → log_ok st' (events w').
Proof using Hemit.
  revert st w. induction pieces as [|piece pieces IH]; intros st w; simpl; [by intros [= <- <- <-]|].
  intros Hrun Hok. apply and_then_Some in Hrun as ([go1 st1] & w1 & Hbody & Hrun).
  apply on_body_log in Hbody; [|done].
  destruct (negb go1); [by injection Hrun as <- <- <-|eauto].
Qed.

(** The events that reach the client are numbered tokens whose deltas, put
    together, are the content read so far, whether or not the client stops. *)
Theorem stream_events_are_content pieces go st w w' :
  events w = [] → stream_body emit pieces w = Some ((go, st), w') →
  content (completion st) = deltas (events w') ∧
  ∀ n e, events w' !! n = Some e →
    event_type e = "token" ∧ metadata e !! "token_index" = Some (to_string (Z.of_nat n)) ∧
    metadata e !! "delta_chars" = Some (to_string (size_of (delta e))).
Proof using Hemit.
  unfold stream_body. intros Hw Hrun.
  assert (Hok : log_ok st (events w')); [|by destruct Hok].
  apply and_then_Some in Hrun as ([go1 st1] & w1 & Hfeed & Hrun).
  apply feed_log in Hfeed; [|rewrite Hw; by constructor].
  destruct (negb go1); [by injection Hrun as <- <- <-|]. by apply finish_stream_log in Hrun.
Qed.
End Events.

(** ** Witnesses *)

(** A callback that records the events, and accepts the [n]-th or not. *)
Definition record_event (accepts : nat → bool) (e : BackendStreamEvent)
    : M (list BackendStreamEvent) bool :=
  λ log, Some (accepts (length log), log ++ [e]).

Definition chunk_line (text : string) : string :=
  "data: " +:+ object_with "content" text "}" +:+ char newline.

(** Two chunks in three pieces, the last line unfinished. *)
Definition demo_pieces : list string :=
  ["data: {"; json_key "content" +:+ ":" +:+ JsonStringValue "a b" +:+ "}" +:+ char newline +:+ "da";
   "ta: " +:+ object_with "content" "c" "}"].

Lemma record_accepts e (log : list BackendStreamEvent) :
  ∃ log', record_event (λ _, true) e log = Some (true, log').
Proof. by eexists. Qed.

Lemma stream_agrees_with_body_witness :
  ∃ st log, stream_body (record_event (λ _, true)) demo_pieces [] = Some ((true, st), log) ∧
    content (completion st) = "a bc".
Proof.
  destruct (stream_agrees_with_body (record_event (λ _, true)) record_accepts demo_pieces [])
    as (st & log & Hrun & Hc).
  exists st, log. split; [exact Hrun|]. rewrite Hc. vm_compute. reflexivity.
Defined.

Lemma record_events accepts e log b log' :
  record_event accepts e log = Some (b, log') → log' = log ++ [e].
Proof. by intros [= _ <-]. Qed.

Lemma stream_events_are_content_witness :
  ∃ st log, stream_body (record_event (λ n, (n =? 0)%nat)) demo_pieces [] = Some ((false, st), log) ∧
    content (completion st) = deltas log.
Proof.
  assert (Hdemo : ∃ st log,
    stream_body (record_event (λ n, (n =? 0)%nat)) demo_pieces [] = Some ((false, st), log))
    by (do 2 eexists; vm_compute; reflexivity).
  destruct Hdemo as (st & log & Hrun). exists st, log. split; [exact Hrun|].
  exact (proj1 (stream_events_are_content _ (λ log, log) (record_events _) _ _ _ _ _ eq_refl Hrun)).
Defined.
