(* ===== verification/Http.v ===== *)
(** * The HTTP client

    [HttpPostJson] and [HttpPostJsonStream] of
    [src/backend/inference_backend.cc] over the socket calls of the operating
    system, which are operations of the world.  Loops that wait for a peer have
    fuel. *)
From Stdlib Require Import Strings.Ascii.
From stdpp Require Import prelude gmap strings list.
From S2P Require Import Prelude CxxText Backend LlamaProtocol.

(** ** The operating system *)

Class Sockets (W : Type) `{Files W} := {
  (** a [struct addrinfo] *)
  Addr : Type;
  (** [getaddrinfo] of a host and a port: its result and the list it allocates *)
  getaddrinfo : string → string → W → (Z * list Addr) * W;
  freeaddrinfo : list Addr → W → unit * W;
  socket : Addr → W → Z * W;
  connect : Z → Addr → W → Z * W;
  (** [poll] of one descriptor for [POLLOUT] *)
  poll_writable : Z → Z → W → Z * W;
  (** [getsockopt] of [SO_ERROR]: its result and the error *)
  getsockopt_error : Z → W → (Z * Z) * W;
  (** [setsockopt] of [SO_RCVTIMEO] ([true]) or [SO_SNDTIMEO] ([false]), with
      the seconds and the microseconds *)
  setsockopt_timeout : Z → bool → Z → Z → W → Z * W;
  send : Z → string → W → Z * W;
  (** [recv] into a buffer of the given size: its result and the buffer *)
  recv : Z → Z → W → (Z * string) * W;
}.

Definition EINPROGRESS : Z := 115.

Record HttpResponse := mkHttpResponse {
  response_ok : bool;
  status_code : Z;
  first_response_byte_micros : Z;
  body : string;
  error : string;
}.

(** [HttpResponse{}] *)
Definition empty_response : HttpResponse := mkHttpResponse false 0 (-1) EmptyString EmptyString.

Definition set_error (msg : string) (r : HttpResponse) : HttpResponse :=
  mkHttpResponse (response_ok r) (status_code r) (first_response_byte_micros r) (body r) msg.
Definition set_first_byte (micros : Z) (r : HttpResponse) : HttpResponse :=
  mkHttpResponse (response_ok r) (status_code r) micros (body r) (error r).
Definition set_status (ok : bool) (code : Z) (r : HttpResponse) : HttpResponse :=
  mkHttpResponse ok code (first_response_byte_micros r) (body r) (error r).
Definition set_body (text : string) (r : HttpResponse) : HttpResponse :=
  mkHttpResponse (response_ok r) (status_code r) (first_response_byte_micros r) text (error r).

(** ** Text of requests and responses *)

Definition request_text (url : ParsedHttpUrl) (body : string) : string :=
  "POST " +:+ path url +:+ " HTTP/1.1" +:+ crlf +:+
  "Host: " +:+ host url +:+ ":" +:+ port url +:+ crlf +:+
  "Content-Type: application/json" +:+ crlf +:+
  "Content-Length: " +:+ to_string (size_of body) +:+ crlf +:+
  "Connection: close" +:+ crlf +:+ crlf +:+ body.

(** [stream >> word]: the word, empty at the end of the text, and what follows. *)
Fixpoint take_word (s : string) : string * string :=
  match s with
  | String c r => if isspace c then (EmptyString, s)
                  else let '(w, rest) := take_word r in (String c w, rest)
  | EmptyString => (EmptyString, EmptyString)
  end.

(** [status_stream >> http_version >> status_code] on the status line. *)
Definition read_status (line : string) : Z :=
  let '(version, rest) := take_word (skip_spaces line) in
  if is_empty version then 0
  else match strtol rest with Some (n, _) => clamp n INT_MIN INT_MAX | None => 0 end.

(** The status line of a response with headers. *)
Definition status_line (raw : string) : string :=
  match split_at crlf raw with Some (line, _) => line | None => raw end.

Definition is_success (code : Z) : bool := (200 <=? code) && (code <? 300).

Definition http_error (code : Z) : string := "llama server returned HTTP " +:+ to_string code.

(** The last part of [HttpPostJson]: the response, from all that was received. *)
Definition parse_response (raw : string) (response : HttpResponse) : HttpResponse :=
  match split_at (crlf +:+ crlf) raw with
  | None => set_error "llama server response was missing HTTP headers" response
  | Some (_, text) =>
      let code := read_status (status_line raw) in
      let response := set_body text (set_status (is_success code) code response) in
      if negb (response_ok response) then set_error (http_error code) response else response
  end.

Section Client.
Context {W : Type} `{Host W} `{Sockets W}.

Definition SetSocketTimeout (fd timeout_ms : Z) : M W bool :=
  let sec := Z.quot timeout_ms 1000 in
  let usec := Z.rem timeout_ms 1000 * 1000 in
  let* rc := ask (setsockopt_timeout fd true sec usec) in
  if negb (rc =? 0) then done_with false
  else let* rc := ask (setsockopt_timeout fd false sec usec) in done_with (rc =? 0).

Definition ConnectWithTimeout (fd : Z) (addr : Addr) (timeout_ms : Z) : M W bool :=
  let* flags := ask (fcntl_getfl fd) in
  if flags <? 0 then done_with false
  else
    let* rc := ask (fcntl_setfl fd (Z.lor flags O_NONBLOCK)) in
    if rc <? 0 then done_with false
    else
      let* rc := ask (connect fd addr) in
      if rc =? 0 then let* _ := ask (fcntl_setfl fd flags) in done_with true
      else
        let* err := ask (λ w, (errno w, w)) in
        if negb (err =? EINPROGRESS) then done_with false
        else
          let* poll_result := ask (poll_writable fd timeout_ms) in
          if poll_result <=? 0 then done_with false
          else
            let* '(rc, socket_error) := ask (getsockopt_error fd) in
            if negb (rc =? 0) || negb (socket_error =? 0) then done_with false
            else let* _ := ask (fcntl_setfl fd flags) in done_with true.

(** The loop over the addresses: [None] when it is cancelled, else [fd]. *)
Fixpoint connect_any (timeout_ms fd : Z) (addresses : list Addr) : M W (option Z) :=
  match addresses with
  | [] => done_with (Some fd)
  | address :: rest =>
      let* cancelled := ask is_cancelled in
      if cancelled then done_with None
      else
        let* fd := ask (socket address) in
        if fd <? 0 then connect_any timeout_ms fd rest
        else
          let* connected := ConnectWithTimeout fd address timeout_ms in
          if connected then done_with (Some fd)
          else let* _ := ask (close fd) in connect_any timeout_ms (-1) rest
  end.

(** The first half of both clients, up to a connected socket: an error, or the
    descriptor. *)
Definition open_connection (url : ParsedHttpUrl) (timeout_ms : Z) : M W (string + Z) :=
  let* '(gai, addresses) := ask (getaddrinfo (host url) (port url)) in
  if negb (gai =? 0)
  then done_with (inl ("getaddrinfo failed for " +:+ host url +:+ ":" +:+ port url))
  else
    let* connected := connect_any timeout_ms (-1) addresses in
    let* _ := ask (freeaddrinfo addresses) in
    match connected with
    | None => done_with (inl "cancelled")
    | Some fd =>
        if fd <? 0
        then done_with (inl ("failed to connect to llama server at " +:+ host url +:+ ":" +:+ port url))
        else let* _ := SetSocketTimeout fd timeout_ms in done_with (inr fd)
    end.

(** The sending loop, on the text still to send: an error or none. *)
Fixpoint send_all (fuel : nat) (fd : Z) (remaining : string) : M W (option string) :=
  match fuel with
  | O => undefined
  | S fuel =>
      if is_empty remaining then done_with None
      else
        let* cancelled := ask is_cancelled in
        if cancelled then done_with (Some "cancelled")
        else
          let* bytes := ask (send fd remaining) in
          if bytes <=? 0 then done_with (Some "failed to send request to llama server")
          else send_all fuel fd (drop_chars (Z.to_nat bytes) remaining)
  end.

(** [first_response_byte_micros] at the first bytes received *)
Definition note_first_byte (started : Z) (response : HttpResponse) : M W HttpResponse :=
  if first_response_byte_micros response <? 0 then
    let* now := ask steady_now in
    done_with (set_first_byte (elapsed_micros started now) response)
  else done_with response.

Definition max_response : Z := 1024 * 1024.

(** The receiving loop of [HttpPostJson]: the response, with an error when the
    loop returns, and what was received. *)
Fixpoint recv_all (fuel : nat) (fd started : Z) (raw : string) (response : HttpResponse)
    : M W (bool * string * HttpResponse) :=
  match fuel with
  | O => undefined
  | S fuel =>
      let* cancelled := ask is_cancelled in
      if cancelled then done_with (false, raw, set_error "cancelled" response)
      else
        let* '(bytes, buffer) := ask (recv fd 4096) in
        if 0 <? bytes then
          let* response := note_first_byte started response in
          let raw := raw +:+ take_chars (Z.to_nat bytes) buffer in
          if max_response <? size_of raw
          then done_with (false, raw, set_error "llama server response exceeded 1 MiB" response)
          else recv_all fuel fd started raw response
        else if bytes =? 0 then done_with (true, raw, response)
        else
          let* err := ask (λ w, (errno w, w)) in
          if err =? EINTR then recv_all fuel fd started raw response
          else done_with
            (false, raw, set_error "failed to read response from llama server" response)
  end.

Definition HttpPostJson (fuel : nat) (url : ParsedHttpUrl) (text : string) (timeout_ms : Z)
    : M W HttpResponse :=
  let* started := ask steady_now in
  let* connection := open_connection url timeout_ms in
  match connection with
  | inl msg => done_with (set_error msg empty_response)
  | inr fd =>
      let request := request_text url text in
      let* failed := send_all (S (str_length request)) fd request in
      match failed with
      | Some msg =>
          let* _ := ask (close fd) in done_with (set_error msg empty_response)
      | None =>
          let* '(complete, raw, response) := recv_all fuel fd started EmptyString empty_response in
          let* _ := ask (close fd) in
          done_with (if negb complete then response else parse_response raw response)
      end
  end.

(** ** The streaming client *)

(** The variables of the receiving loop, [St] being what [on_body] captures. *)
Record StreamLoop (St : Type) := mkStreamLoop {
  headers_parsed : bool;
  buffered : string;
  loop_response : HttpResponse;
  captured : St;
}.
#[global] Arguments mkStreamLoop {St} _ _ _ _.
#[global] Arguments headers_parsed {St} _.
#[global] Arguments buffered {St} _.
#[global] Arguments loop_response {St} _.
#[global] Arguments captured {St} _.

Definition with_response {St} (r : HttpResponse) (l : StreamLoop St) : StreamLoop St :=
  mkStreamLoop (headers_parsed l) (buffered l) r (captured l).

Section Stream.
Context {St : Type} (on_body : string → St → M W (bool * St)).

(** A call of [on_body]: whether the loop goes on. *)
Definition deliver (text : string) (l : StreamLoop St) : M W (bool * StreamLoop St) :=
  let* '(go_on, s) := on_body text (captured l) in
  let l := mkStreamLoop (headers_parsed l) (buffered l) (loop_response l) s in
  done_with (go_on, if go_on then l else with_response (set_error "cancelled" (loop_response l)) l).

(** The bytes of one [recv], before the headers are complete. *)
Definition receive_headers (data : string) (l : StreamLoop St) : M W (bool * StreamLoop St) :=
  let text := buffered l +:+ data in
  match split_at (crlf +:+ crlf) text with
  | None =>
      let l := mkStreamLoop false text (loop_response l) (captured l) in
      done_with
        (if 64 * 1024 <? size_of text
         then (false, with_response
                 (set_error "llama server response headers exceeded 64 KiB" (loop_response l)) l)
         else (true, l))
  | Some (_, piece) =>
      let code := read_status (status_line text) in
      let response := set_status (is_success code) code (loop_response l) in
      let l := mkStreamLoop true EmptyString response (captured l) in
      if is_empty piece then done_with (true, l)
      else if response_ok response then deliver piece l
      else done_with (true, with_response (set_body (body response +:+ piece) response) l)
  end.

(** The bytes of one [recv], after the headers. *)
Definition receive_body (data : string) (l : StreamLoop St) : M W (bool * StreamLoop St) :=
  let response := loop_response l in
  if response_ok response then deliver data l
  else
    let response := set_body (body response +:+ data) response in
    done_with
      (if max_response <? size_of (body response)
       then (false, with_response (set_error "llama server response exceeded 1 MiB" response) l)
       else (true, with_response response l)).

(** The receiving loop of [HttpPostJsonStream]: whether it ended at the end of
    the stream. *)
Fixpoint recv_stream (fuel : nat) (fd started : Z) (l : StreamLoop St)
    : M W (bool * StreamLoop St) :=
  match fuel with
  | O => undefined
  | S fuel =>
      let* cancelled := ask is_cancelled in
      if cancelled
      then done_with (false, with_response (set_error "cancelled" (loop_response l)) l)
      else
        let* '(bytes, buffer) := ask (recv fd 4096) in
        if 0 <? bytes then
          let* response := note_first_byte started (loop_response l) in
          let l := with_response response l in
          let data := take_chars (Z.to_nat bytes) buffer in
          let* '(go_on, l) :=
            if negb (headers_parsed l) then receive_headers data l else receive_body data l in
          if negb go_on then done_with (false, l) else recv_stream fuel fd started l
        else if bytes =? 0 then done_with (true, l)
        else
          let* err := ask (λ w, (errno w, w)) in
          if err =? EINTR then recv_stream fuel fd started l
          else done_with (false, with_response
                 (set_error "failed to read response from llama server" (loop_response l)) l)
  end.

(** The last lines of [HttpPostJsonStream]. *)
Definition stream_response (l : StreamLoop St) : HttpResponse :=
  if negb (headers_parsed l)
  then set_error "llama server response was missing HTTP headers" (loop_response l)
  else if negb (response_ok (loop_response l))
  then set_error (http_error (status_code (loop_response l))) (loop_response l)
  else loop_response l.

Definition HttpPostJsonStream (fuel : nat) (url : ParsedHttpUrl) (text : string)
    (timeout_ms : Z) (s : St) : M W (HttpResponse * St) :=
  let* started := ask steady_now in
  let* connection := open_connection url timeout_ms in
  match connection with
  | inl msg => done_with (set_error msg empty_response, s)
  | inr fd =>
      let request := request_text url text in
      let* failed := send_all (S (str_length request)) fd request in
      match failed with
      | Some msg =>
          let* _ := ask (close fd) in done_with (set_error msg empty_response, s)
      | None =>
          let* '(complete, l) :=
            recv_stream fuel fd started (mkStreamLoop false EmptyString empty_response s) in
          let* _ := ask (close fd) in
          done_with (if negb complete then loop_response l else stream_response l, captured l)
      end
  end.
End Stream.
End Client.
