(* ===== verification/HttpTheorems.v ===== *)
(** * What the HTTP client promises

    The outcome of a request, the framing of what is sent, the end of the loops,
    and the agreement of the two clients on what they receive. *)
From Stdlib Require Import Strings.Ascii.
From stdpp Require Import prelude gmap strings list.
From S2P Require Import Prelude CxxText CxxTextProps Backend LlamaProtocol LlamaProtocolProps Http.

(** ** Searching in a growing text *)

Lemma split_at_app_r c p s t a b :
  split_at (String c p) s = Some (a, b) → split_at (String c p) (s +:+ t) = Some (a, b +:+ t).
Proof.
  revert a. induction s as [|d s IH]; intros a Hs; [done|].
  destruct (starts_with (String c p) (String d s)) eqn:E.
  - apply starts_with_spec in E as [r Hr]. rewrite Hr in *. rewrite split_at_here in Hs.
    injection Hs as <- <-. by rewrite sapp_assoc, split_at_here.
  - rewrite split_at_skip in Hs by done.
    destruct (split_at (String c p) s) as [[a' b']|] eqn:Hs'; [|done]. simpl in Hs.
    injection Hs as <- <-. specialize (IH a' eq_refl). rewrite sapp_cons.
    destruct (starts_with (String c p) (String d (s +:+ t))) eqn:E2.
    + exfalso. apply split_at_nonempty in Hs'. apply starts_with_spec in E2 as [r Hr].
      assert (Hlen : (str_length (String c p) ≤ str_length (String d s))%nat).
      { rewrite Hs'. simpl. rewrite !str_length_app. simpl. rewrite ?str_length_app. lia. }
      apply not_true_iff_false in E. apply E, starts_with_spec. exists (drop_chars (str_length (String c p)) (String d s)).
      clear -Hr Hlen. revert Hr Hlen. rewrite <- sapp_cons. generalize (String c p) (String d s).
      intros x. induction x as [|e x IHx]; intros [|f y]; simpl; try done; [lia|].
      intros [= <- Hr] Hlen. f_equal. apply IHx; [done|lia].
    + by rewrite split_at_skip, IH by done.
Qed.

Lemma split_at_found c p a b : split_at (String c p) (a +:+ String c p +:+ b) ≠ None.
Proof.
  induction a as [|d a IH]; [by rewrite sapp_nil_l, split_at_here|]. rewrite sapp_cons.
  destruct (starts_with (String c p) (String d (a +:+ String c p +:+ b))) eqn:E.
  - apply starts_with_spec in E as [r ->]. by rewrite split_at_here.
  - rewrite split_at_skip by done. by destruct (split_at _ (a +:+ _)) as [[]|].
Qed.

Lemma sapp_prefix (a b x y : string) :
  a +:+ b = x +:+ y → (str_length a ≤ str_length x)%nat → ∃ e, x = a +:+ e ∧ b = e +:+ y.
Proof.
  revert x. induction a as [|c a IH]; intros x; simpl; [intros ->; by exists x|].
  destruct x as [|d x]; simpl; [lia|]. intros [= -> Heq] Hl.
  destruct (IH x Heq) as (e & -> & ->); [lia|]. by exists e.
Qed.

(** A separator that is not yet complete is near the end. *)
Lemma split_at_later c p s t a b :
  split_at (String c p) s = None → split_at (String c p) (s +:+ t) = Some (a, b) →
  (str_length s < str_length a + str_length (String c p))%nat.
Proof.
  intros Hs Ht%split_at_nonempty. apply Nat.nle_gt. intros Hle.
  rewrite <- sapp_assoc in Ht. symmetry in Ht. apply sapp_prefix in Ht as (e & Hse & _).
  - apply (split_at_found c p a e). by rewrite <- sapp_assoc, <- Hse.
  - rewrite str_length_app. done.
Qed.

(** ** Outcomes *)

(** A response that is accepted has a status of success and no error; any other
    says what went wrong. *)
Definition outcome_ok (r : HttpResponse) : Prop :=
  if response_ok r then is_success (status_code r) = true ∧ error r = EmptyString
  else error r ≠ EmptyString.

Lemma parse_response_outcome raw r :
  response_ok r = false → error r = EmptyString → outcome_ok (parse_response raw r).
Proof.
  intros Hok Herr. unfold parse_response, outcome_ok.
  destruct (split_at _ raw) as [[head text]|]; simpl; [|by rewrite Hok].
  destruct (is_success _) eqn:E; simpl; [done|]. by unfold http_error.
Qed.

(** What changes in a response while it is received. *)
Definition later_response (r r' : HttpResponse) : Prop := ∃ t, r' = set_first_byte t r.

Section Outcome.
Context {W : Type} `{Host W} `{Sockets W}.

Lemma note_first_byte_later started r w :
  ∃ r' w', note_first_byte started r w = Some (r', w') ∧ later_response r r'.
Proof.
  unfold note_first_byte, and_then, ask, done_with. case_bool; [|destruct r; by repeat econstructor].
  destruct (steady_now w) as [now w']. by repeat econstructor.
Qed.

Lemma open_connection_error url timeout w msg w' :
  open_connection url timeout w = Some (inl msg, w') → msg ≠ EmptyString.
Proof.
  unfold open_connection. rewrite and_then_Some. intros ([gai l] & w1 & _ & Hrun).
  destruct (negb _); [by injection Hrun as <- <-|].
  apply and_then_Some in Hrun as (fd & w2 & _ & Hrun).
  apply and_then_Some in Hrun as (? & w3 & _ & Hrun).
  destruct fd as [fd|]; [|by injection Hrun as <- <-].
  destruct (fd <? 0); [by injection Hrun as <- <-|].
  by apply and_then_Some in Hrun as (? & w4 & _ & Hrun).
Qed.

Lemma send_all_error fuel fd text w msg w' :
  send_all fuel fd text w = Some (Some msg, w') → msg ≠ EmptyString.
Proof.
  revert text w. induction fuel as [|fuel IH]; intros text w; simpl; [done|].
  destruct (is_empty text); [done|]. rewrite and_then_Some. intros (cancelled & w1 & _ & Hrun).
  destruct cancelled; [by injection Hrun as <- <-|].
  apply and_then_Some in Hrun as (bytes & w2 & _ & Hrun).
  destruct (bytes <=? 0); [by injection Hrun as <- <-|eauto].
Qed.

Lemma later_trans r r1 r2 : later_response r r1 → later_response r1 r2 → later_response r r2.
Proof. intros [t ->] [u ->]. by exists u. Qed.

Lemma later_refl r : later_response r r.
Proof. exists (first_response_byte_micros r). by destruct r. Qed.

Lemma error_outcome r r1 msg :
  msg ≠ EmptyString → later_response r r1 →
  ∃ msg' r2, msg' ≠ EmptyString ∧ later_response r r2 ∧ set_error msg r1 = set_error msg' r2.
Proof. eauto. Qed.

Lemma recv_all_outcome fuel fd started raw r w complete raw' r' w' :
  recv_all fuel fd started raw r w = Some ((complete, raw', r'), w') →
  if complete then later_response r r'
  else ∃ msg r1, msg ≠ EmptyString ∧ later_response r r1 ∧ r' = set_error msg r1.
Proof.
  revert raw r w. induction fuel as [|fuel IH]; intros raw r w; simpl; [done|].
  rewrite and_then_Some. intros (cancelled & w1 & _ & Hrun).
  destruct cancelled; [injection Hrun as <- <- <- <-; by apply error_outcome; [|apply later_refl]|].
  apply and_then_Some in Hrun as ([bytes buffer] & w2 & _ & Hrun). destruct (0 <? bytes).
  - apply and_then_Some in Hrun as (r1 & w3 & Hnote & Hrun).
    destruct (note_first_byte_later started r w2) as (r2 & w4 & Hnote2 & Hlater).
    rewrite Hnote2 in Hnote. injection Hnote as -> ->. destruct (max_response <? _).
    + injection Hrun as <- <- <- <-. by apply error_outcome.
    + apply IH in Hrun. destruct complete; [by eapply later_trans|].
      destruct Hrun as (msg & r3 & ? & ? & ?). exists msg, r3.
      split_and!; [done|by eapply later_trans|done].
  - destruct (bytes =? 0); [injection Hrun as <- <- <- <-; apply later_refl|].
    apply and_then_Some in Hrun as (err & w3 & _ & Hrun).
    destruct (err =? EINTR); [by apply IH in Hrun|].
    injection Hrun as <- <- <- <-. by apply error_outcome; [|apply later_refl].
Qed.

(** C34: the response of [HttpPostJson] is accepted exactly when it has a status
    from 200 to 299 and no error, and it says what went wrong otherwise,
    whatever the network does. *)
Theorem HttpPostJson_outcome fuel url text timeout w r w' :
  HttpPostJson fuel url text timeout w = Some (r, w') → outcome_ok r.
Proof.
  unfold HttpPostJson. rewrite and_then_Some. intros (started & w1 & _ & Hrun).
  apply and_then_Some in Hrun as ([msg|fd] & w2 & Hopen & Hrun).
  { apply open_connection_error in Hopen. injection Hrun as <- <-. exact Hopen. }
  apply and_then_Some in Hrun as ([msg|] & w3 & Hsend & Hrun).
  { apply send_all_error in Hsend. apply and_then_Some in Hrun as (? & ? & _ & Hrun).
    injection Hrun as <- <-. exact Hsend. }
  apply and_then_Some in Hrun as ([[complete raw] response] & w4 & Hrecv & Hrun).
  apply recv_all_outcome in Hrecv.
  apply and_then_Some in Hrun as (? & w5 & _ & Hrun). injection Hrun as <- <-.
  destruct complete; simpl.
  - destruct Hrecv as [t ->]. by apply parse_response_outcome.
  - destruct Hrecv as (msg & r1 & Hmsg & [t ->] & ->). exact Hmsg.
Qed.
End Outcome.

(** ** What is sent *)

Definition request_head (url : ParsedHttpUrl) (n : Z) : string :=
  "POST " +:+ path url +:+ " HTTP/1.1" +:+ crlf +:+
  "Host: " +:+ host url +:+ ":" +:+ port url +:+ crlf +:+
  "Content-Type: application/json" +:+ crlf +:+
  "Content-Length: " +:+ to_string n +:+ crlf +:+ "Connection: close".

Lemma request_text_head url text :
  request_text url text = request_head url (size_of text) +:+ crlf +:+ crlf +:+ text.
Proof. unfold request_text, request_head. by rewrite !sapp_assoc. Qed.

Lemma no_match_lacks c p a b :
  lacks c a → no_match (String c p) (a +:+ b) = no_match (String c p) b.
Proof.
  intros Ha. induction a as [|d a IH]; [done|]. apply lacks_cons in Ha as [Hd Ha].
  rewrite sapp_cons. simpl. rewrite bool_decide_false by done. by apply IH.
Qed.

(** A line that does not start with a return does not make a blank line. *)
Lemma no_match_line c s :
  c ≠ carriage_return → no_match (crlf +:+ crlf) (crlf +:+ String c s) = no_match (crlf +:+ crlf) (String c s).
Proof.
  intros Hc. change (crlf +:+ crlf) with
    (String carriage_return (String newline (String carriage_return (char newline)))).
  change (crlf +:+ String c s) with (String carriage_return (String newline (String c s))).
  cbn [no_match incompatible]. rewrite !(bool_decide_true (carriage_return = carriage_return)) by done.
  rewrite !(bool_decide_true (newline = newline)) by done.
  rewrite (bool_decide_false (carriage_return = c)) by congruence.
  by rewrite (bool_decide_false (carriage_return = newline)).
Qed.

Lemma no_match_word a b :
  lacks carriage_return a → no_match (crlf +:+ crlf) (a +:+ b) = no_match (crlf +:+ crlf) b.
Proof. apply no_match_lacks. Qed.

Lemma no_match_start a b :
  lacks carriage_return a → a ≠ EmptyString →
  no_match (crlf +:+ crlf) (crlf +:+ a +:+ b) = no_match (crlf +:+ crlf) b.
Proof.
  intros Ha Hne. rewrite <- (no_match_word a b) by done. destruct a as [|c a]; [done|].
  apply no_match_line. by apply lacks_cons in Ha as [? _].
Qed.

(** The request is framed as HTTP wants: when the URL has no carriage
    return, the first blank line ends the head, which announces the size of the
    body, and what follows is the body, whatever it contains. *)
Theorem request_framing url text :
  lacks carriage_return (host url) → lacks carriage_return (port url) →
  lacks carriage_return (path url) →
  split_at (crlf +:+ crlf) (request_text url text) = Some (request_head url (size_of text), text).
Proof.
  intros Hh Hp Hpath. rewrite request_text_head. rewrite <- (sapp_assoc crlf).
  rewrite split_at_no_match.
  { rewrite split_at_here. simpl. by rewrite sapp_nil_r. }
  unfold request_head.
  rewrite (no_match_word "POST "), (no_match_word (path url)), (no_match_word " HTTP/1.1") by done.
  rewrite (no_match_start "Host: "), (no_match_word (host url)), (no_match_word ":") by done.
  rewrite (no_match_word (port url)), (no_match_start "Content-Type: application/json") by done.
  rewrite (no_match_start "Content-Length: "), (no_match_word (to_string _))
    by (done || by apply to_string_lacks).
  reflexivity.
Qed.

(** ** The loops end *)

(** [recv] fills the buffer with what it says, and no signal interrupts it. *)
Class RecvSpec (W : Type) `{Sockets W} := {
  recv_filled fd n w : let '((bytes, buffer), _) := recv fd n w in 0 < bytes → bytes ≤ size_of buffer;
  recv_uninterrupted fd n w : let '((bytes, _), w') := recv fd n w in bytes < 0 → errno w' ≠ EINTR;
}.

Section Returns.
Context {W : Type} `{Host W} `{RecvSpec W}.

Lemma SetSocketTimeout_returns fd t : returns (SetSocketTimeout fd t).
Proof. unfold SetSocketTimeout. returns_tac. Qed.

Lemma ConnectWithTimeout_returns fd a t : returns (ConnectWithTimeout fd a t).
Proof. unfold ConnectWithTimeout. returns_tac. Qed.
#[local] Hint Resolve SetSocketTimeout_returns ConnectWithTimeout_returns : laminar.

Lemma connect_any_returns t fd addresses : returns (connect_any t fd addresses).
Proof. revert fd. induction addresses as [|a l IH]; intros fd; simpl; returns_tac. Qed.
#[local] Hint Resolve connect_any_returns : laminar.

Lemma open_connection_returns url t : returns (open_connection url t).
Proof. unfold open_connection. returns_tac. Qed.

Lemma drop_chars_shrinks n s : (0 < n)%nat → s ≠ EmptyString → (str_length (drop_chars n s) < str_length s)%nat.
Proof.
  intros Hn Hs. destruct n as [|n]; [lia|]. destruct s as [|c s]; [done|]. simpl.
  assert (∀ n s, str_length (drop_chars n s) ≤ str_length s)%nat as Hle; [|by apply Nat.lt_succ_r, Hle].
  clear. intros n. induction n as [|n IH]; intros [|c s]; simpl; try lia. specialize (IH s). lia.
Qed.

Lemma send_all_returns fuel fd text : (str_length text < fuel)%nat → returns (send_all fuel fd text).
Proof.
  revert text. induction fuel as [|fuel IH]; intros text Hf; [lia|]. simpl.
  destruct (is_empty text) eqn:He; [auto with laminar|]. apply is_empty_false in He.
  apply returns_bind; [auto with laminar|intros [|]; [auto with laminar|]].
  apply returns_bind; [auto with laminar|intros bytes].
  destruct (bytes <=? 0) eqn:Hb; to_prop; [auto with laminar|].
  apply IH. pose proof (drop_chars_shrinks (Z.to_nat bytes) text ltac:(lia) He). lia.
Qed.

Lemma recv_all_returns fuel fd started raw r :
  size_of raw ≤ max_response → (Z.to_nat (max_response - size_of raw) + 2 ≤ fuel)%nat →
  returns (recv_all fuel fd started raw r).
Proof.
  revert raw r. induction fuel as [|fuel IH]; intros raw r Hs Hf; [lia|]. cbn [recv_all].
  apply returns_bind; [auto with laminar|intros [|]; [auto with laminar|]].
  intros w. unfold and_then at 1. unfold ask at 1.
  pose proof (recv_filled fd 4096 w) as Hfill. pose proof (recv_uninterrupted fd 4096 w) as Herr.
  destruct (recv fd 4096 w) as [[bytes buffer] w1]. destruct (0 <? bytes) eqn:Hb; to_prop.
  - destruct (note_first_byte_later started r w1) as (r1 & w2 & Hnote & _).
    unfold and_then. rewrite Hnote. cbv zeta.
    destruct (max_response <? _) eqn:Hmax; to_prop; [by repeat econstructor|].
    apply IH; [done|]. revert Hmax. rewrite size_of_app. unfold size_of in *. rewrite take_chars_length.
    specialize (Hfill Hb). lia.
  - destruct (bytes =? 0) eqn:H0'; to_prop; [by repeat econstructor|].
    unfold and_then, ask. rewrite (proj2 (Z.eqb_neq _ _)); [by repeat econstructor|apply Herr; lia].
Qed.

(** A number of receptions bounded by the limit on the response ends the request. *)
Lemma HttpPostJson_ends fuel url text timeout :
  (Z.to_nat max_response + 2 ≤ fuel)%nat → returns (HttpPostJson fuel url text timeout).
Proof.
  intros Hf. unfold HttpPostJson.
  apply returns_bind; [auto with laminar|intros started].
  apply returns_bind; [apply open_connection_returns|intros [msg|fd]; [auto with laminar|]].
  apply returns_bind; [apply send_all_returns; lia|intros [msg|]; [by returns_tac|]].
  apply returns_bind; [|intros [[complete raw] r]; by returns_tac].
  apply recv_all_returns; unfold size_of; simpl str_length; [|lia]. unfold max_response. lia.
Qed.
End Returns.
