(* ===== verification/HttpStream.v ===== *)
(** * The two HTTP clients agree

    What [HttpPostJsonStream] hands to its callback, piece by piece, is the body
    that [HttpPostJson] returns for the same answer of the peer, in whatever
    pieces the operating system delivers it. *)
From Stdlib Require Import Strings.Ascii.
From stdpp Require Import prelude gmap strings list.
From S2P Require Import Prelude CxxText CxxTextProps Backend LlamaProtocol LlamaProtocolProps.
From S2P Require Import Http HttpProps HttpTheorems.

(** ** A peer

    While a world is quiet there is no cancellation and no failure, and what is
    still to come arrives in order, at least one byte at a time. *)
Class StreamPeer (W : Type) `{Host W} `{Sockets W} := {
  quiet : W → Prop;
  incoming : W → string;
  peer_poll w : quiet w →
    (is_cancelled w).1 = false ∧ quiet (is_cancelled w).2 ∧ incoming (is_cancelled w).2 = incoming w;
  peer_clock w : quiet w → quiet (steady_now w).2 ∧ incoming (steady_now w).2 = incoming w;
  peer_recv fd n w : quiet w → 0 < n → let '((bytes, buffer), w') := recv fd n w in
    quiet w' ∧ 0 ≤ bytes ∧ incoming w = take_chars (Z.to_nat bytes) buffer +:+ incoming w' ∧
    (bytes = 0 → incoming w = EmptyString) ∧ (0 < bytes → (incoming w' ≠ incoming w));
}.

(** The separator of head and body *)
Abbreviation blank_line := (crlf +:+ crlf).

Lemma blank_line_more text more a b :
  split_at blank_line text = Some (a, b) → split_at blank_line (text +:+ more) = Some (a, b +:+ more).
Proof. apply split_at_app_r. Qed.

Lemma blank_line_size text a b :
  split_at blank_line text = Some (a, b) → size_of text = size_of a + 4 + size_of b.
Proof.
  intros ->%split_at_nonempty. rewrite size_of_app. change (?c +:+ b) with (blank_line +:+ b).
  rewrite size_of_app. change (size_of blank_line) with 4. lia.
Qed.

Lemma status_line_more text more a b :
  split_at blank_line text = Some (a, b) → status_line (text +:+ more) = status_line text.
Proof.
  intros Hs%split_at_nonempty. unfold status_line.
  destruct (split_at crlf text) as [[line rest]|] eqn:Hl; [by eapply split_at_app_r in Hl as ->|].
  exfalso. apply (split_at_found carriage_return (char newline) a (crlf +:+ b)).
  rewrite Hs in Hl. exact Hl.
Qed.

Lemma parse_response_body text a b r :
  split_at blank_line text = Some (a, b) → body (parse_response text r) = b.
Proof. intros Hs. unfold parse_response. rewrite Hs. by destruct (is_success _). Qed.

Lemma parse_response_ok text a b r :
  split_at blank_line text = Some (a, b) →
  response_ok (parse_response text r) = is_success (read_status (status_line text)).
Proof. intros Hs. unfold parse_response. rewrite Hs. simpl. by destruct (is_success _) eqn:E. Qed.

Lemma parse_response_code text a b r :
  split_at blank_line text = Some (a, b) →
  status_code (parse_response text r) = read_status (status_line text).
Proof. intros Hs. unfold parse_response. rewrite Hs. by destruct (is_success _). Qed.

Lemma parse_response_more text more a b r :
  split_at blank_line text = Some (a, b) →
  parse_response (text +:+ more) r = set_body (b +:+ more) (parse_response text r).
Proof.
  intros Hs. unfold parse_response. rewrite (status_line_more _ more _ _ Hs), Hs.
  rewrite (blank_line_more _ more _ _ Hs). by destruct r, (is_success _).
Qed.

Section Agreement.
Context {W : Type} `{StreamPeer W}.

(** The callback that keeps what it is given. *)
Definition collect (piece got : string) : M W (bool * string) := done_with (true, got +:+ piece).

(** The state of the streaming loop when [got] has been received. *)
Record tracks (got : string) (l : StreamLoop string) : Prop := mk_tracks {
  tr_headers : headers_parsed l = bool_decide (is_Some (split_at blank_line got));
  tr_buffered : headers_parsed l = false → buffered l = got;
  tr_ok : response_ok (loop_response l) = response_ok (parse_response got empty_response);
  tr_code : status_code (loop_response l) = status_code (parse_response got empty_response);
  tr_error : error (loop_response l) = EmptyString;
  tr_body : body (parse_response got empty_response) =
    if response_ok (loop_response l) then captured l else body (loop_response l);
  tr_other : (if response_ok (loop_response l) then body (loop_response l) else captured l) = EmptyString;
}.

Lemma tracks_initial : tracks EmptyString (mkStreamLoop false EmptyString empty_response EmptyString).
Proof. by constructor. Qed.

Lemma tracks_later got l r :
  later_response (loop_response l) r → tracks got l → tracks got (with_response r l).
Proof. intros [t ->] []. by constructor. Qed.

(** The limits of the loop *)
Definition within_limits (raw : string) : Prop :=
  size_of raw ≤ max_response ∧
  size_of (match split_at blank_line raw with Some (head, _) => head | None => raw end) ≤ 64 * 1024 - 4.

Lemma deliver_collect text l w :
  deliver collect text l w =
    Some ((true, mkStreamLoop (headers_parsed l) (buffered l) (loop_response l)
                   (captured l +:+ text)), w).
Proof. reflexivity. Qed.

Lemma receive_body_tracks got data l more w :
  headers_parsed l = true → tracks got l → size_of (got +:+ data +:+ more) ≤ max_response →
  ∃ l', receive_body collect data l w = Some ((true, l'), w) ∧ tracks (got +:+ data) l'.
Proof.
  intros Hp [Hh Hb Hok Hcode Herr Hbody Hother] Hsize.
  rewrite Hp in Hh. symmetry in Hh. apply bool_decide_eq_true in Hh as [[head text] Hs].
  assert (Hsize2 : size_of (body (parse_response got empty_response) +:+ data) ≤ max_response).
  { pose proof (blank_line_size _ _ _ Hs). pose proof (size_of_nonneg head).
    pose proof (size_of_nonneg more). rewrite !size_of_app in Hsize. rewrite size_of_app.
    rewrite (parse_response_body _ _ _ _ Hs). lia. }
  pose proof (parse_response_more got data head text empty_response Hs) as Hmore.
  rewrite <- (parse_response_body _ _ _ empty_response Hs) in Hmore.
  pose proof (blank_line_more got data _ _ Hs) as Hs2.
  unfold receive_body. destruct (response_ok (loop_response l)) eqn:Hok'.
  - rewrite deliver_collect. eexists. split; [reflexivity|].
    constructor; simpl; rewrite ?Hmore, ?Hs2, ?Hok', ?Hp; simpl; try done; [..|by rewrite Hbody].
    by rewrite bool_decide_true.
  - rewrite Hbody in Hsize2, Hmore. cbv zeta. simpl body at 1. rewrite (proj2 (Z.ltb_ge _ _) Hsize2).
    eexists. split; [reflexivity|].
    constructor; simpl; rewrite ?Hmore, ?Hs2, ?Hok', ?Hp; simpl; try done.
    by rewrite bool_decide_true.
Qed.

Lemma receive_headers_tracks got data l more w :
  headers_parsed l = false → tracks got l → within_limits (got +:+ data +:+ more) →
  ∃ l', receive_headers collect data l w = Some ((true, l'), w) ∧ tracks (got +:+ data) l'.
Proof.
  intros Hp [Hh Hb Hok Hcode Herr Hbody Hother] [Hsize Hhead].
  rewrite Hp in Hh. symmetry in Hh. apply bool_decide_eq_false, eq_None_not_Some in Hh.
  unfold receive_headers. rewrite (Hb Hp). cbv zeta.
  unfold parse_response in Hok, Hcode, Hbody. rewrite Hh in Hok, Hcode, Hbody.
  simpl in Hok, Hcode, Hbody. rewrite Hok in Hother, Hbody.
  set (code := read_status (status_line (got +:+ data))).
  destruct (split_at blank_line (got +:+ data)) as [[head text]|] eqn:Hs.
  - assert (Hfound : ∀ l', headers_parsed l' = true → error (loop_response l') = EmptyString →
      status_code (loop_response l') = code → response_ok (loop_response l') = is_success code →
      (if is_success code then captured l' = text ∧ body (loop_response l') = EmptyString
       else captured l' = EmptyString ∧ body (loop_response l') = text) → tracks (got +:+ data) l').
    { intros l' Hp' He' Hc' Ho' Hb'. constructor; rewrite ?Hs, ?Hp', ?Ho'; try done.
      - by rewrite (parse_response_ok _ _ _ _ Hs).
      - by rewrite (parse_response_code _ _ _ _ Hs).
      - rewrite (parse_response_body _ _ _ _ Hs). destruct (is_success code); naive_solver.
      - destruct (is_success code); naive_solver. }
    destruct (is_empty text) eqn:He; [apply is_empty_spec in He as ->|].
    + eexists. split; [reflexivity|]. apply Hfound; simpl; try done. by destruct (is_success code).
    + destruct (is_success code) eqn:Hsucc; cbn [response_ok set_status].
      * rewrite deliver_collect. eexists. split; [reflexivity|].
        apply Hfound; simpl; rewrite ?Hother; done.
      * eexists. split; [reflexivity|]. apply Hfound; simpl; rewrite <- ?Hbody; done.
  - rewrite (proj2 (Z.ltb_ge _ _)).
    + eexists. split; [reflexivity|].
      assert (Hnone : split_at blank_line (got +:+ data) = None) by exact Hs.
      constructor; unfold parse_response; rewrite ?Hnone; cbn -[split_at]; rewrite ?Hok, ?Hnone; done.
    + destruct (split_at blank_line (got +:+ data +:+ more)) as [[head text]|] eqn:Hs2.
      * rewrite <- sapp_assoc in Hs2. apply split_at_later in Hs2; [|done].
        unfold size_of in *. change (str_length _) with 4%nat in Hs2 at 3. lia.
      * rewrite !size_of_app in Hhead. pose proof (size_of_nonneg more). rewrite size_of_app. lia.
Qed.

Lemma receive_tracks got data l more w :
  tracks got l → within_limits (got +:+ data +:+ more) →
  ∃ l', (if negb (headers_parsed l) then receive_headers collect data l
         else receive_body collect data l) w = Some ((true, l'), w) ∧ tracks (got +:+ data) l'.
Proof.
  intros Hl Hlim. destruct (headers_parsed l) eqn:Hp; simpl negb; cbv iota.
  - eapply receive_body_tracks; [done..|apply Hlim].
  - by eapply receive_headers_tracks.
Qed.

(** One turn of a receiving loop over a quiet peer. *)
Lemma peer_turn fd w :
  quiet w → ∃ bytes buffer w1 w2,
    is_cancelled w = (false, w1) ∧ recv fd 4096 w1 = ((bytes, buffer), w2) ∧ quiet w2 ∧
    ((bytes = 0 ∧ incoming w = EmptyString) ∨
     (0 < bytes ∧ incoming w = take_chars (Z.to_nat bytes) buffer +:+ incoming w2 ∧
      (str_length (incoming w2) < str_length (incoming w))%nat)).
Proof.
  intros Hq. destruct (peer_poll w Hq) as (Hc & Hq1 & Hin).
  destruct (is_cancelled w) as [cancelled w1] eqn:Ec. simpl in *. subst cancelled.
  pose proof (peer_recv fd 4096 w1 Hq1 ltac:(lia)) as Hr.
  destruct (recv fd 4096 w1) as [[bytes buffer] w2] eqn:Er.
  destruct Hr as (Hq2 & Hpos & Htake & Hend & Hmore). rewrite Hin in *.
  exists bytes, buffer, w1, w2. split_and!; try done.
  destruct (decide (bytes = 0)) as [->|Hne]; [left; auto|right].
  specialize (Hmore ltac:(lia)). split_and!; [lia|done|].
  rewrite Htake, str_length_app. destruct (take_chars _ buffer); simpl; [|lia].
  by rewrite sapp_nil_l in Htake.
Qed.

Lemma peer_note started r w :
  quiet w → ∃ r' w', note_first_byte started r w = Some (r', w') ∧ later_response r r' ∧
    quiet w' ∧ incoming w' = incoming w.
Proof.
  intros Hq. unfold note_first_byte, and_then, ask, done_with.
  destruct (_ <? 0); [|exists r, w; eauto using later_refl].
  destruct (peer_clock w Hq) as [Hq' Hin]. destruct (steady_now w) as [now w'].
  do 2 eexists. split_and!; [reflexivity| |done..]. by eexists.
Qed.

Lemma recv_all_gets fuel fd started raw r w :
  quiet w → size_of (raw +:+ incoming w) ≤ max_response → (str_length (incoming w) < fuel)%nat →
  ∃ r' w', recv_all fuel fd started raw r w = Some ((true, raw +:+ incoming w, r'), w') ∧
    later_response r r'.
Proof.
  revert raw r w. induction fuel as [|fuel IH]; intros raw r w Hq Hs Hf; [lia|]. cbn [recv_all].
  destruct (peer_turn fd w Hq) as (bytes & buffer & w1 & w2 & Hc & Hr & Hq2 & Hcase).
  unfold and_then at 1, ask at 1. rewrite Hc. unfold and_then at 1, ask at 1. rewrite Hr.
  destruct Hcase as [[-> Hin]|(Hb & Hin & Hlt)].
  { rewrite Hin, (sapp_nil_r raw). exists r, w2. split; [reflexivity|apply later_refl]. }
  rewrite (proj2 (Z.ltb_lt _ _) Hb).
  destruct (peer_note started r w2 Hq2) as (r1 & w3 & Hn & Hl & Hq3 & Hin3).
  unfold and_then. rewrite Hn. cbv zeta. rewrite Hin, <- sapp_assoc in *.
  rewrite (proj2 (Z.ltb_ge _ _)).
  2:{ rewrite size_of_app in Hs. pose proof (size_of_nonneg (incoming w2)). lia. }
  rewrite <- Hin3 in *.
  destruct (IH (raw +:+ take_chars (Z.to_nat bytes) buffer) r1 w3) as (r2 & w4 & Hrun & Hl2); [done..|lia|].
  exists r2, w4. split; [done|]. by eapply later_trans.
Qed.

Lemma recv_stream_gets fuel fd started got l w :
  quiet w → tracks got l → within_limits (got +:+ incoming w) →
  (str_length (incoming w) < fuel)%nat →
  ∃ l' w', recv_stream collect fuel fd started l w = Some ((true, l'), w') ∧
    tracks (got +:+ incoming w) l'.
Proof.
  revert got l w. induction fuel as [|fuel IH]; intros got l w Hq Hl Hlim Hf; [lia|].
  cbn [recv_stream].
  destruct (peer_turn fd w Hq) as (bytes & buffer & w1 & w2 & Hc & Hr & Hq2 & Hcase).
  unfold and_then at 1, ask at 1. rewrite Hc. unfold and_then at 1, ask at 1. rewrite Hr.
  destruct Hcase as [[-> Hin]|(Hb & Hin & Hlt)].
  { rewrite Hin, (sapp_nil_r got). exists l, w2. split; [reflexivity|done]. }
  rewrite (proj2 (Z.ltb_lt _ _) Hb).
  destruct (peer_note started (loop_response l) w2 Hq2) as (r1 & w3 & Hn & Hlater & Hq3 & Hin3).
  unfold and_then at 1. rewrite Hn. cbv zeta. rewrite Hin in Hlim.
  destruct (receive_tracks got (take_chars (Z.to_nat bytes) buffer) (with_response r1 l)
    (incoming w2) w3) as (l1 & Hrecv & Hl1); [by apply tracks_later|done|].
  unfold and_then. rewrite Hrecv. cbn [negb]. rewrite Hin, <- sapp_assoc in *. rewrite <- Hin3 in *.
  by destruct (IH (got +:+ take_chars (Z.to_nat bytes) buffer) l1 w3) as (l2 & w4 & Hrun & Hl2); eauto; lia.
Qed.

(** Both receiving loops read the answer to its end, and see the same. *)
Lemma receivers_agree fuel fd started w :
  quiet w → within_limits (incoming w) → (str_length (incoming w) < fuel)%nat →
  ∃ r l w1 w2,
    recv_all fuel fd started EmptyString empty_response w = Some ((true, incoming w, r), w1) ∧
    recv_stream collect fuel fd started (mkStreamLoop false EmptyString empty_response EmptyString) w
      = Some ((true, l), w2) ∧
    let whole := parse_response (incoming w) r in
    let streamed := stream_response l in
    response_ok streamed = response_ok whole ∧ status_code streamed = status_code whole ∧
    error streamed = error whole ∧
    body whole = (if response_ok whole then captured l else body streamed).
Proof.
  intros Hq Hlim Hf.
  destruct (recv_all_gets fuel fd started EmptyString empty_response w) as (r & w1 & Hall & [t ->]);
    [done|apply Hlim|done|].
  destruct (recv_stream_gets fuel fd started EmptyString
    (mkStreamLoop false EmptyString empty_response EmptyString) w) as (l & w2 & Hstream & Hl);
    [done|apply tracks_initial|done..|].
  rewrite sapp_nil_l in *. exists (set_first_byte t empty_response), l, w1, w2. split_and!; [done..|].
  destruct Hl as [Hh _ Hok Hcode Herr Hbody _]. cbv zeta. unfold stream_response. revert Hh Hok Hcode Hbody.
  unfold parse_response. destruct (split_at blank_line (incoming w)) as [[head text]|]; intros Hh.
  - rewrite Hh, bool_decide_true by done. simpl.
    destruct (is_success _); simpl; intros Hok Hcode Hbody; rewrite Hok in *; simpl; auto.
    by rewrite Hcode.
  - rewrite Hh, bool_decide_false by by intros [? ?]. simpl. intros Hok Hcode Hbody. by rewrite Hok in *.
Qed.

(** The first half of both clients, from [w] to [w']: the connection is open and
    the whole request has been sent. *)
Definition request_sent (url : ParsedHttpUrl) (text : string) (timeout : Z) (w w' : W) : Prop :=
  ∃ fd w1, open_connection url timeout (steady_now w).2 = Some (inr fd, w1) ∧
    send_all (S (str_length (request_text url text))) fd (request_text url text) w1 = Some (None, w').

(** C10: the two clients agree: if, once the request has been sent, the peer is
    quiet and its answer is within the limits, then both clients return and
    report the same status and the same error, and they accept or reject the
    answer alike; the pieces that the callback of the streaming client was given
    make up the body that the other one returns, however the answer is cut into
    pieces; and if the request cannot be sent, both report the same error. *)
Theorem stream_client_agrees fuel url text timeout w :
  (∀ w', request_sent url text timeout w w' →
    quiet w' ∧ within_limits (incoming w') ∧ (str_length (incoming w') < fuel)%nat) →
  ∃ whole streamed got w1 w2,
    HttpPostJson fuel url text timeout w = Some (whole, w1) ∧
    HttpPostJsonStream collect fuel url text timeout EmptyString w = Some ((streamed, got), w2) ∧
    response_ok streamed = response_ok whole ∧ status_code streamed = status_code whole ∧
    error streamed = error whole ∧
    body whole = (if response_ok whole then got else body streamed).
Proof.
  intros Hpeer. unfold HttpPostJson, HttpPostJsonStream, request_sent in *.
  destruct (steady_now w) as [started w0] eqn:Hnow. simpl in Hpeer.
  rewrite !(and_then_ran (ask steady_now) _ w started w0) by (unfold ask; by rewrite Hnow).
  destruct (open_connection_returns url timeout w0) as (connection & w1 & Hopen).
  rewrite !(and_then_ran _ _ _ _ _ Hopen).
  destruct connection as [msg|fd]; [by do 5 eexists|]. cbv zeta.
  destruct (send_all_returns (S (str_length (request_text url text))) fd (request_text url text)
    ltac:(lia) w1) as (failed & w2 & Hsend).
  rewrite !(and_then_ran _ _ _ _ _ Hsend). destruct failed as [msg|].
  { unfold and_then, ask, done_with. destruct (close fd w2) as [rc w3]. by do 5 eexists. }
  destruct (Hpeer w2) as (Hq & Hlim & Hf); [by eauto|].
  destruct (receivers_agree fuel fd started w2 Hq Hlim Hf) as (r & l & w3 & w4 & Hall & Hstream & Hsame).
  rewrite (and_then_ran _ _ _ _ _ Hall), (and_then_ran _ _ _ _ _ Hstream).
  unfold and_then, ask, done_with.
  destruct (close fd w3) as [rc3 w5], (close fd w4) as [rc4 w6]. simpl.
  by do 5 eexists.
Qed.
End Agreement.
