(* ===== verification/ScriptedNet.v ===== *)
(** * A scripted network

    A concrete world in which the network code runs: one socket at a time, a
    peer whose answer is given and arrives in pieces of a given size, and which
    then closes the connection or times out.  It satisfies the hypotheses on
    which the theorems of the client rely, and they are instantiated here. *)
From Stdlib Require Import Strings.Ascii.
From stdpp Require Import prelude gmap strings list.
From S2P Require Import Prelude CxxText CxxTextProps Backend LlamaProtocol LlamaProtocolProps.
From S2P Require Import Http HttpProps HttpTheorems HttpStream.

Record Net := mkNet {
  net_open : gset Z;
  net_in : string;
  net_piece : nat;
  net_fails : bool;
  net_cancelled : bool;
  net_clock : Z;
  net_events : list BackendStreamEvent;
}.

Definition net_now (w : Net) : Z * Net :=
  (net_clock w, mkNet (net_open w) (net_in w) (net_piece w) (net_fails w) (net_cancelled w)
                  (net_clock w + 1000) (net_events w)).

Definition net_socket (w : Net) : Z * Net :=
  if bool_decide (3 ∈ net_open w) then (-1, w)
  else (3, mkNet ({[3]} ∪ net_open w) (net_in w) (net_piece w) (net_fails w) (net_cancelled w)
             (net_clock w) (net_events w)).

Definition net_close (fd : Z) (w : Net) : Z * Net :=
  (0, mkNet (net_open w ∖ {[fd]}) (net_in w) (net_piece w) (net_fails w) (net_cancelled w)
        (net_clock w) (net_events w)).

Definition net_recv (n : Z) (w : Net) : (Z * string) * Net :=
  let k := Nat.min (Z.to_nat n) (S (net_piece w)) in
  let piece := take_chars k (net_in w) in
  if is_empty piece then ((if net_fails w then -1 else 0, EmptyString), w)
  else ((size_of piece, piece),
        mkNet (net_open w) (drop_chars k (net_in w)) (net_piece w) (net_fails w) (net_cancelled w)
          (net_clock w) (net_events w)).

(** A stream callback that keeps the events. *)
Definition net_emit (e : BackendStreamEvent) : M Net bool := λ w,
  Some (true, mkNet (net_open w) (net_in w) (net_piece w) (net_fails w) (net_cancelled w)
                (net_clock w) (net_events w ++ [e])).

#[export] Instance Net_host : Host Net := {|
  is_cancelled w := (net_cancelled w, w);
  steady_now := net_now;
  sleep_for_ms _ w := (tt, w);
|}.

#[export] Instance Net_files : Files Net := {|
  fcntl_getfl _ w := (0, w);
  fcntl_setfl _ _ w := (0, w);
  close := net_close;
  errno _ := 11;
|}.

#[export] Instance Net_sockets : Sockets Net := {|
  Addr := unit;
  getaddrinfo _ _ w := ((0, [tt]), w);
  freeaddrinfo _ w := (tt, w);
  socket _ w := net_socket w;
  connect _ _ w := (0, w);
  poll_writable _ _ w := (1, w);
  getsockopt_error _ w := ((0, 0), w);
  setsockopt_timeout _ _ _ _ w := (0, w);
  send _ text w := (size_of text, w);
  recv _ n w := net_recv n w;
|}.

#[export] Instance Net_events_unaffected : Unaffected net_events.
Proof.
  split; [split|..]; try done.
  - intros fd n w. unfold recv, Net_sockets, net_recv. cbv zeta. by destruct (is_empty _).
  - intros a w. unfold socket, Net_sockets, net_socket. by case_bool_decide.
Qed.

#[export, refine] Instance Net_fds : SocketsSpec Net := {| open_fds := net_open |}.
Proof.
  - split; try done.
    intros fd n w. unfold recv, Net_sockets, net_recv. cbv zeta. by destruct (is_empty _).
  - intros a w. unfold socket, Net_sockets, net_socket. by case_bool_decide.
  - done.
Defined.

#[export] Instance Net_recv_spec : RecvSpec Net.
Proof.
  constructor; intros fd n w; unfold recv, Net_sockets, net_recv; cbv zeta; [|by destruct (is_empty _)].
  destruct (is_empty _); [destruct (net_fails w); lia|]. intros _. lia.
Qed.

Lemma take_drop_chars n s : s = take_chars n s +:+ drop_chars n s.
Proof. revert s. induction n as [|n IH]; intros [|c s]; simpl; try done. by rewrite <- IH. Qed.

#[export, refine] Instance Net_peer : StreamPeer Net := {|
  quiet w := net_fails w = false ∧ net_cancelled w = false;
  incoming := net_in;
|}.
Proof.
  - intros w [Hf Hc]. simpl. auto.
  - intros w Hq. simpl. auto.
  - intros fd n w Hq Hn. unfold recv, Net_sockets, net_recv. cbv zeta.
    set (k := Nat.min (Z.to_nat n) (S (net_piece w))).
    pose proof (take_drop_chars k (net_in w)) as Htd.
    destruct (is_empty (take_chars k (net_in w))) eqn:He.
    + apply is_empty_spec in He. destruct Hq as [Hf Hc]. rewrite Hf. split_and!; [done..|lia|done| |lia].
      intros _. destruct (net_in w); [done|]. destruct k eqn:Hk; [lia|done].
    + apply is_empty_false in He.
      assert (Hlen : (0 < str_length (take_chars k (net_in w)))%nat)
        by (destruct (take_chars k (net_in w)); [done|simpl; lia]).
      destruct Hq as [Hf Hc]. split_and!; [done..|apply size_of_nonneg| | |]; unfold size_of; simpl.
      * rewrite Nat2Z.id, take_chars_all by done. done.
      * lia.
      * intros _ Heq. rewrite <- Heq in Htd at 1. apply (f_equal str_length) in Htd.
        rewrite Heq, str_length_app in Htd. lia.
Defined.

(** ** The theorems of the client on it *)

Definition net_of (answer : string) (piece : nat) (fails : bool) : Net :=
  mkNet {[0; 1; 2]} answer piece fails false 5000 [].

Definition demo_url : ParsedHttpUrl := ParseHttpUrl "http://127.0.0.1:8081/completion".

Definition http_answer (status : string) (text : string) : string :=
  "HTTP/1.1 " +:+ status +:+ crlf +:+ "Content-Type: text/event-stream" +:+ crlf +:+ crlf +:+ text.

Lemma HttpPostJson_closes_witness :
  ∃ r w', HttpPostJson 100 demo_url "{}" 1000 (net_of (http_answer "503 Busy" "wait") 7 true)
    = Some (r, w') ∧ net_open w' = {[0; 1; 2]} ∧ error r = "failed to read response from llama server".
Proof.
  assert (Hdemo : ∃ r w', HttpPostJson 100 demo_url "{}" 1000
      (net_of (http_answer "503 Busy" "wait") 7 true) = Some (r, w') ∧
    error r = "failed to read response from llama server")
    by (do 2 eexists; split; [vm_compute; reflexivity|reflexivity]).
  destruct Hdemo as (r & w' & Hrun & Herr). exists r, w'. split; [exact Hrun|]. split; [|exact Herr].
  exact (HttpPostJson_closes _ _ _ _ _ _ _ Hrun).
Defined.

(** A callback that stops at the second piece *)
Definition stop_at_second (piece : string) (n : nat) : M Net (bool * nat) :=
  done_with ((n <? 1)%nat, S n).

Lemma HttpPostJsonStream_closes_witness :
  ∃ r w', HttpPostJsonStream stop_at_second 100 demo_url "{}" 1000 O
      (net_of (http_answer "200 OK" "data: a b c d e") 7 false) = Some (r, w') ∧
    error r.1 = "cancelled" ∧ net_open w' = {[0; 1; 2]}.
Proof.
  assert (Hdemo : ∃ r w', HttpPostJsonStream stop_at_second 100 demo_url "{}" 1000 O
      (net_of (http_answer "200 OK" "data: a b c d e") 7 false) = Some (r, w') ∧
    error r.1 = "cancelled") by (do 2 eexists; split; [vm_compute; reflexivity|reflexivity]).
  destruct Hdemo as (r & w' & Hrun & Herr). exists r, w'. split; [exact Hrun|]. split; [exact Herr|].
  refine (HttpPostJsonStream_closes stop_at_second _ _ _ _ _ _ _ _ _ Hrun).
  intros piece n. apply keeps_done.
Defined.

Lemma HttpPostJson_outcome_witness :
  ∃ r w', HttpPostJson 100 demo_url "{}" 1000 (net_of (http_answer "200 OK" "{}") 7 false)
    = Some (r, w') ∧ response_ok r = true ∧ outcome_ok r.
Proof.
  assert (Hdemo : ∃ r w', HttpPostJson 100 demo_url "{}" 1000
      (net_of (http_answer "200 OK" "{}") 7 false) = Some (r, w') ∧ response_ok r = true)
    by (do 2 eexists; split; [vm_compute; reflexivity|reflexivity]).
  destruct Hdemo as (r & w' & Hrun & Hok). exists r, w'. split; [exact Hrun|]. split; [exact Hok|].
  exact (HttpPostJson_outcome _ _ _ _ _ _ _ Hrun).
Defined.

Lemma request_framing_witness :
  split_at (crlf +:+ crlf) (request_text demo_url (crlf +:+ crlf)) =
    Some (request_head demo_url 4, crlf +:+ crlf).
Proof. apply (request_framing demo_url (crlf +:+ crlf)); vm_compute; reflexivity. Defined.

Lemma stream_client_agrees_witness :
  let w := net_of (http_answer "200 OK" "data: one") 4 false in
  ∃ whole streamed got w1 w2,
    HttpPostJson 100 demo_url "{}" 1000 w = Some (whole, w1) ∧
    HttpPostJsonStream collect 100 demo_url "{}" 1000 EmptyString w = Some ((streamed, got), w2) ∧
    got = "data: one" ∧ response_ok streamed = response_ok whole ∧
    body whole = (if response_ok whole then got else body streamed).
Proof.
  intros w.
  destruct (stream_client_agrees 100 demo_url "{}" 1000 w)
    as (whole & streamed & got & w1 & w2 & Hr & Hl & Hok & _ & _ & Hbody).
  - intros w' (fd & w1 & Hopen & Hsend). vm_compute in Hopen. injection Hopen as <- <-.
    vm_compute in Hsend. injection Hsend as <-.
    split; [split; reflexivity|]. split; [split; vm_compute; discriminate|vm_compute; lia].
  - exists whole, streamed, got, w1, w2. split; [exact Hr|]. split; [exact Hl|].
    split; [|by split]. revert Hl. vm_compute. by intros [= _ <- _].
Defined.
