(* ===== verification/LlamaServer.v ===== *)
(** * The llama.cpp server backend

    [LlamaServerBackend] of [src/backend/inference_backend.cc]: each request is
    sent to the server over HTTP; a stream is relayed to the caller as it
    arrives. *)
From Stdlib Require Import Strings.Ascii Floats.SpecFloat.
From stdpp Require Import prelude gmap strings list.
From S2P Require Import Prelude CxxText CxxTextProps CxxFloat Backend LlamaProtocol LlamaStream Http.

Record LlamaServerBackend := mkLlamaServer {
  server_url_ : string;
  max_tokens_ : Z;
  temperature_ : spec_float;
  timeout_ms_ : Z;
  cache_prompt_ : bool;
  stream_ : bool;
  timings_per_token_ : bool;
}.

(** The constructor. *)
Definition make_LlamaServerBackend (server_url : string) (max_tokens : Z) (temperature : spec_float)
    (timeout_ms : Z) (cache_prompt stream timings_per_token : bool) : LlamaServerBackend :=
  mkLlamaServer server_url (clamp max_tokens 1 4096)
    (Float32.clamp temperature (Float32.of_Z 0) (Float32.of_Z 2))
    (clamp timeout_ms 100 (10 * 60 * 1000)) cache_prompt stream timings_per_token.

Definition invalid_url_message : string := "LAMINAR_LLAMA_SERVER_URL must be an http:// URL".
Definition no_content_message : string := "llama server response did not include a content field".

(** The message of a request that failed. *)
Definition failure_message (response : HttpResponse) : string :=
  let message := if is_empty (error response) then "llama server request failed" else error response in
  if is_empty (body response) then message
  else message +:+ ": " +:+ CollapseWhitespace (body response).

Section Server.
Context {W : Type} `{Host W} `{Sockets W} (fuel : nat).

(** The output and the metadata of a completion. *)
Definition server_output (b : LlamaServerBackend) (stream : bool) (prompt : string)
    (batch_size duration_micros : Z) (response : HttpResponse) (c : LlamaServerCompletion) : string :=
  let generated := CollapseWhitespace (content c) in
  FormatLlamaServerOutput generated (EndpointForOutput (server_url_ b))
    (to_int (size_of prompt)) (to_int (size_of generated)) duration_micros batch_size
    (max_tokens_ b) (temperature_ b) (cache_prompt_ b) stream (timings_per_token_ b)
    (stream_chunks c) (first_response_byte_micros response)
    (tokens_predicted c) (tokens_evaluated c).

Definition server_metadata (b : LlamaServerBackend) (stream : bool) (prompt : string)
    (response : HttpResponse) (c : LlamaServerCompletion) : metadata_map :=
  BuildLlamaServerMetadata stream (cache_prompt_ b) (timings_per_token_ b) c
    (size_of prompt) (size_of (CollapseWhitespace (content c)))
    (first_response_byte_micros response).

(** One iteration of the loop of [ProcessBatch]. *)
Definition server_request (b : LlamaServerBackend) (url : ParsedHttpUrl) (batch_size : Z)
    (request : BackendRequest) (result : BackendResult) : M W (BackendResult + BackendResult) :=
  let* cancelled := ask is_cancelled in
  if cancelled then done_with (inl CancelledResult)
  else
    let text := BuildLlamaServerRequestBody (prompt request) (max_tokens_ b) (temperature_ b)
      (cache_prompt_ b) (stream_ b) (timings_per_token_ b) in
    let* started := ask steady_now in
    let* response := HttpPostJson fuel url text (timeout_ms_ b) in
    let* now := ask steady_now in
    let duration_micros := elapsed_micros started now in
    let* cancelled := ask is_cancelled in
    if cancelled || bool_decide (error response = "cancelled")
    then done_with (inl CancelledResult)
    else if negb (response_ok response)
    then done_with (inl (UnavailableResult (failure_message response)))
    else
      let c := ParseLlamaServerCompletion (body response) (stream_ b) in
      if is_empty (content c) then done_with (inl (UnavailableResult no_content_message))
      else
        let out := server_output b (stream_ b) (prompt request) batch_size duration_micros response c in
        done_with (inr (push_metadata
          (server_metadata b (stream_ b) (prompt request) response c) (push_output out result))).

Definition LlamaServer_ProcessBatch (b : LlamaServerBackend) (requests : list BackendRequest)
    : M W (BackendResult * LlamaServerBackend) :=
  let* cancelled := ask is_cancelled in
  if cancelled then done_with (CancelledResult, b)
  else
    let url := ParseHttpUrl (server_url_ b) in
    if negb (valid url) then done_with (UnavailableResult invalid_url_message, b)
    else
      let* result :=
        for_requests (server_request b url (to_int (zlen requests))) requests empty_result in
      done_with (result, b).

#[export] Instance LlamaServer_backend : InferenceBackend LlamaServerBackend W := {|
  Name _ := "llama_server";
  ProcessBatch := LlamaServer_ProcessBatch;
|}.

(** [ProcessStream] with [stream_] set. *)
Definition server_stream (emit : BackendStreamEvent → M W bool) (b : LlamaServerBackend)
    (request : BackendRequest) : M W BackendResult :=
  let* cancelled := ask is_cancelled in
  if cancelled then done_with CancelledResult
  else
    let url := ParseHttpUrl (server_url_ b) in
    if negb (valid url) then done_with (UnavailableResult invalid_url_message)
    else
      let text := BuildLlamaServerRequestBody (prompt request) (max_tokens_ b) (temperature_ b)
        (cache_prompt_ b) true (timings_per_token_ b) in
      let* started := ask steady_now in
      let* '(response, st) :=
        HttpPostJsonStream (on_body emit) fuel url text (timeout_ms_ b) initial_stream in
      let* now := ask steady_now in
      let duration_micros := elapsed_micros started now in
      let* cancelled := ask is_cancelled in
      if cancelled || bool_decide (error response = "cancelled") then done_with CancelledResult
      else if negb (response_ok response)
      then done_with (UnavailableResult (failure_message response))
      else
        let* '(go_on, st) := finish_stream emit st in
        if negb go_on then done_with CancelledResult
        else
          let c := completion st in
          if is_empty (content c) then done_with (UnavailableResult no_content_message)
          else
            let metadata := server_metadata b true (prompt request) response c in
            let out := server_output b true (prompt request) 1 duration_micros response c in
            let result := push_metadata metadata (push_output out empty_result) in
            let* written := emit (mkBackendStreamEvent "done" EmptyString out metadata) in
            if negb written then done_with CancelledResult else done_with result.

Definition LlamaServer_ProcessStream (emit : BackendStreamEvent → M W bool)
    (b : LlamaServerBackend) (request : BackendRequest) : M W (BackendResult * LlamaServerBackend) :=
  if negb (stream_ b) then default_ProcessStream emit b request
  else let* result := server_stream emit b request in done_with (result, b).

#[export] Instance LlamaServer_streaming : StreamingBackend LlamaServerBackend W := {|
  ProcessStream := LlamaServer_ProcessStream;
|}.
End Server.
