(* ===== verification/LlamaServerProps.v ===== *)
(** * Theorems on the llama.cpp server backend *)
From Stdlib Require Import Strings.Ascii Floats.SpecFloat.
From stdpp Require Import prelude gmap strings list.
From S2P Require Import Prelude CxxText CxxTextProps CxxFloat Backend LlamaProtocol LlamaProtocolProps.
From S2P Require Import JsonProps LlamaStream Http HttpProps HttpTheorems ScriptedNet LlamaServer.

(** ** Batches *)

Section Batch.
Context {W : Type} `{Host W} `{Sockets W} (fuel : nat).

(** A request that is served: its own body is posted to the configured URL, the
    call was not cancelled, the response is accepted and holds a completion that
    is not empty, and the answer is made from that completion. *)
Inductive served (b : LlamaServerBackend) (batch_size : Z) (w : W) (request : BackendRequest)
    : string * metadata_map → W → Prop :=
| served_by started response now w1 w2 w3 w4 w5 :
    is_cancelled w = (false, w1) →
    steady_now w1 = (started, w2) →
    HttpPostJson fuel (ParseHttpUrl (server_url_ b))
      (BuildLlamaServerRequestBody (prompt request) (max_tokens_ b) (temperature_ b)
         (cache_prompt_ b) (stream_ b) (timings_per_token_ b)) (timeout_ms_ b) w2
      = Some (response, w3) →
    steady_now w3 = (now, w4) →
    is_cancelled w4 = (false, w5) →
    error response ≠ "cancelled" →
    response_ok response = true →
    let c := ParseLlamaServerCompletion (body response) (stream_ b) in
    content c ≠ EmptyString →
    served b batch_size w request
      (server_output b (stream_ b) (prompt request) batch_size (elapsed_micros started now) response c,
       server_metadata b (stream_ b) (prompt request) response c) w5.

Lemma server_request_step b n request acc (w : W) step w' :
  server_request fuel b (ParseHttpUrl (server_url_ b)) n request acc w = Some (step, w') →
  match step with
  | inl r => failed_result r
  | inr acc' => ∃ x, acc' = push_answer x acc ∧ served b n w request x w'
  end.
Proof.
  unfold server_request. rewrite and_then_Some. intros (cancelled & w1 & E1 & Hrun).
  apply ask_Some in E1. destruct cancelled; [injection Hrun as <- <-; by left|].
  apply and_then_Some in Hrun as (started & w2 & E2%ask_Some & Hrun).
  apply and_then_Some in Hrun as (response & w3 & E3 & Hrun).
  apply and_then_Some in Hrun as (now & w4 & E4%ask_Some & Hrun).
  apply and_then_Some in Hrun as (cancelled & w5 & E5%ask_Some & Hrun).
  destruct (cancelled || _) eqn:Hc; [injection Hrun as <- <-; by left|].
  apply orb_false_iff in Hc as [-> Hc]. to_prop.
  destruct (response_ok response) eqn:Hok; simpl in Hrun; [|injection Hrun as <- <-; by right].
  destruct (is_empty _) eqn:He; injection Hrun as <- <-; [by right|].
  apply is_empty_false in He. eexists. split; [|by econstructor]. done.
Qed.

Lemma LlamaServer_answers b requests (w : W) r b' w' :
  LlamaServer_ProcessBatch fuel b requests w = Some ((r, b'), w') →
  b' = b ∧ (failed_result r ∨
    answers_in_turn (served b (to_int (zlen requests))) (is_cancelled w).2 requests r w').
Proof.
  unfold LlamaServer_ProcessBatch. rewrite and_then_Some. intros (cancelled & w1 & E1%ask_Some & Hrun).
  rewrite E1. destruct cancelled; [injection Hrun as <- <- <-; split; [done|by left; left]|].
  destruct (negb _); [injection Hrun as <- <- <-; split; [done|by left; right]|].
  apply and_then_Some in Hrun as (result & w2 & Hrun & Hdone). injection Hdone as <- <- <-.
  split; [done|]. eapply for_requests_answers; [apply server_request_step|exact Hrun].
Qed.

#[export, refine] Instance LlamaServer_spec : @BackendSpec LlamaServerBackend W (LlamaServer_backend fuel) := {|
  backend_inv _ := True;
|}.
Proof.
  intros b requests w r b' w' _ [-> Hr]%LlamaServer_answers. split_and!; [|done..].
  destruct Hr as [?|?]; [by apply failed_result_for|by eapply (answers_in_turn_result _ _ requests)].
Defined.

Lemma server_stream_result emit b request (w : W) r w' :
  server_stream fuel emit b request w = Some (r, w') → stream_result r.
Proof.
  intros Hrun. unfold server_stream in Hrun.
  repeat match goal with
  | E : and_then _ _ _ = Some _ |- _ => apply and_then_Some in E as (? & ? & _ & E)
  | E : (if ?b then _ else _) _ = Some _ |- _ => destruct b
  | E : (let 'pair _ _ := ?p in _) _ = Some _ |- _ => destruct p
  | E : done_with _ _ = Some _ |- _ => injection E as <- <-
  end; done.
Qed.

#[export] Instance LlamaServer_streaming_spec :
  @StreamingSpec LlamaServerBackend W (LlamaServer_backend fuel) (LlamaServer_streaming fuel) LlamaServer_spec.
Proof.
  constructor. intros emit b request w r b' w' Hb Hrun.
  change (LlamaServer_ProcessStream fuel emit b request w = Some ((r, b'), w')) in Hrun.
  unfold LlamaServer_ProcessStream in Hrun.
  destruct (negb _); [by eapply (@default_ProcessStream_result _ _ _ LlamaServer_spec)|].
  apply and_then_Some in Hrun as (res & w1 & Hs & Hrun). injection Hrun as <- <- <-.
  by apply server_stream_result in Hs.
Qed.
End Batch.

Lemma LlamaServer_defined {W} `{Host W} `{RecvSpec W} fuel b requests :
  (Z.to_nat max_response + 2 ≤ fuel)%nat → returns (W := W) (LlamaServer_ProcessBatch fuel b requests).
Proof.
  intros Hf. unfold LlamaServer_ProcessBatch. returns_tac.
  apply for_requests_returns. intros request acc. unfold server_request.
  pose proof (HttpPostJson_ends fuel). returns_tac.
Qed.

(** C12: a batch always returns, within the reception limits of the client: it
    fails with a reason, or its requests were posted in turn, each its own body to
    the configured URL, and each has the output and the metadata of a nonempty
    completion read from the response to it, which was accepted. *)
Theorem LlamaServer_batch {W} `{Host W} `{RecvSpec W} fuel b requests (w : W) :
  (Z.to_nat max_response + 2 ≤ fuel)%nat →
  ∃ r w', LlamaServer_ProcessBatch fuel b requests w = Some ((r, b), w') ∧
    (failed_result r ∨
     answers_in_turn (served fuel b (to_int (zlen requests))) (is_cancelled w).2 requests r w').
Proof.
  intros Hf. destruct (LlamaServer_defined fuel b requests Hf w) as ([r b'] & w' & Hrun).
  apply LlamaServer_answers in Hrun as Hr. destruct Hr as [-> Hr]. eauto.
Qed.

(** ** Streams *)

Section Stream.
Context {W : Type} `{Host W} `{Sockets W} (fuel : nat).
Context (events : W → list BackendStreamEvent) `{!Unaffected events}.
Context (emit : BackendStreamEvent → M W bool).
Context (Hemit : ∀ e w b w', emit e w = Some (b, w') → events w' = events w ++ [e]).

(** The events of a stream that was relayed: the tokens, numbered from 0. *)
Definition token_events (log : list BackendStreamEvent) : Prop :=
  ∀ n e, log !! n = Some e →
    event_type e = "token" ∧ metadata e !! "token_index" = Some (to_string (Z.of_nat n)) ∧
    metadata e !! "delta_chars" = Some (to_string (size_of (delta e))).

(** What the client has received, given the result of the call. *)
Definition relayed (b : LlamaServerBackend) (request : BackendRequest) (r : BackendResult)
    (log : list BackendStreamEvent) : Prop :=
  ∃ tokens, token_events tokens ∧
  match code r with
  | kOk => ∃ response duration c m, content c = deltas tokens ∧ content c ≠ EmptyString ∧
      let out := server_output b true (prompt request) 1 duration response c in
      outputs r = [out] ∧ output_metadata r = [m] ∧
      log = tokens ++ [mkBackendStreamEvent "done" EmptyString out m]
  | _ => failed_result r ∧
      (log = tokens ∨ ∃ e, r = CancelledResult ∧ event_type e = "done" ∧ log = tokens ++ [e])
  end.

Lemma relayed_failed b request r st log : log_ok st log → failed_result r → relayed b request r log.
Proof.
  intros [_ _ He] Hr. exists log. split; [exact He|].
  assert (Hc : code r ≠ kOk) by (destruct Hr as [->|Hr]; [done|congruence]).
  destruct (code r); auto. done.
Qed.

Lemma stream_relays b request w r b' w' :
  events w = [] → stream_ b = true →
  LlamaServer_ProcessStream fuel emit b request w = Some ((r, b'), w') →
  relayed b request r (events w').
Proof using Hemit Unaffected0.
  intros Hw Hs. unfold LlamaServer_ProcessStream. rewrite Hs. cbn [negb].
  rewrite and_then_Some. intros (result & w0 & Hrun & Hdone). injection Hdone as -> <- ->.
  assert (H0ok : log_ok initial_stream (events w)) by (rewrite Hw; by constructor).
  unfold server_stream in Hrun.
  apply and_then_Some in Hrun as (cancelled & w1 & E1 & Hrun).
  apply (is_cancelled_keeps (obs:=events)) in E1. rewrite <- E1 in H0ok.
  destruct cancelled; [injection Hrun as <- <-; eapply relayed_failed; [done|by left]|].
  destruct (negb _); [injection Hrun as <- <-; eapply relayed_failed; [done|by right]|].
  apply and_then_Some in Hrun as (started & w2 & E2 & Hrun).
  apply (steady_now_keeps (obs:=events)) in E2. rewrite <- E2 in H0ok.
  apply and_then_Some in Hrun as ([response st] & w3 & Hpost & Hrun).
  apply (HttpPostJsonStream_keeps (obs:=events) _ log_ok) in Hpost; [|intros; by eapply on_body_log|done].
  apply and_then_Some in Hrun as (now & w4 & E4 & Hrun).
  apply (steady_now_keeps (obs:=events)) in E4. rewrite <- E4 in Hpost.
  apply and_then_Some in Hrun as (cancelled & w5 & E5 & Hrun).
  apply (is_cancelled_keeps (obs:=events)) in E5. rewrite <- E5 in Hpost.
  destruct (_ || _); [injection Hrun as <- <-; eapply relayed_failed; [done|by left]|].
  destruct (negb _); [injection Hrun as <- <-; eapply relayed_failed; [done|by right]|].
  apply and_then_Some in Hrun as ([go st1] & w6 & Hfin & Hrun).
  eapply finish_stream_log in Hfin; [|done..].
  destruct (negb go); [injection Hrun as <- <-; eapply relayed_failed; [done|by left]|].
  destruct (is_empty _) eqn:He; [injection Hrun as <- <-; eapply relayed_failed; [done|by right]|].
  apply is_empty_false in He. apply and_then_Some in Hrun as (written & w7 & E7%Hemit & Hrun).
  destruct Hfin as [Hcontent _ Hevents]. exists (events w6). split; [exact Hevents|].
  destruct written; injection Hrun as <- <-; simpl.
  - by do 4 eexists.
  - split; [by left|]. right. eexists. split_and!; [done| |exact E7]. done.
Qed.
(** A stream is relayed faithfully: the client gets numbered tokens and, if
    the call succeeds, a last event [done] whose result is the one output, made
    from the text that the tokens add up to; if it does not succeed there are
    only tokens, or the client has refused the last event. *)
Theorem LlamaServer_stream_relays b request w r b' w' :
  events w = [] → stream_ b = true →
  LlamaServer_ProcessStream fuel emit b request w = Some ((r, b'), w') →
  relayed b request r (events w').
Proof using Hemit Unaffected0. apply stream_relays. Qed.
End Stream.

(** ** On the scripted network *)

Definition demo_server : LlamaServerBackend :=
  make_LlamaServerBackend "http://127.0.0.1:8081/completion" 128 (Float32.of_Z 0) 30000 true true false.

Definition demo_request : BackendRequest := mkBackendRequest "r1" "hello" "t1".

(** A token of the server's stream *)
Definition token_line (text : string) : string :=
  "data: " +:+ object_with "content" text "}" +:+ char newline.

Definition demo_answer : string := http_answer "200 OK" (token_line "one" +:+ token_line " two").

(** A stream that breaks off is reported as complete: when the server stops
    answering in the middle of the body, the client of [ProcessStream] marks the
    response with an error but leaves it accepted, and the call succeeds with
    the text received so far, whereas the same answer makes [HttpPostJson] fail. *)
Theorem broken_stream_is_ok :
  let w := net_of demo_answer 63 true in
  (∃ r w', LlamaServer_ProcessStream 100 net_emit demo_server demo_request w = Some ((r, demo_server), w') ∧
     code r = kOk ∧ (event_type <$> net_events w') = ["token"; "token"; "done"]) ∧
  (∃ r st w', HttpPostJsonStream (on_body net_emit) 100 demo_url "{}" 30000 initial_stream w
       = Some ((r, st), w') ∧ response_ok r = true ∧ error r = "failed to read response from llama server") ∧
  (∃ r w', HttpPostJson 100 demo_url "{}" 30000 w = Some (r, w') ∧ response_ok r = false).
Proof.
  intros w. split_and!.
  - do 2 eexists. split; [vm_compute; reflexivity|]. split; vm_compute; reflexivity.
  - do 3 eexists. split; [vm_compute; reflexivity|]. split; vm_compute; reflexivity.
  - do 2 eexists. split; vm_compute; reflexivity.
Qed.

Lemma LlamaServer_batch_witness :
  ∃ r w', LlamaServer_ProcessBatch (Z.to_nat max_response + 2) demo_server [demo_request]
      (net_of demo_answer 63 false) = Some ((r, demo_server), w') ∧
    (failed_result r ∨ answers_in_turn (served (Z.to_nat max_response + 2) demo_server 1)
       (is_cancelled (net_of demo_answer 63 false)).2 [demo_request] r w').
Proof.
  apply (LlamaServer_batch (Z.to_nat max_response + 2) demo_server [demo_request]
    (net_of demo_answer 63 false)).
  apply Nat.le_refl.
Defined.

Lemma net_emit_events e w b w' : net_emit e w = Some (b, w') → net_events w' = net_events w ++ [e].
Proof. by intros [= _ <-]. Qed.

Lemma LlamaServer_stream_relays_witness :
  ∃ r w', LlamaServer_ProcessStream 100 net_emit demo_server demo_request (net_of demo_answer 63 false)
      = Some ((r, demo_server), w') ∧ code r = kOk ∧ relayed demo_server demo_request r (net_events w').
Proof.
  assert (Hdemo : ∃ r w', LlamaServer_ProcessStream 100 net_emit demo_server demo_request
      (net_of demo_answer 63 false) = Some ((r, demo_server), w') ∧ code r = kOk)
    by (do 2 eexists; split; [vm_compute; reflexivity|reflexivity]).
  destruct Hdemo as (r & w' & Hrun & Hc). exists r, w'. split; [exact Hrun|]. split; [exact Hc|].
  exact (LlamaServer_stream_relays 100 net_events net_emit net_emit_events demo_server demo_request
    (net_of demo_answer 63 false) r demo_server w' eq_refl eq_refl Hrun).
Defined.
