(* ===== verification/Tokenizer.v ===== *)
(** * Tokens

    The tokenizers of [src/backend/inference_backend.cc], the token hash and the
    key of the prefix cache. *)
From Stdlib Require Import Strings.Ascii.
From stdpp Require Import prelude gmap strings list pretty.
From S2P Require Import Prelude CxxText CxxTextProps.

Definition kTinyLLMVocabSize : Z := 64.

(** A [uint32_t] *)
Definition u32 (n : Z) : Z := n mod 4294967296.

(** One iteration of [HashToken]. *)
Definition hash_step (hash : Z) (c : ascii) : Z := u32 (Z.lxor hash (code c) * 16777619).

Fixpoint hash_from (hash : Z) (s : string) : Z :=
  match s with EmptyString => hash | String c r => hash_from (hash_step hash c) r end.

Definition HashToken (token : string) : Z := hash_from 2166136261 token.

(** The loop of [Tokenize], with the token read so far. *)
Fixpoint tokenize_from (token s : string) : list string :=
  match s with
  | EmptyString => if bool_decide (token = EmptyString) then [] else [token]
  | String c r =>
      if isalnum c then tokenize_from (token +:+ char (tolower c)) r
      else if bool_decide (token = EmptyString) then tokenize_from EmptyString r
      else token :: tokenize_from EmptyString r
  end.

Definition Tokenize (prompt : string) : list string := tokenize_from EmptyString prompt.

Definition token_id (text : string) : Z := 2 + HashToken text mod (kTinyLLMVocabSize - 2).

Definition TokenizeForTinyLLM (prompt : string) : list Z :=
  let token_ids := 0 :: (token_id <$> Tokenize prompt) in
  if (length token_ids =? 1)%nat then token_ids ++ [token_id prompt] else token_ids.

(** [key << ':' << token] for each of the tokens *)
Definition key_tail (tokens : list Z) : string :=
  foldr (λ t s, String colon (to_string t +:+ s)) EmptyString tokens.

Definition PrefixCacheKey (token_ids : list Z) (prefix_cache_tokens : Z) : string :=
  if (prefix_cache_tokens <=? 0) || (zlen token_ids <? prefix_cache_tokens) then EmptyString
  else "tiny_llm" +:+ key_tail (take (Z.to_nat prefix_cache_tokens) token_ids).

(** ** Bounds *)

Lemma hash_from_range hash s : 0 ≤ hash < 2 ^ 32 → 0 ≤ hash_from hash s < 2 ^ 32.
Proof.
  revert hash. induction s as [|c s IH]; intros hash Hh; simpl; [done|].
  apply IH. unfold hash_step, u32. change 4294967296 with (2 ^ 32). apply Z.mod_pos_bound. lia.
Qed.

Lemma HashToken_range s : 0 ≤ HashToken s < 2 ^ 32.
Proof. apply hash_from_range. lia. Qed.

Lemma token_id_range s : 2 ≤ token_id s < kTinyLLMVocabSize.
Proof.
  unfold token_id, kTinyLLMVocabSize. pose proof (Z.mod_pos_bound (HashToken s) (64 - 2)). lia.
Qed.

(** A prompt has no more tokens than characters, but for two. *)
Lemma tokenize_from_length token s :
  (length (tokenize_from token s) ≤ (if bool_decide (token = EmptyString) then 0 else 1) + str_length s)%nat.
Proof.
  revert token. induction s as [|c s IH]; intros token; simpl.
  - by case_bool_decide; simpl; lia.
  - destruct (isalnum c); [specialize (IH (token +:+ char (tolower c)))|specialize (IH EmptyString)].
    + repeat case_bool_decide; lia.
    + rewrite bool_decide_true in IH by done. case_bool_decide; simpl; lia.
Qed.

Lemma TokenizeForTinyLLM_length prompt :
  1 ≤ zlen (TokenizeForTinyLLM prompt) ≤ size_of prompt + 2.
Proof.
  pose proof (tokenize_from_length EmptyString prompt) as Hl. simpl in Hl.
  unfold TokenizeForTinyLLM, Tokenize, size_of. case_bool; rewrite ?length_app, ?length_cons, ?length_fmap;
    simpl; rewrite ?length_fmap; lia.
Qed.

Lemma TokenizeForTinyLLM_vocabulary prompt :
  Forall (λ t, 0 ≤ t < kTinyLLMVocabSize) (TokenizeForTinyLLM prompt).
Proof.
  unfold TokenizeForTinyLLM.
  assert (Hid : ∀ s, 0 ≤ token_id s < kTinyLLMVocabSize) by (intros s; pose proof (token_id_range s); lia).
  assert (H0 : Forall (λ t, 0 ≤ t < kTinyLLMVocabSize) (0 :: (token_id <$> Tokenize prompt))).
  { constructor; [done|]. apply Forall_fmap, Forall_true. intros s. apply Hid. }
  case_bool; [|done]. apply Forall_app. split; [done|]. by constructor.
Qed.

(** The tokens of a prompt are the start token and at least one more, all of
    them in the vocabulary and none of the others special, whatever the bytes
    of the prompt. *)
Theorem TokenizeForTinyLLM_range prompt :
  ∃ t rest, TokenizeForTinyLLM prompt = 0 :: t :: rest ∧
    Forall (λ x, 2 ≤ x < kTinyLLMVocabSize) (t :: rest).
Proof.
  unfold TokenizeForTinyLLM. destruct (Tokenize prompt) as [|t ts]; simpl.
  - do 2 eexists. split; [done|]. repeat constructor; apply token_id_range.
  - do 2 eexists. split; [done|]. constructor; [apply token_id_range|].
    apply Forall_fmap, Forall_true. intros s. apply token_id_range.
Qed.

(** ** What [Tokenize] returns *)

Definition token_char (c : ascii) : bool := isalnum c && negb (isupper c).

Lemma tolower_token c : isalnum c = true → token_char (tolower c) = true.
Proof.
  assert (Hall : forallb (λ n, negb (isalnum (ascii_of_nat n)) ||
    token_char (tolower (ascii_of_nat n))) (seq 0 256) = true) by by vm_compute.
  rewrite forallb_forall in Hall. rewrite <- (ascii_nat_embedding c). intros H.
  specialize (Hall (nat_of_ascii c)). rewrite H in Hall. apply Hall, in_seq.
  pose proof (nat_ascii_bounded c). lia.
Qed.

Lemma token_char_fixed c : token_char c = true → isalnum c = true ∧ tolower c = c.
Proof.
  unfold token_char, tolower. intros [Ha Hu]%andb_true_iff. apply negb_true_iff in Hu. by rewrite Hu.
Qed.

(** A token: a nonempty word of lower-case letters and digits. *)
Definition is_token (t : string) : Prop := t ≠ EmptyString ∧ all_chars token_char t = true.

Lemma tokenize_from_tokens token s :
  all_chars token_char token = true → Forall is_token (tokenize_from token s).
Proof.
  revert token. induction s as [|c s IH]; intros token Ht; simpl.
  - case_bool_decide; constructor; [by split|constructor].
  - destruct (isalnum c) eqn:Hc.
    + apply IH. rewrite all_chars_app, Ht. simpl. by rewrite tolower_token.
    + case_bool_decide; [by apply IH|constructor; [by split|by apply IH]].
Qed.

Lemma tokenize_from_word token t s :
  all_chars token_char t = true → tokenize_from token (t +:+ s) = tokenize_from (token +:+ t) s.
Proof.
  revert token. induction t as [|c t IH]; intros token Ht; [by rewrite sapp_nil_r|].
  simpl in Ht. to_prop. destruct (token_char_fixed c) as [Ha Hl]; [done|].
  simpl. rewrite Ha, Hl, IH by done. by rewrite sapp_assoc.
Qed.

(** Tokens separated by spaces *)
Definition join_tokens (tokens : list string) : string :=
  foldr (λ t s, t +:+ String space s) EmptyString tokens.

(** The tokens of a prompt are nonempty words of lower-case letters and
    digits, and they are a normal form: the prompt that they make up, separated
    by spaces, has the same tokens. *)
Theorem Tokenize_normal_form prompt :
  Forall is_token (Tokenize prompt) ∧ Tokenize (join_tokens (Tokenize prompt)) = Tokenize prompt.
Proof.
  assert (Hall : Forall is_token (Tokenize prompt)) by by apply tokenize_from_tokens.
  split; [done|]. induction Hall as [|t ts [Hne Ht] _ IH]; [done|].
  unfold Tokenize in *. cbn [join_tokens foldr]. fold (join_tokens ts).
  rewrite tokenize_from_word by done. rewrite sapp_nil_l. cbn [tokenize_from].
  change (isalnum space) with false. cbv iota. rewrite bool_decide_false by done. by rewrite IH.
Qed.

(** ** The key of the prefix cache *)

Lemma key_tail_inj l k : length l = length k → key_tail l = key_tail k → l = k.
Proof.
  revert k. induction l as [|x l IH]; intros [|y k] Hlen; simpl in *; try done.
  injection Hlen as Hlen. intros [= Heq].
  assert (Hend : ∀ l, key_tail l = EmptyString ∨ ∃ r, key_tail l = String colon r).
  { intros [|z t]; [by left|right; by eexists]. }
  assert (Hxy : to_string x = to_string y ∧ key_tail l = key_tail k).
  { assert (Hcut : ∀ z t, split_char colon (to_string z +:+ key_tail t) =
      match key_tail t with EmptyString => None | String _ r => Some (to_string z, r) end).
    { intros z t. pose proof (to_string_lacks colon z eq_refl) as Hl.
      destruct (Hend t) as [-> | [r ->]]; [rewrite sapp_nil_r; by apply split_char_None|].
      by apply split_char_app. }
    pose proof (Hcut x l) as Hx. rewrite Heq, Hcut in Hx.
    destruct (Hend l) as [Hl|[r Hl]], (Hend k) as [Hk|[q Hk]]; rewrite Hl, Hk in *; try done.
    - by rewrite !sapp_nil_r in Heq.
    - by injection Hx as -> ->. }
  destruct Hxy as [Hx Hk]. f_equal; [|by apply IH]. by apply (inj pretty).
Qed.

(** C20: the key of the prefix cache is faithful: it is empty exactly when the
    prefix is disabled or longer than the prompt, and otherwise two prompts have
    the same key exactly when they start with the same tokens, so that cached
    blocks are shared only between equal prefixes. *)
Theorem PrefixCacheKey_faithful a b k :
  (PrefixCacheKey a k = EmptyString ↔ k ≤ 0 ∨ zlen a < k) ∧
  (0 < k ≤ zlen a → 0 < k ≤ zlen b →
   (PrefixCacheKey a k = PrefixCacheKey b k ↔ take (Z.to_nat k) a = take (Z.to_nat k) b)).
Proof.
  unfold PrefixCacheKey. split.
  - destruct ((k <=? 0) || _) eqn:E.
    + split; [|done]. intros _. apply orb_true_iff in E. rewrite Z.leb_le, Z.ltb_lt in E. lia.
    + apply orb_false_iff in E. rewrite Z.leb_gt, Z.ltb_ge in E. split; [done|lia].
  - intros Ha Hb.
    assert (E : ∀ l : list Z, 0 < k ≤ zlen l → (k <=? 0) || (zlen l <? k) = false).
    { intros l Hl. apply orb_false_iff. rewrite Z.leb_gt, Z.ltb_ge. lia. }
    rewrite !E by done. split; [|by intros ->]. intros Heq%sapp_inj_l. apply key_tail_inj; [|done].
    rewrite !length_take. lia.
Qed.

Lemma PrefixCacheKey_faithful_witness :
  PrefixCacheKey [0; 7; 9] 2 = PrefixCacheKey [0; 7; 31; 2] 2 ↔ take 2 [0; 7; 9] = take 2 [0; 7; 31; 2].
Proof. apply (PrefixCacheKey_faithful [0; 7; 9] [0; 7; 31; 2] 2); simpl; lia. Defined.
