(* ===== verification/TinyText.v ===== *)
(** * The tiny text model

    [TinyTextModelBackend] of [src/backend/inference_backend.cc]: a prompt is
    turned into features, a recurrent network of fixed weights into four logits,
    and the most likely label is the output.  The elementary functions of the C
    library are those of a [Libm]. *)
From Stdlib Require Import Strings.Ascii Floats.SpecFloat.
From stdpp Require Import prelude gmap strings list.
From S2P Require Import Prelude CxxText CxxFloat Backend Tokenizer Simulator.
Import Float32.

Definition kInputDim : Z := 128.
Definition kHiddenDim : Z := 48.
Definition kLabels : list string := ["latency_sensitive"; "quality_seeking"; "safety_review"; "general"].
Definition kClassCount : Z := 4.

(** Characters of a class *)
Fixpoint count_chars (P : ascii → bool) (s : string) : Z :=
  match s with EmptyString => 0 | String c r => (if P c then 1 else 0) + count_chars P r end.

(** [features[index] += token_scale] *)
Definition add_at (scale : spec_float) (features : list spec_float) (index : Z) : list spec_float :=
  alter (λ x, add x scale) (Z.to_nat index) features.

Definition feature_index (token : string) : Z := 6 + HashToken token mod (kInputDim - 6).

Definition Featurize (prompt : string) : list spec_float :=
  let tokens := Tokenize prompt in
  let token_scale :=
    match tokens with [] => of_Z 1 | _ => div (of_Z 1) (sqrt (of_Z (zlen tokens))) end in
  let length := of_Z (Z.max (size_of prompt) 1) in
  let head :=
    [of_Z 1;
     min (div length (of_Z 256)) (of_Z 1);
     min (div (of_Z (zlen tokens)) (of_Z 64)) (of_Z 1);
     min (div (of_Z (count_chars isupper prompt)) length) (of_Z 1);
     min (div (of_Z (count_chars isdigit prompt)) length) (of_Z 1);
     min (div (of_Z (count_chars ispunct prompt)) length) (of_Z 1)] in
  foldl (add_at token_scale) (head ++ replicate (Z.to_nat (kInputDim - 6)) (S754_zero false))
    (feature_index <$> tokens).

Section Model.
Context `{Libm}.

Definition InputWeight (input hidden : Z) : spec_float :=
  let seed := (input + 17) * 37 + (hidden + 11) * 101 in
  mul (literal 75 3) (sinf (mul (of_Z seed) (literal 17 3))).

Definition RecurrentWeight (row col layer : Z) : spec_float :=
  let seed := (row + 3) * 53 + (col + 5) * 97 + (layer + 1) * 193 in
  mul (literal 55 3) (cosf (mul (of_Z seed) (literal 13 3))).

Definition OutputWeight (hidden klass : Z) : spec_float :=
  let seed := (hidden + 19) * 71 + (klass + 23) * 131 in
  mul (literal 12 2) (sinf (mul (of_Z seed) (literal 11 3))).

Definition Bias (index : Z) (scale : spec_float) : spec_float :=
  mul scale (sinf (mul (of_Z ((index + 1) * 29)) (literal 19 3))).

(** The two loops of [Softmax]. *)
Definition Softmax (logits : list spec_float) : option (list spec_float) :=
  '(_, max_logit) ← max_element logits;
  let exps := (λ value, expf (sub value max_logit)) <$> logits in
  let total := foldl add (S754_zero false) exps in
  Some ((λ value, div value (max total smallest)) <$> exps).

(** The hidden layer from the features. *)
Definition input_layer (features : list spec_float) : list spec_float :=
  tabulate kHiddenDim (λ j,
    tanhf (accumulate (λ i x, mul x (InputWeight i j)) (Bias j (literal 5 2)) features)).

(** The hidden layer after one iteration. *)
Definition recurrent_layer (hidden : list spec_float) (layer : Z) : list spec_float :=
  tabulate kHiddenDim (λ j,
    tanhf (accumulate (λ k x, mul x (RecurrentWeight k j layer)) (Bias (j + layer) (literal 3 2)) hidden)).

Definition output_layer (hidden : list spec_float) : list spec_float :=
  tabulate kClassCount (λ c,
    accumulate (λ j x, mul x (OutputWeight j c)) (Bias c (literal 2 2)) hidden).

Definition FormatTinyModelOutput (label : string) (confidence : spec_float)
    (batch_size iterations : Z) : string :=
  "TinyTextModel(backend=tiny_text_model, label=" +:+ label +:+
  ", confidence=" +:+ fixed 3 confidence +:+
  ", batch_size=" +:+ to_string batch_size +:+
  ", iterations=" +:+ to_string iterations +:+ ")".

Record TinyTextModelBackend := mkTinyText { iterations_ : Z }.

(** The constructor. *)
Definition make_TinyTextModelBackend (iterations : Z) : TinyTextModelBackend :=
  mkTinyText (CxxText.clamp iterations 1 1024).

Section Batch.
Context {W : Type} `{Host W}.

(** The loop over the layers: [None] when it is cancelled. *)
Fixpoint run_layers (n : nat) (layer : Z) (hidden : list spec_float) : M W (option (list spec_float)) :=
  match n with
  | O => done_with (Some hidden)
  | S n =>
      let* cancelled := ask is_cancelled in
      if cancelled then done_with None else run_layers n (layer + 1) (recurrent_layer hidden layer)
  end.

(** The last part of an iteration over the requests. *)
Definition classify (hidden : list spec_float) : option (string * spec_float) :=
  probabilities ← Softmax (output_layer hidden);
  '(label_index, best) ← max_element probabilities;
  label ← kLabels !! label_index;
  Some (label, best).

Definition tiny_text_request (b : TinyTextModelBackend) (batch_size : Z)
    (request : BackendRequest) (result : BackendResult) : M W (BackendResult + BackendResult) :=
  let* cancelled := ask is_cancelled in
  if cancelled then done_with (inl CancelledResult)
  else
    let* hidden :=
      run_layers (Z.to_nat (iterations_ b)) 0 (input_layer (Featurize (prompt request))) in
    match hidden with
    | None => done_with (inl CancelledResult)
    | Some hidden =>
        let* '(label, best) := of_option (classify hidden) in
        done_with (inr (push_output
          (FormatTinyModelOutput label best batch_size (iterations_ b)) result))
    end.

Definition TinyText_ProcessBatch (b : TinyTextModelBackend) (requests : list BackendRequest)
    : M W (BackendResult * TinyTextModelBackend) :=
  let* cancelled := ask is_cancelled in
  if cancelled then done_with (CancelledResult, b)
  else
    let* result :=
      for_requests (tiny_text_request b (to_int (zlen requests))) requests empty_result in
    done_with (result, b).

#[export] Instance TinyText_backend : InferenceBackend TinyTextModelBackend W := {|
  Name _ := "tiny_text_model";
  ProcessBatch := TinyText_ProcessBatch;
|}.
#[export] Instance TinyText_streaming : StreamingBackend TinyTextModelBackend W := {|
  ProcessStream := default_ProcessStream;
|}.
End Batch.
End Model.
