(* ===== verification/TinyLLM.v ===== *)
(** * The tiny language model

    The deterministic language model of [src/backend/inference_backend.cc] and
    the backend [TinyLLMBackend] that runs it, one request after the other.  The
    elementary functions of the C library are those of a [Libm]. *)
From Stdlib Require Import Strings.Ascii Floats.SpecFloat.
From stdpp Require Import prelude gmap strings list.
From S2P Require Import Prelude CxxText CxxFloat Backend Tokenizer.
Import Float32.

Definition kTinyLLMHiddenDim : Z := 32.

Definition kTinyLLMVocabulary : list string :=
  ["<bos>"; "<eos>"; "batching"; "latency";
   "throughput"; "queue"; "worker"; "trace";
   "token"; "prefill"; "decode"; "attention";
   "cache"; "runtime"; "model"; "adaptive";
   "system"; "request"; "response"; "metric";
   "collector"; "span"; "grpc"; "http";
   "onnx"; "scheduler"; "load"; "failure";
   "circuit"; "prompt"; "context"; "generation";
   "quality"; "safe"; "fast"; "deterministic";
   "serve"; "inference"; "pipeline"; "parallel";
   "microbatch"; "tail"; "p50"; "p95";
   "tokenizer"; "embedding"; "logit"; "sample";
   "topk"; "temperature"; "hidden"; "layer";
   "position"; "causal"; "benchmark"; "evidence";
   "local"; "hermetic"; "control"; "data";
   "engine"; "memory"; "compute"; "finish"].

Abbreviation vector := (list spec_float).

(** [v[i]], for an index in range *)
Definition at_index (v : vector) (i : Z) : spec_float := default (S754_zero false) (v !! Z.to_nat i).

(** [a[dim] + b[dim]] for every dimension, and the like *)
Abbreviation zero_vector := (replicate (Z.to_nat kTinyLLMHiddenDim) (S754_zero false)).

Section Model.
Context `{Libm}.

Definition TinyLLMEmbedding (token_id dim : Z) : spec_float :=
  let seed := (token_id + 7) * 131 + (dim + 3) * 17 in
  mul (literal 5 1) (sinf (mul (of_Z seed) (literal 31 3))).

Definition TinyLLMProjection (row col salt : Z) : spec_float :=
  let seed := (row + 5) * 73 + (col + 11) * 41 + salt * 149 in
  sinf (mul (of_Z seed) (literal 17 3)).

Definition TinyLLMInputState (token_id position : Z) : vector :=
  tabulate kTinyLLMHiddenDim (λ dim,
    let position_signal :=
      mul (literal 25 2) (sinf (mul (of_Z ((position + 1) * (dim + 1))) (literal 71 3))) in
    add (TinyLLMEmbedding token_id dim) position_signal).

Definition Dot (lhs rhs : vector) (salt : Z) : spec_float :=
  accumulate (λ dim x, mul (mul x (at_index rhs dim))
    (add (literal 75 2) (mul (literal 25 2) (TinyLLMProjection dim salt 1)))) (S754_zero false) lhs.

(** The score of the state at position [i]. *)
Definition attention_score (query : vector) (count i : Z) (state : vector) : spec_float :=
  let distance_penalty := mul (literal 15 3) (of_Z (count - i)) in
  sub (div (Dot query state i) (sqrt (of_Z kTinyLLMHiddenDim))) distance_penalty.

(** [context[dim] += weight * state[dim]] *)
Definition add_weighted (weight : spec_float) (context state : vector) : vector :=
  zip_with (λ c x, add c (mul weight x)) context state.

Definition attention_context (query : vector) (previous_states : list vector) : vector :=
  match previous_states with
  | [] => zero_vector
  | _ =>
      let scores :=
        imap (λ i, attention_score query (zlen previous_states) (Z.of_nat i)) previous_states in
      let max_score := foldl max (S754_infinity true) scores in
      let exps := (λ score, expf (sub score max_score)) <$> scores in
      let total := max (foldl add (S754_zero false) exps) smallest in
      foldl (λ context '(score, state), add_weighted (div score total) context state)
        zero_vector (zip exps previous_states)
  end.

(** [hidden = 0; hidden < kTinyLLMHiddenDim; hidden += 4] *)
Definition every_fourth : list Z := (λ n : nat, 4 * Z.of_nat n) <$> seq 0 (Z.to_nat (kTinyLLMHiddenDim / 4)).

Definition feed_forward (query context : vector) (dim : Z) : spec_float :=
  foldl (λ ff hidden,
    add (add ff (mul (at_index query hidden) (TinyLLMProjection hidden dim 2)))
        (mul (at_index context hidden) (TinyLLMProjection hidden dim 3)))
    (S754_zero false) every_fourth.

Definition TinyLLMNextState (token_id position : Z) (previous_states : list vector) : vector :=
  let query := TinyLLMInputState token_id position in
  let context := attention_context query previous_states in
  tabulate kTinyLLMHiddenDim (λ dim,
    tanhf (add (add (mul (literal 58 2) (at_index query dim)) (mul (literal 37 2) (at_index context dim)))
             (mul (literal 5 2) (feed_forward query context dim)))).

Definition TinyLLMLogits (state : vector) (temperature : spec_float) : vector :=
  let safe_temperature := max temperature (literal 5 2) in
  tabulate kTinyLLMVocabSize (λ token,
    let logit := accumulate
      (λ dim x, mul (mul x (TinyLLMProjection dim token 5)) (literal 15 2))
      (mul (literal 2 2) (sinf (mul (of_Z (token + 1)) (literal 37 2)))) state in
    div (if token <? 2 then sub logit (of_Z 1) else logit) safe_temperature).

(** The comparator of [TinyLLMSelectToken]. *)
Definition ranks_before (lhs rhs : spec_float * Z) : bool :=
  if eqb lhs.1 rhs.1 then lhs.2 <? rhs.2 else ltb rhs.1 lhs.1.

(** [ranked] before it is sorted *)
Definition candidates (logits : vector) : list (spec_float * Z) :=
  (λ token : nat, (at_index logits (Z.of_nat token), Z.of_nat token))
    <$> seq 2 (Z.to_nat kTinyLLMVocabSize - 2).

(** The first [top_k] elements of [ranked] are sorted and [offset] is the index
    of one of them.  The comparator orders numbers only, and the order of the
    elements beyond [top_k] is not specified: [None] for the rest. *)
Definition TinyLLMSelectToken (logits : vector) (top_k seed step : Z) : option Z :=
  let ranked := candidates logits in
  if (top_k <? 1) || negb (forallb (λ p, is_number p.1) ranked) then None
  else
    let capped_top_k := CxxText.clamp top_k 1 (zlen ranked) in
    let offset := u32 (seed + u32 (step * 17)) mod capped_top_k in
    snd <$> std_sort ranks_before ranked !! Z.to_nat offset.

Fixpoint join_words (tokens : list Z) : option string :=
  match tokens with
  | [] => Some EmptyString
  | t :: rest =>
      word ← vec_at kTinyLLMVocabulary t;
      words ← join_words rest;
      Some (String space (word +:+ words))
  end.

Definition JoinGeneratedTokens (token_ids : list Z) : option string :=
  match token_ids with
  | [] => Some EmptyString
  | t :: rest =>
      word ← vec_at kTinyLLMVocabulary t;
      words ← join_words rest;
      Some (word +:+ words)
  end.

Definition FormatTinyLLMOutput (generated : string)
    (prompt_tokens generated_tokens prefill_micros decode_micros batch_size
     max_generated_tokens top_k : Z) (temperature : spec_float) : string :=
  "TinyLLM(backend=tiny_llm, generated='" +:+ generated +:+
  "', prompt_tokens=" +:+ to_string prompt_tokens +:+
  ", generated_tokens=" +:+ to_string generated_tokens +:+
  ", prefill_micros=" +:+ to_string prefill_micros +:+
  ", decode_micros=" +:+ to_string decode_micros +:+
  ", batch_size=" +:+ to_string batch_size +:+
  ", max_generated_tokens=" +:+ to_string max_generated_tokens +:+
  ", top_k=" +:+ to_string top_k +:+
  ", temperature=" +:+ fixed 3 temperature +:+ ")".

Record TinyLLMGeneration := mkTinyLLMGeneration {
  gen_text : string;
  gen_prompt_tokens : Z;
  gen_generated_tokens : Z;
  gen_prefill_micros : Z;
  gen_decode_micros : Z;
}.

Record TinyLLMBackend := mkTinyLLM {
  max_generated_tokens_ : Z;
  temperature_ : spec_float;
  top_k_ : Z;
}.

(** The constructor. *)
Definition make_TinyLLMBackend (max_generated_tokens : Z) (temperature : spec_float) (top_k : Z)
    : TinyLLMBackend :=
  mkTinyLLM (CxxText.clamp max_generated_tokens 1 64) (clamp temperature (literal 5 2) (of_Z 2))
    (CxxText.clamp top_k 1 (kTinyLLMVocabSize - 2)).

Section Generation.
Context {W : Type} `{Host W}.

(** The loop of [TinyLLMPrefill]; no state when it is cancelled. *)
Fixpoint prefill_from (position : Z) (token_ids : list Z) (states : list vector)
    : M W (list vector) :=
  match token_ids with
  | [] => done_with states
  | token :: rest =>
      let* cancelled := ask is_cancelled in
      if cancelled then done_with []
      else prefill_from (position + 1) rest (states ++ [TinyLLMNextState token (to_int position) states])
  end.

Definition TinyLLMPrefill (token_ids : list Z) : M W (list vector) := prefill_from 0 token_ids [].

(** The decoding loop of [GenerateTinyLLMCompletion] and of
    [TinyLLMBackend::ProcessBatch], from [step] on: [None] when it is cancelled,
    else [generated_ids]. *)
Fixpoint decode_from (n : nat) (step : Z) (temperature : spec_float) (top_k seed : Z)
    (token_ids generated_ids : list Z) (states : list vector) : M W (option (list Z)) :=
  match n with
  | O => done_with (Some generated_ids)
  | S n =>
      let* cancelled := ask is_cancelled in
      if cancelled then done_with None
      else
        let* back := of_option (last states) in
        let* next_token :=
          of_option (TinyLLMSelectToken (TinyLLMLogits back temperature) top_k seed step) in
        let token_ids := token_ids ++ [next_token] in
        let state := TinyLLMNextState next_token (to_int (zlen token_ids - 1)) states in
        decode_from n (step + 1) temperature top_k seed token_ids
          (generated_ids ++ [next_token]) (states ++ [state])
  end.

Definition GenerateTinyLLMCompletion (prompt : string) (max_generated_tokens : Z)
    (temperature : spec_float) (top_k : Z) : M W TinyLLMGeneration :=
  let token_ids := TokenizeForTinyLLM prompt in
  let prompt_tokens := to_int (zlen token_ids) in
  let* prefill_start := ask steady_now in
  let* states := TinyLLMPrefill token_ids in
  let* prefill_end := ask steady_now in
  let prefill_micros := elapsed_micros prefill_start prefill_end in
  let generation := mkTinyLLMGeneration EmptyString prompt_tokens 0 prefill_micros 0 in
  let* cancelled := ask is_cancelled in
  if cancelled || bool_decide (states = []) then done_with generation
  else
    let* decode_start := ask steady_now in
    let* decoded := decode_from (Z.to_nat max_generated_tokens) 0 temperature top_k
      (HashToken prompt) token_ids [] states in
    match decoded with
    | None => done_with generation
    | Some generated_ids =>
        let* decode_end := ask steady_now in
        let* text := of_option (JoinGeneratedTokens generated_ids) in
        done_with (mkTinyLLMGeneration text prompt_tokens (to_int (zlen generated_ids))
          prefill_micros (elapsed_micros decode_start decode_end))
    end.

(** One iteration of the loop of [TinyLLMBackend::ProcessBatch]; its number of
    prompt tokens, [token_ids.size() - generated_ids.size()] after the decoding,
    is the number of [token_ids] before it. *)
Definition tiny_llm_request (b : TinyLLMBackend) (batch_size : Z)
    (request : BackendRequest) (result : BackendResult) : M W (BackendResult + BackendResult) :=
  let* cancelled := ask is_cancelled in
  if cancelled then done_with (inl CancelledResult)
  else
    let token_ids := TokenizeForTinyLLM (prompt request) in
    let* prefill_start := ask steady_now in
    let* states := TinyLLMPrefill token_ids in
    let* prefill_end := ask steady_now in
    let* cancelled := ask is_cancelled in
    if cancelled then done_with (inl CancelledResult)
    else if bool_decide (states = []) then done_with (inl CancelledResult)
    else
      let* decode_start := ask steady_now in
      let* decoded := decode_from (Z.to_nat (max_generated_tokens_ b)) 0 (temperature_ b) (top_k_ b)
        (HashToken (prompt request)) token_ids [] states in
      match decoded with
      | None => done_with (inl CancelledResult)
      | Some generated_ids =>
          let* decode_end := ask steady_now in
          let* text := of_option (JoinGeneratedTokens generated_ids) in
          done_with (inr (push_output
            (FormatTinyLLMOutput text (to_int (zlen token_ids)) (to_int (zlen generated_ids))
              (elapsed_micros prefill_start prefill_end) (elapsed_micros decode_start decode_end)
              batch_size (max_generated_tokens_ b) (top_k_ b) (temperature_ b)) result))
      end.

Definition TinyLLM_ProcessBatch (b : TinyLLMBackend) (requests : list BackendRequest)
    : M W (BackendResult * TinyLLMBackend) :=
  let* cancelled := ask is_cancelled in
  if cancelled then done_with (CancelledResult, b)
  else
    let* result :=
      for_requests (tiny_llm_request b (to_int (zlen requests))) requests empty_result in
    done_with (result, b).

#[export] Instance TinyLLM_backend : InferenceBackend TinyLLMBackend W := {|
  Name _ := "tiny_llm";
  ProcessBatch := TinyLLM_ProcessBatch;
|}.
#[export] Instance TinyLLM_streaming : StreamingBackend TinyLLMBackend W := {|
  ProcessStream := default_ProcessStream;
|}.
End Generation.
End Model.
