(* ===== verification/TinyLLMBounds.v ===== *)
(** * The numbers of the tiny language model

    Hidden states stay in [-1, 1] and logits are numbers, for any elementary
    functions within their documented ranges, as long as there are at most
    [max_positions] states: a message of 4 MiB has fewer tokens. *)
From Stdlib Require Import ZArith Lia Floats.SpecFloat.
From stdpp Require Import prelude list.
From S2P Require Import Prelude CxxText CxxFloat FloatRounding FloatBounds FloatLibm Tokenizer TinyLLM.
Import Float32.

Definition max_positions : Z := 2 ^ 23.

(** A hidden state *)
Definition hidden_ok (v : vector) : Prop := Forall (within 1) v ∧ zlen v = kTinyLLMHiddenDim.

Lemma Forall_tabulate {A} (P : A → Prop) n f : (∀ i, 0 ≤ i < n → P (f i)) → Forall P (tabulate n f).
Proof.
  intros HP. unfold tabulate. apply Forall_fmap, Forall_forall. intros i Hi%elem_of_seq. apply HP. lia.
Qed.

Lemma zlen_tabulate {A} n (f : Z → A) : 0 ≤ n → zlen (tabulate n f) = n.
Proof. intros. rewrite length_tabulate. lia. Qed.

Lemma at_index_within b v i : 0 ≤ b → Forall (within b) v → within b (at_index v i).
Proof.
  intros Hb Hv. unfold at_index. destruct (v !! Z.to_nat i) as [x|] eqn:E; simpl.
  - rewrite Forall_forall in Hv. by eapply Hv, list_elem_of_lookup_2.
  - split; [by split|]. simpl. assert (0 < one_units) by done. nia.
Qed.

(** Multiplication by a constant of at most 1 *)
Lemma scaled_within b c x : within 1 c → within b x → bound_ok b → within b (mul c x).
Proof. intros Hc Hx Hb. rewrite <- (Z.mul_1_l b). by apply within_mul; rewrite ?Z.mul_1_l. Qed.

Ltac known := apply withinb_spec; by vm_compute.
Ltac bound := first [apply bound_ok_small; lia | by apply (bound_ok_shift 1); lia].

Section Bounds.
Context `{LibmSpec}.

(** *** Weights *)

(** The sine of a seed, which is an [int], times a constant *)
Lemma sin_seed n c : INT_MIN ≤ n ≤ INT_MAX → within 1 c → within 1 (sinf (mul (of_Z n) c)).
Proof.
  intros Hn Hc. apply sinf_spec.
  assert (Hb : bound_ok (1 * 2 ^ 31)) by (apply bound_ok_shift; lia).
  assert (Hw : within (1 * 2 ^ 31) (of_Z n)).
  { apply within_of_Z; [|done]. unfold INT_MIN, INT_MAX in Hn. lia. }
  apply (within_mul _ 1 _ _ Hw Hc). by rewrite Z.mul_1_r.
Qed.

Lemma embedding_within t dim : 0 ≤ t < 64 → 0 ≤ dim < 64 → within 1 (TinyLLMEmbedding t dim).
Proof.
  intros. unfold TinyLLMEmbedding. apply scaled_within; [known| |bound].
  apply sin_seed; [unfold INT_MIN, INT_MAX; lia|known].
Qed.

Lemma projection_within row col salt :
  0 ≤ row < 64 → 0 ≤ col ≤ max_positions → 0 ≤ salt < 64 → within 1 (TinyLLMProjection row col salt).
Proof.
  unfold max_positions. intros. apply sin_seed; [unfold INT_MIN, INT_MAX; lia|known].
Qed.

Lemma input_state_ok t p :
  0 ≤ t < 64 → 0 ≤ p ≤ max_positions →
  Forall (within 2) (TinyLLMInputState t p) ∧ zlen (TinyLLMInputState t p) = kTinyLLMHiddenDim.
Proof.
  unfold max_positions. intros Ht Hp. split; [|by apply zlen_tabulate].
  apply Forall_tabulate. intros dim Hd. unfold kTinyLLMHiddenDim in Hd.
  apply (within_add 1 1); [|apply scaled_within; [known| |bound]|bound].
  - apply embedding_within; lia.
  - apply sin_seed; [unfold INT_MIN, INT_MAX; nia|known].
Qed.

(** *** Attention *)

Lemma dot_within q s i :
  Forall (within 2) q → zlen q = kTinyLLMHiddenDim → hidden_ok s → 0 ≤ i ≤ max_positions →
  within 128 (Dot q s i).
Proof.
  intros Hq Hlen [Hs _] Hi. rewrite Forall_forall in Hq. unfold Dot.
  replace 128 with ((0 + zlen q) * 4) by (rewrite Hlen; done).
  apply (within_accumulate 4 _ _ 0 _ 0 2); [done|lia|known|done|rewrite Hlen; done|].
  intros j x Hj. pose proof (lookup_lt_Some _ _ _ Hj) as Hlt.
  unfold kTinyLLMHiddenDim in Hlen. rewrite Z.add_0_l.
  apply (within_mul 2 2); [apply (within_mul 2 1)|apply (within_add 1 1)|]; try bound.
  - by eapply Hq, list_elem_of_lookup_2.
  - by apply at_index_within.
  - known.
  - apply scaled_within; [known| |bound]. apply projection_within; lia.
Qed.

Lemma score_within q n i s :
  Forall (within 2) q → zlen q = kTinyLLMHiddenDim → hidden_ok s → 0 ≤ i < n → n ≤ max_positions →
  within (2 ^ 24) (attention_score q n i s).
Proof.
  unfold max_positions. intros Hq Hlen Hs Hi Hn. unfold attention_score.
  apply (within_weaken (128 + 2 ^ 23)); [|lia]. apply within_sub; [| |bound].
  - apply (within_div 128 0); [|by vm_compute|lia|by vm_compute|bound].
    apply dot_within; [done..|]. unfold max_positions. lia.
  - apply scaled_within; [known| |bound]. apply within_of_Z; [lia|bound].
Qed.

Definition columns_ok (n : Z) (context : vector) : Prop :=
  Forall (within n) context ∧ zlen context = kTinyLLMHiddenDim.

Lemma add_weighted_ok n w context s :
  within 1 w → columns_ok n context → hidden_ok s → 0 ≤ n → n + 1 ≤ 2 ^ 24 →
  columns_ok (n + 1) (add_weighted w context s).
Proof.
  intros Hw [Hc Hlc] [Hs Hls] Hn Hmax. unfold columns_ok, add_weighted. split; [|rewrite length_zip_with; lia].
  apply Forall_lookup. intros i x Hx. rewrite lookup_zip_with in Hx.
  destruct (context !! i) as [c|] eqn:Ec; [|done]. destruct (s !! i) as [y|] eqn:Ey; [|done].
  injection Hx as <-. rewrite Forall_lookup in Hc, Hs.
  apply within_add; [by eapply Hc| |bound]. apply scaled_within; [done|by eapply Hs|bound].
Qed.

Lemma weighted_sum_ok total exps states context n :
  Forall (λ e, within 1 (div e total)) exps → Forall hidden_ok states → columns_ok n context → 0 ≤ n →
  n + zlen exps ≤ 2 ^ 24 →
  columns_ok (n + zlen exps)
    (foldl (λ context '(score, state), add_weighted (div score total) context state)
       context (zip exps states)).
Proof.
  intros He. revert states context n. induction He as [|e exps He Hes IH]; intros states context n Hs Hc Hn Hlen.
  { simpl. by rewrite Z.add_0_r. }
  assert (Hweak : ∀ m, n ≤ m → columns_ok m context).
  { intros m Hm. split; [|apply Hc]. eapply Forall_impl; [apply Hc|]. intros. by eapply within_weaken. }
  destruct Hs as [|s states Hs Hss]; [apply Hweak; lia|].
  cbn [length zip zip_with foldl] in *. replace (n + Z.of_nat (S (length exps))) with (n + 1 + zlen exps) by lia.
  apply IH; [done| |lia|lia]. apply add_weighted_ok; [done..|lia].
Qed.

Lemma context_ok q states :
  Forall (within 2) q → zlen q = kTinyLLMHiddenDim → Forall hidden_ok states → zlen states ≤ max_positions →
  columns_ok max_positions (attention_context q states).
Proof.
  intros Hq Hlen Hs Hn. unfold attention_context.
  assert (Hzero : columns_ok 0 zero_vector).
  { split; [|done]. apply Forall_replicate. by split. }
  destruct (decide (states = [])) as [->|Hne].
  { split; [|done]. eapply Forall_impl; [apply Hzero|]. intros x Hx. by eapply within_weaken. }
  set (scores := imap (λ i, attention_score q (zlen states) (Z.of_nat i)) states).
  assert (Hsc : Forall (within (2 ^ 24)) scores).
  { apply Forall_lookup. intros i x. unfold scores. rewrite list_lookup_imap.
    intros (s & Hx & ->)%fmap_Some. pose proof (lookup_lt_Some _ _ _ Hx).
    apply score_within; [done..| |lia|done]. rewrite Forall_lookup in Hs. by eapply Hs. }
  assert (Hls : zlen scores = zlen states) by (unfold scores; by rewrite length_imap).
  assert (Hm : greatest (foldl max (S754_infinity true) scores) scores).
  { apply foldl_max_infinity; [|eapply Forall_impl; [exact Hsc|by intros ? []]].
    intros Hnil. apply Hne. apply length_zero_iff_nil. rewrite Hnil in Hls. simpl in Hls. lia. }
  pose proof (quotients_within _ scores (2 ^ 24) Hsc Hm ltac:(by apply (bound_ok_shift 2 24); lia)
    ltac:(rewrite Hls; unfold max_positions in Hn; lia)) as Hw.
  destruct states as [|s0 states]; [done|]. fold scores. unfold exponentials in Hw.
  pose proof (weighted_sum_ok _ _ (s0 :: states) zero_vector 0 Hw Hs Hzero ltac:(lia)) as Hc.
  rewrite length_fmap, Hls, Z.add_0_l in Hc. unfold max_positions in *.
  specialize (Hc ltac:(lia)). split; [|apply Hc].
  eapply Forall_impl; [apply Hc|]. intros x Hx. by eapply within_weaken.
Qed.

(** *** The next state and the logits *)

Lemma feed_forward_within q c dim :
  Forall (within 2) q → Forall (within max_positions) c → 0 ≤ dim < kTinyLLMHiddenDim →
  within (16 * 2 ^ 23) (feed_forward q c dim).
Proof.
  intros Hq Hc Hd. unfold kTinyLLMHiddenDim in Hd. unfold feed_forward.
  change (16 * 2 ^ 23) with (0 + 2 ^ 24 * zlen every_fourth).
  apply within_foldl; [by split|]. intros acc h j Hh Hj Hacc.
  assert (Hlen : zlen every_fourth = 8) by done. rewrite Hlen in Hj.
  assert (Hh' : 0 ≤ h < 32).
  { unfold every_fourth in Hh. apply list_elem_of_fmap in Hh as (n & -> & Hn%elem_of_seq).
    change (Z.to_nat (kTinyLLMHiddenDim / 4)) with 8%nat in Hn. lia. }
  assert (Hp : ∀ salt, 0 ≤ salt < 64 → within 1 (TinyLLMProjection h dim salt)).
  { intros. apply projection_within; unfold max_positions; lia. }
  assert (Hb : ∀ n, 0 ≤ n ≤ 64 → bound_ok (n * 2 ^ 23)) by (intros; apply bound_ok_shift; lia).
  replace (0 + 2 ^ 24 * (j + 1)) with (0 + 2 ^ 24 * j + 2 ^ 23 + 2 ^ 23) by lia.
  apply within_add; [apply within_add; [done| |]| |].
  - apply (within_weaken 2); [|lia]. apply (within_mul 2 1); [|by apply Hp|bound].
    by apply at_index_within.
  - replace (0 + 2 ^ 24 * j + 2 ^ 23) with ((2 * j + 1) * 2 ^ 23) by lia. apply Hb. lia.
  - rewrite <- (Z.mul_1_r (2 ^ 23)). apply (within_mul (2 ^ 23) 1); [|by apply Hp|bound].
    by apply at_index_within.
  - replace (0 + 2 ^ 24 * j + 2 ^ 23 + 2 ^ 23) with ((2 * j + 2) * 2 ^ 23) by lia. apply Hb. lia.
Qed.

(** The next state is in [-1, 1], from any such states. *)
Lemma TinyLLMNextState_ok t p states :
  0 ≤ t < kTinyLLMVocabSize → 0 ≤ p ≤ max_positions → Forall hidden_ok states →
  zlen states ≤ max_positions → hidden_ok (TinyLLMNextState t p states).
Proof.
  intros Ht Hp Hs Hn. destruct (input_state_ok t p Ht Hp) as [Hq Hlen].
  destruct (context_ok _ _ Hq Hlen Hs Hn) as [Hc _].
  split; [|by apply zlen_tabulate]. apply Forall_tabulate. intros dim Hd. apply tanhf_spec.
  assert (Hb : ∀ n, 0 ≤ n ≤ 64 → bound_ok (n * 2 ^ 23)) by (intros; apply bound_ok_shift; lia).
  apply (within_add (1 * 2 ^ 23 + 1 * 2 ^ 23) (16 * 2 ^ 23)); [apply within_add| |].
  - apply (within_weaken 2); [|lia]. apply scaled_within; [known| |bound]. by apply at_index_within.
  - apply scaled_within; [known| |by apply Hb]. by apply at_index_within.
  - by apply (Hb 2).
  - apply scaled_within; [known| |by apply Hb]. by apply feed_forward_within.
  - by apply (Hb 18).
Qed.

Lemma warm_temperature t :
  float_ok t → float_ok (max t (literal 5 2)) ∧ 2 ^ (149 - 5) ≤ Z.abs (units (max t (literal 5 2))).
Proof.
  intros Ht. assert (Hl : float_ok (literal 5 2)) by (by split; vm_compute).
  assert (Hu : 2 ^ (149 - 5) ≤ units (literal 5 2)) by (by vm_compute).
  destruct (max_cases _ _ Ht Hl) as [[-> ?]|[-> ?]]; [|by split; [|vm_compute]]. split; [done|lia].
Qed.

(** Logits are finite, whatever the temperature. *)
Lemma TinyLLMLogits_ok s temperature :
  hidden_ok s → float_ok temperature → Forall (λ x, is_number x = true) (TinyLLMLogits s temperature).
Proof.
  intros [Hs Hlen] Ht. apply Forall_tabulate. intros token Htok. unfold kTinyLLMVocabSize in Htok.
  destruct (warm_temperature _ Ht) as [Hok Hge]. cbv zeta.
  assert (Hl : within (1 + zlen s) (accumulate
      (λ dim x, mul (mul x (TinyLLMProjection dim token 5)) (literal 15 2))
      (mul (literal 2 2) (sinf (mul (of_Z (token + 1)) (literal 37 2)))) s)).
  { rewrite <- (Z.mul_1_r (1 + zlen s)).
    apply (within_accumulate 1 _ _ 0 _ 1 0); [done|lia| |lia|rewrite Hlen; done|].
    - apply scaled_within; [known| |bound]. apply sin_seed; [unfold INT_MIN, INT_MAX; lia|known].
    - intros j x Hj. pose proof (lookup_lt_Some _ _ _ Hj). unfold kTinyLLMHiddenDim in Hlen.
      rewrite Forall_lookup in Hs. apply (within_mul 1 1); [apply (within_mul 1 1)|known|bound];
        [by eapply Hs|apply projection_within; unfold max_positions; lia|bound]. }
  rewrite Hlen in Hl. change (1 + kTinyLLMHiddenDim) with 33 in Hl.
  eapply (within_number (34 * 2 ^ 5)), within_div; [|done|lia|exact Hge|by apply (bound_ok_shift 34 5)].
  destruct (token <? 2); [|by eapply within_weaken].
  apply (within_sub 33 1); [done|known|bound].
Qed.
End Bounds.
