(* ===== verification/TinyTextBounds.v ===== *)
(** * The numbers of the tiny text model

    Features are bounded by the size of the prompt, hidden layers stay in
    [-1, 1] and the probabilities are numbers, for any elementary functions
    within their documented ranges. *)
From Stdlib Require Import ZArith Lia Strings.Ascii Floats.SpecFloat.
From stdpp Require Import prelude strings list.
From S2P Require Import Prelude CxxText CxxFloat FloatRounding FloatBounds FloatLibm.
From S2P Require Import Backend Tokenizer TinyLLM TinyLLMBounds TinyText.
Import Float32.

(** ** Features *)

Lemma count_chars_bounds P s : 0 ≤ count_chars P s ≤ size_of s.
Proof. unfold size_of. induction s as [|c s IH]; cbn [count_chars str_length]; [done|]. case_bool; lia. Qed.

Lemma Tokenize_length prompt : zlen (Tokenize prompt) ≤ size_of prompt.
Proof.
  pose proof (tokenize_from_length EmptyString prompt) as Hl. simpl in Hl. unfold Tokenize, size_of. lia.
Qed.

(** An integer of at least 1 stays so as a float. *)
Lemma of_Z_ge_one n b :
  1 ≤ n ≤ b → bound_ok b → within b (of_Z n) ∧ one_units ≤ units (of_Z n).
Proof.
  intros Hn Hb. assert (Hw : within b (of_Z n)) by (apply within_of_Z; [lia|done]).
  split; [done|]. apply (ro_below _ _ (of_Z_rounds n)); [apply one_representable| |apply Hw].
  assert (0 < one_units) by done. nia.
Qed.

Lemma min_within b x y : within b x → within b y → within b (min x y).
Proof. unfold min. by case_bool. Qed.

Lemma Forall_add_at n scale features index :
  Forall (within n) features → within 1 scale → 0 ≤ n → n + 1 ≤ 2 ^ 24 →
  Forall (within (n + 1)) (add_at scale features index).
Proof.
  intros Hf Hs Hn Hmax. unfold add_at. apply Forall_lookup. intros i x Hx.
  rewrite Forall_lookup in Hf. destruct (decide (i = Z.to_nat index)) as [->|Hne].
  - rewrite list_lookup_alter_eq in Hx. destruct (features !! _) as [y|] eqn:Ey; [|done].
    injection Hx as <-. apply within_add; [by eapply Hf|done|bound].
  - rewrite list_lookup_alter_ne in Hx by done. eapply within_weaken; [by eapply Hf|lia].
Qed.

Lemma add_tokens_within n scale features indices :
  Forall (within n) features → within 1 scale → 0 ≤ n → n + zlen indices ≤ 2 ^ 24 →
  Forall (within (n + zlen indices)) (foldl (add_at scale) features indices).
Proof.
  revert n features. induction indices as [|i indices IH]; intros n features Hf Hs Hn Hmax.
  { simpl. by rewrite Z.add_0_r. }
  cbn [foldl length] in *. replace (n + Z.of_nat (S (length indices))) with (n + 1 + zlen indices) by lia.
  apply IH; [|done|lia|lia]. apply Forall_add_at; [done..|lia].
Qed.

Lemma token_scale_within (n : Z) :
  1 ≤ n ≤ 2 ^ 23 → within 1 (div (of_Z 1) (sqrt (of_Z n))).
Proof.
  intros Hn. destruct (of_Z_ge_one n (2 ^ 23)) as [[Hok Hle] Hge]; [done|bound|].
  destruct (sqrt_bound (of_Z n) Hok ltac:(lia)) as (Hs & Hone & _).
  apply (within_div 1 0); [known|done|lia|exact Hone|bound].
Qed.

Lemma Featurize_within prompt :
  size_of prompt ≤ message_limit → Forall (within (2 ^ 23)) (Featurize prompt).
Proof.
  unfold message_limit. intros Hsize. pose proof (Tokenize_length prompt) as Ht.
  assert (H0 : 0 ≤ size_of prompt) by (unfold size_of; lia).
  assert (Hb : bound_ok (2 ^ 22)) by bound.
  assert (Hone : ∀ m, 0 ≤ m ≤ size_of prompt → within (2 ^ 22) (of_Z m)).
  { intros m Hm. apply within_of_Z; [lia|done]. }
  destruct (of_Z_ge_one (Z.max (size_of prompt) 1) (2 ^ 22)) as [Hlen Hge]; [lia|done|].
  assert (Hquot : ∀ f g, within (2 ^ 22) f → float_ok g → one_units ≤ units g →
    within (2 ^ 22) (min (div f g) (of_Z 1))).
  { intros f g Hf Hg Hu. apply min_within; [|apply (within_weaken 1); [known|lia]].
    rewrite <- (Z.mul_1_r (2 ^ 22)). apply (within_div (2 ^ 22) 0); [done|done|lia|unfold one_units in Hu; simpl; lia|].
    by rewrite Z.mul_1_r. }
  unfold Featurize. cbv zeta. set (indices := feature_index <$> Tokenize prompt).
  assert (Hl : zlen indices ≤ 2 ^ 22) by (unfold indices; rewrite length_fmap; lia).
  apply (Forall_impl (within (2 ^ 22 + zlen indices))).
  - apply add_tokens_within; [|destruct (Tokenize prompt) eqn:E; [known|]|lia|lia].
    + apply Forall_app. split; [|apply Forall_replicate; split; [by split|done]].
      repeat (apply Forall_cons; split).
      * apply (within_weaken 1); [known|lia].
      * apply Hquot; [done|by split|done].
      * apply Hquot; [apply Hone; lia|by split|done].
      * apply Hquot; [apply Hone, count_chars_bounds|apply Hlen|done].
      * apply Hquot; [apply Hone, count_chars_bounds|apply Hlen|done].
      * apply Hquot; [apply Hone, count_chars_bounds|apply Hlen|done].
      * apply Forall_nil_2.
    + rewrite <- E in *. apply token_scale_within. rewrite E in *. simpl in *. lia.
  - intros x Hx. eapply within_weaken; [exact Hx|lia].
Qed.

(** ** Layers *)

Section Layers.
Context `{LibmSpec}.

(** A hidden layer *)
Definition layer_ok (hidden : list spec_float) : Prop :=
  Forall (within 1) hidden ∧ zlen hidden = kHiddenDim.

Lemma cos_seed n c : INT_MIN ≤ n ≤ INT_MAX → within 1 c → within 1 (cosf (mul (of_Z n) c)).
Proof.
  intros Hn Hc. apply cosf_spec.
  assert (Hb : bound_ok (1 * 2 ^ 31)) by (apply bound_ok_shift; lia).
  assert (Hw : within (1 * 2 ^ 31) (of_Z n)).
  { apply within_of_Z; [|done]. unfold INT_MIN, INT_MAX in Hn. lia. }
  apply (within_mul _ 1 _ _ Hw Hc). by rewrite Z.mul_1_r.
Qed.

Lemma InputWeight_within i j : 0 ≤ i < 128 → 0 ≤ j < 64 → within 1 (InputWeight i j).
Proof.
  intros. apply scaled_within; [known| |bound]. apply sin_seed; [unfold INT_MIN, INT_MAX; lia|known].
Qed.

Lemma RecurrentWeight_within i j layer :
  0 ≤ i < 64 → 0 ≤ j < 64 → 0 ≤ layer < 1024 → within 1 (RecurrentWeight i j layer).
Proof.
  intros. apply scaled_within; [known| |bound]. apply cos_seed; [unfold INT_MIN, INT_MAX; lia|known].
Qed.

Lemma OutputWeight_within i j : 0 ≤ i < 64 → 0 ≤ j < 64 → within 1 (OutputWeight i j).
Proof.
  intros. apply scaled_within; [known| |bound]. apply sin_seed; [unfold INT_MIN, INT_MAX; lia|known].
Qed.

Lemma Bias_within i c : 0 ≤ i < 2048 → within 1 c → within 1 (Bias i c).
Proof.
  intros. apply scaled_within; [done| |bound]. apply sin_seed; [unfold INT_MIN, INT_MAX; lia|known].
Qed.

(** A weighted sum of [v] from a bias *)
Lemma layer_sum b k v bias (weight : Z → spec_float) :
  b = 2 ^ k → 0 ≤ k ≤ 100 → Forall (within b) v → within 1 bias → 1 + zlen v ≤ 2 ^ 24 →
  (∀ i, 0 ≤ i < zlen v → within 1 (weight i)) →
  within ((1 + zlen v) * b) (accumulate (λ i x, mul x (weight i)) bias v).
Proof.
  intros Hb Hk Hv Hbias Hlen Hw. pose proof (Z.pow_pos_nonneg 2 k ltac:(lia) ltac:(lia)).
  apply (within_accumulate b _ _ 0 _ 1 k); [done..| |lia|done|].
  - eapply within_weaken; [exact Hbias|lia].
  - intros j x Hj. pose proof (lookup_lt_Some _ _ _ Hj). rewrite Forall_lookup in Hv.
    rewrite <- (Z.mul_1_r b). apply within_mul; [by eapply Hv|apply Hw; lia|].
    rewrite Hb, Z.mul_1_r, <- (Z.mul_1_l (2 ^ k)). apply bound_ok_shift; lia.
Qed.

Lemma input_layer_ok prompt :
  size_of prompt ≤ message_limit → zlen (Featurize prompt) = kInputDim →
  layer_ok (input_layer (Featurize prompt)).
Proof.
  intros Hs Hlen. pose proof (Featurize_within prompt Hs) as Hf.
  split; [|by apply zlen_tabulate]. apply Forall_tabulate. intros j Hj. unfold kHiddenDim in Hj.
  apply tanhf_spec. eapply (layer_sum (2 ^ 23) 23); [done|lia|done| |rewrite Hlen; done|].
  - apply Bias_within; [lia|known].
  - intros i Hi. rewrite Hlen in Hi. unfold kInputDim in Hi. apply InputWeight_within; lia.
Qed.

Lemma recurrent_layer_ok hidden layer :
  layer_ok hidden → 0 ≤ layer < 1024 → layer_ok (recurrent_layer hidden layer).
Proof.
  intros [Hh Hlen] Hl. split; [|by apply zlen_tabulate]. apply Forall_tabulate.
  intros j Hj. unfold kHiddenDim in *. apply tanhf_spec.
  eapply (layer_sum 1 0); [done|lia|done| |rewrite Hlen; done|].
  - apply Bias_within; [lia|known].
  - intros i Hi. apply RecurrentWeight_within; lia.
Qed.

Lemma output_layer_within hidden : layer_ok hidden → Forall (within 49) (output_layer hidden).
Proof.
  intros [Hh Hlen]. apply Forall_tabulate. intros c Hc. unfold kClassCount in Hc.
  replace 49 with ((1 + zlen hidden) * 1) by (rewrite Hlen; done).
  eapply (layer_sum 1 0); [done|lia|done| |rewrite Hlen; done|].
  - apply Bias_within; [lia|known].
  - intros i Hi. unfold kHiddenDim in Hlen. apply OutputWeight_within; lia.
Qed.

(** Probabilities are numbers of [0, 1] in magnitude. *)
Lemma Softmax_within hidden ps :
  layer_ok hidden → Softmax (output_layer hidden) = Some ps → Forall (within 1) ps.
Proof.
  intros Hh. pose proof (output_layer_within hidden Hh) as Hl.
  assert (Hlen : length (output_layer hidden) = 4%nat) by apply length_tabulate.
  generalize dependent (output_layer hidden). intros l Hl Hlen.
  unfold Softmax. destruct (max_element l) as [[i m]|] eqn:Hm; [|done].
  apply max_element_spec in Hm as [Hi Hmax].
  2:{ eapply Forall_impl; [exact Hl|]. intros. by eapply within_number. }
  assert (Hg : greatest m l).
  { split; [by eapply list_elem_of_lookup_2|]. rewrite Forall_forall in Hmax, Hl. intros x Hx.
    apply ltb_false_units; [apply Hl; by eapply list_elem_of_lookup_2|by apply Hl|by apply Hmax]. }
  intros [= <-].
  pose proof (quotients_within m _ 49 Hl Hg ltac:(bound) ltac:(rewrite Hlen; lia)) as Hq.
  apply Forall_fmap. exact Hq.
Qed.
End Layers.
