(* ===== verification/TinyTextProps.v ===== *)
(** * Theorems on the tiny text model *)
From Stdlib Require Import Strings.Ascii Floats.SpecFloat.
From stdpp Require Import prelude gmap strings list.
From S2P Require Import Prelude CxxText CxxTextProps CxxFloat FloatRounding FloatBounds FloatLibm.
From S2P Require Import Backend Tokenizer Simulator TinyText TinyTextBounds.
Import Float32.

(** ** Features *)

Lemma length_add_at scale features index : length (add_at scale features index) = length features.
Proof. apply length_alter. Qed.

Lemma length_Featurize prompt : length (Featurize prompt) = Z.to_nat kInputDim.
Proof.
  unfold Featurize. cbv zeta.
  match goal with |- length (foldl _ ?f ?l) = _ =>
    assert (Hf : length f = Z.to_nat kInputDim) by reflexivity; revert Hf; generalize f end.
  induction (feature_index <$> Tokenize prompt) as [|i l IH]; intros f Hf; simpl; [done|].
  apply IH. by rewrite length_add_at.
Qed.

(** The features of a prompt are an array of the input size, and every token
    is counted at a position of it that no other feature uses. *)
Theorem Featurize_shape prompt token :
  length (Featurize prompt) = Z.to_nat kInputDim ∧ 6 ≤ feature_index token < kInputDim.
Proof.
  split; [apply length_Featurize|]. unfold feature_index, kInputDim.
  pose proof (Z.mod_pos_bound (HashToken token) (128 - 6)). lia.
Qed.

(** ** Classification *)

Section Classify.
Context `{Libm}.

Lemma Softmax_Some logits : logits ≠ [] → ∃ ps, Softmax logits = Some ps ∧ length ps = length logits.
Proof.
  destruct logits as [|x l]; [done|]. intros _. unfold Softmax.
  destruct (max_element (x :: l)) as [[i m]|] eqn:E; [|done].
  eexists. split; [reflexivity|]. by rewrite !length_fmap.
Qed.

Lemma max_from_bound best largest i v j x :
  (best < i)%nat → max_from best largest i v = (j, x) → (j < i + length v)%nat.
Proof.
  revert best largest i. induction v as [|y v IH]; intros best largest i Hb; simpl.
  { intros [= <- _]. lia. }
  destruct (ltb largest y); intros Hrun%IH; lia.
Qed.

Lemma max_element_Some v : v ≠ [] → ∃ i x, max_element v = Some (i, x) ∧ (i < length v)%nat.
Proof.
  destruct v as [|y v]; [done|]. intros _. simpl. destruct (max_from 0 y 1 v) as [i x] eqn:E.
  exists i, x. split; [done|]. apply max_from_bound in E; lia.
Qed.

(** What the classification promises: a label, the one of a greatest
    probability when the probabilities are numbers. *)
Definition classified (hidden : list spec_float) (label : string) (best : spec_float) : Prop :=
  ∃ ps i, Softmax (output_layer hidden) = Some ps ∧ length ps = length kLabels ∧
    kLabels !! i = Some label ∧
    (Forall (λ p, is_number p = true) ps →
      ps !! i = Some best ∧ Forall (λ p, ltb best p = false) ps).

Lemma classify_Some hidden : ∃ label best, classify hidden = Some (label, best) ∧ classified hidden label best.
Proof.
  assert (Hlen : length (output_layer hidden) = 4%nat) by apply length_tabulate.
  destruct (Softmax_Some (output_layer hidden)) as (ps & Hs & Hps).
  { by destruct (output_layer hidden). }
  rewrite Hlen in Hps.
  destruct (max_element_Some ps) as (i & x & Hm & Hi); [by destruct ps|].
  destruct (lookup_lt_is_Some_2 kLabels i) as [label Hl]; [simpl; lia|].
  exists label, x. unfold classify. rewrite Hs. simpl. rewrite Hm. simpl in *. rewrite Hl. split; [done|].
  exists ps, i. split_and!; [done..|]. intros Hn. by apply max_element_spec.
Qed.
End Classify.

(** ** The label is a function of the prompt *)

Section Reference.
Context `{Libm}.

(** The layers without a callback *)
Fixpoint reference_layers (n : nat) (layer : Z) (hidden : list spec_float) : list spec_float :=
  match n with
  | O => hidden
  | S n => reference_layers n (layer + 1) (recurrent_layer hidden layer)
  end.

(** The hidden layer that a prompt ends with *)
Definition reference_hidden (iterations : Z) (prompt : string) : list spec_float :=
  reference_layers (Z.to_nat iterations) 0 (input_layer (Featurize prompt)).

(** The output for a request: its label and confidence are those of its prompt. *)
Definition answered (b : TinyTextModelBackend) (batch_size : Z) (request : BackendRequest)
    (out : string) : Prop :=
  ∃ label best, classified (reference_hidden (iterations_ b) (prompt request)) label best ∧
    out = FormatTinyModelOutput label best batch_size (iterations_ b).

(** The output for a request when the probabilities of its prompt are numbers:
    the label at the first position of the greatest of them. *)
Definition labelled (b : TinyTextModelBackend) (batch_size : Z) (request : BackendRequest)
    (out : string) : Prop :=
  ∃ ps i label best,
    Softmax (output_layer (reference_hidden (iterations_ b) (prompt request))) = Some ps ∧
    length ps = length kLabels ∧ Forall (λ p, is_number p = true) ps ∧
    ps !! i = Some best ∧ Forall (λ p, ltb best p = false) ps ∧
    kLabels !! i = Some label ∧
    out = FormatTinyModelOutput label best batch_size (iterations_ b).
End Reference.

Section Batch.
Context `{Libm} {W : Type} `{Host W}.

Lemma run_layers_reference n layer hidden (w : W) h w' :
  run_layers n layer hidden w = Some (Some h, w') → h = reference_layers n layer hidden.
Proof.
  revert layer hidden w. induction n as [|n IH]; intros layer hidden w; simpl; [by intros [= <- _]|].
  rewrite and_then_Some. intros (cancelled & w1 & _ & Hrun). destruct cancelled; [done|eauto].
Qed.

Lemma run_layers_returns n layer hidden : returns (run_layers n layer hidden).
Proof. revert layer hidden. induction n as [|n IH]; intros layer hidden; simpl; returns_tac. Qed.

Lemma tiny_text_returns b n request acc : returns (tiny_text_request b n request acc).
Proof.
  unfold tiny_text_request. pose proof run_layers_returns. returns_tac.
  match goal with h : list spec_float |- _ => destruct (classify_Some h) as (label & best & Hc & _) end.
  intros w. unfold of_option. rewrite Hc. by do 2 eexists.
Qed.

Lemma tiny_text_step b n done request acc (w : W) step w' :
  answers_plain (answered b n) done acc → tiny_text_request b n request acc w = Some (step, w') →
  match step with
  | inl r => failed_result r
  | inr acc' => answers_plain (answered b n) (done ++ [request]) acc'
  end.
Proof.
  intros Hacc. unfold tiny_text_request. rewrite and_then_Some. intros (cancelled & w1 & _ & Hrun).
  destruct cancelled; [injection Hrun as <- <-; by left|].
  apply and_then_Some in Hrun as (hidden & w2 & Hlayers & Hrun).
  destruct hidden as [hidden|]; [|injection Hrun as <- <-; by left].
  apply run_layers_reference in Hlayers as ->.
  apply and_then_Some in Hrun as ([label best] & w3 & Hc & Hrun). injection Hrun as <- <-.
  destruct (classify_Some (reference_hidden (iterations_ b) (prompt request)))
    as (l & p & Hc' & Hcl). unfold of_option in Hc. fold (reference_hidden (iterations_ b) (prompt request)) in Hc.
  rewrite Hc' in Hc. injection Hc as -> -> ->.
  apply answers_plain_push; [done|]. by exists label, best.
Qed.

Lemma TinyText_answers b requests (w : W) r b' w' :
  TinyText_ProcessBatch b requests w = Some ((r, b'), w') →
  b' = b ∧ (failed_result r ∨ answers_plain (answered b (to_int (zlen requests))) requests r).
Proof.
  unfold TinyText_ProcessBatch. rewrite and_then_Some. intros (cancelled & w1 & _ & Hrun).
  destruct cancelled; [injection Hrun as <- <- <-; split; [done|by left; left]|].
  apply and_then_Some in Hrun as (result & w2 & Hrun & Hdone). injection Hdone as <- <- <-.
  split; [done|]. eapply (for_requests_inv _ _ []); [apply tiny_text_step|apply answers_plain_nil|exact Hrun].
Qed.

#[export, refine] Instance TinyText_spec : BackendSpec TinyTextModelBackend W := {|
  backend_inv _ := True;
|}.
Proof.
  intros b requests w r b' w' _ [-> Hr]%TinyText_answers. split_and!; [|done..].
  destruct Hr as [?|?]; [by apply failed_result_for|by eapply answers_plain_result_for].
Defined.

Lemma TinyText_defined b requests : returns (W := W) (TinyText_ProcessBatch b requests).
Proof.
  unfold TinyText_ProcessBatch. pose proof (@for_requests_returns W). pose proof tiny_text_returns.
  returns_tac.
Qed.

End Batch.

Section Numbers.
Context `{Hlibm : LibmSpec} {W : Type} `{Host W}.

Lemma reference_layers_ok n layer hidden :
  layer_ok hidden → 0 ≤ layer → layer + Z.of_nat n ≤ 1024 → layer_ok (reference_layers n layer hidden).
Proof using Hlibm.
  revert layer hidden. induction n as [|n IH]; intros layer hidden Hh Hl Hn; simpl; [done|].
  apply IH; [|lia|lia]. apply recurrent_layer_ok; [done|lia].
Qed.

Lemma answered_labelled b n request out :
  1 ≤ iterations_ b ≤ 1024 → prompt_received request →
  answered b n request out → labelled b n request out.
Proof using Hlibm.
  intros Hb Hp (label & best & (ps & i & Hs & Hlen & Hl & Hmax) & ->).
  assert (Hok : layer_ok (reference_hidden (iterations_ b) (prompt request))).
  { apply reference_layers_ok; [|done|lia]. apply input_layer_ok; [exact Hp|].
    rewrite length_Featurize. done. }
  assert (Hn : Forall (λ p, is_number p = true) ps).
  { eapply Forall_impl; [by eapply Softmax_within|]. intros p. apply within_number. }
  destruct (Hmax Hn). exists ps, i, label, best. auto 10.
Qed.

(** C37: a batch of the text model always returns: it is cancelled, or has for
    every request, in order, the label and the confidence of its own prompt, the
    greatest of the four probabilities that the network computes from it, which
    are all numbers. *)
Theorem TinyText_classifies b requests (w : W) :
  1 ≤ iterations_ b ≤ 1024 → Forall prompt_received requests →
  ∃ r w', TinyText_ProcessBatch b requests w = Some ((r, b), w') ∧
    (failed_result r ∨ answers_plain (labelled b (to_int (zlen requests))) requests r).
Proof using Hlibm.
  intros Hb Hp. destruct (TinyText_defined b requests w) as ([r b'] & w' & Hrun).
  apply TinyText_answers in Hrun as Hr. destruct Hr as [-> Hr].
  exists r, w'. split; [done|]. destruct Hr as [Hr|(Hc & Hm & Hall)]; [by left|right].
  split_and!; [done..|]. revert Hall. generalize (to_int (zlen requests)). intros n Hall. clear Hrun.
  induction Hall; constructor; inversion Hp; subst; auto using answered_labelled.
Qed.
End Numbers.

Lemma TinyText_classifies_witness :
  let b := make_TinyTextModelBackend 2 in
  let requests := [mkBackendRequest "1" "Is this safe?" "t"] in
  ∃ r w', TinyText_ProcessBatch (H := linear_libm) b requests (-1) = Some ((r, b), w') ∧
    (failed_result r ∨ answers_plain (labelled (H := linear_libm) b 1) requests r).
Proof.
  intros b requests. apply (TinyText_classifies (H := linear_libm) b requests (-1)).
  - by vm_compute.
  - repeat constructor. by vm_compute.
Defined.
