(* ===== verification/TinyLLMProps.v ===== *)
(** * Theorems on the tiny language model

    What a sampled token is, the text as a function of the prompt, and batches. *)
From Stdlib Require Import Strings.Ascii Floats.SpecFloat Sorting.Sorted.
From stdpp Require Import prelude gmap strings list sorting.
From S2P Require Import Prelude CxxText CxxTextProps CxxFloat FloatRounding FloatBounds FloatLibm.
From S2P Require Import Backend Simulator Tokenizer TinyLLM TinyLLMBounds.
Import Float32.

(** ** Sampling *)

(** The order of the candidates: higher logit first, then lower token. *)
Definition rank_le (a b : spec_float * Z) : Prop :=
  key_lt (float_key b.1) (float_key a.1) ∨ (float_key a.1 = float_key b.1 ∧ a.2 ≤ b.2).

Definition number_pair (p : spec_float * Z) : Prop := is_number p.1 = true.

Lemma ranks_before_spec a b :
  number_pair a → number_pair b →
  ranks_before a b = true ↔
    key_lt (float_key b.1) (float_key a.1) ∨ (float_key a.1 = float_key b.1 ∧ a.2 < b.2).
Proof.
  unfold number_pair, ranks_before. intros Ha Hb. destruct (eqb a.1 b.1) eqn:E.
  - apply eqb_key in E; [|done..]. rewrite E, Z.ltb_lt.
    destruct (float_key b.1) as [[]]. simpl. intuition lia.
  - apply not_true_iff_false in E. rewrite eqb_key in E by done. rewrite ltb_key by done. intuition.
Qed.

Lemma key_total a b : key_lt a b ∨ a = b ∨ key_lt b a.
Proof.
  destruct a as [[a1 a2] a3], b as [[b1 b2] b3]. simpl.
  destruct (decide ((a1, a2, a3) = (b1, b2, b3))) as [?|Hne]; [auto|].
  destruct (Z.lt_trichotomy a1 b1) as [?|[->|?]]; [lia| |lia].
  destruct (Z.lt_trichotomy a2 b2) as [?|[->|?]]; [lia| |lia].
  destruct (Z.lt_trichotomy a3 b3) as [?|[->|?]]; [lia|done|lia].
Qed.

Lemma key_lt_irrefl a : ¬ key_lt a a.
Proof. destruct a as [[]]. simpl. lia. Qed.

Lemma key_lt_trans a b c : key_lt a b → key_lt b c → key_lt a c.
Proof. destruct a as [[]], b as [[]], c as [[]]. simpl. lia. Qed.

Lemma candidates_sorted l :
  Forall number_pair l → StronglySorted rank_le (std_sort ranks_before l).
Proof.
  apply std_sort_sorted_for.
  - intros x y Hx Hy. rewrite ranks_before_spec by done. unfold rank_le. intuition lia.
  - intros x y Hx Hy Hf. apply not_true_iff_false in Hf. rewrite ranks_before_spec in Hf by done.
    unfold rank_le. destruct (key_total (float_key x.1) (float_key y.1)) as [?|[E|?]]; [auto| |tauto].
    right. split; [done|]. apply Z.nlt_ge. tauto.
  - intros x y z _ _ _ [Hxy|[Hxy ?]] [Hyz|[Hyz ?]]; unfold rank_le; rewrite ?Hxy, ?Hyz in *;
      [left; by eapply key_lt_trans|auto..|right; split; [congruence|lia]].
Qed.

Lemma token_rank_not_before a b :
  number_pair a → number_pair b → rank_le a b → ranks_before b a = false.
Proof.
  intros Ha Hb Hle. apply not_true_iff_false. rewrite ranks_before_spec by done.
  unfold rank_le in Hle. intros [Hlt|[Heq ?]].
  - destruct Hle as [Hle|[Heq _]].
    + by eapply key_lt_irrefl, key_lt_trans.
    + rewrite Heq in Hlt. by apply key_lt_irrefl in Hlt.
  - destruct Hle as [Hle|[_ ?]]; [|lia]. rewrite Heq in Hle. by apply key_lt_irrefl in Hle.
Qed.

Lemma sorted_before l i x :
  Forall number_pair l → StronglySorted rank_le l → l !! i = Some x →
  (length (filter (λ y, ranks_before y x = true) l) ≤ i)%nat.
Proof.
  intros Hl Hs. revert i. induction Hs as [|y l Hs IH Hall]; intros i Hi; [done|].
  inversion Hl as [|? ? Hy Hl']; subst. destruct i as [|i]; simpl in Hi.
  - injection Hi as ->. apply Nat.le_0_r, length_zero_iff_nil.
    apply list_nil_subseteq. intros z [Hz Hin]%list_elem_of_filter. exfalso.
    rewrite Forall_forall in Hall, Hl'. apply not_false_iff_true in Hz. apply Hz.
    apply elem_of_cons in Hin as [-> |Hin].
    + apply token_rank_not_before; [done..|]. right. split; [done|lia].
    + apply token_rank_not_before; [done|by apply Hl'|by apply Hall].
  - specialize (IH Hl' i Hi). rewrite filter_cons. case_decide; simpl; lia.
Qed.

Lemma candidates_numbers logits :
  Forall (λ x, is_number x = true) logits → Forall number_pair (candidates logits).
Proof.
  intros Hl. unfold candidates. apply Forall_fmap, Forall_true. intros n. unfold number_pair, at_index.
  simpl. destruct (logits !! Z.to_nat (Z.of_nat n)) as [x|] eqn:E; [|done].
  rewrite Forall_forall in Hl. eapply Hl, list_elem_of_lookup_2, E.
Qed.

Lemma elem_of_candidates logits p :
  p ∈ candidates logits → 2 ≤ p.2 < kTinyLLMVocabSize ∧ p.1 = at_index logits p.2.
Proof.
  unfold candidates. rewrite list_elem_of_fmap. intros (n & -> & Hn%elem_of_seq).
  split; [|done]. change (Z.to_nat kTinyLLMVocabSize) with 64%nat in Hn. unfold kTinyLLMVocabSize. simpl. lia.
Qed.

(** The chosen candidate, and how many precede it. *)
Lemma select_token logits top_k seed step :
  Forall (λ x, is_number x = true) logits → 1 ≤ top_k →
  ∃ t, TinyLLMSelectToken logits top_k seed step = Some t ∧ 2 ≤ t < kTinyLLMVocabSize ∧
    zlen (filter (λ p, ranks_before p (at_index logits t, t) = true) (candidates logits)) < top_k.
Proof.
  intros Hn Hk. pose proof (candidates_numbers _ Hn) as Hc. unfold TinyLLMSelectToken.
  rewrite (proj2 (Z.ltb_ge _ _)) by lia.
  replace (forallb (λ p, is_number p.1) (candidates logits)) with true.
  2:{ symmetry. apply forallb_forall. intros p Hp. rewrite Forall_forall in Hc.
      apply Hc. by apply list_elem_of_In. }
  simpl negb. cbv iota. set (ranked := candidates logits) in *.
  set (capped := CxxText.clamp top_k 1 (zlen ranked)).
  assert (Hlen : zlen ranked = 62) by (unfold ranked, candidates; by rewrite length_fmap, length_seq).
  assert (Hcap : 1 ≤ capped ≤ 62 ∧ capped ≤ top_k).
  { unfold capped, CxxText.clamp. rewrite Hlen. destruct (top_k <? 1) eqn:E1; to_prop; [lia|].
    destruct (62 <? top_k) eqn:E2; to_prop; lia. }
  set (offset := u32 _ mod capped).
  assert (Hoff : 0 ≤ offset < capped) by (apply Z.mod_pos_bound; lia).
  pose proof (std_sort_perm ranks_before ranked) as Hperm.
  destruct (lookup_lt_is_Some_2 (std_sort ranks_before ranked) (Z.to_nat offset)) as [p Hp].
  { apply Permutation_length in Hperm. lia. }
  assert (Hin : p ∈ ranked) by (rewrite <- Hperm; by eapply list_elem_of_lookup_2).
  apply elem_of_candidates in Hin as [Hrange Hlogit].
  exists p.2. rewrite Hp. split_and!; [done|lia|lia|]. rewrite <- Hlogit, <- surjective_pairing.
  eapply sorted_before in Hp; [|by rewrite Hperm|by apply candidates_sorted].
  rewrite Hperm in Hp. lia.
Qed.

Lemma select_token_defined logits top_k seed step :
  1 ≤ top_k → Forall (λ x, is_number x = true) logits →
  is_Some (TinyLLMSelectToken logits top_k seed step).
Proof. intros Hk Hn. destruct (select_token logits top_k seed step Hn Hk) as (t & -> & _). by eexists. Qed.

(** C19: sampling is top-k sampling: from logits that are numbers it picks a
    token of the vocabulary that is not special and that fewer than [top_k]
    other tokens precede, in the order of falling logits and rising tokens; with
    [top_k = 1] it is the greedy choice. *)
Theorem TinyLLMSelectToken_top_k logits top_k seed step :
  Forall (λ x, is_number x = true) logits → 1 ≤ top_k →
  ∃ t, TinyLLMSelectToken logits top_k seed step = Some t ∧ 2 ≤ t < kTinyLLMVocabSize ∧
    zlen (filter (λ p, ranks_before p (at_index logits t, t) = true) (candidates logits)) < top_k.
Proof. apply select_token. Qed.

Lemma TinyLLMSelectToken_range logits top_k seed step t :
  TinyLLMSelectToken logits top_k seed step = Some t → 2 ≤ t < kTinyLLMVocabSize.
Proof.
  unfold TinyLLMSelectToken. destruct (_ || _); [done|].
  destruct (std_sort ranks_before (candidates logits) !! _) as [p|] eqn:Hp; [|done]. intros [= <-].
  apply list_elem_of_lookup_2 in Hp. rewrite std_sort_perm in Hp. by apply elem_of_candidates in Hp as [? _].
Qed.

(** ** The text is a function of the prompt *)

Section Reference.
Context `{Libm}.

(** Prefill and decoding without a callback *)
Fixpoint reference_prefill (position : Z) (token_ids : list Z) (states : list vector) : list vector :=
  match token_ids with
  | [] => states
  | token :: rest =>
      reference_prefill (position + 1) rest
        (states ++ [TinyLLMNextState token (to_int position) states])
  end.

Fixpoint reference_decode (n : nat) (step : Z) (temperature : spec_float) (top_k seed : Z)
    (token_ids generated_ids : list Z) (states : list vector) : option (list Z) :=
  match n with
  | O => Some generated_ids
  | S n =>
      back ← last states;
      next_token ← TinyLLMSelectToken (TinyLLMLogits back temperature) top_k seed step;
      let token_ids := token_ids ++ [next_token] in
      let state := TinyLLMNextState next_token (to_int (zlen token_ids - 1)) states in
      reference_decode n (step + 1) temperature top_k seed token_ids
        (generated_ids ++ [next_token]) (states ++ [state])
  end.

Definition reference_tokens (prompt : string) (max_generated_tokens : Z) (temperature : spec_float)
    (top_k : Z) : option (list Z) :=
  let token_ids := TokenizeForTinyLLM prompt in
  reference_decode (Z.to_nat max_generated_tokens) 0 temperature top_k (HashToken prompt)
    token_ids [] (reference_prefill 0 token_ids []).

(** A generated text: the words of the reference tokens, as many as asked. *)
Definition generates (prompt : string) (max_generated_tokens : Z) (temperature : spec_float)
    (top_k : Z) (ids : list Z) (text : string) : Prop :=
  reference_tokens prompt max_generated_tokens temperature top_k = Some ids ∧
  length ids = Z.to_nat max_generated_tokens ∧
  Forall (λ t, 2 ≤ t < kTinyLLMVocabSize) ids ∧ JoinGeneratedTokens ids = Some text.

Lemma reference_decode_range n step temperature top_k seed token_ids generated_ids states ids :
  Forall (λ t, 2 ≤ t < kTinyLLMVocabSize) generated_ids →
  reference_decode n step temperature top_k seed token_ids generated_ids states = Some ids →
  length ids = (length generated_ids + n)%nat ∧ Forall (λ t, 2 ≤ t < kTinyLLMVocabSize) ids.
Proof.
  revert step token_ids generated_ids states.
  induction n as [|n IH]; intros step token_ids generated_ids states Hg; cbn [reference_decode].
  { intros [= <-]. split; [lia|done]. }
  destruct (last states) as [back|]; [|done]. cbn [mbind option_bind].
  destruct (TinyLLMSelectToken _ _ _ _) as [t|] eqn:Ht; [|done]. cbn [mbind option_bind].
  apply TinyLLMSelectToken_range in Ht. intros Hrun%IH; [|apply Forall_app; auto].
  rewrite length_app in Hrun. simpl in Hrun. destruct Hrun. split; [lia|done].
Qed.

Lemma vocabulary_word t : 0 ≤ t < kTinyLLMVocabSize → is_Some (vec_at kTinyLLMVocabulary t).
Proof. intros Ht. apply in_range_vec_at, in_range_spec. exact Ht. Qed.

Lemma JoinGeneratedTokens_Some ids :
  Forall (λ t, 2 ≤ t < kTinyLLMVocabSize) ids → is_Some (JoinGeneratedTokens ids).
Proof.
  intros Hids. assert (Hjoin : ∀ ids, Forall (λ t, 2 ≤ t < kTinyLLMVocabSize) ids → is_Some (join_words ids)).
  { clear. intros ids Hids. induction Hids as [|t ids Ht _ [s IH]]; simpl; [by eexists|].
    destruct (vocabulary_word t) as [w ->]; [lia|]. simpl. rewrite IH. by eexists. }
  destruct Hids as [|t ids Ht Hids]; simpl; [by eexists|].
  destruct (vocabulary_word t) as [w ->]; [lia|]. simpl. destruct (Hjoin _ Hids) as [s ->]. by eexists.
Qed.

Section Runs.
Context {W : Type} `{Host W}.

Lemma prefill_from_reference position token_ids states (w : W) st w' :
  prefill_from position token_ids states w = Some (st, w') →
  st = [] ∨ st = reference_prefill position token_ids states.
Proof.
  revert position states w. induction token_ids as [|t token_ids IH]; intros position states w; simpl.
  { intros [= <- <-]. by right. }
  rewrite and_then_Some. intros (cancelled & w1 & _ & Hrun).
  destruct cancelled; [injection Hrun as <- <-; by left|eauto].
Qed.

Lemma decode_from_reference n step temperature top_k seed token_ids generated_ids states (w : W) ids w' :
  decode_from n step temperature top_k seed token_ids generated_ids states w = Some (Some ids, w') →
  reference_decode n step temperature top_k seed token_ids generated_ids states = Some ids.
Proof.
  revert step token_ids generated_ids states w.
  induction n as [|n IH]; intros step token_ids generated_ids states w;
    cbn [decode_from reference_decode].
  { by intros [= <- <-]. }
  rewrite and_then_Some. intros (cancelled & w1 & _ & Hrun). destruct cancelled; [done|].
  apply and_then_Some in Hrun as (back & w2 & Hback & Hrun). unfold of_option in Hback.
  destruct (last states) as [back'|]; [|done]. injection Hback as -> ->.
  apply and_then_Some in Hrun as (t & w3 & Ht & Hrun). unfold of_option in Ht. cbn [mbind option_bind].
  destruct (TinyLLMSelectToken _ _ _ _) as [t'|]; [|done]. injection Ht as -> ->. cbn [mbind option_bind].
  eauto.
Qed.

(** A prompt always has tokens, so an empty prefill is a cancelled one. *)
Lemma TokenizeForTinyLLM_ne prompt : TokenizeForTinyLLM prompt ≠ [].
Proof. unfold TokenizeForTinyLLM. by destruct (_ =? _)%nat. Qed.

Lemma reference_generates prompt n temperature top_k (states : list vector) (w : W) ids w' text :
  states = [] ∨ states = reference_prefill 0 (TokenizeForTinyLLM prompt) [] → states ≠ [] →
  decode_from (Z.to_nat n) 0 temperature top_k (HashToken prompt)
    (TokenizeForTinyLLM prompt) [] states w = Some (Some ids, w') →
  JoinGeneratedTokens ids = Some text → generates prompt n temperature top_k ids text.
Proof.
  intros [->| ->] Hne Hrun%decode_from_reference Hj; [done|].
  split; [exact Hrun|]. apply reference_decode_range in Hrun as [Hlen Hr]; [by split_and!|done].
Qed.

(** A completion: the reference text, or a generation that was cancelled. *)
Lemma GenerateTinyLLMCompletion_spec prompt n temperature top_k (w : W) g w' :
  GenerateTinyLLMCompletion prompt n temperature top_k w = Some (g, w') →
  (gen_text g = EmptyString ∧ gen_generated_tokens g = 0) ∨
  ∃ ids, generates prompt n temperature top_k ids (gen_text g) ∧
    gen_prompt_tokens g = to_int (zlen (TokenizeForTinyLLM prompt)) ∧
    gen_generated_tokens g = to_int (zlen ids).
Proof.
  unfold GenerateTinyLLMCompletion. rewrite and_then_Some. intros (start & w1 & _ & Hrun).
  apply and_then_Some in Hrun as (states & w2 & Hpre & Hrun). apply prefill_from_reference in Hpre.
  apply and_then_Some in Hrun as (end_ & w3 & _ & Hrun).
  apply and_then_Some in Hrun as (cancelled & w4 & _ & Hrun).
  destruct (cancelled || _) eqn:Hc; [injection Hrun as <- <-; by left|].
  apply orb_false_iff in Hc as [_ Hne]. apply bool_decide_eq_false in Hne.
  apply and_then_Some in Hrun as (dstart & w5 & _ & Hrun).
  apply and_then_Some in Hrun as (decoded & w6 & Hdec & Hrun).
  destruct decoded as [ids|]; [|injection Hrun as <- <-; by left].
  apply and_then_Some in Hrun as (dend & w7 & _ & Hrun).
  apply and_then_Some in Hrun as (text & w8 & Hj & Hrun). injection Hrun as <- <-.
  unfold of_option in Hj. destruct (JoinGeneratedTokens ids) as [t|] eqn:Hjoin; [|done].
  injection Hj as -> ->. right. exists ids. split_and!; [|done..]. by eapply reference_generates.
Qed.

(** An output of the model for a request *)
Definition completed (b : TinyLLMBackend) (batch_size : Z) (request : BackendRequest) (out : string) : Prop :=
  ∃ ids text prefill decode,
    generates (prompt request) (max_generated_tokens_ b) (temperature_ b) (top_k_ b) ids text ∧
    out = FormatTinyLLMOutput text (to_int (zlen (TokenizeForTinyLLM (prompt request))))
      (to_int (zlen ids)) prefill decode batch_size (max_generated_tokens_ b) (top_k_ b) (temperature_ b).

Lemma tiny_llm_step b n done request acc (w : W) step w' :
  answers_plain (completed b n) done acc → tiny_llm_request b n request acc w = Some (step, w') →
  match step with
  | inl r => failed_result r
  | inr acc' => answers_plain (completed b n) (done ++ [request]) acc'
  end.
Proof.
  intros Hacc. unfold tiny_llm_request. rewrite and_then_Some. intros (cancelled & w1 & _ & Hrun).
  destruct cancelled; [injection Hrun as <- <-; by left|].
  apply and_then_Some in Hrun as (start & w2 & _ & Hrun).
  apply and_then_Some in Hrun as (states & w3 & Hpre & Hrun). apply prefill_from_reference in Hpre.
  apply and_then_Some in Hrun as (end_ & w4 & _ & Hrun).
  apply and_then_Some in Hrun as (cancelled & w5 & _ & Hrun).
  destruct cancelled; [injection Hrun as <- <-; by left|].
  case_bool_decide as Hne; [injection Hrun as <- <-; by left|].
  apply and_then_Some in Hrun as (dstart & w6 & _ & Hrun).
  apply and_then_Some in Hrun as (decoded & w7 & Hdec & Hrun).
  destruct decoded as [ids|]; [|injection Hrun as <- <-; by left].
  apply and_then_Some in Hrun as (dend & w8 & _ & Hrun).
  apply and_then_Some in Hrun as (text & w9 & Hj & Hrun). injection Hrun as <- <-.
  unfold of_option in Hj. destruct (JoinGeneratedTokens ids) as [t|] eqn:Hjoin; [|done].
  injection Hj as -> ->. apply answers_plain_push; [done|].
  do 4 eexists. split; [by eapply reference_generates|done].
Qed.

Lemma TinyLLM_answers b requests (w : W) r b' w' :
  TinyLLM_ProcessBatch b requests w = Some ((r, b'), w') →
  b' = b ∧ (failed_result r ∨ answers_plain (completed b (to_int (zlen requests))) requests r).
Proof.
  unfold TinyLLM_ProcessBatch. rewrite and_then_Some. intros (cancelled & w1 & _ & Hrun).
  destruct cancelled; [injection Hrun as <- <- <-; split; [done|by left; left]|].
  apply and_then_Some in Hrun as (result & w2 & Hrun & Hdone). injection Hdone as <- <- <-.
  split; [done|]. eapply (for_requests_inv _ _ []); [apply tiny_llm_step|apply answers_plain_nil|exact Hrun].
Qed.

#[export, refine] Instance TinyLLM_spec : BackendSpec TinyLLMBackend W := {|
  backend_inv _ := True;
|}.
Proof.
  intros b requests w r b' w' _ [-> Hr]%TinyLLM_answers. split_and!; [|done..].
  destruct Hr as [?|?]; [by apply failed_result_for|by eapply answers_plain_result_for].
Defined.
End Runs.

(** ** Batches return

    Prompts that fit a message have few enough tokens for the bounds on the
    hidden states, so that the logits are numbers. *)
Section Numbers.
Context {Hlibm : LibmSpec}.

Context (temperature : spec_float) (Htemp : float_ok temperature).
Context {W : Type} `{Host W}.

(** The states so far, [n] more of which stay within the bounds *)
Definition states_ok (n : Z) (states : list vector) : Prop :=
  Forall hidden_ok states ∧ zlen states + n ≤ max_positions.

Lemma states_ok_snoc n t p states :
  states_ok (n + 1) states → 0 ≤ n → 0 ≤ t < kTinyLLMVocabSize → 0 ≤ p ≤ max_positions →
  states_ok n (states ++ [TinyLLMNextState t (to_int p) states]).
Proof using Hlibm.
  intros [Hs Hn] Hn0 Ht Hp. unfold states_ok. rewrite length_app. simpl. split; [|lia].
  apply Forall_app. split; [done|]. constructor; [|done]. unfold max_positions in *.
  rewrite to_int_id by lia. apply TinyLLMNextState_ok; unfold max_positions; auto; lia.
Qed.

Lemma prefill_from_good n position token_ids states (w : W) :
  0 ≤ n → Forall (λ t, 0 ≤ t < kTinyLLMVocabSize) token_ids →
  states_ok (zlen token_ids + n) states → 0 ≤ position ≤ zlen states →
  ∃ st w', prefill_from position token_ids states w = Some (st, w') ∧
    (st = [] ∨ states_ok n st).
Proof using Hlibm.
  intros Hn Hts. revert position states w.
  induction Hts as [|t token_ids Ht _ IH]; intros position states w Hg Hp; simpl.
  { exists states, w. auto. }
  unfold and_then, ask. destruct (is_cancelled w) as [[] w1]; [exists [], w1; auto|].
  apply IH.
  - apply states_ok_snoc; [|lia|done|destruct Hg; simpl in *; lia].
    simpl in Hg. by replace (zlen token_ids + n + 1) with (Z.of_nat (S (length token_ids)) + n) by lia.
  - rewrite length_app. simpl. lia.
Qed.

Lemma decode_from_good n step top_k seed token_ids generated_ids states (w : W) :
  1 ≤ top_k → states ≠ [] → states_ok (Z.of_nat n) states →
  zlen token_ids + Z.of_nat n ≤ max_positions →
  Forall (λ t, 2 ≤ t < kTinyLLMVocabSize) generated_ids →
  ∃ r w', decode_from n step temperature top_k seed token_ids generated_ids states w = Some (r, w') ∧
    match r with Some ids => Forall (λ t, 2 ≤ t < kTinyLLMVocabSize) ids | None => True end.
Proof using Hlibm Htemp.
  intros Hk. revert step token_ids generated_ids states w.
  induction n as [|n IH]; intros step token_ids generated_ids states w Hne Hg Hlen Hids; cbn [decode_from].
  { by do 2 eexists. }
  unfold and_then at 1, ask at 1. destruct (is_cancelled w) as [[] w1]; [by do 2 eexists|].
  destruct (last states) as [back|] eqn:Hlast; [|by apply last_None in Hlast].
  assert (Hback : hidden_ok back).
  { apply last_Some in Hlast as [l ->]. destruct Hg as [Hg _].
    apply Forall_app in Hg as [_ Hg]. by inversion Hg. }
  assert (Ht : is_Some (TinyLLMSelectToken (TinyLLMLogits back temperature) top_k seed step))
    by by eapply select_token_defined, TinyLLMLogits_ok.
  destruct Ht as [t Ht]. pose proof (TinyLLMSelectToken_range _ _ _ _ _ Ht).
  unfold and_then at 1, of_option at 1. cbn [fmap option_fmap option_map].
  unfold and_then at 1, of_option at 1. rewrite Ht. cbn [fmap option_fmap option_map].
  assert (Hl : zlen (token_ids ++ [t]) = zlen token_ids + 1) by (rewrite length_app; simpl; lia).
  apply IH; [by destruct states| |rewrite Hl; lia|apply Forall_app; auto].
  apply states_ok_snoc; [by replace (Z.of_nat n + 1) with (Z.of_nat (S n)) by lia|lia|lia|].
  rewrite Hl. lia.
Qed.

(** Prefilling a received prompt leaves room for the generated tokens. *)
Lemma TinyLLMPrefill_good prompt (w : W) :
  size_of prompt ≤ message_limit →
  zlen (TokenizeForTinyLLM prompt) + 64 ≤ max_positions ∧
  ∃ st w', TinyLLMPrefill (TokenizeForTinyLLM prompt) w = Some (st, w') ∧
    (st = [] ∨ states_ok 64 st).
Proof using Hlibm.
  intros Hp. pose proof (TokenizeForTinyLLM_length prompt) as Hl.
  assert (Hroom : zlen (TokenizeForTinyLLM prompt) + 64 ≤ max_positions).
  { unfold message_limit, max_positions in *. lia. }
  split; [done|]. apply prefill_from_good; [done|apply TokenizeForTinyLLM_vocabulary| |done].
  split; [done|]. simpl. lia.
Qed.

(** Decoding after it returns. *)
Lemma decode_after_prefill prompt n step top_k seed states (w : W) :
  size_of prompt ≤ message_limit → 1 ≤ n ≤ 64 → 1 ≤ top_k → states ≠ [] →
  states = [] ∨ states_ok 64 states →
  ∃ r w', decode_from (Z.to_nat n) step temperature top_k seed (TokenizeForTinyLLM prompt) [] states w
      = Some (r, w') ∧
    match r with Some ids => is_Some (JoinGeneratedTokens ids) | None => True end.
Proof using Hlibm Htemp.
  intros Hp Hn Hk Hne [->|[Hs Hlen]]; [done|].
  destruct (TinyLLMPrefill_good prompt w Hp) as [Hroom _].
  destruct (decode_from_good (Z.to_nat n) step top_k seed (TokenizeForTinyLLM prompt) [] states w)
    as (r & w' & Hdec & Hids); [done|done|split; [done|lia]|lia|done|].
  exists r, w'. split; [done|]. destruct r; [by apply JoinGeneratedTokens_Some|done].
Qed.

Lemma GenerateTinyLLMCompletion_returns prompt n top_k :
  size_of prompt ≤ message_limit → 1 ≤ n ≤ 64 → 1 ≤ top_k →
  returns (W := W) (GenerateTinyLLMCompletion prompt n temperature top_k).
Proof using Hlibm Htemp.
  intros Hp Hn Hk. unfold GenerateTinyLLMCompletion.
  apply returns_bind; [auto with laminar|intros start w].
  destruct (TinyLLMPrefill_good prompt w Hp) as (_ & st & w1 & Hpre & Hgood).
  apply (returns_after _ _ _ _ _ Hpre). apply returns_bind; [auto with laminar|intros end_].
  apply returns_bind; [auto with laminar|intros cancelled].
  destruct (cancelled || _) eqn:Hc; [auto with laminar|]. apply orb_false_iff in Hc as [_ Hne].
  apply bool_decide_eq_false in Hne. apply returns_bind; [auto with laminar|intros dstart w2].
  destruct (decode_after_prefill prompt n 0 top_k (HashToken prompt) st w2)
    as (r & w3 & Hdec & Hids); [done..|].
  apply (returns_after _ _ _ _ _ Hdec). destruct r as [ids|]; [|apply returns_done].
  apply returns_bind; [auto with laminar|intros dend]. destruct Hids as [text Hj].
  apply returns_bind; [|auto with laminar]. intros w4. unfold of_option. rewrite Hj. by do 2 eexists.
Qed.

Lemma tiny_llm_request_returns b n request acc :
  temperature_ b = temperature → 1 ≤ max_generated_tokens_ b ≤ 64 → 1 ≤ top_k_ b →
  prompt_received request → returns (W := W) (tiny_llm_request b n request acc).
Proof using Hlibm Htemp.
  intros Ht Hn Hk Hp. unfold tiny_llm_request. rewrite Ht.
  apply returns_bind; [auto with laminar|intros [|]; [auto with laminar|]].
  apply returns_bind; [auto with laminar|intros start w].
  destruct (TinyLLMPrefill_good (prompt request) w Hp) as (_ & st & w1 & Hpre & Hgood).
  apply (returns_after _ _ _ _ _ Hpre).
  apply returns_bind; [auto with laminar|intros end_].
  apply returns_bind; [auto with laminar|intros [|]; [auto with laminar|]].
  case_bool_decide as Hne; [auto with laminar|]. apply returns_bind; [auto with laminar|intros dstart w2].
  destruct (decode_after_prefill (prompt request) (max_generated_tokens_ b) 0 (top_k_ b)
    (HashToken (prompt request)) st w2) as (r & w3 & Hdec & Hids); [done..|].
  apply (returns_after _ _ _ _ _ Hdec). destruct r as [ids|]; [|apply returns_done].
  apply returns_bind; [auto with laminar|intros dend]. destruct Hids as [text Hj].
  apply returns_bind; [|auto with laminar]. intros w4. unfold of_option. rewrite Hj. by do 2 eexists.
Qed.
End Numbers.

(** The settings that the constructor establishes *)
Definition tiny_llm_ok (b : TinyLLMBackend) : Prop :=
  float_ok (temperature_ b) ∧ 1 ≤ max_generated_tokens_ b ≤ 64 ∧ 1 ≤ top_k_ b.

Section Batches.
Context {Hlibm : LibmSpec} {W : Type} `{Host W}.

Lemma TinyLLM_defined b requests :
  tiny_llm_ok b → Forall prompt_received requests → returns (W := W) (TinyLLM_ProcessBatch b requests).
Proof using Hlibm.
  intros (Ht & Hn & Hk) Hp. unfold TinyLLM_ProcessBatch.
  apply returns_bind; [auto with laminar|intros [|]; [auto with laminar|]].
  apply returns_bind; [|auto with laminar].
  apply (for_requests_returns_for prompt_received); [|done].
  intros request acc Hr. by eapply tiny_llm_request_returns.
Qed.

(** C18: for prompts that fit the message limit and any elementary functions
    within their documented ranges, a batch of the language model returns: it is
    cancelled, or has for every request, in order, exactly the asked number of
    ordinary words, and those are a function of the prompt and the settings, the
    same in every batch. *)
Theorem TinyLLM_generates b requests (w : W) :
  tiny_llm_ok b → Forall prompt_received requests →
  ∃ r w', TinyLLM_ProcessBatch b requests w = Some ((r, b), w') ∧
    (failed_result r ∨ answers_plain (completed b (to_int (zlen requests))) requests r).
Proof using Hlibm.
  intros Hb Hp. destruct (TinyLLM_defined b requests Hb Hp w) as ([r b'] & w' & Hrun).
  apply TinyLLM_answers in Hrun as Hr. destruct Hr as [-> Hr]. eauto.
Qed.
End Batches.
End Reference.

(** A temperature that was read is finite after the constructor's [clamp]. *)
Lemma clamp_ok x lo hi :
  is_number x = true → rounded_ok x → float_ok lo → float_ok hi → float_ok (clamp x lo hi).
Proof.
  intros Hx Hok Hlo Hhi. unfold clamp. destruct (ltb x lo) eqn:H1; [done|].
  destruct (ltb hi x) eqn:H2; [done|]. destruct Hok as [?|[[] ->]]; [done|..].
  - destruct lo as [|[]| |[]]; try done; by destruct Hlo.
  - destruct hi as [|[]| |[]]; try done; by destruct Hhi.
Qed.

Lemma clamp_range v lo hi : lo ≤ hi → lo ≤ CxxText.clamp v lo hi ≤ hi.
Proof. unfold CxxText.clamp. intros. repeat case_bool; to_prop; lia. Qed.

Lemma make_tiny_llm_ok n t k :
  is_number t = true → rounded_ok t → tiny_llm_ok (make_TinyLLMBackend n t k).
Proof.
  intros Ht Hok. split_and!; simpl; try by apply clamp_range.
  apply clamp_ok; [done..|by split; vm_compute|by split; vm_compute].
Qed.

(** ** Witnesses *)

Lemma TinyLLMSelectToken_top_k_witness :
  let logits := tabulate 64 (λ t, of_Z (10 - Z.abs (t - 20))) in
  ∃ t, TinyLLMSelectToken logits 3 7 1 = Some t ∧ 2 ≤ t < 64 ∧
    zlen (filter (λ p, ranks_before p (at_index logits t, t) = true) (candidates logits)) < 3.
Proof.
  intros logits. apply (TinyLLMSelectToken_top_k logits 3 7 1); [|lia].
  apply Forall_forall. intros x Hx. assert (Hall : forallb is_number logits = true) by reflexivity.
  rewrite forallb_forall in Hall. apply Hall. by apply list_elem_of_In.
Defined.

Lemma TinyLLM_generates_witness :
  let b := make_TinyLLMBackend 2 (literal 8 1) 3 in
  let requests := [mkBackendRequest "1" "hello queue" "t"] in
  ∃ r w', TinyLLM_ProcessBatch (H := linear_libm) b requests (-1) = Some ((r, b), w') ∧
    (failed_result r ∨ answers_plain (completed (H := linear_libm) b 1) requests r).
Proof.
  intros b requests. apply (TinyLLM_generates (H := linear_libm) b requests (-1)).
  - apply make_tiny_llm_ok; [reflexivity|left; by split; vm_compute].
  - repeat constructor. by vm_compute.
Defined.
