(* ===== verification/ContinuousTinyLLM.v ===== *)
(** * The continuously batched language model

    [ContinuousTinyLLMBackend] of [src/backend/inference_backend.cc]: the
    requests of a batch are scheduled by a [ContinuousBatcher] over a
    [KvBlockAllocator], made anew for each batch, and completed by the tiny
    language model. *)
From Stdlib Require Import Strings.Ascii Floats.SpecFloat.
From stdpp Require Import prelude gmap strings list.
From S2P Require Import Prelude CxxText CxxFloat KvCache Batcher Backend LlamaProtocol Tokenizer TinyLLM.

Record ContinuousTinyLLMBackend := mkContinuousTinyLLM {
  max_generated_tokens_ : Z;
  temperature_ : spec_float;
  top_k_ : Z;
  max_prefill_tokens_per_step_ : Z;
  max_decode_sequences_per_step_ : Z;
  kv_cache_blocks_ : Z;
  kv_block_tokens_ : Z;
  prefix_cache_tokens_ : Z;
}.

(** The constructor. *)
Definition make_ContinuousTinyLLMBackend (max_generated_tokens : Z) (temperature : spec_float)
    (top_k max_prefill_tokens_per_step max_decode_sequences_per_step
     kv_cache_blocks kv_block_tokens prefix_cache_tokens : Z) : ContinuousTinyLLMBackend :=
  mkContinuousTinyLLM (clamp max_generated_tokens 1 64)
    (Float32.clamp temperature (Float32.literal 5 2) (Float32.of_Z 2))
    (clamp top_k 1 (kTinyLLMVocabSize - 2))
    (clamp max_prefill_tokens_per_step 1 (Z.shiftl 1 20))
    (clamp max_decode_sequences_per_step 1 (Z.shiftl 1 20))
    (clamp kv_cache_blocks 1 (Z.shiftl 1 20))
    (clamp kv_block_tokens 1 (Z.shiftl 1 20))
    (clamp prefix_cache_tokens 0 1024).

Definition FormatContinuousTinyLLMOutput (generated : string)
    (prompt_tokens generated_tokens prefill_micros decode_micros batch_size
     max_generated_tokens top_k : Z) (temperature : spec_float)
    (first_token_step completion_step : Z) : string :=
  "ContinuousTinyLLM(backend=continuous_tiny_llm, generated='" +:+ generated +:+
  "', prompt_tokens=" +:+ to_string prompt_tokens +:+
  ", generated_tokens=" +:+ to_string generated_tokens +:+
  ", prefill_micros=" +:+ to_string prefill_micros +:+
  ", decode_micros=" +:+ to_string decode_micros +:+
  ", batch_size=" +:+ to_string batch_size +:+
  ", max_generated_tokens=" +:+ to_string max_generated_tokens +:+
  ", top_k=" +:+ to_string top_k +:+
  ", temperature=" +:+ fixed 3 temperature +:+
  ", first_token_step=" +:+ to_string first_token_step +:+
  ", completion_step=" +:+ to_string completion_step +:+ ")".

Definition BuildContinuousTinyLLMMetadata (run : ContinuousBatchingRun)
    (sequence : SequenceResult) : metadata_map :=
  let stats := run_stats run in
  let kv := kv_cache stats in
  list_to_map
    [("sequence.status", SequenceStatusName (res_status sequence));
     ("sequence.generated_tokens", to_string (res_generated_tokens sequence));
     ("sequence.first_token_step", to_string (res_first_token_step sequence));
     ("sequence.completion_step", to_string (res_completion_step sequence));
     ("sequence.kv_blocks", to_string (res_kv_blocks sequence));
     ("sequence.prefix_cache_hit", BoolToJson (res_prefix_cache_hit sequence));
     ("scheduler.total_steps", to_string (total_steps stats));
     ("scheduler.prefill_steps", to_string (prefill_steps stats));
     ("scheduler.decode_steps", to_string (decode_steps stats));
     ("scheduler.total_prompt_tokens", to_string (total_prompt_tokens stats));
     ("scheduler.total_generated_tokens", to_string (total_generated_tokens stats));
     ("scheduler.average_decode_batch_size", FixedDouble (average_decode_batch_size stats) 2);
     ("kv_cache.total_blocks", to_string (KvCache.total_blocks kv));
     ("kv_cache.used_blocks", to_string (used_blocks kv));
     ("kv_cache.high_watermark_blocks", to_string (high_watermark_blocks kv));
     ("kv_cache.cached_prefixes", to_string (cached_prefixes kv));
     ("kv_cache.prefix_cache_hits", to_string (prefix_cache_hits kv));
     ("kv_cache.prefix_cache_misses", to_string (prefix_cache_misses kv));
     ("kv_cache.evictions", to_string (evictions kv));
     ("kv_cache.allocation_failures", to_string (allocation_failures kv))].

(** The scheduler's configuration and the request it is given. *)
Definition scheduler_config (b : ContinuousTinyLLMBackend) : ContinuousBatcherConfig :=
  mkContinuousBatcherConfig (max_prefill_tokens_per_step_ b) (max_decode_sequences_per_step_ b)
    (kv_cache_blocks_ b) (kv_block_tokens_ b).

Definition sequence_request (b : ContinuousTinyLLMBackend) (request : BackendRequest)
    : SequenceRequest :=
  let token_ids := TokenizeForTinyLLM (prompt request) in
  let key := PrefixCacheKey token_ids (prefix_cache_tokens_ b) in
  mkSequenceRequest (id request) (to_int (zlen token_ids)) (max_generated_tokens_ b) 0 key
    (if is_empty key then -1 else prefix_cache_tokens_ b).

(** [result.code = kUnavailable; result.message = message] *)
Definition set_unavailable (msg : string) (r : BackendResult) : BackendResult :=
  mkBackendResult kUnavailable msg (outputs r) (output_metadata r).

Section Continuous.
Context `{Libm} {W : Type} `{Host W}.

(** One iteration of the loop over the requests, for the one at [index]. *)
Definition continuous_request (b : ContinuousTinyLLMBackend) (run : ContinuousBatchingRun)
    (batch_size : Z) (indexed : nat * BackendRequest) (result : BackendResult)
    : M W (BackendResult + BackendResult) :=
  let '(index, request) := indexed in
  let* sequence := of_option (run_results run !! index) in
  if bool_decide (res_status sequence = kRejected)
  then done_with (inl (set_unavailable (res_message sequence) result))
  else
    let* generation := GenerateTinyLLMCompletion (prompt request) (max_generated_tokens_ b)
      (temperature_ b) (top_k_ b) in
    let* cancelled := ask is_cancelled in
    if cancelled || negb (gen_generated_tokens generation =? max_generated_tokens_ b)
    then done_with (inl CancelledResult)
    else
      let out := FormatContinuousTinyLLMOutput (gen_text generation) (gen_prompt_tokens generation)
        (gen_generated_tokens generation) (gen_prefill_micros generation)
        (gen_decode_micros generation) batch_size (max_generated_tokens_ b) (top_k_ b)
        (temperature_ b) (res_first_token_step sequence) (res_completion_step sequence) in
      done_with (inr (push_metadata (BuildContinuousTinyLLMMetadata run sequence)
        (push_output out result))).

Definition Continuous_ProcessBatch (b : ContinuousTinyLLMBackend) (requests : list BackendRequest)
    : M W (BackendResult * ContinuousTinyLLMBackend) :=
  let* cancelled := ask is_cancelled in
  if cancelled then done_with (CancelledResult, b)
  else
    let scheduler := make_ContinuousBatcher (scheduler_config b) in
    let* run := with_polls (λ polls,
      Run (T := KvBlockAllocator.Impl) scheduler polls (sequence_request b <$> requests) 0) in
    if existsb (λ sequence, bool_decide (res_status sequence = kCancelled)) (run_results run)
    then done_with (CancelledResult, b)
    else
      let* result := for_requests (continuous_request b run (to_int (zlen requests)))
        (imap pair requests) empty_result in
      done_with (result, b).

#[export] Instance Continuous_backend : InferenceBackend ContinuousTinyLLMBackend W := {|
  Name _ := "continuous_tiny_llm";
  ProcessBatch := Continuous_ProcessBatch;
|}.
#[export] Instance Continuous_streaming : StreamingBackend ContinuousTinyLLMBackend W := {|
  ProcessStream := default_ProcessStream;
|}.
End Continuous.
