(* ===== verification/ContinuousTinyLLMProps.v ===== *)
(** * Theorems on the continuously batched language model *)
From Stdlib Require Import Strings.Ascii Floats.SpecFloat.
From stdpp Require Import prelude gmap strings list.
From S2P Require Import Prelude CxxText CxxTextProps CxxFloat FloatRounding FloatBounds FloatLibm.
From S2P Require Import KvCache KvCacheInv KvCacheProps Batcher BatcherInv BatcherProps BatcherRun.
From S2P Require Import Backend Simulator Tokenizer TinyLLM TinyLLMBounds TinyLLMProps ContinuousTinyLLM.

(** The bounds that the constructor establishes. *)
Definition continuous_ok (b : ContinuousTinyLLMBackend) : Prop :=
  1 ≤ max_generated_tokens_ b ≤ 64 ∧ 1 ≤ top_k_ b ≤ kTinyLLMVocabSize - 2.

Lemma make_continuous_ok n t k p d c kt px : continuous_ok (make_ContinuousTinyLLMBackend n t k p d c kt px).
Proof. split; simpl; by apply clamp_range. Qed.

(** What the constructor gives a batch to start from: a temperature that was read
    is finite, and blocks are small. *)
Definition continuous_settings (b : ContinuousTinyLLMBackend) : Prop :=
  continuous_ok b ∧ float_ok (temperature_ b) ∧ 1 ≤ kv_block_tokens_ b ≤ 2 ^ 20.

Lemma make_continuous_settings n t k p d c kt px :
  Float32.is_number t = true → rounded_ok t →
  continuous_settings (make_ContinuousTinyLLMBackend n t k p d c kt px).
Proof.
  intros Ht Hok. split; [apply make_continuous_ok|]. simpl.
  split; [apply clamp_ok; [done..|by split; vm_compute|by split; vm_compute]|by apply clamp_range].
Qed.

Section Batch.
Context `{Libm} {W : Type} `{Host W}.
Implicit Types (b : ContinuousTinyLLMBackend).

(** What the output and the metadata of a request are, in a run of the
    scheduler: those of its own sequence, which completed, and the text of the
    reference. *)
Definition scheduled b (run : ContinuousBatchingRun) (batch_size : Z) (indexed : nat * BackendRequest)
    (out : string) (m : metadata_map) : Prop :=
  let request := indexed.2 in
  ∃ sequence ids text prefill decode,
    run_results run !! indexed.1 = Some sequence ∧ res_status sequence = kCompleted ∧
    res_id sequence = id request ∧ res_generated_tokens sequence = max_generated_tokens_ b ∧
    generates (prompt request) (max_generated_tokens_ b) (temperature_ b) (top_k_ b) ids text ∧
    out = FormatContinuousTinyLLMOutput text (to_int (zlen (TokenizeForTinyLLM (prompt request))))
      (max_generated_tokens_ b) prefill decode batch_size (max_generated_tokens_ b) (top_k_ b)
      (temperature_ b) (res_first_token_step sequence) (res_completion_step sequence) ∧
    m = BuildContinuousTinyLLMMetadata run sequence.

(** A run of the scheduler for a batch: final results, none of them cancelled. *)
Definition batch_run b (requests : list BackendRequest) (run : ContinuousBatchingRun) : Prop :=
  Forall2 (result_final kv_error (total_steps (run_stats run)))
    (sequence_request b <$> requests) (run_results run) ∧
  ∀ sequence, sequence ∈ run_results run → res_status sequence ≠ kCancelled.

Lemma continuous_step b requests run n done_ index request acc (w : W) step w' :
  continuous_ok b → batch_run b requests run → requests !! index = Some request →
  answers (scheduled b run n) done_ acc →
  continuous_request b run n (index, request) acc w = Some (step, w') →
  match step with
  | inl r => failed_result r
  | inr acc' => answers (scheduled b run n) (done_ ++ [(index, request)]) acc'
  end.
Proof.
  intros [Hmax Hk] [Hrun Hnc] Hreq Hacc. unfold continuous_request.
  rewrite and_then_Some. intros (sequence & w1 & Hseq & Hgo). unfold of_option in Hseq.
  destruct (run_results run !! index) as [s|] eqn:Hs; [|done]. injection Hseq as -> ->.
  case_bool_decide as Hrej; [injection Hgo as <- <-; by right|].
  apply and_then_Some in Hgo as (g & w2 & Hgen & Hgo). apply GenerateTinyLLMCompletion_spec in Hgen.
  apply and_then_Some in Hgo as (cancelled & w3 & _ & Hgo).
  destruct (cancelled || _) eqn:Hc; [injection Hgo as <- <-; by left|].
  apply orb_false_iff in Hc as [_ Hc]. to_prop. injection Hgo as <- <-. apply answers_push; [done|].
  destruct Hgen as [[_ Hzero]|(ids & Hids & Hprompt & Hcount)]; [lia|].
  pose proof (Hnc _ (list_elem_of_lookup_2 _ _ _ Hs)) as Hnot.
  assert (Hfinal : result_final kv_error (total_steps (run_stats run)) (sequence_request b request) sequence).
  { eapply Forall2_lookup_lr; [exact Hrun| |exact Hs]. by rewrite list_lookup_fmap, Hreq. }
  destruct Hfinal as [Hid _ _ Hout]. destruct (res_status sequence) eqn:Hst; [|done..].
  destruct Hout as (_ & Hgen & _). simpl in Hgen.
  exists sequence, ids, (gen_text g), (gen_prefill_micros g), (gen_decode_micros g).
  split_and!; [done..|lia|done| |done]. by rewrite Hc, Hprompt.
Qed.

Lemma indexed_requests {A} (l : list A) : Forall (λ p, l !! p.1 = Some p.2) (imap pair l).
Proof.
  apply Forall_lookup. intros i p. rewrite list_lookup_imap. intros (x & Hx & ->)%fmap_Some. exact Hx.
Qed.

Lemma continuous_loop b requests run n (w : W) r w' :
  continuous_ok b → batch_run b requests run →
  for_requests (continuous_request b run n) (imap pair requests) empty_result w = Some (r, w') →
  failed_result r ∨ answers (scheduled b run n) (imap pair requests) r.
Proof.
  intros Hok Hrun Hloop.
  eapply (for_requests_inv_for _ (λ p, requests !! p.1 = Some p.2) _ []) in Hloop;
    [exact Hloop| |apply indexed_requests|apply answers_nil].
  intros done_ [index request] acc w0 step w1 Hp Hacc Hstep. by eapply continuous_step.
Qed.

Lemma Continuous_answers b requests (w : W) r b' w' :
  continuous_ok b → Continuous_ProcessBatch b requests w = Some ((r, b'), w') →
  b' = b ∧ (failed_result r ∨ ∃ run, batch_run b requests run ∧
    answers (scheduled b run (to_int (zlen requests))) (imap pair requests) r).
Proof.
  intros Hok. unfold Continuous_ProcessBatch. rewrite and_then_Some. intros (cancelled & w1 & _ & Hgo).
  destruct cancelled; [injection Hgo as <- <- <-; split; [done|by left; left]|].
  apply and_then_Some in Hgo as (run & w2 & Hrun & Hgo). unfold with_polls in Hrun.
  pose proof (Run_final (T := KvBlockAllocator.Impl) (scheduler_config b) (poll_at w1)
    (sequence_request b <$> requests) 0) as Hfinal.
  destruct (Run _ _ _ _) as [[run' calls]|]; [|done]. injection Hrun as -> <-.
  destruct (existsb _ _) eqn:Hex; [injection Hgo as <- <- <-; split; [done|by left; left]|].
  apply and_then_Some in Hgo as (result & w3 & Hloop & Hdone). injection Hdone as <- <- <-.
  split; [done|].
  assert (Hbatch : batch_run b requests run).
  { split; [exact Hfinal|]. intros s Hs Hc. apply not_true_iff_false in Hex. apply Hex, existsb_exists.
    exists s. split; [by apply list_elem_of_In|]. by apply bool_decide_eq_true. }
  apply continuous_loop in Hloop; [|done..]. destruct Hloop; eauto.
Qed.

Lemma continuous_result_for b run n requests r :
  answers (scheduled b run n) (imap pair requests) r → result_for requests r.
Proof. apply answers_result_for. apply length_imap. Qed.

#[export, refine] Instance Continuous_spec : BackendSpec ContinuousTinyLLMBackend W := {|
  backend_inv := continuous_ok;
|}.
Proof.
  intros b requests w r b' w' Hok [-> Hr]%Continuous_answers; [|done]. split_and!; [|done..].
  destruct Hr as [?|(run & _ & ?)]; [by apply failed_result_for|by eapply continuous_result_for].
Defined.
End Batch.

(** ** Batches return *)

(** A received batch has few enough tokens for the scheduler. *)
Lemma received_work b requests :
  continuous_ok b →
  Z.of_nat (total_work (sequence_request b <$> requests)) ≤ 34 * batch_bytes requests.
Proof.
  intros [Hmax _]. unfold batch_bytes. induction requests as [|r requests IH]; [done|].
  rewrite !fmap_cons, total_work_cons, sum_Z_cons, Nat2Z.inj_add.
  enough (Hone : Z.of_nat (request_work (sequence_request b r)) ≤ 34 * (2 + size_of (prompt r))) by lia.
  pose proof (TokenizeForTinyLLM_length (prompt r)) as Hl.
  unfold request_work, sequence_request. simpl.
  assert (Hint : to_int (zlen (TokenizeForTinyLLM (prompt r))) ≤ zlen (TokenizeForTinyLLM (prompt r))).
  { unfold to_int. pose proof (Z.mod_le (zlen (TokenizeForTinyLLM (prompt r)) + 2147483648) 4294967296). lia. }
  unfold size_of in *. lia.
Qed.

Lemma received_run_fits b requests :
  continuous_settings b → batch_received requests →
  run_fits (make_ContinuousBatcher (scheduler_config b)) (sequence_request b <$> requests).
Proof.
  intros (Hok & _ & Hb) Hr. pose proof (received_work b requests Hok).
  unfold run_fits, batch_received, message_limit, INT_MAX in *.
  assert (Hk : kv_block_tokens (make_ContinuousBatcher (scheduler_config b)) = kv_block_tokens_ b).
  { simpl. unfold ClampPositive. by rewrite (proj2 (Z.ltb_lt _ _)) by lia. }
  rewrite Hk. lia.
Qed.

Section Returns.
Context `{Hlibm : LibmSpec} {W : Type} `{Host W}.

Lemma continuous_request_returns b run n requests acc p :
  continuous_settings b → Forall prompt_received requests →
  length (run_results run) = length requests →
  requests !! p.1 = Some p.2 → returns (W := W) (continuous_request b run n p acc).
Proof using Hlibm.
  intros ([Hmax Hk] & Ht & _) Hsize Hlen Hp. destruct p as [index request]. simpl in Hp.
  pose proof (Forall_lookup_1 _ _ _ _ Hsize Hp) as Hr.
  apply lookup_lt_Some in Hp. rewrite <- Hlen in Hp. apply lookup_lt_is_Some_2 in Hp as [s Hs].
  unfold continuous_request. apply returns_bind.
  { intros w. unfold of_option. rewrite Hs. by do 2 eexists. }
  intros s'. case_bool_decide; [auto with laminar|].
  apply returns_bind; [apply GenerateTinyLLMCompletion_returns; [done|exact Hr|done|lia]|].
  intros g. apply returns_bind; [auto with laminar|]. intros c. cbv zeta. destruct (c || _); apply returns_done.
Qed.

Lemma Continuous_defined b requests :
  continuous_settings b → batch_received requests → returns (W := W) (Continuous_ProcessBatch b requests).
Proof using Hlibm.
  intros Hok Hsize. unfold Continuous_ProcessBatch.
  apply returns_bind; [auto with laminar|intros [|]; [auto with laminar|]].
  intros w1. pose proof (Run_final (T := KvBlockAllocator.Impl) (scheduler_config b) (poll_at w1)
    (sequence_request b <$> requests) 0) as Hfinal.
  destruct (Run _ _ _ _) as [[run calls]|] eqn:Heq;
    [|by exfalso; apply Hfinal, received_run_fits].
  apply Forall2_length in Hfinal. rewrite length_fmap in Hfinal.
  eapply returns_after; [unfold with_polls; by rewrite Heq|]. destruct (existsb _ _); [auto with laminar|].
  apply returns_bind; [|auto with laminar].
  apply (for_requests_returns_for (λ p, requests !! p.1 = Some p.2)); [|apply indexed_requests].
  intros p acc Hp. by eapply continuous_request_returns; [|apply batch_received_prompts| |].
Qed.

End Returns.

