(* ===== verification/Process.v ===== *)
(** * The llama.cpp command

    [RunProcess] and [LlamaCppBackend] of [src/backend/inference_backend.cc]: a
    command is run in a child process whose output is read through a pipe, with
    a time limit and cancellation.  The system calls are operations of the
    world; loops that wait have fuel. *)
From Stdlib Require Import Strings.Ascii Floats.SpecFloat.
From stdpp Require Import prelude gmap strings list.
From S2P Require Import Prelude CxxText CxxFloat Backend LlamaProtocol.

(** ** The operating system *)

(** What the child does between [fork] and its end.  [execvp] returns only if it
    fails, with the text of its error; the calls after it are for that case. *)
Inductive ChildCall :=
  | SetProcessGroup (pid pgid : Z)
  | CloseFd (fd : Z)
  | Dup2 (old_fd new_fd : Z)
  | Execvp (file : string) (argv : list string)
  | WriteError (fd : Z) (text : string → string)
  | Exit (status : Z).

Class Processes (W : Type) `{Files W} := {
  (** [pipe]: its result and the two descriptors *)
  pipe : W → (Z * (Z * Z)) * W;
  (** [fork], as the parent sees it, of a child that makes the given calls *)
  fork : list ChildCall → W → Z * W;
  (** [read] into a buffer of the given size: its result and the buffer *)
  read : Z → Z → W → (Z * string) * W;
  (** [waitpid], with [WNOHANG] or not: its result and the status it stores *)
  waitpid : Z → bool → W → (Z * Z) * W;
  kill : Z → Z → W → Z * W;
  (** [poll] of one descriptor for [POLLIN | POLLHUP] *)
  poll_readable : Z → Z → W → Z * W;
  strerror : Z → string;
}.

Class Filesystem (W : Type) := {
  (** [std::filesystem::exists] *)
  path_exists : string → W → bool * W;
  (** [std::filesystem::status]: whether it fails, and whether the status is
      that of a regular file *)
  path_status : string → W → (bool * bool) * W;
  (** [access] for [X_OK] *)
  access_executable : string → W → Z * W;
}.

Definition SIGTERM : Z := 15.
Definition SIGKILL : Z := 9.
Definition STDOUT_FILENO : Z := 1.
Definition STDERR_FILENO : Z := 2.

(** The macros on a wait status. *)
Definition WTERMSIG (status : Z) : Z := Z.land status 127.
Definition WIFEXITED (status : Z) : bool := WTERMSIG status =? 0.
Definition WEXITSTATUS (status : Z) : Z := Z.land (Z.shiftr status 8) 255.
Definition WIFSIGNALED (status : Z) : bool :=
  negb (WTERMSIG status =? 0) && negb (WTERMSIG status =? 127).

Record ProcessResult := mkProcessResult {
  exit_code : Z;
  timed_out : bool;
  process_cancelled : bool;
  launch_failed : bool;
  output : string;
  process_error : string;
}.

(** [ProcessResult{}] *)
Definition empty_process : ProcessResult := mkProcessResult (-1) false false false EmptyString EmptyString.

Definition set_launch_failed (msg : string) (r : ProcessResult) : ProcessResult :=
  mkProcessResult (exit_code r) (timed_out r) (process_cancelled r) true (output r) msg.
Definition set_cancelled (r : ProcessResult) : ProcessResult :=
  mkProcessResult (exit_code r) (timed_out r) true (launch_failed r) (output r) (process_error r).
Definition set_timed_out (r : ProcessResult) : ProcessResult :=
  mkProcessResult (exit_code r) true (process_cancelled r) (launch_failed r) (output r) (process_error r).
Definition set_output (text : string) (r : ProcessResult) : ProcessResult :=
  mkProcessResult (exit_code r) (timed_out r) (process_cancelled r) (launch_failed r) text (process_error r).
Definition set_exit_code (n : Z) (r : ProcessResult) : ProcessResult :=
  mkProcessResult n (timed_out r) (process_cancelled r) (launch_failed r) (output r) (process_error r).

Definition kMaxCapturedOutputBytes : Z := 16 * 1024.

(** The child's branch after [fork]. *)
Definition child_calls (args : list string) (read_fd write_fd : Z) : list ChildCall :=
  let file := default EmptyString (head args) in
  [SetProcessGroup 0 0; CloseFd read_fd; Dup2 write_fd STDOUT_FILENO; Dup2 write_fd STDERR_FILENO;
   CloseFd write_fd; Execvp file args;
   WriteError STDERR_FILENO (λ reason, "exec failed for " +:+ file +:+ ": " +:+ reason +:+ char newline);
   Exit 127].

Section Run.
Context {W : Type} `{Host W} `{Processes W} (fuel : nat).

(** The loop of [ReadAvailable]. *)
Fixpoint read_available (n : nat) (fd limit : Z) (out : string) : M W string :=
  match n with
  | O => undefined
  | S n =>
      let* '(bytes, buffer) := ask (read fd 4096) in
      if 0 <? bytes
      then read_available n fd limit (AppendWithLimit out (take_chars (Z.to_nat bytes) buffer) limit)
      else if bytes =? 0 then done_with out
      else
        let* err := ask (λ w, (errno w, w)) in
        if err =? EINTR then read_available n fd limit out
        else if err =? EAGAIN then done_with out
        else done_with out
  end.

Definition ReadAvailable (fd : Z) (out : string) (limit : Z) : M W string :=
  read_available fuel fd limit out.

Definition SignalProcessGroup (pid signal_number : Z) : M W unit :=
  let* _ := ask (kill (- pid) signal_number) in
  let* _ := ask (kill pid signal_number) in
  done_with tt.

(** The attempts of [StopProcess] that remain: [Some status] when it returns. *)
Fixpoint wait_attempts (attempts : nat) (pid status : Z) : M W (option Z * Z) :=
  match attempts with
  | O => done_with (None, status)
  | S attempts =>
      let* '(done, stored) := ask (waitpid pid true) in
      let status := if done =? pid then stored else status in
      if done =? pid then done_with (Some status, status)
      else
        let* err := ask (λ w, (errno w, w)) in
        if (done <? 0) && negb (err =? EINTR) then done_with (Some status, status)
        else let* _ := ask (sleep_for_ms 10) in wait_attempts attempts pid status
  end.

(** [while (waitpid(pid, status, 0) < 0 && errno == EINTR) {}] *)
Fixpoint wait_blocking (n : nat) (pid status : Z) : M W Z :=
  match n with
  | O => undefined
  | S n =>
      let* '(done, stored) := ask (waitpid pid false) in
      let status := if done =? pid then stored else status in
      let* err := ask (λ w, (errno w, w)) in
      if (done <? 0) && (err =? EINTR) then wait_blocking n pid status else done_with status
  end.

(** [StopProcess]: the status it leaves. *)
Definition StopProcess (pid status : Z) : M W Z :=
  let* _ := SignalProcessGroup pid SIGTERM in
  let* '(stopped, status) := wait_attempts 30 pid status in
  match stopped with
  | Some status => done_with status
  | None => let* _ := SignalProcessGroup pid SIGKILL in wait_blocking fuel pid status
  end.

(** The loop of [RunProcess]: whether the child has exited, the status and the
    result. *)
Fixpoint wait_loop (n : nat) (pid fd deadline status : Z) (r : ProcessResult)
    : M W (bool * Z * ProcessResult) :=
  match n with
  | O => undefined
  | S n =>
      let* out := ReadAvailable fd (output r) kMaxCapturedOutputBytes in
      let r := set_output out r in
      let* '(done, stored) := ask (waitpid pid true) in
      if done =? pid then done_with (true, stored, r)
      else
        let* err := ask (λ w, (errno w, w)) in
        if (done <? 0) && negb (err =? EINTR)
        then done_with (false, status, set_launch_failed ("waitpid failed: " +:+ strerror err) r)
        else
          let* cancelled := ask is_cancelled in
          if cancelled then done_with (false, status, set_cancelled r)
          else
            let* now := ask steady_now in
            if deadline <=? now then done_with (false, status, set_timed_out r)
            else
              let remaining := Z.quot (deadline - now) 1000000 in
              let* _ := ask (poll_readable fd (clamp remaining 1 25)) in
              wait_loop n pid fd deadline status r
  end.

(** The exit code, from the status. *)
Definition decode_status (status : Z) (r : ProcessResult) : ProcessResult :=
  if WIFEXITED status then set_exit_code (WEXITSTATUS status) r
  else if WIFSIGNALED status then set_exit_code (128 + WTERMSIG status) r
  else r.

(** The part of [RunProcess] after the fork, in the parent. *)
Definition supervise (pid read_fd write_fd timeout_ms : Z) : M W ProcessResult :=
  let* _ := ask (close write_fd) in
  let* flags := ask (fcntl_getfl read_fd) in
  let* _ := if 0 <=? flags then ask (fcntl_setfl read_fd (Z.lor flags O_NONBLOCK)) else done_with 0 in
  let* now := ask steady_now in
  let deadline := now + timeout_ms * 1000000 in
  let* '(exited, status, r) := wait_loop fuel pid read_fd deadline 0 empty_process in
  let* status := if negb exited then StopProcess pid status else done_with status in
  let* out := ReadAvailable read_fd (output r) kMaxCapturedOutputBytes in
  let* _ := ask (close read_fd) in
  let r := decode_status status (set_output out r) in
  done_with (set_output (TrimWhitespace (output r)) r).

Definition RunProcess (args : list string) (timeout_ms : Z) : M W ProcessResult :=
  if bool_decide (args = []) then done_with (set_launch_failed "empty command" empty_process)
  else
    let* '(rc, (read_fd, write_fd)) := ask pipe in
    if negb (rc =? 0) then
      let* err := ask (λ w, (errno w, w)) in
      done_with (set_launch_failed ("pipe failed: " +:+ strerror err) empty_process)
    else
      let* pid := ask (fork (child_calls args read_fd write_fd)) in
      if pid <? 0 then
        let* saved_errno := ask (λ w, (errno w, w)) in
        let* _ := ask (close read_fd) in
        let* _ := ask (close write_fd) in
        done_with (set_launch_failed ("fork failed: " +:+ strerror saved_errno) empty_process)
      else supervise pid read_fd write_fd timeout_ms.
End Run.

(** ** The backend *)

Definition Basename (path : string) : string :=
  if is_empty path then EmptyString
  else match rsplit_char slash path with Some (_, name) => name | None => path end.

Definition BuildLlamaCppCommand (binary_path model_path prompt : string)
    (max_tokens context_size threads : Z) (temperature : spec_float) : list string :=
  [binary_path; "-m"; model_path; "-p"; prompt; "-n"; to_string max_tokens;
   "-c"; to_string context_size; "--temp"; FloatToString temperature;
   "--no-display-prompt"; "--no-show-timings"] ++
  (if 0 <? threads then ["-t"; to_string threads] else []).

Definition FormatLlamaCppOutput (generated model_path : string)
    (prompt_chars generated_chars duration_micros batch_size max_tokens context_size threads : Z)
    (temperature : spec_float) : string :=
  "LlamaCpp(backend=llama_cpp, generated='" +:+ EscapeSingleQuoted generated +:+
  "', prompt_chars=" +:+ to_string prompt_chars +:+
  ", generated_chars=" +:+ to_string generated_chars +:+
  ", duration_micros=" +:+ to_string duration_micros +:+
  ", batch_size=" +:+ to_string batch_size +:+
  ", model='" +:+ EscapeSingleQuoted (Basename model_path) +:+ "'" +:+
  ", max_tokens=" +:+ to_string max_tokens +:+
  ", ctx_size=" +:+ to_string context_size +:+
  ", threads=" +:+ to_string threads +:+
  ", temperature=" +:+ fixed 3 temperature +:+ ")".

Record LlamaCppBackend := mkLlamaCpp {
  binary_path_ : string;
  model_path_ : string;
  max_tokens_ : Z;
  context_size_ : Z;
  threads_ : Z;
  temperature_ : spec_float;
  timeout_ms_ : Z;
}.

(** The constructor. *)
Definition make_LlamaCppBackend (binary_path model_path : string)
    (max_tokens context_size threads : Z) (temperature : spec_float) (timeout_ms : Z) : LlamaCppBackend :=
  mkLlamaCpp binary_path model_path (clamp max_tokens 1 4096) (clamp context_size 128 262144)
    (clamp threads 0 1024) (Float32.clamp temperature (Float32.of_Z 0) (Float32.of_Z 2))
    (clamp timeout_ms 100 (10 * 60 * 1000)).

Section LlamaCpp.
Context {W : Type} `{Host W} `{Processes W} `{Filesystem W} (fuel : nat).

Definition IsExecutableFile (path : string) : M W bool :=
  let* '(failed, regular) := ask (path_status path) in
  if failed || negb regular then done_with false
  else let* rc := ask (access_executable path) in done_with (rc =? 0).

(** The tests of [ProcessBatch] on a finished command: an error, or none. *)
Definition command_failure (timeout_ms : Z) (process : ProcessResult) : option BackendResult :=
  if process_cancelled process then Some CancelledResult
  else if timed_out process
  then Some (UnavailableResult ("llama.cpp command timed out after " +:+ to_string timeout_ms +:+ "ms"))
  else if launch_failed process
  then Some (UnavailableResult ("failed to launch llama.cpp command: " +:+ process_error process))
  else if negb (exit_code process =? 0)
  then Some (UnavailableResult
    ("llama.cpp command exited with code " +:+ to_string (exit_code process) +:+
     (if is_empty (output process) then EmptyString
      else ": " +:+ CollapseWhitespace (output process))))
  else None.

Definition command_output (b : LlamaCppBackend) (prompt : string)
    (duration_micros batch_size : Z) (process : ProcessResult) : string :=
  let generated := CollapseWhitespace (output process) in
  FormatLlamaCppOutput generated (model_path_ b) (to_int (size_of prompt))
    (to_int (size_of generated)) duration_micros batch_size (max_tokens_ b) (context_size_ b)
    (threads_ b) (temperature_ b).

(** One iteration of the loop of [ProcessBatch]. *)
Definition llama_cpp_request (b : LlamaCppBackend) (batch_size : Z)
    (request : BackendRequest) (result : BackendResult) : M W (BackendResult + BackendResult) :=
  let* cancelled := ask is_cancelled in
  if cancelled then done_with (inl CancelledResult)
  else
    let command := BuildLlamaCppCommand (binary_path_ b) (model_path_ b) (prompt request)
      (max_tokens_ b) (context_size_ b) (threads_ b) (temperature_ b) in
    let* started := ask steady_now in
    let* process := RunProcess fuel command (timeout_ms_ b) in
    let* now := ask steady_now in
    match command_failure (timeout_ms_ b) process with
    | Some failure => done_with (inl failure)
    | None =>
        done_with (inr (push_output
          (command_output b (prompt request) (elapsed_micros started now) batch_size process) result))
    end.

(** The tests before the loop: an error, or none. *)
Definition llama_cpp_ready (b : LlamaCppBackend) : M W (option string) :=
  if is_empty (model_path_ b)
  then done_with (Some "LAMINAR_LLAMA_CPP_MODEL is required for llama_cpp backend")
  else
    let* found := ask (path_exists (model_path_ b)) in
    if negb found then done_with (Some ("llama.cpp model not found at " +:+ model_path_ b))
    else if negb (ContainsPathSeparator (binary_path_ b)) then done_with None
    else
      let* executable := IsExecutableFile (binary_path_ b) in
      done_with (if executable then None
                 else Some ("llama.cpp binary is not executable at " +:+ binary_path_ b)).

Definition LlamaCpp_ProcessBatch (b : LlamaCppBackend) (requests : list BackendRequest)
    : M W (BackendResult * LlamaCppBackend) :=
  let* cancelled := ask is_cancelled in
  if cancelled then done_with (CancelledResult, b)
  else
    let* problem := llama_cpp_ready b in
    match problem with
    | Some msg => done_with (UnavailableResult msg, b)
    | None =>
        let* result :=
          for_requests (llama_cpp_request b (to_int (zlen requests))) requests empty_result in
        done_with (result, b)
    end.

#[export] Instance LlamaCpp_backend : InferenceBackend LlamaCppBackend W := {|
  Name _ := "llama_cpp";
  ProcessBatch := LlamaCpp_ProcessBatch;
|}.
#[export] Instance LlamaCpp_streaming : StreamingBackend LlamaCppBackend W := {|
  ProcessStream := default_ProcessStream;
|}.
End LlamaCpp.
