(* ===== verification/ProcessProps.v ===== *)
(** * Theorems on the llama.cpp command

    Nothing is left behind by a command, its result is well formed, the loops
    end when the child's output does, and what a batch answers. *)
From Stdlib Require Import Strings.Ascii Floats.SpecFloat.
From stdpp Require Import prelude gmap strings list.
From S2P Require Import Prelude CxxText CxxTextProps CxxFloat Backend LlamaProtocol LlamaProtocolProps Process.

(** ** Descriptors and children

    The documented effect of the calls on the open descriptors and the children
    of the process that have not been waited for. *)
Class ProcessesSpec (W : Type) `{Host W} `{Processes W} := {
  fds : W → gset Z;
  children : W → gset Z;
  owned w := (fds w, children w);
  poll_owned w : owned (is_cancelled w).2 = owned w;
  now_owned w : owned (steady_now w).2 = owned w;
  sleep_owned n w : owned (sleep_for_ms n w).2 = owned w;
  getfl_owned fd w : owned (fcntl_getfl fd w).2 = owned w;
  setfl_owned fd n w : owned (fcntl_setfl fd n w).2 = owned w;
  read_owned fd n w : owned (read fd n w).2 = owned w;
  kill_owned pid n w : owned (kill pid n w).2 = owned w;
  poll_readable_owned fd n w : owned (poll_readable fd n w).2 = owned w;
  close_owned fd w : owned (close fd w).2 = (fds w ∖ {[fd]}, children w);
  pipe_owned w : let '((rc, (r, s)), w') := pipe w in
    if rc =? 0 then r ∉ fds w ∧ s ∉ fds w ∧ owned w' = ({[r; s]} ∪ fds w, children w)
    else owned w' = owned w;
  fork_owned calls w : let '(pid, w') := fork calls w in
    if pid <? 0 then owned w' = owned w
    else pid ∉ children w ∧ owned w' = (fds w, {[pid]} ∪ children w);
  (** a wait that fails for another reason than a signal fails for want of a child *)
  waitpid_owned pid nohang w : let '((done, status), w') := waitpid pid nohang w in
    if done =? pid then owned w' = (fds w, children w ∖ {[pid]})
    else owned w' = owned w ∧ (nohang = false → done < 0) ∧
      (done < 0 → errno w' ≠ EINTR → pid ∉ children w);
}.

Section CleanUp.
Context {W : Type} `{ProcessesSpec W} (fuel : nat).

Lemma owned_poll : keeps owned (ask is_cancelled).
Proof. apply keeps_ask, poll_owned. Qed.
Lemma now_keeps : keeps owned (ask steady_now).
Proof. apply keeps_ask, now_owned. Qed.
Lemma sleep_keeps n : keeps owned (ask (sleep_for_ms n)).
Proof. apply keeps_ask, sleep_owned. Qed.
Lemma owned_getfl fd : keeps owned (ask (fcntl_getfl fd)).
Proof. apply keeps_ask, getfl_owned. Qed.
Lemma owned_setfl fd n : keeps owned (ask (fcntl_setfl fd n)).
Proof. apply keeps_ask, setfl_owned. Qed.
Lemma read_keeps fd n : keeps owned (ask (read fd n)).
Proof. apply keeps_ask, read_owned. Qed.
Lemma kill_keeps pid n : keeps owned (ask (kill pid n)).
Proof. apply keeps_ask, kill_owned. Qed.
Lemma poll_readable_keeps fd n : keeps owned (ask (poll_readable fd n)).
Proof. apply keeps_ask, poll_readable_owned. Qed.
#[local] Hint Resolve owned_poll now_keeps sleep_keeps owned_getfl owned_setfl read_keeps
  kill_keeps poll_readable_keeps : laminar.

Lemma read_available_keeps n fd limit out : keeps owned (read_available n fd limit out).
Proof. revert out. induction n as [|n IH]; intros out; simpl; keeps_tac. Qed.

Lemma ReadAvailable_keeps fd out limit : keeps owned (ReadAvailable fuel fd out limit).
Proof. apply read_available_keeps. Qed.

Lemma SignalProcessGroup_keeps pid n : keeps owned (SignalProcessGroup pid n).
Proof. unfold SignalProcessGroup. keeps_tac. Qed.
#[local] Hint Resolve ReadAvailable_keeps SignalProcessGroup_keeps : laminar.

(** After a wait that ends the waiting, the child is gone. *)
Definition reaped (pid : Z) (w w' : W) : Prop := owned w' = (fds w, children w ∖ {[pid]}).

Lemma owned_eq w w' : owned w' = owned w ↔ fds w' = fds w ∧ children w' = children w.
Proof. unfold owned. split; [by intros [= ? ?]|by intros [-> ->]]. Qed.

Lemma reaped_eq pid w w' : reaped pid w w' ↔ fds w' = fds w ∧ children w' = children w ∖ {[pid]}.
Proof. unfold reaped, owned. split; [by intros [= ? ?]|by intros [-> ->]]. Qed.

Lemma reaped_absent pid w w' : owned w' = owned w → pid ∉ children w → reaped pid w w'.
Proof. rewrite owned_eq, reaped_eq. intros [-> ->] Hp. split; [done|set_solver]. Qed.

Lemma reaped_same pid w w1 w' : owned w1 = owned w → reaped pid w1 w' → reaped pid w w'.
Proof. rewrite owned_eq, !reaped_eq. intros [-> ->]. done. Qed.

Lemma wait_attempts_owned n pid status w r status' w' :
  wait_attempts n pid status w = Some ((r, status'), w') →
  if r then reaped pid w w' else owned w' = owned w.
Proof.
  revert status w. induction n as [|n IH]; intros status w; simpl; [by intros [= <- _ <-]|].
  rewrite and_then_Some. intros ([done stored] & w1 & Hw & Hrun). injection Hw as Hw.
  pose proof (waitpid_owned pid true w) as Hspec. rewrite Hw in Hspec.
  destruct (done =? pid); [by injection Hrun as <- _ <-|]. destruct Hspec as (E1 & _ & Hno).
  apply and_then_Some in Hrun as (err & w2 & Herr & Hrun). injection Herr as <- <-.
  destruct (_ && _) eqn:Hfail.
  - injection Hrun as <- _ <-. to_prop. apply reaped_absent; auto.
  - apply and_then_Some in Hrun as (? & w3 & Hs%sleep_keeps & Hrun). apply IH in Hrun.
    destruct r; [by eapply reaped_same; [|exact Hrun]; congruence|congruence].
Qed.

Lemma wait_blocking_owned n pid status w status' w' :
  wait_blocking n pid status w = Some (status', w') → reaped pid w w'.
Proof.
  revert status w. induction n as [|n IH]; intros status w; simpl; [done|].
  rewrite and_then_Some. intros ([done stored] & w1 & Hw & Hrun). injection Hw as Hw.
  pose proof (waitpid_owned pid false w) as Hspec. rewrite Hw in Hspec.
  apply and_then_Some in Hrun as (err & w2 & Herr & Hrun). injection Herr as <- <-.
  destruct (done =? pid) eqn:Hd.
  - destruct ((done <? 0) && _) eqn:Hagain.
    + apply IH in Hrun. apply reaped_eq in Hrun as [Hf Hc]. injection Hspec as Hf1 Hc1.
      apply reaped_eq. rewrite Hf, Hc, Hf1, Hc1. split; [done|set_solver].
    + by injection Hrun as _ <-.
  - destruct Hspec as (E1 & Hneg & Hno). specialize (Hneg eq_refl).
    rewrite (proj2 (Z.ltb_lt _ _) Hneg) in Hrun. simpl in Hrun.
    destruct (errno w1 =? EINTR) eqn:He; to_prop.
    + apply IH in Hrun. by eapply reaped_same.
    + injection Hrun as _ <-. apply reaped_absent; auto.
Qed.

Lemma StopProcess_owned pid status w status' w' :
  StopProcess fuel pid status w = Some (status', w') → reaped pid w w'.
Proof.
  unfold StopProcess. rewrite and_then_Some. intros (? & w1 & E1%SignalProcessGroup_keeps & Hrun).
  apply and_then_Some in Hrun as ([stopped st] & w2 & Hwait%wait_attempts_owned & Hrun).
  destruct stopped as [s|].
  - injection Hrun as <- <-. by eapply reaped_same.
  - apply and_then_Some in Hrun as (? & w3 & E3%SignalProcessGroup_keeps & Hrun).
    apply wait_blocking_owned in Hrun. eapply reaped_same; [|exact Hrun]. congruence.
Qed.

Lemma wait_loop_owned n pid fd deadline status r w exited status' r' w' :
  wait_loop fuel n pid fd deadline status r w = Some ((exited, status', r'), w') →
  if exited then reaped pid w w' else owned w' = owned w.
Proof.
  revert r w. induction n as [|n IH]; intros r w; cbn [wait_loop]; [done|].
  rewrite and_then_Some. intros (out & w1 & E1%ReadAvailable_keeps & Hrun). cbv zeta in Hrun.
  apply and_then_Some in Hrun as ([done stored] & w2 & Hw & Hrun). injection Hw as Hw.
  pose proof (waitpid_owned pid true w1) as Hspec. rewrite Hw in Hspec.
  destruct (done =? pid); [injection Hrun as <- _ _ <-; by eapply reaped_same|].
  destruct Hspec as (E2 & _ & _).
  apply and_then_Some in Hrun as (err & w3 & Herr & Hrun). injection Herr as <- <-.
  destruct (_ && _); [injection Hrun as <- _ _ <-; congruence|].
  apply and_then_Some in Hrun as (cancelled & w4 & E4%owned_poll & Hrun).
  destruct cancelled; [injection Hrun as <- _ _ <-; congruence|].
  apply and_then_Some in Hrun as (now & w5 & E5%now_keeps & Hrun).
  destruct (deadline <=? now); [injection Hrun as <- _ _ <-; congruence|].
  apply and_then_Some in Hrun as (? & w6 & E6%poll_readable_keeps & Hrun). apply IH in Hrun.
  destruct exited; [eapply reaped_same; [|exact Hrun]; congruence|congruence].
Qed.

Lemma close_spec fd w rc w' :
  ask (close fd) w = Some (rc, w') → fds w' = fds w ∖ {[fd]} ∧ children w' = children w.
Proof. intros [= Hc]. pose proof (close_owned fd w) as Hs. rewrite Hc in Hs. by injection Hs. Qed.

Lemma supervise_owned pid rfd wfd timeout w r w' :
  supervise fuel pid rfd wfd timeout w = Some (r, w') →
  fds w' = fds w ∖ {[rfd; wfd]} ∧ children w' = children w ∖ {[pid]}.
Proof.
  unfold supervise. rewrite and_then_Some. intros (? & w1 & [F1 C1]%close_spec & Hrun).
  apply and_then_Some in Hrun as (flags & w2 & E2%owned_getfl & Hrun).
  apply and_then_Some in Hrun as (? & w3 & E3 & Hrun).
  assert (E3' : owned w3 = owned w2).
  { destruct (0 <=? flags); [by apply owned_setfl in E3|by injection E3 as _ <-]. }
  apply and_then_Some in Hrun as (now & w4 & E4%now_keeps & Hrun). cbv zeta in Hrun.
  apply and_then_Some in Hrun as ([[exited status] r1] & w5 & Hloop%wait_loop_owned & Hrun).
  apply and_then_Some in Hrun as (status' & w6 & Hstop & Hrun).
  assert (Hreap : reaped pid w1 w6).
  { destruct exited; cbn [negb] in Hstop.
    - injection Hstop as _ <-. eapply reaped_same; [|exact Hloop]. congruence.
    - apply StopProcess_owned in Hstop. eapply reaped_same; [|exact Hstop]. congruence. }
  apply and_then_Some in Hrun as (out & w7 & E7%ReadAvailable_keeps & Hrun).
  apply and_then_Some in Hrun as (? & w8 & [F8 C8]%close_spec & Hrun). injection Hrun as _ <-.
  apply reaped_eq in Hreap as [F6 C6]. apply owned_eq in E7 as [F7 C7].
  rewrite F8, C8, F7, C7, F6, C6, F1, C1. split; [set_solver|done].
Qed.

(** C8: a command leaves nothing behind: however it ends, whether it exits, is
    cancelled, exceeds its time or cannot be launched, both ends of the pipe are
    closed and the child has been waited for. *)
Theorem RunProcess_cleans_up args timeout w r w' :
  RunProcess fuel args timeout w = Some (r, w') → fds w' = fds w ∧ children w' = children w.
Proof.
  unfold RunProcess. case_bool_decide; [by intros [= _ <-]|].
  rewrite and_then_Some. intros ([rc [rfd wfd]] & w1 & Hp & Hrun). injection Hp as Hp.
  pose proof (pipe_owned w) as Hpipe. rewrite Hp in Hpipe.
  destruct (rc =? 0); cbn [negb] in Hrun.
  2:{ apply and_then_Some in Hrun as (err & w2 & Herr & Hrun). injection Herr as _ <-.
      injection Hrun as _ <-. by apply owned_eq. }
  destruct Hpipe as (Hr & Hw & Hown). injection Hown as F1 C1.
  apply and_then_Some in Hrun as (pid & w2 & Hf & Hrun). injection Hf as Hf.
  pose proof (fork_owned (child_calls args rfd wfd) w1) as Hfork. rewrite Hf in Hfork.
  destruct (pid <? 0).
  - apply owned_eq in Hfork as [F2 C2].
    apply and_then_Some in Hrun as (err & w3 & Herr & Hrun). injection Herr as _ <-.
    apply and_then_Some in Hrun as (? & w4 & [F4 C4]%close_spec & Hrun).
    apply and_then_Some in Hrun as (? & w5 & [F5 C5]%close_spec & Hrun). injection Hrun as _ <-.
    rewrite F5, C5, F4, C4, F2, C2, F1, C1. split; [set_solver|done].
  - destruct Hfork as [Hnew Hown]. injection Hown as F2 C2.
    apply supervise_owned in Hrun as [F3 C3]. rewrite F3, C3, F2, C2, F1, C1.
    rewrite C1 in Hnew. split; set_solver.
Qed.
End CleanUp.

(** ** Results *)

Lemma str_length_drop_trailing s : (str_length (drop_trailing_spaces s) ≤ str_length s)%nat.
Proof.
  induction s as [|c s IH]; simpl; [lia|].
  destruct (drop_trailing_spaces s); [destruct (isspace c); simpl; lia|simpl in *; lia].
Qed.

Lemma str_length_skip s : (str_length (skip_spaces s) ≤ str_length s)%nat.
Proof. induction s as [|c s IH]; simpl; [lia|]. destruct (isspace c); simpl; lia. Qed.

Lemma size_TrimWhitespace s : size_of (TrimWhitespace s) ≤ size_of s.
Proof.
  unfold TrimWhitespace, size_of. pose proof (str_length_drop_trailing (skip_spaces s)).
  pose proof (str_length_skip s). lia.
Qed.

Lemma AppendWithLimit_size out data limit : size_of out ≤ limit → size_of (AppendWithLimit out data limit) ≤ limit.
Proof.
  unfold AppendWithLimit. case_bool; [done|]. to_prop. intros _. rewrite size_of_app.
  unfold size_of in *. rewrite take_chars_length. lia.
Qed.

(** What the flags of a result say: at most one of them is set, and only a
    command that could not be launched has an error. *)
Definition flags_ok (r : ProcessResult) : Prop :=
  (process_cancelled r = true → timed_out r = false ∧ launch_failed r = false) ∧
  (timed_out r = true → launch_failed r = false) ∧
  (launch_failed r = true ↔ process_error r ≠ EmptyString).

(** Neither flags nor exit code are set. *)
Definition unset (r : ProcessResult) : Prop :=
  timed_out r = false ∧ process_cancelled r = false ∧ launch_failed r = false ∧
  process_error r = EmptyString ∧ exit_code r = -1.

Section Results.
Context {W : Type} `{Host W} `{Processes W} (fuel : nat).

Lemma read_available_size n fd limit out (w : W) out' w' :
  size_of out ≤ limit → read_available n fd limit out w = Some (out', w') → size_of out' ≤ limit.
Proof.
  revert out w. induction n as [|n IH]; intros out w Hs; simpl; [done|].
  rewrite and_then_Some. intros ([bytes buffer] & w1 & _ & Hrun). destruct (0 <? bytes).
  { eapply IH; [|exact Hrun]. by apply AppendWithLimit_size. }
  destruct (bytes =? 0); [by injection Hrun as <- _|].
  apply and_then_Some in Hrun as (err & w2 & _ & Hrun). destruct (err =? EINTR); [by eapply IH|].
  by destruct (err =? EAGAIN); injection Hrun as <- _.
Qed.

Lemma wait_loop_result n pid fd deadline status r (w : W) exited status' r' w' :
  unset r → size_of (output r) ≤ kMaxCapturedOutputBytes →
  wait_loop fuel n pid fd deadline status r w = Some ((exited, status', r'), w') →
  flags_ok r' ∧ size_of (output r') ≤ kMaxCapturedOutputBytes ∧ exit_code r' = -1 ∧
  (exited = true → unset r').
Proof.
  revert r w. induction n as [|n IH]; intros r w Hu Hs; cbn [wait_loop]; [done|].
  rewrite and_then_Some. intros (out & w1 & Hout & Hrun). apply read_available_size in Hout; [|done].
  cbv zeta in Hrun. destruct Hu as (U1 & U2 & U3 & U4 & U5).
  apply and_then_Some in Hrun as ([done stored] & w2 & _ & Hrun).
  destruct (done =? pid).
  { injection Hrun as <- _ <- _. unfold flags_ok, unset. simpl. rewrite U1, U2, U3, U4. naive_solver. }
  apply and_then_Some in Hrun as (err & w3 & _ & Hrun).
  destruct (_ && _).
  { injection Hrun as <- _ <- _. unfold flags_ok. simpl. rewrite U1, U2. naive_solver. }
  apply and_then_Some in Hrun as (cancelled & w4 & _ & Hrun). destruct cancelled.
  { injection Hrun as <- _ <- _. unfold flags_ok. simpl. rewrite U1, U3, U4. naive_solver. }
  apply and_then_Some in Hrun as (now & w5 & _ & Hrun). destruct (deadline <=? now).
  { injection Hrun as <- _ <- _. unfold flags_ok. simpl. rewrite U2, U3, U4. naive_solver. }
  apply and_then_Some in Hrun as (? & w6 & _ & Hrun). by apply IH in Hrun.
Qed.

Lemma decode_status_code status r :
  exit_code r = -1 → -1 ≤ exit_code (decode_status status r) ≤ 255.
Proof.
  intros He. unfold decode_status, WEXITSTATUS, WTERMSIG.
  assert (Hland : ∀ x k, 0 ≤ k → 0 ≤ Z.land x (Z.ones k) < 2 ^ k).
  { intros x k Hk. rewrite Z.land_ones by done. apply Z.mod_pos_bound. lia. }
  pose proof (Hland (Z.shiftr status 8) 8). pose proof (Hland status 7).
  change (Z.ones 8) with 255 in *. change (Z.ones 7) with 127 in *.
  destruct (WIFEXITED status); [simpl; lia|]. destruct (WIFSIGNALED status); simpl; lia.
Qed.

Lemma decode_status_others status r :
  timed_out (decode_status status r) = timed_out r ∧
  process_cancelled (decode_status status r) = process_cancelled r ∧
  launch_failed (decode_status status r) = launch_failed r ∧
  process_error (decode_status status r) = process_error r ∧
  output (decode_status status r) = output r.
Proof. unfold decode_status. destruct (WIFEXITED status); [done|]. by destruct (WIFSIGNALED status). Qed.

(** C35: the result of a command is well formed: the output is trimmed and at
    most 16 KiB, whatever the child writes, the exit code is a byte or -1, and
    at most one of the three failures is reported, a launch failure always with
    its reason. *)
Theorem RunProcess_result args timeout (w : W) r w' :
  RunProcess fuel args timeout w = Some (r, w') →
  trimmed (output r) = true ∧ size_of (output r) ≤ kMaxCapturedOutputBytes ∧
  -1 ≤ exit_code r ≤ 255 ∧ flags_ok r.
Proof.
  assert (Hlaunch : ∀ msg, msg ≠ EmptyString → let r := set_launch_failed msg empty_process in
    trimmed (output r) = true ∧ size_of (output r) ≤ kMaxCapturedOutputBytes ∧
    -1 ≤ exit_code r ≤ 255 ∧ flags_ok r).
  { intros msg Hm. by split_and!. }
  unfold RunProcess. case_bool_decide; [intros [= <- _]; by apply Hlaunch|].
  rewrite and_then_Some. intros ([rc [rfd wfd]] & w1 & _ & Hrun).
  destruct (negb _).
  { apply and_then_Some in Hrun as (err & w2 & _ & Hrun). injection Hrun as <- _. by apply Hlaunch. }
  apply and_then_Some in Hrun as (pid & w2 & _ & Hrun). destruct (pid <? 0).
  { apply and_then_Some in Hrun as (err & w3 & _ & Hrun).
    apply and_then_Some in Hrun as (? & w4 & _ & Hrun).
    apply and_then_Some in Hrun as (? & w5 & _ & Hrun). injection Hrun as <- _. by apply Hlaunch. }
  unfold supervise in Hrun. apply and_then_Some in Hrun as (? & w3 & _ & Hrun).
  apply and_then_Some in Hrun as (flags & w4 & _ & Hrun).
  apply and_then_Some in Hrun as (? & w5 & _ & Hrun).
  apply and_then_Some in Hrun as (now & w6 & _ & Hrun).
  apply and_then_Some in Hrun as ([[exited status] r1] & w7 & Hloop & Hrun).
  apply wait_loop_result in Hloop as (Hflags & Hsize & Hcode & _); [|done..].
  apply and_then_Some in Hrun as (status' & w8 & _ & Hrun).
  apply and_then_Some in Hrun as (out & w9 & Hout & Hrun). apply read_available_size in Hout; [|done].
  apply and_then_Some in Hrun as (? & w10 & _ & Hrun). injection Hrun as <- _.
  pose proof (decode_status_others status' (set_output out r1)) as (E1 & E2 & E3 & E4 & E5).
  unfold flags_ok. simpl. rewrite E1, E2, E3, E4, E5. simpl. split_and!; [apply TrimWhitespace_trimmed| | | |apply Hflags..].
  - etrans; [apply size_TrimWhitespace|done].
  - by apply decode_status_code.
  - by apply decode_status_code.
Qed.
End Results.
