(* ===== verification/LlamaCppProps.v ===== *)
(** * The time limit of a command, and batches of commands *)
From Stdlib Require Import Strings.Ascii Floats.SpecFloat.
From stdpp Require Import prelude gmap strings list.
From S2P Require Import Prelude CxxText CxxTextProps CxxFloat Backend LlamaProtocol LlamaProtocolProps.
From S2P Require Import Process ProcessProps.

(** ** A command ends

    Time passes while the parent polls, the output that the child has still to
    write is bounded and gets less as it is read, and no signal interrupts the
    parent. *)
Class ProcessProgress (W : Type) `{Host W} `{Processes W} := {
  clock : W → Z;
  output_left : W → nat;
  output_bound : nat;
  output_left_bound w : (output_left w ≤ output_bound)%nat;
  now_progress w : (steady_now w).1 = clock w ∧ clock w ≤ clock (steady_now w).2;
  cancel_progress w : clock w ≤ clock (is_cancelled w).2;
  waitpid_progress pid nohang w : let '((done, status), w') := waitpid pid nohang w in
    clock w ≤ clock w' ∧ (done < 0 → errno w' ≠ EINTR);
  poll_progress fd n w : clock w + 1 ≤ clock (poll_readable fd n w).2;
  read_progress fd n w : let '((bytes, buffer), w') := read fd n w in
    clock w ≤ clock w' ∧ (0 < bytes → (output_left w' < output_left w)%nat) ∧
    (bytes < 0 → errno w' ≠ EINTR);
}.

Section Progress.
Context {W : Type} `{ProcessProgress W} (fuel : nat).
Context (Hfuel : (output_bound < fuel)%nat).

Lemma read_available_ends n fd limit out w :
  (output_left w < n)%nat →
  ∃ out' w', read_available n fd limit out w = Some (out', w') ∧ clock w ≤ clock w'.
Proof.
  revert out w. induction n as [|n IH]; intros out w Hn; [lia|]. simpl. unfold and_then, ask, done_with.
  pose proof (read_progress fd 4096 w) as Hr. destruct (read fd 4096 w) as [[bytes buffer] w1].
  destruct Hr as (Hc & Hleft & Hintr). destruct (0 <? bytes) eqn:Hb; to_prop.
  { destruct (IH (AppendWithLimit out (take_chars (Z.to_nat bytes) buffer) limit) w1)
      as (out' & w' & Hrun & Hc'); [specialize (Hleft Hb); lia|]. exists out', w'. split; [done|lia]. }
  destruct (bytes =? 0) eqn:H0b; to_prop; [by exists out, w1|].
  rewrite (proj2 (Z.eqb_neq _ _)) by (apply Hintr; lia).
  destruct (_ =? EAGAIN); by exists out, w1.
Qed.

Lemma ReadAvailable_ends fd out limit w :
  ∃ out' w', ReadAvailable fuel fd out limit w = Some (out', w') ∧ clock w ≤ clock w'.
Proof using Hfuel.
  apply read_available_ends. pose proof (output_left_bound w). lia.
Qed.

Lemma ReadAvailable_returns fd out limit : returns (W := W) (ReadAvailable fuel fd out limit).
Proof using Hfuel. intros w. destruct (ReadAvailable_ends fd out limit w) as (o & w' & Hr & _). eauto. Qed.

Lemma wait_attempts_returns n pid status : returns (W := W) (wait_attempts n pid status).
Proof. revert status. induction n as [|n IH]; intros status; simpl; returns_tac. Qed.

Lemma wait_blocking_returns n pid status : (0 < n)%nat → returns (W := W) (wait_blocking n pid status).
Proof.
  intros Hn w. destruct n as [|n]; [lia|]. simpl. unfold and_then, ask, done_with.
  pose proof (waitpid_progress pid false w) as Hw. destruct (waitpid pid false w) as [[d st] w1].
  destruct Hw as [_ Hintr]. destruct (d <? 0) eqn:Hd; to_prop; simpl; [|by do 2 eexists].
  rewrite (proj2 (Z.eqb_neq _ _)) by auto. by do 2 eexists.
Qed.

Lemma StopProcess_returns pid status : returns (W := W) (StopProcess fuel pid status).
Proof using Hfuel.
  unfold StopProcess, SignalProcessGroup. pose proof wait_attempts_returns.
  pose proof (λ n p s, wait_blocking_returns n p s). returns_tac.
  match goal with Hb : ∀ n p s, _ → returns _ |- _ => apply Hb; lia end.
Qed.

Lemma wait_loop_ends n pid fd deadline status r w :
  (Z.to_nat (deadline - clock w) + 1 < n)%nat →
  ∃ x w', wait_loop fuel n pid fd deadline status r w = Some (x, w').
Proof using Hfuel.
  revert r w. induction n as [|n IH]; intros r w Hn; [lia|]. cbn [wait_loop].
  destruct (ReadAvailable_ends fd (output r) kMaxCapturedOutputBytes w) as (out & w1 & Hread & Hc1).
  unfold and_then at 1. rewrite Hread. cbv zeta. unfold and_then at 1, ask at 1.
  pose proof (waitpid_progress pid true w1) as Hw. destruct (waitpid pid true w1) as [[d st] w2].
  destruct Hw as [Hc2 _]. destruct (d =? pid); [by do 2 eexists|].
  unfold and_then at 1, ask at 1. destruct (_ && _); [by do 2 eexists|].
  unfold and_then at 1, ask at 1. pose proof (cancel_progress w2) as Hc3.
  destruct (is_cancelled w2) as [[] w3]; [by do 2 eexists|].
  unfold and_then at 1, ask at 1. pose proof (now_progress w3) as [Hnow Hc4].
  destruct (steady_now w3) as [now w4]. destruct (deadline <=? now) eqn:Hd; [by do 2 eexists|]. to_prop.
  unfold and_then at 1, ask at 1.
  pose proof (poll_progress fd (clamp (Z.quot (deadline - now) 1000000) 1 25) w4) as Hc5.
  destruct (poll_readable _ _ w4) as [rc w5]. apply IH. simpl in *. lia.
Qed.

(** As long as time passes and the child does not write for ever, a command
    ends, with fuel for one turn per nanosecond of its limit. *)
Lemma RunProcess_ends args timeout_ms :
  (Z.to_nat (timeout_ms * 1000000) + 2 < fuel)%nat → returns (W := W) (RunProcess fuel args timeout_ms).
Proof using Hfuel.
  intros Ht.
  unfold RunProcess. pose proof StopProcess_returns. pose proof ReadAvailable_returns.
  case_bool_decide; [auto with laminar|]. apply returns_bind; [auto with laminar|intros [rc [rfd wfd]]].
  destruct (negb _); [returns_tac|]. apply returns_bind; [auto with laminar|intros pid].
  destruct (pid <? 0); [returns_tac|]. unfold supervise.
  apply returns_bind; [auto with laminar|intros _].
  apply returns_bind; [auto with laminar|intros flags].
  apply returns_bind; [destruct (0 <=? flags); auto with laminar|intros _].
  intros w. unfold and_then at 1, ask at 1. pose proof (now_progress w) as [Hnow Hc].
  destruct (steady_now w) as [now w1]. cbv zeta. simpl in Hnow, Hc.
  destruct (wait_loop_ends fuel pid rfd (now + timeout_ms * 1000000) 0 empty_process w1)
    as ([[exited status] r] & w2 & Hloop); [lia|].
  apply (returns_after _ _ _ _ _ Hloop).
  apply returns_bind; [destruct (negb exited); auto with laminar|intros status'].
  returns_tac.
Qed.
End Progress.

(** The time limit and the cancellation are not observed while the child
    writes: as long as every read finds output, [RunProcess] does not return,
    whatever the limit and whatever the callback answers. *)
Theorem RunProcess_ignores_timeout {W} `{Host W} `{Processes W} args timeout_ms (w : W) :
  args ≠ [] → (pipe w).1.1 = 0 → 0 ≤ (fork (child_calls args (pipe w).1.2.1 (pipe w).1.2.2) (pipe w).2).1 →
  (∀ fd n w, 0 < (read fd n w).1.1) →
  ∀ fuel, RunProcess fuel args timeout_ms w = None.
Proof.
  intros Hargs Hpipe Hfork Hread fuel.
  assert (Hnever : ∀ n fd limit out w, read_available n fd limit out w = None).
  { clear -Hread. intros n fd limit. induction n as [|n IH]; intros out w; simpl; [done|].
    unfold and_then, ask. specialize (Hread fd 4096 w). destruct (read fd 4096 w) as [[bytes buffer] w1].
    simpl in Hread. by rewrite (proj2 (Z.ltb_lt _ _) Hread). }
  unfold RunProcess. rewrite bool_decide_false by done. unfold and_then at 1, ask at 1.
  destruct (pipe w) as [[rc [rfd wfd]] w1]. simpl in *. subst rc. cbn [Z.eqb negb].
  unfold and_then at 1, ask at 1. destruct (fork _ w1) as [pid w2]. simpl in Hfork.
  rewrite (proj2 (Z.ltb_ge _ _) Hfork). unfold supervise.
  unfold and_then at 1, ask at 1. destruct (close wfd w2) as [c w3].
  unfold and_then at 1, ask at 1. destruct (fcntl_getfl rfd w3) as [flags w4].
  unfold and_then at 1.
  match goal with |- context [match ?m w4 with _ => _ end] => destruct (m w4) as [[? w5]|]; [|done] end.
  unfold and_then at 1, ask at 1. destruct (steady_now w5) as [now w6]. cbv zeta.
  unfold and_then at 1. destruct fuel as [|fuel]; [done|]. cbn [wait_loop].
  unfold and_then at 1, ReadAvailable. by rewrite Hnever.
Qed.

(** ** Batches *)

Section Batch.
Context {W : Type} `{Host W} `{Processes W} `{Filesystem W} (fuel : nat).

(** A request that is answered by a command: the one that is built from its
    prompt and the configuration was launched, ran to its end without being
    stopped and exited with code 0, and the answer is made from its output. *)
Inductive commanded (b : LlamaCppBackend) (batch_size : Z) (w : W) (request : BackendRequest)
    : string → W → Prop :=
| commanded_by started process now w1 w2 w3 w4 :
    is_cancelled w = (false, w1) →
    steady_now w1 = (started, w2) →
    RunProcess fuel (BuildLlamaCppCommand (binary_path_ b) (model_path_ b) (prompt request)
      (max_tokens_ b) (context_size_ b) (threads_ b) (temperature_ b)) (timeout_ms_ b) w2
      = Some (process, w3) →
    steady_now w3 = (now, w4) →
    launch_failed process = false → process_cancelled process = false →
    timed_out process = false → exit_code process = 0 →
    commanded b batch_size w request
      (command_output b (prompt request) (elapsed_micros started now) batch_size process) w4.

Lemma command_failure_failed timeout process r :
  command_failure timeout process = Some r → failed_result r.
Proof.
  unfold command_failure. intros Hf. repeat case_match; simplify_eq; [by left|by right..].
Qed.

Lemma llama_cpp_step b n request acc (w : W) step w' :
  llama_cpp_request fuel b n request acc w = Some (step, w') →
  match step with
  | inl r => failed_result r
  | inr acc' => ∃ out, acc' = push_output out acc ∧ commanded b n w request out w'
  end.
Proof.
  unfold llama_cpp_request. rewrite and_then_Some. intros (cancelled & w1 & E1%ask_Some & Hrun).
  destruct cancelled; [injection Hrun as <- <-; by left|].
  apply and_then_Some in Hrun as (started & w2 & E2%ask_Some & Hrun).
  apply and_then_Some in Hrun as (process & w3 & E3 & Hrun).
  apply and_then_Some in Hrun as (now & w4 & E4%ask_Some & Hrun).
  destruct (command_failure (timeout_ms_ b) process) as [failure|] eqn:Hf; injection Hrun as <- <-.
  - by eapply command_failure_failed.
  - eexists. split; [done|]. unfold command_failure in Hf. repeat case_match; simplify_eq; to_prop.
    by econstructor.
Qed.

(** The tests before the loop have passed, and the requests are answered in turn. *)
Definition commanded_batch (b : LlamaCppBackend) (w : W) (requests : list BackendRequest)
    (r : BackendResult) (w' : W) : Prop :=
  ∃ w1, llama_cpp_ready b (is_cancelled w).2 = Some (None, w1) ∧
    answers_plain_in_turn (commanded b (to_int (zlen requests))) w1 requests r w'.

Lemma LlamaCpp_answers b requests (w : W) r b' w' :
  LlamaCpp_ProcessBatch fuel b requests w = Some ((r, b'), w') →
  b' = b ∧ (failed_result r ∨ commanded_batch b w requests r w').
Proof.
  unfold LlamaCpp_ProcessBatch. rewrite and_then_Some. intros (cancelled & w1 & E1%ask_Some & Hrun).
  unfold commanded_batch. rewrite E1.
  destruct cancelled; [injection Hrun as <- <- <-; split; [done|by left; left]|].
  apply and_then_Some in Hrun as (problem & w2 & E2 & Hrun).
  destruct problem as [msg|]; [injection Hrun as <- <- <-; split; [done|by left; right]|].
  apply and_then_Some in Hrun as (result & w3 & Hrun & Hdone). injection Hdone as <- <- <-.
  split; [done|]. eapply for_requests_plain in Hrun as [?|?]; [by left|right; eauto|apply llama_cpp_step].
Qed.

#[export, refine] Instance LlamaCpp_spec : @BackendSpec LlamaCppBackend W (LlamaCpp_backend fuel) := {|
  backend_inv _ := True;
|}.
Proof.
  intros b requests w r b' w' _ [-> Hr]%LlamaCpp_answers. split_and!; [|done..].
  destruct Hr as [?|(w1 & _ & ?)]; [by apply failed_result_for|by eapply answers_plain_in_turn_result].
Defined.
End Batch.

Lemma LlamaCpp_defined {W} `{ProcessProgress W} `{Filesystem W} fuel b requests :
  (output_bound < fuel)%nat → (Z.to_nat (timeout_ms_ b * 1000000) + 2 < fuel)%nat →
  returns (W := W) (LlamaCpp_ProcessBatch fuel b requests).
Proof.
  intros Hfuel Ht. unfold LlamaCpp_ProcessBatch, llama_cpp_ready, IsExecutableFile. returns_tac.
  apply for_requests_returns. intros request acc. unfold llama_cpp_request.
  pose proof (RunProcess_ends fuel Hfuel). returns_tac.
Qed.

(** C13: as long as time passes and no child writes for ever, a batch of commands
    returns: it fails with a reason, or its requests were answered in turn, each
    with the output of the command built from its own prompt, which was launched,
    was not stopped and exited with code 0. *)
Theorem LlamaCpp_batch {W} `{ProcessProgress W} `{Filesystem W} fuel b requests (w : W) :
  (output_bound < fuel)%nat → (Z.to_nat (timeout_ms_ b * 1000000) + 2 < fuel)%nat →
  ∃ r w', LlamaCpp_ProcessBatch fuel b requests w = Some ((r, b), w') ∧
    (failed_result r ∨ commanded_batch fuel b w requests r w').
Proof.
  intros Hfuel Ht. destruct (LlamaCpp_defined fuel b requests Hfuel Ht w) as ([r b'] & w' & Hrun).
  apply LlamaCpp_answers in Hrun as Hr. destruct Hr as [-> Hr]. eauto.
Qed.
