(* ===== verification/ScriptedChild.v ===== *)
(** * A scripted child

    Concrete worlds in which a command runs: a child that writes a few bytes and
    exits after some time, and one that never stops writing.  They satisfy the
    hypotheses of the theorems on commands, which are instantiated here. *)
From Stdlib Require Import Strings.Ascii Floats.SpecFloat.
From stdpp Require Import prelude gmap strings list.
From S2P Require Import Prelude CxxText CxxTextProps CxxFloat Backend LlamaProtocol LlamaProtocolProps.
From S2P Require Import Process ProcessProps LlamaCppProps.

(** [box_runs] is how many polls the child still lives, [box_left] what it still
    writes, one byte per read and at most three. *)
Record Box := mkBox {
  box_fds : gset Z;
  box_children : gset Z;
  box_left : nat;
  box_runs : nat;
  box_status : Z;
  box_clock : Z;
}.

Definition box_pipe (w : Box) : (Z * (Z * Z)) * Box :=
  if bool_decide (3 ∈ box_fds w ∨ 4 ∈ box_fds w) then ((-1, (3, 4)), w)
  else ((0, (3, 4)), mkBox ({[3; 4]} ∪ box_fds w) (box_children w) (box_left w) (box_runs w)
                       (box_status w) (box_clock w)).

Definition box_fork (w : Box) : Z * Box :=
  if bool_decide (7 ∈ box_children w) then (-1, w)
  else (7, mkBox (box_fds w) ({[7]} ∪ box_children w) (box_left w) (box_runs w) (box_status w) (box_clock w)).

Definition box_read (w : Box) : (Z * string) * Box :=
  match Nat.min (box_left w) 3 with
  | O => ((-1, EmptyString), w)
  | S rest => ((1, "x"), mkBox (box_fds w) (box_children w) rest (box_runs w) (box_status w) (box_clock w))
  end.

Definition box_waitpid (pid : Z) (nohang : bool) (w : Box) : (Z * Z) * Box :=
  if bool_decide (pid ∉ box_children w) then ((-1, 0), w)
  else if nohang && negb (box_runs w =? 0)%nat then ((if pid =? 0 then 1 else 0, 0), w)
  else ((pid, box_status w), mkBox (box_fds w) (box_children w ∖ {[pid]}) (box_left w) (box_runs w)
                               (box_status w) (box_clock w)).

#[export] Instance Box_host : Host Box := {|
  is_cancelled w := (false, w);
  steady_now w := (box_clock w, w);
  sleep_for_ms _ w := (tt, w);
|}.
#[export] Instance Box_files : Files Box := {|
  fcntl_getfl _ w := (0, w);
  fcntl_setfl _ _ w := (0, w);
  close fd w := (0, mkBox (box_fds w ∖ {[fd]}) (box_children w) (box_left w) (box_runs w)
                      (box_status w) (box_clock w));
  errno _ := EAGAIN;
|}.
#[export] Instance Box_processes : Processes Box := {|
  pipe := box_pipe;
  fork _ := box_fork;
  read _ _ := box_read;
  waitpid := box_waitpid;
  kill _ _ w := (0, mkBox (box_fds w) (box_children w) (box_left w) 0 (box_status w) (box_clock w));
  poll_readable _ _ w := (0, mkBox (box_fds w) (box_children w) (box_left w) (pred (box_runs w))
                               (box_status w) (box_clock w + 25000000));
  strerror _ := "error";
|}.
#[export] Instance Box_filesystem : Filesystem Box := {|
  path_exists _ w := (true, w);
  path_status _ w := ((false, true), w);
  access_executable _ w := (0, w);
|}.

#[export, refine] Instance Box_spec : ProcessesSpec Box := {|
  fds := box_fds;
  children := box_children;
|}.
Proof.
  all: try done.
  - intros fd n w. simpl. unfold box_read. by destruct (Nat.min _ _).
  - intros w. simpl. unfold box_pipe. case_bool_decide; [done|]. simpl. split_and!; [tauto|tauto|done].
  - intros calls w. simpl. unfold box_fork. by case_bool_decide.
  - intros pid nohang w. simpl. unfold box_waitpid. case_bool_decide as Hin.
    { destruct (-1 =? pid) eqn:E; to_prop; subst; simpl.
      - f_equal. set_solver.
      - split_and!; [done|lia|done]. }
    destruct (nohang && _) eqn:E; [|by rewrite Z.eqb_refl].
    apply andb_true_iff in E as [-> _]. destruct (pid =? 0) eqn:Ep; to_prop.
    + rewrite (proj2 (Z.eqb_neq 1 pid)) by lia. split_and!; [done|done|lia].
    + rewrite (proj2 (Z.eqb_neq 0 pid)) by lia. split_and!; [done|done|lia].
Defined.

#[export, refine] Instance Box_progress : ProcessProgress Box := {|
  clock := box_clock;
  output_left w := Nat.min (box_left w) 3;
  output_bound := 3;
|}.
Proof.
  - intros w. lia.
  - intros w. simpl. lia.
  - intros w. simpl. lia.
  - intros pid nohang w. simpl. unfold box_waitpid.
    case_bool_decide; [simpl; split; [lia|done]|]. destruct (_ && _); simpl; (split; [lia|done]).
  - intros fd n w. simpl. lia.
  - intros fd n w. simpl. unfold box_read. destruct (Nat.min (box_left w) 3) eqn:E; simpl.
    + split_and!; [lia|lia|done].
    + split_and!; [lia|lia|lia].
Defined.

(** ** Witnesses *)

Definition demo_box (runs : nat) (status : Z) : Box := mkBox {[0; 1; 2]} ∅ 2 runs status 1000.

(** A command that exceeds its time *)
Lemma RunProcess_cleans_up_witness :
  ∃ r w', RunProcess 50 ["sleep"; "60"] 100 (demo_box 1000 15) = Some (r, w') ∧
    timed_out r = true ∧ box_fds w' = {[0; 1; 2]} ∧ box_children w' = ∅.
Proof.
  assert (Hdemo : ∃ r w', RunProcess 50 ["sleep"; "60"] 100 (demo_box 1000 15) = Some (r, w') ∧
    timed_out r = true) by (do 2 eexists; split; [vm_compute; reflexivity|reflexivity]).
  destruct Hdemo as (r & w' & Hrun & Ht). exists r, w'. split; [exact Hrun|]. split; [exact Ht|].
  exact (RunProcess_cleans_up 50 _ _ _ _ _ Hrun).
Defined.

(** A command that exits with code 3 *)
Lemma RunProcess_result_witness :
  ∃ r w', RunProcess 50 ["false"] 100 (demo_box 2 768) = Some (r, w') ∧
    exit_code r = 3 ∧ output r = "xx" ∧ flags_ok r.
Proof.
  assert (Hdemo : ∃ r w', RunProcess 50 ["false"] 100 (demo_box 2 768) = Some (r, w') ∧
    exit_code r = 3 ∧ output r = "xx")
    by (do 2 eexists; split; [vm_compute; reflexivity|split; reflexivity]).
  destruct Hdemo as (r & w' & Hrun & Hc & Ho). exists r, w'. split; [exact Hrun|].
  split; [exact Hc|]. split; [exact Ho|]. apply (RunProcess_result 50 _ _ _ _ _ Hrun).
Defined.

Definition demo_command : LlamaCppBackend :=
  make_LlamaCppBackend "llama-cli" "/models/tiny.gguf" 64 2048 4 (Float32.literal 7 1) 100.

Lemma LlamaCpp_batch_witness :
  let requests := [mkBackendRequest "1" "hello" "t"] in
  ∃ r w', LlamaCpp_ProcessBatch (Z.to_nat 100000003) demo_command requests (demo_box 2 0)
      = Some ((r, demo_command), w') ∧
    (failed_result r ∨
      commanded_batch (Z.to_nat 100000003) demo_command (demo_box 2 0) requests r w').
Proof.
  intros requests. apply (LlamaCpp_batch (Z.to_nat 100000003) demo_command requests (demo_box 2 0)).
  - change output_bound with 3%nat. lia.
  - change (timeout_ms_ demo_command * 1000000) with 100000000. lia.
Defined.

(** A child that never stops writing, under a callback that always answers that
    the batch is cancelled. *)
#[export] Instance endless_host : Host unit := {|
  is_cancelled w := (true, w);
  steady_now w := (0, w);
  sleep_for_ms _ w := (tt, w);
|}.
#[export] Instance endless_files : Files unit := {|
  fcntl_getfl _ w := (0, w);
  fcntl_setfl _ _ w := (0, w);
  close _ w := (0, w);
  errno _ := EAGAIN;
|}.
#[export] Instance endless_processes : Processes unit := {|
  pipe w := ((0, (3, 4)), w);
  fork _ w := (7, w);
  read _ _ w := ((1, "y"), w);
  waitpid _ _ w := ((0, 0), w);
  kill _ _ w := (0, w);
  poll_readable _ _ w := (1, w);
  strerror _ := "error";
|}.

Lemma RunProcess_ignores_timeout_witness : ∀ fuel, RunProcess fuel ["yes"] 100 tt = None.
Proof.
  apply (RunProcess_ignores_timeout ["yes"] 100 tt);
    [discriminate|reflexivity|vm_compute; discriminate|intros; reflexivity].
Defined.
