(* ===== verification/Onnx.v ===== *)
(** * The ONNX Runtime backend

    [OnnxRuntimeBackend] of [src/backend/inference_backend.cc]: a library that is
    loaded at run time classifies the prompts, three at a time.  The library and
    the dynamic loader are operations of the world; a pointer is an integer, null
    is 0, and a status is a pointer that is null on success. *)
From Stdlib Require Import Strings.Ascii Floats.SpecFloat.
From stdpp Require Import prelude gmap strings list.
From S2P Require Import Prelude CxxText CxxFloat Backend LlamaProtocol Tokenizer Process.

Class OnnxRuntime (W : Type) := {
  (** [dlopen], [dlerror], [dlsym] of a name, [dlclose] *)
  dlopen : string → W → Z * W;
  dlerror : W → option string;
  dlsym : Z → string → W → Z * W;
  dlclose : Z → W → unit * W;
  (** [OrtGetApiBase()], given its address, and [GetApi(ORT_API_VERSION)] *)
  get_api_base : Z → W → Z * W;
  GetApi : Z → W → Z * W;
  (** the functions of the API that create: a status and a pointer *)
  CreateEnv : W → (Z * Z) * W;
  CreateSessionOptions : W → (Z * Z) * W;
  CreateCpuMemoryInfo : W → (Z * Z) * W;
  CreateSession : Z → string → Z → W → (Z * Z) * W;
  CreateTensorWithDataAsOrtValue : Z → list spec_float → list Z → W → (Z * Z) * W;
  (** [Run] of a session on an input: a status and an output *)
  Run : Z → Z → W → (Z * Z) * W;
  SetIntraOpNumThreads : Z → Z → W → Z * W;
  SetInterOpNumThreads : Z → Z → W → Z * W;
  (** [GetTensorMutableData]: a status and the integers at the pointer *)
  GetTensorMutableData : Z → W → (Z * list Z) * W;
  (** [GetErrorMessage] of a status *)
  GetErrorMessage : Z → W → option string;
  ReleaseStatus : Z → W → unit * W;
  ReleaseEnv : Z → W → unit * W;
  ReleaseSessionOptions : Z → W → unit * W;
  ReleaseMemoryInfo : Z → W → unit * W;
  ReleaseSession : Z → W → unit * W;
  ReleaseValue : Z → W → unit * W;
}.

(** ** Features *)

Definition NormalizedHashFeature (prompt : string) : spec_float :=
  Float32.div (Float32.of_Z (HashToken prompt mod 10000)) (Float32.of_Z 10000).

Definition IrisLikeFeatures (prompt : string) : list spec_float :=
  [Float32.min (Float32.div (Float32.of_Z (size_of prompt)) (Float32.of_Z 128)) (Float32.of_Z 1);
   NormalizedHashFeature prompt].

(** On Linux *)
Definition DefaultOnnxRuntimeLibraryPath : string := "third_party/onnxruntime/lib/libonnxruntime.so".

(** ** [OnnxRuntimeBackend::Impl] *)

Record Impl := mkImpl {
  model_path : string;
  runtime_library_path : string;
  unavailable_reason : string;
  ready : bool;
  library_handle : Z;
  api : Z;
  env : Z;
  session_options : Z;
  memory_info : Z;
  session : Z;
}.

(** The members before [Initialize] runs. *)
Definition new_Impl (model_path runtime_library_path : string) : Impl :=
  mkImpl model_path runtime_library_path "onnx runtime is not initialized" false 0 0 0 0 0 0.

Definition set_library_path (p : string) (b : Impl) : Impl :=
  mkImpl (model_path b) p (unavailable_reason b) (ready b) (library_handle b) (api b) (env b)
    (session_options b) (memory_info b) (session b).
Definition set_reason (msg : string) (b : Impl) : Impl :=
  mkImpl (model_path b) (runtime_library_path b) msg (ready b) (library_handle b) (api b) (env b)
    (session_options b) (memory_info b) (session b).
Definition set_ready (r : bool) (b : Impl) : Impl :=
  mkImpl (model_path b) (runtime_library_path b) (unavailable_reason b) r (library_handle b) (api b)
    (env b) (session_options b) (memory_info b) (session b).
Definition set_library_handle (p : Z) (b : Impl) : Impl :=
  mkImpl (model_path b) (runtime_library_path b) (unavailable_reason b) (ready b) p (api b) (env b)
    (session_options b) (memory_info b) (session b).
Definition set_api (p : Z) (b : Impl) : Impl :=
  mkImpl (model_path b) (runtime_library_path b) (unavailable_reason b) (ready b) (library_handle b)
    p (env b) (session_options b) (memory_info b) (session b).
Definition set_env (p : Z) (b : Impl) : Impl :=
  mkImpl (model_path b) (runtime_library_path b) (unavailable_reason b) (ready b) (library_handle b)
    (api b) p (session_options b) (memory_info b) (session b).
Definition set_session_options (p : Z) (b : Impl) : Impl :=
  mkImpl (model_path b) (runtime_library_path b) (unavailable_reason b) (ready b) (library_handle b)
    (api b) (env b) p (memory_info b) (session b).
Definition set_memory_info (p : Z) (b : Impl) : Impl :=
  mkImpl (model_path b) (runtime_library_path b) (unavailable_reason b) (ready b) (library_handle b)
    (api b) (env b) (session_options b) p (session b).
Definition set_session (p : Z) (b : Impl) : Impl :=
  mkImpl (model_path b) (runtime_library_path b) (unavailable_reason b) (ready b) (library_handle b)
    (api b) (env b) (session_options b) (memory_info b) p.

Definition is_null (p : Z) : bool := p =? 0.

(** [": " + error], for an error that has a text *)
Definition error_suffix (error : option string) : string :=
  match error with
  | Some text => if is_empty text then EmptyString else ": " +:+ text
  | None => EmptyString
  end.

Definition kModelBatch : nat := 3.
Definition kFeatureCount : nat := 2.

Section Onnx.
Context {W : Type} `{Host W} `{Filesystem W} `{OnnxRuntime W}.

(** The destructor: a release for every pointer that is not null. *)
Definition release_unless_null (release : Z → W → unit * W) (p : Z) : M W unit :=
  if is_null p then done_with tt else ask (release p).

Definition destroy (b : Impl) : M W unit :=
  let* _ :=
    if is_null (api b) then done_with tt
    else
      let* _ := release_unless_null ReleaseSession (session b) in
      let* _ := release_unless_null ReleaseSessionOptions (session_options b) in
      let* _ := release_unless_null ReleaseMemoryInfo (memory_info b) in
      release_unless_null ReleaseEnv (env b) in
  release_unless_null dlclose (library_handle b).

Definition CheckStatus (status : Z) (operation : string) (b : Impl) : M W (bool * Impl) :=
  if is_null status then done_with (true, b)
  else
    let* error := ask (λ w, (if is_null (api b) then Some EmptyString else GetErrorMessage status w, w)) in
    let b := set_reason (operation +:+ " failed" +:+ error_suffix error) b in
    let* _ := if is_null (api b) then done_with tt else ask (ReleaseStatus status) in
    done_with (false, set_ready false b).

(** A call that creates something, stored and checked, and one that does not. *)
Definition create (call : W → (Z * Z) * W) (store : Z → Impl → Impl) (operation : string) (b : Impl)
    : M W (bool * Impl) :=
  let* '(status, created) := ask call in CheckStatus status operation (store created b).

Definition configure (call : W → Z * W) (operation : string) (b : Impl) : M W (bool * Impl) :=
  let* status := ask call in CheckStatus status operation b.

(** The part of [Initialize] that uses the API. *)
Definition Initialize_session (b : Impl) : M W Impl :=
  let* '(success, b) := create CreateEnv set_env "CreateEnv" b in
  if negb success then done_with b
  else
    let* '(success, b) := create CreateSessionOptions set_session_options "CreateSessionOptions" b in
    if negb success then done_with b
    else
      let* '(success, b) :=
        configure (SetIntraOpNumThreads (session_options b) 1) "SetIntraOpNumThreads" b in
      if negb success then done_with b
      else
        let* '(success, b) :=
          configure (SetInterOpNumThreads (session_options b) 1) "SetInterOpNumThreads" b in
        if negb success then done_with b
        else
          let* '(success, b) := create CreateCpuMemoryInfo set_memory_info "CreateCpuMemoryInfo" b in
          if negb success then done_with b
          else
            let* '(success, b) := create (CreateSession (env b) (model_path b) (session_options b))
              set_session "CreateSession" b in
            if negb success then done_with b else done_with (set_ready true b).

Definition Initialize (b : Impl) : M W Impl :=
  let b := if is_empty (runtime_library_path b)
           then set_library_path DefaultOnnxRuntimeLibraryPath b else b in
  let* found := ask (path_exists (runtime_library_path b)) in
  if negb found
  then done_with (set_reason ("libonnxruntime not found at " +:+ runtime_library_path b) b)
  else
    let* found := ask (path_exists (model_path b)) in
    if negb found then done_with (set_reason ("ONNX model not found at " +:+ model_path b) b)
    else
      let* handle := ask (dlopen (runtime_library_path b)) in
      let b := set_library_handle handle b in
      if is_null handle then
        let* error := ask (λ w, (dlerror w, w)) in
        done_with (set_reason ("failed to load libonnxruntime" +:+
          match error with Some text => ": " +:+ text | None => EmptyString end) b)
      else
        let* symbol := ask (dlsym handle "OrtGetApiBase") in
        if is_null symbol then done_with (set_reason
          ("OrtGetApiBase symbol not found in " +:+ runtime_library_path b) b)
        else
          let* api_base := ask (get_api_base symbol) in
          if is_null api_base then done_with (set_reason "OrtGetApiBase returned null" b)
          else
            let* api := ask (GetApi api_base) in
            let b := set_api api b in
            if is_null api
            then done_with (set_reason "ONNX Runtime API version is unavailable" b)
            else Initialize_session b.

(** The constructor. *)
Definition make_OnnxRuntimeBackend (model_path runtime_library_path : string) : M W Impl :=
  Initialize (new_Impl model_path runtime_library_path).

(** The input of a chunk, padded with zeros. *)
Definition chunk_input (chunk : list BackendRequest) : list spec_float :=
  let features := mjoin ((λ request, IrisLikeFeatures (prompt request)) <$> chunk) in
  features ++ replicate (kModelBatch * kFeatureCount - length features) (S754_zero false).

Definition onnx_output (label batch_size : Z) : string :=
  "OnnxRuntime(backend=onnx, model=logreg_iris, label=" +:+ to_string label +:+
  ", batch_size=" +:+ to_string batch_size +:+ ", model_batch=3)".

(** One iteration of the loop over the chunks: the failure that it returns, or
    the outputs of the chunk. *)
Definition run_chunk (chunk : list BackendRequest) (batch_size : Z) (b : Impl)
    : M W ((BackendResult + list string) * Impl) :=
  let* '(status, input_value) := ask (CreateTensorWithDataAsOrtValue (memory_info b)
    (chunk_input chunk) [Z.of_nat kModelBatch; Z.of_nat kFeatureCount]) in
  let* '(success, b) := CheckStatus status "CreateTensorWithDataAsOrtValue" b in
  if negb success then done_with (inl (UnavailableResult (unavailable_reason b)), b)
  else
    let* '(run_status, output_value) := ask (Run (session b) input_value) in
    let* _ := ask (ReleaseValue input_value) in
    let* '(success, b) := CheckStatus run_status "Run" b in
    if negb success then done_with (inl (UnavailableResult (unavailable_reason b)), b)
    else
      let* '(status, labels) := ask (GetTensorMutableData output_value) in
      let* '(success, b) := CheckStatus status "GetTensorMutableData" b in
      if negb success then
        let* _ := ask (ReleaseValue output_value) in
        done_with (inl (UnavailableResult (unavailable_reason b)), b)
      else
        let* outs := of_option (mapM (λ i, (λ label, onnx_output label batch_size) <$> labels !! i)
          (seq 0 (length chunk))) in
        let* _ := ask (ReleaseValue output_value) in
        done_with (inr outs, b).

(** The loop over the chunks, on the requests from [offset] on. *)
Fixpoint run_chunks (n : nat) (requests : list BackendRequest) (batch_size : Z)
    (result : BackendResult) (b : Impl) : M W (BackendResult * Impl) :=
  match requests, n with
  | [], _ => done_with (result, b)
  | _, O => undefined
  | _, S n =>
      let* cancelled := ask is_cancelled in
      if cancelled then done_with (CancelledResult, b)
      else
        let* '(step, b) := run_chunk (take kModelBatch requests) batch_size b in
        match step with
        | inl failure => done_with (failure, b)
        | inr outs =>
            run_chunks n (drop kModelBatch requests) batch_size (foldl (flip push_output) result outs) b
        end
  end.

(** [Impl::Run] *)
Definition Onnx_ProcessBatch (b : Impl) (requests : list BackendRequest) : M W (BackendResult * Impl) :=
  if negb (ready b) then done_with (UnavailableResult (unavailable_reason b), b)
  else
    let* cancelled := ask is_cancelled in
    if cancelled then done_with (CancelledResult, b)
    else run_chunks (length requests) requests (zlen requests) empty_result b.

#[export] Instance Onnx_backend : InferenceBackend Impl W := {|
  Name _ := "onnx";
  ProcessBatch := Onnx_ProcessBatch;
|}.
#[export] Instance Onnx_streaming : StreamingBackend Impl W := {|
  ProcessStream := default_ProcessStream;
|}.
End Onnx.
