(* ===== verification/OnnxProps.v ===== *)
(** * Theorems on the ONNX Runtime backend

    Every object of the library is released exactly once, a failure disables the
    backend, and what a batch answers. *)
From Stdlib Require Import Strings.Ascii Floats.SpecFloat.
From stdpp Require Import prelude gmap gmultiset strings list.
From S2P Require Import Prelude CxxText CxxTextProps CxxFloat Backend LlamaProtocol Tokenizer Process Onnx.

(** ** Live objects

    The documented effect of the calls on the objects that have been created and
    not released, the loaded library and the statuses of failures included. *)
Class OnnxSpec (W : Type) `{Host W} `{Filesystem W} `{OnnxRuntime W} := {
  live : W → gmultiset Z;
  cancelled_live w : live (is_cancelled w).2 = live w;
  exists_live p w : live (path_exists p w).2 = live w;
  dlsym_live h n w : live (dlsym h n w).2 = live w;
  base_live p w : live (get_api_base p w).2 = live w;
  GetApi_live p w : live (GetApi p w).2 = live w;
  dlopen_live p w : let '(h, w') := dlopen p w in
    live w' = (if is_null h then ∅ else {[+ h +]}) ⊎ live w;
  dlclose_live h w : live (dlclose h w).2 = live w ∖ {[+ h +]};
  status_live : Z → W → W → Prop := λ status w w',
    live w' = (if is_null status then ∅ else {[+ status +]}) ⊎ live w;
  created_live : Z → Z → W → W → Prop := λ status p w w',
    if is_null status then is_null p = false ∧ live w' = {[+ p +]} ⊎ live w
    else p = 0 ∧ live w' = {[+ status +]} ⊎ live w;
  CreateEnv_live w : let '((s, p), w') := CreateEnv w in created_live s p w w';
  CreateSessionOptions_live w :
    let '((s, p), w') := CreateSessionOptions w in created_live s p w w';
  CreateCpuMemoryInfo_live w :
    let '((s, p), w') := CreateCpuMemoryInfo w in created_live s p w w';
  CreateSession_live e m o w : let '((s, p), w') := CreateSession e m o w in created_live s p w w';
  CreateTensor_live m i d w :
    let '((s, p), w') := CreateTensorWithDataAsOrtValue m i d w in created_live s p w w';
  Run_live x i w : let '((s, p), w') := Run x i w in created_live s p w w';
  SetIntra_live o n w : let '(s, w') := SetIntraOpNumThreads o n w in status_live s w w';
  SetInter_live o n w : let '(s, w') := SetInterOpNumThreads o n w in status_live s w w';
  GetData_live v w : let '((s, _), w') := GetTensorMutableData v w in status_live s w w';
  ReleaseStatus_live p w : live (ReleaseStatus p w).2 = live w ∖ {[+ p +]};
  ReleaseEnv_live p w : live (ReleaseEnv p w).2 = live w ∖ {[+ p +]};
  ReleaseSessionOptions_live p w : live (ReleaseSessionOptions p w).2 = live w ∖ {[+ p +]};
  ReleaseMemoryInfo_live p w : live (ReleaseMemoryInfo p w).2 = live w ∖ {[+ p +]};
  ReleaseSession_live p w : live (ReleaseSession p w).2 = live w ∖ {[+ p +]};
  ReleaseValue_live p w : live (ReleaseValue p w).2 = live w ∖ {[+ p +]};
}.

(** The objects that the members point to. *)
Definition held_at (p : Z) : gmultiset Z := if is_null p then ∅ else {[+ p +]}.

Definition held (b : Impl) : gmultiset Z :=
  held_at (session b) ⊎ held_at (session_options b) ⊎ held_at (memory_info b) ⊎ held_at (env b) ⊎
  held_at (library_handle b).

(** Without an API nothing has been created. *)
Definition impl_ok (b : Impl) : Prop :=
  api b = 0 → session b = 0 ∧ session_options b = 0 ∧ memory_info b = 0 ∧ env b = 0.

(** The members but for the ready flag and the reason. *)
Definition same_objects (b b' : Impl) : Prop :=
  api b' = api b ∧ session b' = session b ∧ session_options b' = session_options b ∧
  memory_info b' = memory_info b ∧ env b' = env b ∧ library_handle b' = library_handle b.

Lemma remove_added (x : Z) (A : gmultiset Z) : ({[+ x +]} ⊎ A) ∖ {[+ x +]} = A.
Proof. multiset_solver. Qed.

Lemma remove_second (x y : Z) (A : gmultiset Z) :
  ({[+ y +]} ⊎ ({[+ x +]} ⊎ A)) ∖ {[+ x +]} = {[+ y +]} ⊎ A.
Proof. multiset_solver. Qed.

Lemma empty_disj_union (A : gmultiset Z) : ∅ ⊎ A = A.
Proof. multiset_solver. Qed.

Section Live.
Context {W : Type} `{OnnxSpec W}.

Lemma same_objects_held b b' : same_objects b b' → held b' = held b.
Proof. intros (_ & H1' & H2' & H3' & H4' & H5'). unfold held. by rewrite H1', H2', H3', H4', H5'. Qed.

Lemma same_objects_ok b b' : same_objects b b' → impl_ok b → impl_ok b'.
Proof. intros (H0' & H1' & H2' & H3' & H4' & _). unfold impl_ok. by rewrite H0', H1', H2', H3', H4'. Qed.

Lemma same_objects_refl b : same_objects b b.
Proof. by split_and!. Qed.

Lemma same_objects_trans b b1 b2 : same_objects b b1 → same_objects b1 b2 → same_objects b b2.
Proof. unfold same_objects. intros (?&?&?&?&?&?) (?&?&?&?&?&?). split_and!; congruence. Qed.

(** A status that has been checked is gone. *)
Lemma CheckStatus_live status op b L w success b' w' :
  api b ≠ 0 → live w = (if is_null status then ∅ else {[+ status +]}) ⊎ L →
  CheckStatus status op b w = Some ((success, b'), w') →
  live w' = L ∧ same_objects b b' ∧ success = is_null status.
Proof.
  intros Hapi Hl. unfold CheckStatus. destruct (is_null status) eqn:Hs.
  { intros [= <- <- <-]. rewrite Hl. split_and!; [by rewrite left_id_L by apply _|apply same_objects_refl|done]. }
  rewrite and_then_Some. intros (error & w1 & Herr & Hrun). injection Herr as _ <-.
  assert (Hnn : is_null (api b) = false) by by apply Z.eqb_neq. simpl in Hrun. rewrite Hnn in Hrun.
  apply and_then_Some in Hrun as (? & w2 & Hrel & Hrun). injection Hrel as Hrel. injection Hrun as <- <- <-.
  pose proof (ReleaseStatus_live status w) as Hr. rewrite Hrel in Hr. simpl in Hr.
  rewrite Hr, Hl. split_and!; [multiset_solver|by split_and!|done].
Qed.

Lemma held_at_0 : held_at 0 = ∅.
Proof. done. Qed.

(** The pointer that a call stores is accounted for, whether it succeeds or not. *)
Lemma create_live call store op b L w success b' w' :
  (∀ w, let '((s, p), w') := call w in created_live s p w w') →
  (∀ p, api (store p b) = api b) → api b ≠ 0 → live w = L →
  create call store op b w = Some ((success, b'), w') →
  ∃ p, same_objects (store p b) b' ∧ live w' = held_at p ⊎ L ∧ api b' ≠ 0.
Proof.
  intros Hcall Hstore Hapi Hl. unfold create. rewrite and_then_Some.
  intros ([status p] & w1 & Hc & Hrun). injection Hc as Hc.
  specialize (Hcall w). rewrite Hc in Hcall. exists p.
  assert (Hw1 : live w1 = (if is_null status then ∅ else {[+ status +]}) ⊎ (held_at p ⊎ L)).
  { rewrite <- Hl. unfold created_live in Hcall. unfold held_at.
    destruct (is_null status); destruct Hcall as [Hp ->]; [rewrite Hp|subst p; simpl]; multiset_solver. }
  apply (CheckStatus_live _ _ _ _ _ _ _ _ ltac:(by rewrite Hstore) Hw1) in Hrun as (Hlive & Hsame & _).
  split_and!; [done..|]. destruct Hsame as (-> & _). by rewrite Hstore.
Qed.

Lemma configure_live call op b L w success b' w' :
  (∀ w, let '(s, w') := call w in status_live s w w') → api b ≠ 0 → live w = L →
  configure call op b w = Some ((success, b'), w') → same_objects b b' ∧ live w' = L ∧ api b' ≠ 0.
Proof.
  intros Hcall Hapi Hl. unfold configure. rewrite and_then_Some. intros (status & w1 & Hc & Hrun).
  injection Hc as Hc. specialize (Hcall w). rewrite Hc in Hcall. unfold status_live in Hcall. rewrite Hl in Hcall.
  apply (CheckStatus_live _ _ _ _ _ _ _ _ Hapi Hcall) in Hrun as (Hlive & Hsame & _).
  split_and!; [done..|]. by destruct Hsame as (-> & _).
Qed.

(** Solve an equation between the objects held before and after a call. *)
Ltac held_solver :=
  unfold held, same_objects in *; simpl in *;
  repeat match goal with H : _ ∧ _ |- _ => destruct H end;
  repeat match goal with H : ?f ?b = _ |- _ =>
    match f with session => idtac | session_options => idtac | memory_info => idtac | env => idtac
               | library_handle => idtac | api => idtac end; rewrite H in *; clear H end;
  rewrite ?held_at_0 in *; multiset_solver.

Lemma Initialize_session_live b L w b' w' :
  api b ≠ 0 → session b = 0 → session_options b = 0 → memory_info b = 0 → env b = 0 →
  live w = held b ⊎ L → Initialize_session b w = Some (b', w') →
  live w' = held b' ⊎ L ∧ api b' ≠ 0.
Proof.
  intros Hapi Hs Ho Hm He Hl. unfold Initialize_session. rewrite and_then_Some.
  intros ([success b1] & w1 & Hrun & Hgo).
  eapply (create_live _ set_env) in Hrun as (p1 & S1 & L1 & A1);
    [|apply CreateEnv_live|done|exact Hapi|exact Hl].
  assert (E1 : live w1 = held b1 ⊎ L) by held_solver.
  destruct success; simpl in Hgo; [|by injection Hgo as <- <-].
  apply and_then_Some in Hgo as ([success b2] & w2 & Hrun & Hgo).
  eapply (create_live _ set_session_options) in Hrun as (p2 & S2 & L2 & A2);
    [|apply CreateSessionOptions_live|done|exact A1|exact E1].
  assert (O1 : session_options b1 = 0) by (destruct S1 as (_ & _ & ? & _); simpl in *; congruence).
  assert (E2 : live w2 = held b2 ⊎ L) by held_solver.
  destruct success; simpl in Hgo; [|by injection Hgo as <- <-].
  apply and_then_Some in Hgo as ([success b3] & w3 & Hrun & Hgo).
  apply (configure_live _ _ _ _ _ _ _ _ (SetIntra_live _ 1) A2 E2) in Hrun as (S3 & E3 & A3).
  rewrite <- (same_objects_held _ _ S3) in E3.
  destruct success; simpl in Hgo; [|by injection Hgo as <- <-].
  apply and_then_Some in Hgo as ([success b4] & w4 & Hrun & Hgo).
  apply (configure_live _ _ _ _ _ _ _ _ (SetInter_live _ 1) A3 E3) in Hrun as (S4 & E4 & A4).
  rewrite <- (same_objects_held _ _ S4) in E4.
  destruct success; simpl in Hgo; [|by injection Hgo as <- <-].
  apply and_then_Some in Hgo as ([success b5] & w5 & Hrun & Hgo).
  eapply (create_live _ set_memory_info) in Hrun as (p5 & S5 & L5 & A5);
    [|apply CreateCpuMemoryInfo_live|done|exact A4|exact E4].
  pose proof (same_objects_trans _ _ _ S3 S4) as S34.
  assert (M4 : memory_info b4 = 0 ∧ session b4 = 0).
  { destruct S34 as (_ & ? & _ & ? & _), S2 as (_ & ? & _ & ? & _), S1 as (_ & ? & _ & ? & _).
    simpl in *. split; congruence. }
  destruct M4 as [M4 Z4].
  assert (E5 : live w5 = held b5 ⊎ L) by (clear S1 S2 S3 S4 S34 L1 L2 E1 E2 E3; held_solver).
  destruct success; simpl in Hgo; [|by injection Hgo as <- <-].
  apply and_then_Some in Hgo as ([success b6] & w6 & Hrun & Hgo).
  eapply (create_live _ set_session) in Hrun as (p6 & S6 & L6 & A6);
    [|apply CreateSession_live|done|exact A5|exact E5].
  assert (Z5 : session b5 = 0) by (destruct S5 as (_ & ? & _); simpl in *; congruence).
  assert (E6 : live w6 = held b6 ⊎ L) by (clear S1 S2 S3 S4 S34 S5 L1 L2 L5 E1 E2 E3 E4; held_solver).
  destruct success; simpl in Hgo; injection Hgo as <- <-; [|done].
  by split.
Qed.

Lemma ask_live {A} (f : W → A * W) w x w' :
  (∀ w, live (f w).2 = live w) → ask f w = Some (x, w') → live w' = live w.
Proof. intros Hf. by apply (keeps_ask live). Qed.

Lemma set_reason_same msg b : same_objects b (set_reason msg b).
Proof. by split_and!. Qed.

(** A backend that is ready has an API. *)
Definition usable (b : Impl) : Prop := ready b = true → api b ≠ 0.

(** What the constructor has created is what its members point to. *)
Lemma Initialize_live m r w b w' :
  make_OnnxRuntimeBackend m r w = Some (b, w') → live w' = held b ⊎ live w ∧ impl_ok b ∧ usable b.
Proof.
  unfold make_OnnxRuntimeBackend, Initialize. cbv zeta.
  set (b0 := if is_empty _ then _ else _).
  assert (Hb0 : same_objects (new_Impl m r) b0) by (unfold b0; by destruct (is_empty _)).
  assert (H0held : held b0 = ∅) by by rewrite (same_objects_held _ _ Hb0).
  assert (H0ok : impl_ok b0) by by apply (same_objects_ok _ _ Hb0).
  assert (H0ready : ready b0 = false) by (unfold b0; by destruct (is_empty _)).
  assert (Hnone : ∀ msg, live w = held (set_reason msg b0) ⊎ live w ∧ impl_ok (set_reason msg b0) ∧
    usable (set_reason msg b0)).
  { intros msg. rewrite (same_objects_held _ _ (set_reason_same msg b0)), H0held.
    unfold usable. simpl. rewrite H0ready. split_and!; [by rewrite empty_disj_union|done|done]. }
  rewrite and_then_Some. intros (found & w1 & E1%ask_live & Hgo); [|apply exists_live].
  destruct (negb found); [injection Hgo as <- <-; rewrite E1; apply Hnone|].
  apply and_then_Some in Hgo as (found2 & w2 & E2%ask_live & Hgo); [|apply exists_live].
  destruct (negb found2); [injection Hgo as <- <-; rewrite E2, E1; apply Hnone|].
  apply and_then_Some in Hgo as (handle & w3 & Hopen & Hgo). injection Hopen as Hopen.
  pose proof (dlopen_live (runtime_library_path b0) w2) as E3. rewrite Hopen, E2, E1 in E3.
  set (b1 := set_library_handle handle b0) in *.
  assert (L1 : live w3 = held b1 ⊎ live w).
  { rewrite E3. change (if is_null handle then ∅ else {[+ handle +]}) with (held_at handle).
    unfold b1, held in *. simpl. multiset_solver. }
  assert (H1ok : impl_ok b1) by exact H0ok.
  assert (Hsame : ∀ msg w', live w' = live w3 →
    live w' = held (set_reason msg b1) ⊎ live w ∧ impl_ok (set_reason msg b1) ∧ usable (set_reason msg b1)).
  { intros msg w4 ->. rewrite (same_objects_held _ _ (set_reason_same msg b1)).
    unfold usable. simpl. rewrite H0ready. by split_and!. }
  destruct (is_null handle).
  { apply and_then_Some in Hgo as (error & w4 & Herr & Hgo). injection Herr as _ <-.
    injection Hgo as <- <-. by apply Hsame. }
  apply and_then_Some in Hgo as (symbol & w4 & E4%ask_live & Hgo); [|apply dlsym_live].
  destruct (is_null symbol); [injection Hgo as <- <-; by apply Hsame|].
  apply and_then_Some in Hgo as (base & w5 & E5%ask_live & Hgo); [|apply base_live].
  destruct (is_null base); [injection Hgo as <- <-; apply Hsame; congruence|].
  apply and_then_Some in Hgo as (p & w6 & E6%ask_live & Hgo); [|apply GetApi_live].
  destruct (is_null p) eqn:Hp.
  - injection Hgo as <- <-. rewrite E6, E5, E4, L1. unfold usable. simpl. rewrite H0ready.
    split_and!; [done| |done]. destruct Hb0 as (_ & Z1 & Z2 & Z3 & Z4 & _). intros _. by split_and!.
  - destruct Hb0 as (_ & Z1 & Z2 & Z3 & Z4 & _).
    assert (E : live w6 = held (set_api p b1) ⊎ live w) by by rewrite E6, E5, E4, L1.
    eapply Initialize_session_live in Hgo as [Hl Ha]; [|by apply Z.eqb_neq|exact Z1|exact Z2|exact Z3|exact Z4|exact E].
    split_and!; [done| |by intros _]. intros ?. done.
Qed.

Lemma release_live release p L w x w' :
  (∀ p w, live (release p w).2 = live w ∖ {[+ p +]}) → live w = held_at p ⊎ L →
  release_unless_null release p w = Some (x, w') → live w' = L.
Proof.
  intros Hrel Hl. unfold release_unless_null, held_at in *. destruct (is_null p).
  - intros [= _ <-]. rewrite Hl. multiset_solver.
  - intros [= Heq]. specialize (Hrel p w). rewrite Heq in Hrel. simpl in Hrel. rewrite Hrel, Hl. multiset_solver.
Qed.

Lemma destroy_live b L w x w' :
  impl_ok b → live w = held b ⊎ L → destroy b w = Some (x, w') → live w' = L.
Proof.
  intros Hok Hl. unfold destroy. rewrite and_then_Some. intros (? & w1 & Hall & Hrun).
  assert (H1' : live w1 = held_at (library_handle b) ⊎ L).
  { destruct (is_null (api b)) eqn:Ha.
    - injection Hall as _ <-. apply Z.eqb_eq in Ha. destruct (Hok Ha) as (Z1 & Z2 & Z3 & Z4).
      rewrite Hl. unfold held. rewrite Z1, Z2, Z3, Z4, held_at_0. multiset_solver.
    - apply and_then_Some in Hall as (? & v1 & R1 & Hall).
      apply and_then_Some in Hall as (? & v2 & R2 & Hall).
      apply and_then_Some in Hall as (? & v3 & R3 & R4). unfold held in Hl.
      eapply (release_live _ _ (held_at (session_options b) ⊎ held_at (memory_info b) ⊎ held_at (env b) ⊎
        held_at (library_handle b) ⊎ L)) in R1; [|apply ReleaseSession_live|rewrite Hl; multiset_solver].
      eapply (release_live _ _ (held_at (memory_info b) ⊎ held_at (env b) ⊎
        held_at (library_handle b) ⊎ L)) in R2; [|apply ReleaseSessionOptions_live|rewrite R1; multiset_solver].
      eapply (release_live _ _ (held_at (env b) ⊎ held_at (library_handle b) ⊎ L)) in R3;
        [|apply ReleaseMemoryInfo_live|rewrite R2; multiset_solver].
      eapply (release_live _ _ (held_at (library_handle b) ⊎ L)) in R4;
        [exact R4|apply ReleaseEnv_live|rewrite R3; multiset_solver]. }
  eapply release_live; [apply dlclose_live|exact H1'|exact Hrun].
Qed.

(** ** Batches *)

Lemma ReleaseValue_step p w x w' :
  ask (ReleaseValue p) w = Some (x, w') → live w' = live w ∖ {[+ p +]}.
Proof. intros [= Heq]. pose proof (ReleaseValue_live p w) as Hr. by rewrite Heq in Hr. Qed.

Lemma CheckStatus_stays_ready s op b w b' w' :
  CheckStatus s op b w = Some ((true, b'), w') → ready b' = ready b.
Proof.
  unfold CheckStatus. destruct (is_null s); [by intros [= <- _]|].
  rewrite and_then_Some. intros (? & ? & _ & Hrun).
  by apply and_then_Some in Hrun as (? & ? & _ & Hrun).
Qed.

Lemma run_chunk_live chunk n b w step b' w' :
  api b ≠ 0 → run_chunk chunk n b w = Some ((step, b'), w') →
  live w' = live w ∧ same_objects b b' ∧
  match step with inl r => failed_result r | inr outs => ready b' = ready b end.
Proof.
  intros Hapi. unfold run_chunk. rewrite and_then_Some.
  intros ([s1 input] & w1 & Hc & Hgo). injection Hc as Hc.
  pose proof (CreateTensor_live (memory_info b) (chunk_input chunk)
    [Z.of_nat kModelBatch; Z.of_nat kFeatureCount] w) as E1. rewrite Hc in E1. unfold created_live in E1.
  assert (C1 : live w1 = (if is_null s1 then ∅ else {[+ s1 +]}) ⊎
    ((if is_null s1 then {[+ input +]} else ∅) ⊎ live w)).
  { destruct (is_null s1); destruct E1 as [_ ->]; by rewrite ?empty_disj_union. }
  apply and_then_Some in Hgo as ([ok1 b1] & w2 & Hcheck & Hgo).
  assert (Hr1 : ok1 = true → ready b1 = ready b) by (intros ->; by eapply CheckStatus_stays_ready).
  apply (CheckStatus_live _ _ _ _ _ _ _ _ Hapi C1) in Hcheck as (L2 & S1 & Hok1).
  destruct ok1; cbn [negb] in Hgo.
  2:{ injection Hgo as <- <- <-. rewrite <- Hok1 in L2. split_and!; [by rewrite L2, empty_disj_union|done|by right]. }
  rewrite <- Hok1 in L2. assert (A1 : api b1 ≠ 0) by (destruct S1 as (-> & _); done).
  apply and_then_Some in Hgo as ([s2 output] & w3 & Hc2 & Hgo). injection Hc2 as Hc2.
  pose proof (Run_live (session b1) input w2) as E2. rewrite Hc2 in E2. unfold created_live in E2.
  apply and_then_Some in Hgo as (? & w4 & Hrel%ReleaseValue_step & Hgo).
  assert (C2 : live w4 = (if is_null s2 then ∅ else {[+ s2 +]}) ⊎
    ((if is_null s2 then {[+ output +]} else ∅) ⊎ live w)).
  { rewrite Hrel. destruct (is_null s2); destruct E2 as [_ ->]; by rewrite L2, remove_second, ?empty_disj_union. }
  apply and_then_Some in Hgo as ([ok2 b2] & w5 & Hcheck & Hgo).
  assert (Hr2 : ok2 = true → ready b2 = ready b1) by (intros ->; by eapply CheckStatus_stays_ready).
  apply (CheckStatus_live _ _ _ _ _ _ _ _ A1 C2) in Hcheck as (L5 & S2 & Hok2).
  pose proof (same_objects_trans _ _ _ S1 S2) as S12. rewrite <- Hok2 in L5.
  destruct ok2; cbn [negb] in Hgo.
  2:{ injection Hgo as <- <- <-. split_and!; [by rewrite L5, empty_disj_union|done|by right]. }
  assert (A2 : api b2 ≠ 0) by (destruct S12 as (-> & _); done).
  apply and_then_Some in Hgo as ([s3 labels] & w6 & Hc3 & Hgo). injection Hc3 as Hc3.
  pose proof (GetData_live output w5) as E3. rewrite Hc3 in E3. unfold status_live in E3. rewrite L5 in E3.
  apply and_then_Some in Hgo as ([ok3 b3] & w7 & Hcheck & Hgo).
  assert (Hr3 : ok3 = true → ready b3 = ready b2) by (intros ->; by eapply CheckStatus_stays_ready).
  apply (CheckStatus_live _ _ _ _ _ _ _ _ A2 E3) in Hcheck as (L7 & S3 & Hok3).
  pose proof (same_objects_trans _ _ _ S12 S3) as S123. destruct ok3; cbn [negb] in Hgo.
  - apply and_then_Some in Hgo as (outs & w8 & Houts & Hgo). unfold of_option in Houts.
    destruct (mapM _ _) as [l|]; [|done]. injection Houts as -> <-.
    apply and_then_Some in Hgo as (? & w9 & Hrel2%ReleaseValue_step & Hgo). injection Hgo as <- <- <-.
    split_and!; [by rewrite Hrel2, L7, remove_added|done|].
    rewrite Hr3, Hr2, Hr1 by done. done.
  - apply and_then_Some in Hgo as (? & w8 & Hrel2%ReleaseValue_step & Hgo). injection Hgo as <- <- <-.
    split_and!; [by rewrite Hrel2, L7, remove_added|done|by right].
Qed.

(** A chunk that is classified: the batch is not cancelled, the padded features
    of the chunk are the input of the session, and the answers are the labels of
    its output, from the first on, one for each request of the chunk. *)
Inductive chunk_classified (n : Z) (b : Impl) (w : W) (chunk : list BackendRequest)
    : list string → W → Prop :=
| chunk_classified_by input output labels w1 w2 w3 w4 w5 w6 :
    is_cancelled w = (false, w1) →
    CreateTensorWithDataAsOrtValue (memory_info b) (chunk_input chunk)
      [Z.of_nat kModelBatch; Z.of_nat kFeatureCount] w1 = ((0, input), w2) →
    Run (session b) input w2 = ((0, output), w3) →
    ReleaseValue input w3 = (tt, w4) →
    GetTensorMutableData output w4 = ((0, labels), w5) →
    (length chunk ≤ length labels)%nat →
    ReleaseValue output w5 = (tt, w6) →
    chunk_classified n b w chunk ((λ label, onnx_output label n) <$> take (length chunk) labels) w6.

(** A batch that is classified: its chunks, one after the other. *)
Inductive classified (n : Z) (b : Impl) : W → list BackendRequest → list string → W → Prop :=
| classified_nil w : classified n b w [] [] w
| classified_cons w request requests outs w1 outs' w2 :
    chunk_classified n b w (take kModelBatch (request :: requests)) outs w1 →
    classified n b w1 (drop kModelBatch (request :: requests)) outs' w2 →
    classified n b w (request :: requests) (outs ++ outs') w2.

Definition classified_result (b : Impl) (w : W) (requests : list BackendRequest)
    (r : BackendResult) (w' : W) : Prop :=
  code r = kOk ∧ output_metadata r = [] ∧ classified (zlen requests) b w requests (outputs r) w'.

Lemma classified_length n b w requests outs w' :
  classified n b w requests outs w' → length outs = length requests.
Proof.
  induction 1 as [|w request requests outs w1 outs' w2 Hc _ IH]; [done|].
  rewrite <- (take_drop kModelBatch (request :: requests)), !length_app, IH. f_equal.
  destruct Hc. rewrite length_fmap, length_take. lia.
Qed.

Lemma CheckStatus_true s op b (w : W) b' w' :
  CheckStatus s op b w = Some ((true, b'), w') → s = 0 ∧ b' = b ∧ w' = w.
Proof.
  unfold CheckStatus, is_null. destruct (s =? 0) eqn:Hs; [intros [= <- <-]; to_prop; done|].
  rewrite and_then_Some. intros (? & ? & _ & Hrun). by apply and_then_Some in Hrun as (? & ? & _ & Hrun).
Qed.

Lemma labels_in_order {A B} (f : A → B) (l : list A) k outs :
  mapM (λ i, f <$> l !! i) (seq 0 k) = Some outs → (k ≤ length l)%nat ∧ outs = f <$> take k l.
Proof.
  intros Hall%mapM_Some. apply Forall2_length in Hall as Hlen. rewrite length_seq in Hlen.
  assert (Hout : ∀ i out, outs !! i = Some out → f <$> l !! i = Some out).
  { intros i out Ho. destruct (Forall2_lookup_r _ _ _ _ _ Hall Ho) as (j & Hj & ?).
    apply lookup_seq in Hj as [-> _]. done. }
  assert (Hk : (k ≤ length l)%nat).
  { destruct k as [|k]; [lia|]. destruct (lookup_lt_is_Some_2 outs k) as [out Ho]; [lia|].
    apply Hout, fmap_Some in Ho as (x & Hx & _). apply lookup_lt_Some in Hx. lia. }
  split; [done|]. apply list_eq_same_length with k; [by rewrite length_fmap, length_take, Nat.min_l|done|].
  intros i x y Hi Hx Hy. rewrite list_lookup_fmap, lookup_take_lt in Hy by done. apply Hout in Hx. congruence.
Qed.

Lemma run_chunk_classified chunk n b w0 w outs b' w' :
  is_cancelled w0 = (false, w) → run_chunk chunk n b w = Some ((inr outs, b'), w') →
  b' = b ∧ chunk_classified n b w0 chunk outs w'.
Proof.
  intros Hcancel. unfold run_chunk. rewrite and_then_Some. intros ([s1 input] & w1 & E1%ask_Some & Hgo).
  apply and_then_Some in Hgo as ([ok1 b1] & w2 & C1 & Hgo). destruct ok1; [|done].
  apply CheckStatus_true in C1 as (-> & -> & ->). cbn [negb] in Hgo.
  apply and_then_Some in Hgo as ([s2 output] & w3 & E2%ask_Some & Hgo).
  apply and_then_Some in Hgo as ([] & w4 & E3%ask_Some & Hgo).
  apply and_then_Some in Hgo as ([ok2 b2] & w5 & C2 & Hgo). destruct ok2; [|done].
  apply CheckStatus_true in C2 as (-> & -> & ->). cbn [negb] in Hgo.
  apply and_then_Some in Hgo as ([s3 labels] & w6 & E4%ask_Some & Hgo).
  apply and_then_Some in Hgo as ([ok3 b3] & w7 & C3 & Hgo).
  destruct ok3; [|by apply and_then_Some in Hgo as (? & w8 & _ & Hgo)].
  apply CheckStatus_true in C3 as (-> & -> & ->). cbn [negb] in Hgo.
  apply and_then_Some in Hgo as (l & w8 & Hl & Hgo). unfold of_option in Hl.
  destruct (mapM _ _) as [l'|] eqn:Hmap; [|done]. injection Hl as -> ->.
  apply and_then_Some in Hgo as ([] & w9 & E5%ask_Some & Hgo). injection Hgo as <- <- <-.
  apply labels_in_order in Hmap as [Hlen ->]. split; [done|by econstructor].
Qed.

(** The loop over the chunks *)
Record batch_spec (b : Impl) (w : W) (r : BackendResult) (b' : Impl) (w' : W)
    (success : Prop) : Prop := mk_batch_spec {
  bs_live : live w' = live w;
  bs_same : same_objects b b';
  bs_result : failed_result r ∨ (b' = b ∧ success);
}.

Lemma run_chunks_spec k requests n acc b w r b' w' :
  api b ≠ 0 → run_chunks k requests n acc b w = Some ((r, b'), w') →
  batch_spec b w r b' w'
    (∃ outs, classified n b w requests outs w' ∧ r = foldl (flip push_output) acc outs).
Proof.
  revert requests acc b w. induction k as [|k IH]; intros requests acc b w Hapi Hrun.
  { destruct requests; [|done]. injection Hrun as <- <- <-.
    split; [done|apply same_objects_refl|right]. split; [done|]. exists []. split; [constructor|done]. }
  destruct requests as [|request requests]; cbn [run_chunks] in Hrun.
  { injection Hrun as <- <- <-. split; [done|apply same_objects_refl|right]. split; [done|].
    exists []. split; [constructor|done]. }
  apply and_then_Some in Hrun as (cancelled & w1 & E1 & Hrun).
  apply ask_Some in E1 as Hcancel. apply ask_live in E1; [|apply cancelled_live].
  destruct cancelled; [injection Hrun as <- <- <-; split; [done|apply same_objects_refl|by left; left]|].
  apply and_then_Some in Hrun as ([step b1] & w2 & Hchunk & Hrun).
  pose proof (run_chunk_live _ _ _ _ _ _ _ Hapi Hchunk) as (E2 & S1 & Hstep).
  destruct step as [failure|outs].
  - injection Hrun as <- <- <-. split; [congruence|done|by left].
  - apply (run_chunk_classified _ _ _ _ _ _ _ _ Hcancel) in Hchunk as [-> Hchunk].
    apply IH in Hrun as [L R Hres]; [|done]. split; [congruence|done|].
    destruct Hres as [?|(-> & outs' & Hc & ->)]; [by left|right]. split; [done|].
    exists (outs ++ outs'). split; [by econstructor|by rewrite foldl_app].
Qed.

Lemma Onnx_batch_spec b requests w r b' w' :
  (ready b = true → api b ≠ 0) → Onnx_ProcessBatch b requests w = Some ((r, b'), w') →
  batch_spec b w r b' w' (classified_result b (is_cancelled w).2 requests r w').
Proof.
  intros Hapi. unfold Onnx_ProcessBatch. destruct (ready b); cbn [negb].
  2:{ intros [= <- <- <-]. split; [done|apply same_objects_refl|by left; right]. }
  rewrite and_then_Some. intros (cancelled & w1 & E1 & Hrun).
  apply ask_Some in E1 as Hcancel. apply ask_live in E1; [|apply cancelled_live]. rewrite Hcancel.
  destruct cancelled; [injection Hrun as <- <- <-; split; [done|apply same_objects_refl|by left; left]|].
  apply run_chunks_spec in Hrun as [L R Hres]; [|by apply Hapi]. split; [congruence|done|].
  destruct Hres as [?|(-> & outs & Hc & ->)]; [by left|right]. split; [done|].
  destruct (push_outputs outs empty_result) as (Hcode & Ho & Hm).
  split_and!; [exact Hcode|exact Hm|]. unfold flip. by rewrite Ho.
Qed.

Lemma same_objects_usable b b' : same_objects b b' → (ready b' = true → ready b = true) → usable b → usable b'.
Proof. intros (Ha & _) Hr Hu. unfold usable. rewrite Ha. auto. Qed.

(** A check that fails says so and disables the backend. *)
Lemma CheckStatus_disables status op b w b' w' :
  CheckStatus status op b w = Some ((false, b'), w') → ready b' = false.
Proof.
  unfold CheckStatus. destruct (is_null status); [done|]. rewrite and_then_Some.
  intros (? & ? & _ & Hrun). apply and_then_Some in Hrun as (? & ? & _ & Hrun). by injection Hrun as <- _.
Qed.

Lemma run_chunk_failure chunk n b w r b' w' :
  run_chunk chunk n b w = Some ((inl r, b'), w') →
  ready b' = false ∧ r = UnavailableResult (unavailable_reason b').
Proof.
  unfold run_chunk. rewrite and_then_Some. intros ([s1 input] & w1 & _ & Hgo).
  apply and_then_Some in Hgo as ([ok1 b1] & w2 & H1c & Hgo). destruct ok1; cbn [negb] in Hgo.
  2:{ injection Hgo as <- <- _. by apply CheckStatus_disables in H1c. }
  apply and_then_Some in Hgo as ([s2 output] & w3 & _ & Hgo).
  apply and_then_Some in Hgo as (? & w4 & _ & Hgo).
  apply and_then_Some in Hgo as ([ok2 b2] & w5 & H2c & Hgo). destruct ok2; cbn [negb] in Hgo.
  2:{ injection Hgo as <- <- _. by apply CheckStatus_disables in H2c. }
  apply and_then_Some in Hgo as ([s3 labels] & w6 & _ & Hgo).
  apply and_then_Some in Hgo as ([ok3 b3] & w7 & H3c & Hgo). destruct ok3; cbn [negb] in Hgo.
  - apply and_then_Some in Hgo as (? & w8 & _ & Hgo). by apply and_then_Some in Hgo as (? & w9 & _ & Hgo).
  - apply and_then_Some in Hgo as (? & w8 & _ & Hgo). injection Hgo as <- <- _.
    by apply CheckStatus_disables in H3c.
Qed.

Lemma run_chunks_failure k requests n acc b w r b' w' :
  code acc = kOk → run_chunks k requests n acc b w = Some ((r, b'), w') → code r = kUnavailable →
  ready b' = false ∧ r = UnavailableResult (unavailable_reason b').
Proof.
  revert requests acc b w. induction k as [|k IH]; intros requests acc b w Hacc Hrun Hc.
  { destruct requests; [|done]. injection Hrun as <- <- <-. congruence. }
  destruct requests as [|request requests]; cbn [run_chunks] in Hrun.
  { injection Hrun as <- <- <-. congruence. }
  apply and_then_Some in Hrun as (cancelled & w1 & _ & Hrun).
  destruct cancelled; [injection Hrun as <- <- <-; discriminate Hc|].
  apply and_then_Some in Hrun as ([step b1] & w2 & Hchunk & Hrun). destruct step as [failure|outs].
  - injection Hrun as <- <- <-. by apply run_chunk_failure in Hchunk.
  - apply IH in Hrun; [done| |done]. clear -Hacc. revert acc Hacc.
    induction outs as [|o outs IH]; intros acc Hacc; simpl; [done|]. by apply IH.
Qed.

(** A failure of the library is final: once a batch has failed with an error
    of the library, every later batch fails with the same error, without a call
    to the library. *)
Theorem Onnx_failure_is_sticky b requests w r b' w' :
  Onnx_ProcessBatch b requests w = Some ((r, b'), w') → code r = kUnavailable →
  ∀ requests2 w2, Onnx_ProcessBatch b' requests2 w2 = Some ((r, b'), w2).
Proof.
  intros Hrun Hc. assert (Hf : ready b' = false ∧ r = UnavailableResult (unavailable_reason b')).
  { unfold Onnx_ProcessBatch in Hrun. destruct (ready b) eqn:Hr; cbn [negb] in Hrun.
    2:{ by injection Hrun as <- <- _. }
    apply and_then_Some in Hrun as (cancelled & w1 & _ & Hrun).
    destruct cancelled; [injection Hrun as <- _ _; discriminate Hc|].
    eapply run_chunks_failure; [|exact Hrun|exact Hc]. done. }
  destruct Hf as [Hready ->]. intros requests2 w2. unfold Onnx_ProcessBatch. by rewrite Hready.
Qed.

(** The ready flag is never set after the construction. *)
Lemma CheckStatus_ready status op b w success b' w' :
  CheckStatus status op b w = Some ((success, b'), w') → ready b' = true → ready b = true.
Proof.
  unfold CheckStatus. destruct (is_null status); [by intros [= _ <- _]|]. rewrite and_then_Some.
  intros (? & ? & _ & Hrun). apply and_then_Some in Hrun as (? & ? & _ & Hrun). by injection Hrun as _ <- _.
Qed.

(** The batches of the life of a backend *)
Fixpoint run_batches (b : Impl) (batches : list (list BackendRequest)) : M W Impl :=
  match batches with
  | [] => done_with b
  | requests :: rest => let* '(_, b) := Onnx_ProcessBatch b requests in run_batches b rest
  end.

Lemma Onnx_ready b requests w r b' w' :
  usable b → Onnx_ProcessBatch b requests w = Some ((r, b'), w') → usable b'.
Proof.
  intros Hu Hrun. pose proof (Onnx_batch_spec _ _ _ _ _ _ Hu Hrun) as [_ S Hres].
  destruct (ready b) eqn:Hr.
  - destruct S as (Ha & _). intros _. rewrite Ha. by apply Hu.
  - unfold Onnx_ProcessBatch in Hrun. rewrite Hr in Hrun. by injection Hrun as _ <- _.
Qed.

(** C9: nothing of the library is left: from the construction of the backend to
    its destruction, whichever call of the loader or of the library fails, and
    whatever batches it runs, every object, status and handle that was created
    is released, exactly once. *)
Theorem Onnx_lifecycle m p batches b b' w w1 w2 w3 x :
  make_OnnxRuntimeBackend m p w = Some (b, w1) → run_batches b batches w1 = Some (b', w2) →
  destroy b' w2 = Some (x, w3) → live w3 = live w.
Proof.
  intros (L1 & Hok & Hu)%Initialize_live Hbatches Hdestroy.
  assert (Hall : live w2 = live w1 ∧ same_objects b b').
  { clear -Hbatches Hu. revert b w1 Hu Hbatches.
    induction batches as [|requests batches IH]; intros b w1 Hu Hrun; cbn [run_batches] in Hrun.
    { injection Hrun as <- <-. split; [done|apply same_objects_refl]. }
    apply and_then_Some in Hrun as ([r b1] & w4 & Hb & Hrun).
    pose proof (Onnx_ready _ _ _ _ _ _ Hu Hb) as Hu1.
    apply Onnx_batch_spec in Hb as [E S _]; [|exact Hu].
    destruct (IH _ _ Hu1 Hrun) as [E2 S2]. split; [congruence|by eapply same_objects_trans]. }
  destruct Hall as [E2 S].
  eapply destroy_live; [by eapply same_objects_ok| |exact Hdestroy].
  by rewrite E2, L1, (same_objects_held _ _ S).
Qed.

#[export, refine] Instance Onnx_spec : BackendSpec Impl W := {|
  backend_inv := usable;
|}.
Proof.
  intros b requests w r b' w' Hu Hrun. pose proof (Onnx_ready _ _ _ _ _ _ Hu Hrun).
  apply Onnx_batch_spec in Hrun as [_ _ Hr]; [|exact Hu]. split_and!; [|done..].
  destruct Hr as [?|(_ & Hc & Hm & Hall)]; [by apply failed_result_for|].
  unfold result_for. rewrite Hc. split; [by eapply classified_length|by left].
Defined.
End Live.

(** ** Batches return *)

Section Returns.
Context {W : Type} `{OnnxSpec W}.
Context (Hlabels : ∀ v w, let '((status, labels), _) := GetTensorMutableData v w in
  is_null status = true → (kModelBatch ≤ length labels)%nat).

Lemma CheckStatus_returns status op b : returns (W := W) (CheckStatus status op b).
Proof. unfold CheckStatus. returns_tac. Qed.

Lemma CheckStatus_success status op b (w : W) success b' w' :
  CheckStatus status op b w = Some ((success, b'), w') → success = is_null status.
Proof.
  unfold CheckStatus. destruct (is_null status); [by intros [= <- _]|]. rewrite and_then_Some.
  intros (? & ? & _ & Hrun). apply and_then_Some in Hrun as (? & ? & _ & Hrun). by injection Hrun as <- _ _.
Qed.

Lemma run_chunk_returns chunk n b :
  (length chunk ≤ kModelBatch)%nat → returns (W := W) (run_chunk chunk n b).
Proof using Hlabels.
  intros Hlen. unfold run_chunk. pose proof CheckStatus_returns.
  apply returns_bind; [auto with laminar|intros [s1 input]].
  apply returns_bind; [auto|intros [[] b1]; cbn [negb]; [|auto with laminar]].
  apply returns_bind; [auto with laminar|intros [s2 output]].
  apply returns_bind; [auto with laminar|intros _].
  apply returns_bind; [auto|intros [[] b2]; cbn [negb]; [|auto with laminar]].
  intros w. unfold and_then at 1, ask at 1. pose proof (Hlabels output w) as Hl.
  destruct (GetTensorMutableData output w) as [[s3 labels] w1].
  destruct (CheckStatus_returns s3 "GetTensorMutableData" b2 w1) as ([ok3 b3] & w2 & Hc).
  apply CheckStatus_success in Hc as Hok. apply (returns_after _ _ _ _ _ Hc).
  destruct ok3; cbn [negb]; [|returns_tac]. specialize (Hl (eq_sym Hok)).
  apply returns_bind; [|intros outs; returns_tac].
  assert (Hsome : is_Some (mapM (λ i, (λ label, onnx_output label n) <$> labels !! i) (seq 0 (length chunk)))).
  { apply mapM_is_Some, Forall_forall. intros i [_ Hi]%elem_of_seq. apply fmap_is_Some, lookup_lt_is_Some. lia. }
  destruct Hsome as [outs Houts]. intros w3. unfold of_option. rewrite Houts. by do 2 eexists.
Qed.

Lemma run_chunks_returns k requests n acc b :
  (length requests ≤ k)%nat → returns (W := W) (run_chunks k requests n acc b).
Proof using Hlabels.
  revert requests acc b. induction k as [|k IH]; intros requests acc b Hk.
  { destruct requests; [apply returns_done|simpl in Hk; lia]. }
  destruct requests as [|request requests]; cbn [run_chunks]; [apply returns_done|].
  apply returns_bind; [auto with laminar|intros [|]; [auto with laminar|]].
  apply returns_bind; [apply run_chunk_returns; rewrite length_take; lia|intros [[failure|outs] b1]];
    [auto with laminar|]. apply IH. rewrite length_drop. unfold kModelBatch. simpl in *. lia.
Qed.

Lemma Onnx_defined b requests : returns (W := W) (Onnx_ProcessBatch b requests).
Proof using All.
  unfold Onnx_ProcessBatch. destruct (negb _); [auto with laminar|].
  apply returns_bind; [auto with laminar|intros [|]; [auto with laminar|]]. by apply run_chunks_returns.
Qed.

(** C36: a batch of a backend that was constructed returns: it fails with a
    reason, or its chunks of three were run one after the other, each on the
    features of its own requests, and every request has the label that is at its
    place in the output of its own chunk. *)
Theorem Onnx_answers b requests w :
  usable b → ∃ r b' w', Onnx_ProcessBatch b requests w = Some ((r, b'), w') ∧
    (failed_result r ∨ classified_result b (is_cancelled w).2 requests r w').
Proof using All.
  intros Hu. destruct (Onnx_defined b requests w) as ([r b'] & w' & Hrun). exists r, b', w'. split; [done|].
  apply Onnx_batch_spec in Hrun as [_ _ Hr]; [|exact Hu]. naive_solver.
Qed.
End Returns.

(** ** A scripted library

    It creates objects until its budget is used up, and then fails. *)
Record Ort := mkOrt { ort_live : gmultiset Z; ort_next : positive; ort_budget : nat }.

Definition ort_create (w : Ort) : (Z * Z) * Ort :=
  let p := Z.pos (ort_next w) in
  match ort_budget w with
  | O => ((p, 0), mkOrt ({[+ p +]} ⊎ ort_live w) (Pos.succ (ort_next w)) O)
  | S k => ((0, p), mkOrt ({[+ p +]} ⊎ ort_live w) (Pos.succ (ort_next w)) k)
  end.

Definition ort_release (p : Z) (w : Ort) : unit * Ort :=
  (tt, mkOrt (ort_live w ∖ {[+ p +]}) (ort_next w) (ort_budget w)).

Definition ort_open (w : Ort) : Z * Ort :=
  let p := Z.pos (ort_next w) in
  (p, mkOrt ({[+ p +]} ⊎ ort_live w) (Pos.succ (ort_next w)) (ort_budget w)).

#[export] Instance Ort_host : Host Ort := {|
  is_cancelled w := (false, w);
  steady_now w := (0, w);
  sleep_for_ms _ w := (tt, w);
|}.
#[export] Instance Ort_filesystem : Filesystem Ort := {|
  path_exists _ w := (true, w);
  path_status _ w := ((false, true), w);
  access_executable _ w := (0, w);
|}.
#[export] Instance Ort_runtime : OnnxRuntime Ort := {|
  dlopen _ := ort_open; dlerror _ := None; dlsym _ _ w := (1, w); dlclose := ort_release;
  get_api_base _ w := (1, w); GetApi _ w := (1, w);
  CreateEnv := ort_create; CreateSessionOptions := ort_create; CreateCpuMemoryInfo := ort_create;
  CreateSession _ _ _ := ort_create; CreateTensorWithDataAsOrtValue _ _ _ := ort_create;
  Run _ _ := ort_create;
  SetIntraOpNumThreads _ _ w := (0, w); SetInterOpNumThreads _ _ w := (0, w);
  GetTensorMutableData _ w := ((0, [2; 0; 1]), w);
  GetErrorMessage _ _ := Some "out of budget";
  ReleaseStatus := ort_release; ReleaseEnv := ort_release; ReleaseSessionOptions := ort_release;
  ReleaseMemoryInfo := ort_release; ReleaseSession := ort_release; ReleaseValue := ort_release;
|}.

#[export, refine] Instance Ort_spec : OnnxSpec Ort := {| live := ort_live |}.
Proof.
  all: try done.
  all: try (intros w; simpl; by rewrite empty_disj_union).
  all: intros; simpl; unfold ort_create; try (destruct (ort_budget w); simpl; by split_and!).
  all: by rewrite empty_disj_union.
Defined.

Definition demo_requests : list BackendRequest :=
  (λ p, mkBackendRequest p p "t") <$> ["a"; "b"; "c"; "d"].

(** The library fails in the middle of the second chunk of the first batch. *)
Lemma Onnx_lifecycle_witness :
  ∃ b b' w1 w2 w3,
    make_OnnxRuntimeBackend "m.onnx" EmptyString (mkOrt ∅ 5 7) = Some (b, w1) ∧
    run_batches b [demo_requests; demo_requests] w1 = Some (b', w2) ∧
    destroy b' w2 = Some (tt, w3) ∧ unavailable_reason b' = "Run failed: out of budget" ∧
    ort_live w3 = ∅.
Proof.
  assert (Hdemo : ∃ b b' w1 w2 w3,
    make_OnnxRuntimeBackend "m.onnx" EmptyString (mkOrt ∅ 5 7) = Some (b, w1) ∧
    run_batches b [demo_requests; demo_requests] w1 = Some (b', w2) ∧
    destroy b' w2 = Some (tt, w3) ∧ unavailable_reason b' = "Run failed: out of budget").
  { do 5 eexists. split; [vm_compute; reflexivity|]. split; [vm_compute; reflexivity|].
    split; vm_compute; reflexivity. }
  destruct Hdemo as (b & b' & w1 & w2 & w3 & Hmake & Hrun & Hdestroy & Hreason).
  exists b, b', w1, w2, w3. split; [exact Hmake|]. split; [exact Hrun|]. split; [exact Hdestroy|].
  split; [exact Hreason|].
  exact (Onnx_lifecycle _ _ _ _ _ _ _ _ _ _ Hmake Hrun Hdestroy).
Defined.

Definition demo_impl : Impl := mkImpl "m.onnx" "l.so" EmptyString true 1 1 2 3 4 5.

Lemma Onnx_failure_is_sticky_witness :
  ∃ r b' w', Onnx_ProcessBatch demo_impl demo_requests (mkOrt ∅ 5 0) = Some ((r, b'), w') ∧
    ∀ w2, Onnx_ProcessBatch b' [] w2 = Some ((r, b'), w2).
Proof.
  assert (Hdemo : ∃ r b' w', Onnx_ProcessBatch demo_impl demo_requests (mkOrt ∅ 5 0)
    = Some ((r, b'), w') ∧ code r = kUnavailable)
    by (do 3 eexists; split; [vm_compute; reflexivity|reflexivity]).
  destruct Hdemo as (r & b' & w' & Hrun & Hc). exists r, b', w'. split; [exact Hrun|].
  exact (Onnx_failure_is_sticky _ _ _ _ _ _ Hrun Hc []).
Defined.

Lemma Onnx_answers_witness :
  ∃ r b' w', Onnx_ProcessBatch demo_impl demo_requests (mkOrt ∅ 5 9) = Some ((r, b'), w') ∧
    (failed_result r ∨ classified_result demo_impl (mkOrt ∅ 5 9) demo_requests r w').
Proof.
  assert (Hlabels : ∀ v w, let '((status, labels), _) := GetTensorMutableData (W := Ort) v w in
    is_null status = true → (kModelBatch ≤ length labels)%nat)
    by (intros v w _; unfold kModelBatch; simpl; lia).
  apply (Onnx_answers (W := Ort) (H1 := Ort_runtime) (H2 := Ort_spec) Hlabels demo_impl demo_requests).
  intros _. discriminate.
Defined.
