(* ===== verification/Environment.v ===== *)
(** * Settings from the environment

    [EnvString], [EnvInt], [EnvFloat] and [EnvBool] of
    [src/backend/inference_backend.cc], over an environment [getenv] that gives
    the text of a variable, and [strtof] of the C library, which reads a decimal
    or hexadecimal number and rounds it once, to nearest even. *)
From Stdlib Require Import Strings.Ascii Floats.SpecFloat.
From stdpp Require Import prelude strings list.
From S2P Require Import Prelude CxxText CxxTextProps Json CxxFloat FloatRounding FloatBounds Backend LlamaProtocol.

(** ** [strtof] *)

Definition take_sign (s : string) : bool * string :=
  match s with
  | String c r =>
      if bool_decide (c = "-"%char) then (true, r)
      else if bool_decide (c = "+"%char) then (false, r) else (false, s)
  | EmptyString => (false, s)
  end.

(** The digits of a base at the start of [s], as the number [acc] extended by
    them, and the text after them. *)
Fixpoint read_base (base acc : Z) (s : string) : Z * string :=
  match s with
  | String c r =>
      match hex_value c with
      | Some d => if d <? base then read_base base (acc * base + d) r else (acc, s)
      | None => (acc, s)
      end
  | EmptyString => (acc, s)
  end.

(** Digits with at most one point among them and at least one digit: their
    value without the point, how many follow the point, and the text after. *)
Definition read_mantissa (base : Z) (s : string) : option (Z * Z * string) :=
  let '(n, r) := read_base base 0 s in
  let '(n, places, rest) :=
    match r with
    | String c r1 =>
        if bool_decide (c = "."%char)
        then let '(n, rest) := read_base base n r1 in (n, size_of r1 - size_of rest, rest)
        else (n, 0, r)
    | EmptyString => (n, 0, r)
    end in
  if (size_of r =? size_of s) && (places =? 0) then None else Some (n, places, rest).

(** An exponent after its letter, if there is one: 0 and no text is read when
    no digit follows the letter. *)
Definition read_exponent (letter : ascii) (s : string) : Z * string :=
  match s with
  | String c r =>
      let '(negative, digits) := take_sign r in
      let '(n, rest) := read_base 10 0 digits in
      if bool_decide (tolower c = letter) && negb (size_of rest =? size_of digits)
      then (if negative then - n else n, rest) else (0, s)
  | EmptyString => (0, s)
  end.

(** [n * 10^x], rounded *)
Definition decimal_float (n x : Z) : spec_float :=
  match n with
  | Z.pos m =>
      if 0 <=? x then Float32.of_Z (n * 10 ^ x)
      else Float32.div (S754_finite false m 0) (S754_finite false (Z.to_pos (10 ^ (- x))) 0)
  | _ => S754_zero false
  end.

Definition read_decimal (s : string) : option (spec_float * string) :=
  '(n, places, rest) ← read_mantissa 10 s;
  let '(x, rest) := read_exponent "e"%char rest in
  Some (decimal_float n (x - places), rest).

(** A hexadecimal number, after its [0x] *)
Definition read_hexadecimal (s : string) : option (spec_float * string) :=
  '(n, places, rest) ← read_mantissa 16 s;
  let '(x, rest) := read_exponent "p"%char rest in
  Some (binary_normalize Float32.prec Float32.emax n (x - 4 * places) false, rest).

(** The text after a word, in either case of its letters *)
Definition strip_word (word s : string) : option string :=
  if bool_decide (map_string tolower (take_chars (str_length word) s) = word)
  then Some (drop_chars (str_length word) s) else None.

(** [(chars)] after [nan], if it is there *)
Definition skip_nan_chars (s : string) : string :=
  match s with
  | String c r =>
      match split_char ")"%char r with
      | Some (chars, rest) =>
          if bool_decide (c = "("%char) &&
             all_chars (λ c, isalnum c || bool_decide (c = "_"%char)) chars
          then rest else s
      | None => s
      end
  | EmptyString => s
  end.

Definition read_float (s : string) : option (spec_float * string) :=
  match strip_word "infinity" s, strip_word "inf" s, strip_word "nan" s with
  | Some rest, _, _ | None, Some rest, _ => Some (Float32.infinity, rest)
  | None, None, Some rest => Some (S754_nan, skip_nan_chars rest)
  | None, None, None =>
      match (r ← strip_word "0x" s; read_hexadecimal r) with
      | Some result => Some result
      | None => read_decimal s
      end
  end.

(** [std::strtof(s, &end)]: the value and the text at [end]; [None] when there
    is nothing to convert. *)
Definition strtof (s : string) : option (spec_float * string) :=
  let '(negative, unsigned) := take_sign (skip_spaces s) in
  '(f, rest) ← read_float unsigned;
  Some (if negative then SFopp f else f, rest).

(** ** The readers *)

Section Readers.
Context (getenv : string → option string).

(** The text of a variable that is set and not empty. *)
Definition env_text (key : string) : option string :=
  match getenv key with
  | Some raw => if is_empty raw then None else Some raw
  | None => None
  end.

Definition EnvString (key fallback : string) : string :=
  match env_text key with Some raw => raw | None => fallback end.

Definition EnvInt (key : string) (fallback minimum maximum : Z) : Z :=
  match env_text key with
  | None => fallback
  | Some raw =>
      match strtol raw with
      | Some (value, rest) =>
          if is_empty rest then to_int (clamp value minimum maximum) else fallback
      | None => fallback
      end
  end.

Definition EnvFloat (key : string) (fallback minimum maximum : spec_float) : spec_float :=
  match env_text key with
  | None => fallback
  | Some raw =>
      match strtof raw with
      | Some (value, rest) =>
          if negb (is_empty rest) || negb (Float32.is_finite value) then fallback
          else Float32.clamp value minimum maximum
      | None => fallback
      end
  end.

Definition EnvBool (key : string) (fallback : bool) : bool :=
  match env_text key with
  | None => fallback
  | Some raw =>
      let value := TrimLower raw in
      if bool_decide (value ∈ ["1"; "true"; "yes"; "on"]) then true
      else if bool_decide (value ∈ ["0"; "false"; "no"; "off"]) then false
      else fallback
  end.
End Readers.

(** ** What the readers give *)

Section ReaderProofs.
Context (getenv : string → option string).

Lemma EnvInt_in_range key fallback lo hi :
  INT_MIN ≤ lo → hi ≤ INT_MAX → lo ≤ fallback ≤ hi → lo ≤ EnvInt getenv key fallback lo hi ≤ hi.
Proof.
  intros Hlo Hhi Hf. unfold EnvInt. destruct (env_text getenv key) as [raw|]; [|done].
  destruct (strtol raw) as [[value rest]|]; [|done]. destruct (is_empty rest); [|done].
  unfold INT_MIN, INT_MAX in *.
  assert (lo ≤ clamp value lo hi ≤ hi) by (unfold clamp; repeat case_bool; to_prop; lia).
  rewrite to_int_id; lia.
Qed.

(** A number written in the environment is read, saturated at the limits. *)
Lemma EnvInt_reads key fallback lo hi pre n :
  INT_MIN ≤ lo ≤ hi → hi ≤ INT_MAX → all_chars isspace pre = true →
  LONG_MIN ≤ n ≤ LONG_MAX → getenv key = Some (pre +:+ to_string n) →
  EnvInt getenv key fallback lo hi = clamp n lo hi.
Proof.
  intros Hlo Hhi Hpre Hn Hkey.
  assert (Hs : strtol (pre +:+ to_string n) = Some (n, EmptyString)).
  { rewrite <- strtol_skip, skip_spaces_app, strtol_skip by done.
    rewrite <- (sapp_nil_r (to_string n)). by apply strtol_to_string. }
  assert (Henv : env_text getenv key = Some (pre +:+ to_string n)).
  { unfold env_text. rewrite Hkey. by destruct (pre +:+ to_string n). }
  unfold EnvInt. rewrite Henv, Hs.
  simpl. unfold INT_MIN, INT_MAX in *. apply to_int_id. unfold clamp. repeat case_bool; to_prop; lia.
Qed.
End ReaderProofs.

(** A finite number between two others *)
Definition float_between (lo hi f : spec_float) : bool :=
  Float32.is_finite f && negb (Float32.ltb f lo) && negb (Float32.ltb hi f).

Lemma finite_number f : Float32.is_finite f = true → Float32.is_number f = true.
Proof. by destruct f. Qed.

Lemma ltb_irrefl f : Float32.is_number f = true → Float32.ltb f f = false.
Proof.
  intros Hf. apply not_true_iff_false. rewrite ltb_key by done.
  destruct (float_key f) as [[]]. simpl. lia.
Qed.

Lemma clamp_between lo hi f :
  Float32.is_finite lo = true → Float32.is_finite hi = true → Float32.ltb hi lo = false →
  Float32.is_finite f = true → float_between lo hi (Float32.clamp f lo hi) = true.
Proof.
  intros Hlo Hhi Hle Hf. pose proof (finite_number _ Hlo) as Hlo'. pose proof (finite_number _ Hhi) as Hhi'.
  unfold float_between, Float32.clamp.
  destruct (Float32.ltb f lo) eqn:H1; [by rewrite Hlo, Hle, ltb_irrefl|].
  destruct (Float32.ltb hi f) eqn:H2; [by rewrite Hhi, Hle, ltb_irrefl|].
  by rewrite Hf, H1, H2.
Qed.

Lemma clamp_inside lo hi f : float_between lo hi f = true → Float32.clamp f lo hi = f.
Proof. unfold float_between, Float32.clamp. intros H. to_prop. by repeat case_match. Qed.

Lemma EnvFloat_between getenv key fallback lo hi :
  Float32.is_finite lo = true → Float32.is_finite hi = true → Float32.ltb hi lo = false →
  float_between lo hi fallback = true → float_between lo hi (EnvFloat getenv key fallback lo hi) = true.
Proof.
  intros Hlo Hhi Hle Hf. unfold EnvFloat. repeat case_match; try done.
  apply clamp_between; [done..|]. by to_prop.
Qed.

(** ** What is read is a number of the format *)

Lemma SFopp_rounded f : rounded_ok f → rounded_ok (SFopp f).
Proof. intros [Hf|[s ->]]; [left; by apply SFopp_ok|right; by eexists]. Qed.

Lemma decimal_float_ok n x : rounded_ok (decimal_float n x).
Proof.
  unfold decimal_float. destruct n; try by left.
  case_bool; [apply binary_normalize_ok|apply div_result].
Qed.

Lemma read_float_ok s f rest : read_float s = Some (f, rest) → f = S754_nan ∨ rounded_ok f.
Proof.
  assert (Hdec : ∀ s, read_decimal s = Some (f, rest) → rounded_ok f).
  { intros s'. unfold read_decimal. destruct (read_mantissa 10 s') as [[[n places] r]|]; [|done]. simpl.
    destruct (read_exponent _ r) as [x r']. intros [= <- _]. apply decimal_float_ok. }
  assert (Hhex : ∀ s, read_hexadecimal s = Some (f, rest) → rounded_ok f).
  { intros s'. unfold read_hexadecimal. destruct (read_mantissa 16 s') as [[[n places] r]|]; [|done]. simpl.
    destruct (read_exponent _ r) as [x r']. intros [= <- _]. apply binary_normalize_ok. }
  assert (Hinf : rounded_ok Float32.infinity) by (right; by eexists).
  unfold read_float. destruct (strip_word "infinity" s); [intros [= <- _]; auto|].
  destruct (strip_word "inf" s); [intros [= <- _]; auto|].
  destruct (strip_word "nan" s); [intros [= <- _]; auto|].
  destruct (strip_word "0x" s) as [r|]; simpl; [|eauto].
  destruct (read_hexadecimal r) as [[g q]|] eqn:E; [intros [= -> ->]|]; eauto.
Qed.

Lemma strtof_ok s f rest : strtof s = Some (f, rest) → f = S754_nan ∨ rounded_ok f.
Proof.
  unfold strtof. destruct (take_sign (skip_spaces s)) as [negative unsigned].
  destruct (read_float unsigned) as [[g r]|] eqn:E; [|done]. simpl. intros [= <- _].
  apply read_float_ok in E as [->|Hg]; destruct negative; auto using SFopp_rounded.
Qed.

(** A setting that is read from the environment is a finite number of the format. *)
Lemma EnvFloat_ok getenv key fallback lo hi :
  float_ok fallback → float_ok lo → float_ok hi → float_ok (EnvFloat getenv key fallback lo hi).
Proof.
  intros Hf Hlo Hhi. unfold EnvFloat. destruct (env_text getenv key) as [raw|]; [|done].
  destruct (strtof raw) as [[v rest]|] eqn:Hs; [|done]. destruct (_ || _) eqn:Hb; [done|].
  to_prop. assert (Hv : float_ok v).
  { apply strtof_ok in Hs as [->|[?|[s ->]]]; done. }
  unfold Float32.clamp. by repeat case_bool.
Qed.
