(* ===== verification/Config.v ===== *)
(** * The configuration of the worker

    [BackendConfig], [ParseBackendKind], [BackendKindName] and
    [BackendConfigFromEnv] of [src/backend/inference_backend.h] and [.cc]. *)
From Stdlib Require Import Strings.Ascii Floats.SpecFloat.
From stdpp Require Import prelude gmap strings list.
From S2P Require Import Prelude CxxText CxxTextProps CxxFloat FloatRounding FloatBounds Backend Tokenizer Onnx Environment.

(** ** Kinds of backends *)

Definition ParseBackendKind (raw : string) : BackendKind :=
  let normalized := TrimLower raw in
  if bool_decide (normalized ∈ ["tiny_model"; "tiny-text"; "tiny_text"; "tiny_text_model"])
  then kTinyTextModel
  else if bool_decide (normalized ∈ ["tiny_llm"; "tiny-llm"; "tiny_decoder"; "tiny_decoder_llm"])
  then kTinyLLM
  else if bool_decide (normalized ∈ ["continuous_tiny_llm"; "continuous-tiny-llm";
                                     "continuous_llm"; "continuous-llm"])
  then kContinuousTinyLLM
  else if bool_decide (normalized ∈ ["llama_cpp"; "llama-cpp"; "llama"; "gguf"])
  then kLlamaCpp
  else if bool_decide (normalized ∈ ["llama_server"; "llama-server"; "llama.cpp-server";
                                     "llama_server_http"])
  then kLlamaServer
  else if bool_decide (normalized ∈ ["onnx"; "onnxruntime"; "onnx_runtime"])
  then kOnnxRuntime
  else kSimulator.

Definition BackendKindName (kind : BackendKind) : string :=
  match kind with
  | kLlamaServer => "llama_server"
  | kLlamaCpp => "llama_cpp"
  | kOnnxRuntime => "onnx"
  | kContinuousTinyLLM => "continuous_tiny_llm"
  | kTinyLLM => "tiny_llm"
  | kTinyTextModel => "tiny_text_model"
  | kSimulator => "simulator"
  end.

(** ** The configuration *)

Record BackendConfig := mkBackendConfig {
  kind : BackendKind;
  simulator_base_latency_ms : Z;
  simulator_per_request_latency_ms : Z;
  tiny_model_iterations : Z;
  tiny_llm_max_generated_tokens : Z;
  tiny_llm_top_k : Z;
  tiny_llm_temperature : spec_float;
  continuous_max_prefill_tokens_per_step : Z;
  continuous_max_decode_sequences_per_step : Z;
  continuous_kv_cache_blocks : Z;
  continuous_kv_block_tokens : Z;
  continuous_prefix_cache_tokens : Z;
  onnx_model_path : string;
  onnx_runtime_library_path : string;
  llama_cpp_binary_path : string;
  llama_cpp_model_path : string;
  llama_cpp_max_tokens : Z;
  llama_cpp_context_size : Z;
  llama_cpp_threads : Z;
  llama_cpp_temperature : spec_float;
  llama_cpp_timeout_ms : Z;
  llama_server_url : string;
  llama_server_max_tokens : Z;
  llama_server_temperature : spec_float;
  llama_server_timeout_ms : Z;
  llama_server_cache_prompt : bool;
  llama_server_stream : bool;
  llama_server_timings_per_token : bool;
}.

(** [BackendConfig{}] *)
Definition default_BackendConfig : BackendConfig := {|
  kind := kSimulator;
  simulator_base_latency_ms := 20;
  simulator_per_request_latency_ms := 5;
  tiny_model_iterations := 8;
  tiny_llm_max_generated_tokens := 12;
  tiny_llm_top_k := 5;
  tiny_llm_temperature := Float32.literal 8 1;
  continuous_max_prefill_tokens_per_step := 32;
  continuous_max_decode_sequences_per_step := 8;
  continuous_kv_cache_blocks := 512;
  continuous_kv_block_tokens := 16;
  continuous_prefix_cache_tokens := 2;
  onnx_model_path := "models/logreg_iris.onnx";
  onnx_runtime_library_path := EmptyString;
  llama_cpp_binary_path := "llama-cli";
  llama_cpp_model_path := EmptyString;
  llama_cpp_max_tokens := 64;
  llama_cpp_context_size := 2048;
  llama_cpp_threads := 0;
  llama_cpp_temperature := Float32.literal 7 1;
  llama_cpp_timeout_ms := 120000;
  llama_server_url := "http://127.0.0.1:8080/completion";
  llama_server_max_tokens := 64;
  llama_server_temperature := Float32.literal 7 1;
  llama_server_timeout_ms := 120000;
  llama_server_cache_prompt := true;
  llama_server_stream := true;
  llama_server_timings_per_token := true;
|}.

(** The limits of the temperatures: [0.05f], [0.0f] and [2.0f] *)
Definition warm : spec_float := Float32.literal 5 2.
Definition cold : spec_float := Float32.of_Z 0.
Definition hot : spec_float := Float32.of_Z 2.

Definition BackendConfigFromEnv (getenv : string → option string) : BackendConfig :=
  let config := default_BackendConfig in
  let int := EnvInt getenv in
  let real := EnvFloat getenv in
  let text := EnvString getenv in
  let flag := EnvBool getenv in {|
  kind := match getenv "LAMINAR_WORKER_BACKEND" with
          | Some backend => ParseBackendKind backend
          | None => kind config
          end;
  simulator_base_latency_ms :=
    int "LAMINAR_SIMULATOR_BASE_LATENCY_MS" (simulator_base_latency_ms config) 0 60000;
  simulator_per_request_latency_ms :=
    int "LAMINAR_SIMULATOR_PER_REQUEST_LATENCY_MS" (simulator_per_request_latency_ms config) 0 60000;
  tiny_model_iterations :=
    int "LAMINAR_TINY_MODEL_ITERATIONS" (tiny_model_iterations config) 1 1024;
  tiny_llm_max_generated_tokens :=
    int "LAMINAR_TINY_LLM_MAX_GENERATED_TOKENS" (tiny_llm_max_generated_tokens config) 1 64;
  tiny_llm_top_k :=
    int "LAMINAR_TINY_LLM_TOP_K" (tiny_llm_top_k config) 1 (kTinyLLMVocabSize - 2);
  tiny_llm_temperature :=
    real "LAMINAR_TINY_LLM_TEMPERATURE" (tiny_llm_temperature config) warm hot;
  continuous_max_prefill_tokens_per_step :=
    int "LAMINAR_CONTINUOUS_MAX_PREFILL_TOKENS_PER_STEP"
      (continuous_max_prefill_tokens_per_step config) 1 (Z.shiftl 1 20);
  continuous_max_decode_sequences_per_step :=
    int "LAMINAR_CONTINUOUS_MAX_DECODE_SEQUENCES_PER_STEP"
      (continuous_max_decode_sequences_per_step config) 1 (Z.shiftl 1 20);
  continuous_kv_cache_blocks :=
    int "LAMINAR_CONTINUOUS_KV_CACHE_BLOCKS" (continuous_kv_cache_blocks config) 1 (Z.shiftl 1 20);
  continuous_kv_block_tokens :=
    int "LAMINAR_CONTINUOUS_KV_BLOCK_TOKENS" (continuous_kv_block_tokens config) 1 (Z.shiftl 1 20);
  continuous_prefix_cache_tokens :=
    int "LAMINAR_CONTINUOUS_PREFIX_CACHE_TOKENS" (continuous_prefix_cache_tokens config) 0 1024;
  onnx_model_path := text "LAMINAR_ONNX_MODEL_PATH" (onnx_model_path config);
  onnx_runtime_library_path := text "LAMINAR_ONNX_RUNTIME_LIB" DefaultOnnxRuntimeLibraryPath;
  llama_cpp_binary_path := text "LAMINAR_LLAMA_CPP_BINARY" (llama_cpp_binary_path config);
  llama_cpp_model_path := text "LAMINAR_LLAMA_CPP_MODEL" (llama_cpp_model_path config);
  llama_cpp_max_tokens := int "LAMINAR_LLAMA_CPP_MAX_TOKENS" (llama_cpp_max_tokens config) 1 4096;
  llama_cpp_context_size :=
    int "LAMINAR_LLAMA_CPP_CONTEXT_SIZE" (llama_cpp_context_size config) 128 262144;
  llama_cpp_threads := int "LAMINAR_LLAMA_CPP_THREADS" (llama_cpp_threads config) 0 1024;
  llama_cpp_temperature :=
    real "LAMINAR_LLAMA_CPP_TEMPERATURE" (llama_cpp_temperature config) cold hot;
  llama_cpp_timeout_ms :=
    int "LAMINAR_LLAMA_CPP_TIMEOUT_MS" (llama_cpp_timeout_ms config) 100 (10 * 60 * 1000);
  llama_server_url := text "LAMINAR_LLAMA_SERVER_URL" (llama_server_url config);
  llama_server_max_tokens :=
    int "LAMINAR_LLAMA_SERVER_MAX_TOKENS" (llama_server_max_tokens config) 1 4096;
  llama_server_temperature :=
    real "LAMINAR_LLAMA_SERVER_TEMPERATURE" (llama_server_temperature config) cold hot;
  llama_server_timeout_ms :=
    int "LAMINAR_LLAMA_SERVER_TIMEOUT_MS" (llama_server_timeout_ms config) 100 (10 * 60 * 1000);
  llama_server_cache_prompt :=
    flag "LAMINAR_LLAMA_SERVER_CACHE_PROMPT" (llama_server_cache_prompt config);
  llama_server_stream := flag "LAMINAR_LLAMA_SERVER_STREAM" (llama_server_stream config);
  llama_server_timings_per_token :=
    flag "LAMINAR_LLAMA_SERVER_TIMINGS_PER_TOKEN" (llama_server_timings_per_token config);
|}.

(** ** Names of backends *)

Lemma tolower_isspace c : isspace (tolower c) = isspace c.
Proof. by destruct c as [[] [] [] [] [] [] [] []]. Qed.

Lemma trimmed_lower s : trimmed (map_string tolower s) = trimmed s.
Proof.
  assert (Ht : ∀ s, trailing_space (map_string tolower s) = trailing_space s).
  { induction s0 as [|c s0 IH]; [done|]. destruct s0 as [|d s0]; [apply tolower_isspace|exact IH]. }
  unfold trimmed. rewrite Ht. by destruct s; simpl; rewrite ?tolower_isspace.
Qed.

(** Padding and capitals do not matter. *)
Lemma TrimLower_padded pre name post :
  all_chars isspace pre = true → all_chars isspace post = true →
  trimmed (map_string tolower name) = true →
  TrimLower (pre +:+ name +:+ post) = map_string tolower name.
Proof.
  intros Hpre Hpost Hname. rewrite trimmed_lower in Hname. unfold TrimLower, TrimWhitespace.
  rewrite skip_spaces_app by done.
  destruct name as [|c name].
  { rewrite sapp_nil_l. rewrite <- (sapp_nil_r post), skip_spaces_app by done. done. }
  rewrite sapp_cons. pose proof Hname as Hname'. unfold trimmed in Hname'. to_prop.
  rewrite skip_spaces_id by done. rewrite <- sapp_cons, drop_trailing_app by done.
  by rewrite drop_trailing_id.
Qed.

(** C24: the name of a backend selects it: whatever capitals it is written with
    and whatever spaces surround it, the kind that is parsed is the one that the
    name is the name of. *)
Theorem ParseBackendKind_reads_names kind pre name post :
  all_chars isspace pre = true → all_chars isspace post = true →
  map_string tolower name = BackendKindName kind →
  ParseBackendKind (pre +:+ name +:+ post) = kind.
Proof.
  intros Hpre Hpost Hname. unfold ParseBackendKind.
  rewrite TrimLower_padded; [|done..|rewrite Hname; by destruct kind].
  rewrite Hname. by destruct kind.
Qed.

(** ** Ranges *)

(** The ranges of the settings. *)
Record config_ok (c : BackendConfig) : Prop := {
  ok_simulator_base : 0 ≤ simulator_base_latency_ms c ≤ 60000;
  ok_simulator_per_request : 0 ≤ simulator_per_request_latency_ms c ≤ 60000;
  ok_iterations : 1 ≤ tiny_model_iterations c ≤ 1024;
  ok_generated : 1 ≤ tiny_llm_max_generated_tokens c ≤ 64;
  ok_top_k : 1 ≤ tiny_llm_top_k c ≤ kTinyLLMVocabSize - 2;
  ok_tiny_temperature : float_between warm hot (tiny_llm_temperature c) = true;
  ok_prefill : 1 ≤ continuous_max_prefill_tokens_per_step c ≤ Z.shiftl 1 20;
  ok_decode : 1 ≤ continuous_max_decode_sequences_per_step c ≤ Z.shiftl 1 20;
  ok_blocks : 1 ≤ continuous_kv_cache_blocks c ≤ Z.shiftl 1 20;
  ok_block_tokens : 1 ≤ continuous_kv_block_tokens c ≤ Z.shiftl 1 20;
  ok_prefix : 0 ≤ continuous_prefix_cache_tokens c ≤ 1024;
  ok_cpp_tokens : 1 ≤ llama_cpp_max_tokens c ≤ 4096;
  ok_cpp_context : 128 ≤ llama_cpp_context_size c ≤ 262144;
  ok_cpp_threads : 0 ≤ llama_cpp_threads c ≤ 1024;
  ok_cpp_temperature : float_between cold hot (llama_cpp_temperature c) = true;
  ok_cpp_timeout : 100 ≤ llama_cpp_timeout_ms c ≤ 10 * 60 * 1000;
  ok_server_tokens : 1 ≤ llama_server_max_tokens c ≤ 4096;
  ok_server_temperature : float_between cold hot (llama_server_temperature c) = true;
  ok_server_timeout : 100 ≤ llama_server_timeout_ms c ≤ 10 * 60 * 1000;
}.

Lemma configured_ok getenv : config_ok (BackendConfigFromEnv getenv).
Proof.
  split; cbn [BackendConfigFromEnv simulator_base_latency_ms simulator_per_request_latency_ms
    tiny_model_iterations tiny_llm_max_generated_tokens tiny_llm_top_k tiny_llm_temperature
    continuous_max_prefill_tokens_per_step continuous_max_decode_sequences_per_step
    continuous_kv_cache_blocks continuous_kv_block_tokens continuous_prefix_cache_tokens
    llama_cpp_max_tokens llama_cpp_context_size llama_cpp_threads llama_cpp_temperature
    llama_cpp_timeout_ms llama_server_max_tokens llama_server_temperature llama_server_timeout_ms];
    (apply EnvInt_in_range || apply EnvFloat_between); vm_compute; done.
Qed.

Lemma configured_temperature getenv :
  float_ok (tiny_llm_temperature (BackendConfigFromEnv getenv)).
Proof.
  cbn [BackendConfigFromEnv tiny_llm_temperature].
  apply EnvFloat_ok; split; vm_compute; done.
Qed.

(** C23: whatever the environment holds, every setting is within its limits: no
    text, however malformed or large, gets a number out of its range, a
    temperature that is not finite, or a conversion that wraps around. *)
Theorem BackendConfigFromEnv_in_range getenv : config_ok (BackendConfigFromEnv getenv).
Proof. apply configured_ok. Qed.

(** ** Witness *)

Lemma ParseBackendKind_reads_names_witness :
  ParseBackendKind " LLama_SERVER  " = kLlamaServer.
Proof. by apply (ParseBackendKind_reads_names kLlamaServer " " "LLama_SERVER" "  "). Defined.
