(* ===== verification/Worker.v ===== *)
(** * The worker's backend

    [CreateBackend] of [src/backend/inference_backend.cc]: the backend that a
    configuration selects, behind the interface of all of them.  The interface's
    contract holds of whichever backend it is, because it holds of each. *)
From Stdlib Require Import Strings.Ascii Floats.SpecFloat.
From stdpp Require Import prelude gmap strings list.
From S2P Require Import Prelude CxxText CxxTextProps CxxFloat Backend Simulator Tokenizer TinyText TinyTextProps.
From S2P Require Import TinyLLM TinyLLMProps ContinuousTinyLLM ContinuousTinyLLMProps.
From S2P Require Import Http HttpTheorems LlamaServer LlamaServerProps Process LlamaCppProps Onnx OnnxProps.
From S2P Require Import Environment Config.

(** The object behind a [std::unique_ptr<InferenceBackend>] *)
Inductive AnyBackend :=
  | TheSimulator (b : SimulatorBackend)
  | TheTinyTextModel (b : TinyTextModelBackend)
  | TheTinyLLM (b : TinyLLMBackend)
  | TheContinuousTinyLLM (b : ContinuousTinyLLMBackend)
  | TheOnnxRuntime (b : Onnx.Impl)
  | TheLlamaCpp (b : LlamaCppBackend)
  | TheLlamaServer (b : LlamaServerBackend).

Section Worker.
Context {W : Type} `{Libm} `{Host W} `{Files W} `{!Sockets W} `{!Processes W} `{Filesystem W}.
Context `{OnnxRuntime W} (fuel : nat).

#[local] Instance server_backend : InferenceBackend LlamaServerBackend W := LlamaServer_backend fuel.
#[local] Instance cpp_backend : InferenceBackend LlamaCppBackend W := LlamaCpp_backend fuel.
#[local] Instance server_streaming : StreamingBackend LlamaServerBackend W := LlamaServer_streaming fuel.
#[local] Instance cpp_streaming : StreamingBackend LlamaCppBackend W := LlamaCpp_streaming fuel.

(** A virtual call: the method runs on the object. *)
Definition on_object {B} (wrap : B → AnyBackend) (m : M W (BackendResult * B))
    : M W (BackendResult * AnyBackend) :=
  let* '(r, b) := m in done_with (r, wrap b).

Definition Any_Name (b : AnyBackend) : string :=
  match b with
  | TheSimulator b => Name (W := W) b
  | TheTinyTextModel b => Name (W := W) b
  | TheTinyLLM b => Name (W := W) b
  | TheContinuousTinyLLM b => Name (W := W) b
  | TheOnnxRuntime b => Name (W := W) b
  | TheLlamaCpp b => Name (W := W) b
  | TheLlamaServer b => Name (W := W) b
  end.

Definition Any_ProcessBatch (b : AnyBackend) (requests : list BackendRequest)
    : M W (BackendResult * AnyBackend) :=
  match b with
  | TheSimulator b => on_object TheSimulator (ProcessBatch b requests)
  | TheTinyTextModel b => on_object TheTinyTextModel (ProcessBatch b requests)
  | TheTinyLLM b => on_object TheTinyLLM (ProcessBatch b requests)
  | TheContinuousTinyLLM b => on_object TheContinuousTinyLLM (ProcessBatch b requests)
  | TheOnnxRuntime b => on_object TheOnnxRuntime (ProcessBatch b requests)
  | TheLlamaCpp b => on_object TheLlamaCpp (ProcessBatch b requests)
  | TheLlamaServer b => on_object TheLlamaServer (ProcessBatch b requests)
  end.

#[export] Instance Any_backend : InferenceBackend AnyBackend W := {|
  Name := Any_Name;
  ProcessBatch := Any_ProcessBatch;
|}.

Definition Any_ProcessStream (emit : BackendStreamEvent → M W bool) (b : AnyBackend)
    (request : BackendRequest) : M W (BackendResult * AnyBackend) :=
  match b with
  | TheSimulator b => on_object TheSimulator (ProcessStream emit b request)
  | TheTinyTextModel b => on_object TheTinyTextModel (ProcessStream emit b request)
  | TheTinyLLM b => on_object TheTinyLLM (ProcessStream emit b request)
  | TheContinuousTinyLLM b => on_object TheContinuousTinyLLM (ProcessStream emit b request)
  | TheOnnxRuntime b => on_object TheOnnxRuntime (ProcessStream emit b request)
  | TheLlamaCpp b => on_object TheLlamaCpp (ProcessStream emit b request)
  | TheLlamaServer b => on_object TheLlamaServer (ProcessStream emit b request)
  end.

#[export] Instance Any_streaming : StreamingBackend AnyBackend W := {|
  ProcessStream := Any_ProcessStream;
|}.

Definition CreateBackend (config : BackendConfig) : M W AnyBackend :=
  match kind config with
  | kLlamaServer => done_with (TheLlamaServer (make_LlamaServerBackend
      (llama_server_url config) (llama_server_max_tokens config)
      (llama_server_temperature config) (llama_server_timeout_ms config)
      (llama_server_cache_prompt config) (llama_server_stream config)
      (llama_server_timings_per_token config)))
  | kLlamaCpp => done_with (TheLlamaCpp (make_LlamaCppBackend
      (llama_cpp_binary_path config) (llama_cpp_model_path config)
      (llama_cpp_max_tokens config) (llama_cpp_context_size config)
      (llama_cpp_threads config) (llama_cpp_temperature config)
      (llama_cpp_timeout_ms config)))
  | kOnnxRuntime =>
      let* b := make_OnnxRuntimeBackend (onnx_model_path config) (onnx_runtime_library_path config) in
      done_with (TheOnnxRuntime b)
  | kContinuousTinyLLM => done_with (TheContinuousTinyLLM (make_ContinuousTinyLLMBackend
      (tiny_llm_max_generated_tokens config) (tiny_llm_temperature config) (tiny_llm_top_k config)
      (continuous_max_prefill_tokens_per_step config)
      (continuous_max_decode_sequences_per_step config)
      (continuous_kv_cache_blocks config) (continuous_kv_block_tokens config)
      (continuous_prefix_cache_tokens config)))
  | kTinyLLM => done_with (TheTinyLLM (make_TinyLLMBackend
      (tiny_llm_max_generated_tokens config) (tiny_llm_temperature config) (tiny_llm_top_k config)))
  | kTinyTextModel => done_with (TheTinyTextModel (make_TinyTextModelBackend
      (tiny_model_iterations config)))
  | kSimulator => done_with (TheSimulator (make_SimulatorBackend
      (simulator_base_latency_ms config) (simulator_per_request_latency_ms config)))
  end.
End Worker.
