(* ===== verification/WorkerProps.v ===== *)
(** * Theorems on the worker's backend

    The contract of the interface holds of the backend that a configuration
    selects; it is the one that the configuration describes, and it answers. *)
From Stdlib Require Import Strings.Ascii Floats.SpecFloat.
From stdpp Require Import prelude gmap strings list.
From S2P Require Import Prelude CxxText CxxTextProps CxxFloat FloatRounding FloatBounds FloatLibm.
From S2P Require Import Backend Simulator Tokenizer TinyText TinyTextProps.
From S2P Require Import TinyLLM TinyLLMProps ContinuousTinyLLM ContinuousTinyLLMProps LlamaProtocol LlamaStream.
From S2P Require Import Http HttpTheorems LlamaServer LlamaServerProps Process LlamaCppProps Onnx OnnxProps.
From S2P Require Import Environment Config Worker.

(** ** The contract *)

Section Contract.
Context {W : Type} `{Libm} `{Host W} `{Files W} `{!Sockets W} `{!Processes W} `{Filesystem W}.
Context `{OnnxRuntime W} `{!OnnxSpec W} (fuel : nat).

#[local] Instance server_backend : InferenceBackend LlamaServerBackend W := LlamaServer_backend fuel.
#[local] Instance cpp_backend : InferenceBackend LlamaCppBackend W := LlamaCpp_backend fuel.
#[local] Instance server_streaming : StreamingBackend LlamaServerBackend W := LlamaServer_streaming fuel.
#[local] Instance cpp_streaming : StreamingBackend LlamaCppBackend W := LlamaCpp_streaming fuel.
#[local] Instance server_spec : BackendSpec LlamaServerBackend W := LlamaServer_spec fuel.
#[local] Instance cpp_spec : BackendSpec LlamaCppBackend W := LlamaCpp_spec fuel.
#[local] Existing Instance Any_backend.

#[export] Instance Simulator_streaming_spec : StreamingSpec SimulatorBackend W.
Proof. constructor. apply default_ProcessStream_result. Qed.
#[export] Instance TinyText_streaming_spec : StreamingSpec TinyTextModelBackend W.
Proof. constructor. apply default_ProcessStream_result. Qed.
#[export] Instance TinyLLM_streaming_spec : StreamingSpec TinyLLMBackend W.
Proof. constructor. apply default_ProcessStream_result. Qed.
#[export] Instance Continuous_streaming_spec : StreamingSpec ContinuousTinyLLMBackend W.
Proof. constructor. apply default_ProcessStream_result. Qed.
#[export] Instance Onnx_streaming_spec : StreamingSpec Onnx.Impl W.
Proof. constructor. apply default_ProcessStream_result. Qed.
#[local] Instance cpp_streaming_spec : StreamingSpec LlamaCppBackend W.
Proof. constructor. apply default_ProcessStream_result. Qed.

#[local] Instance server_streaming_spec : StreamingSpec LlamaServerBackend W := LlamaServer_streaming_spec fuel.

(** The invariant of the object. *)
Definition any_inv (b : AnyBackend) : Prop :=
  match b with
  | TheContinuousTinyLLM b => continuous_ok b
  | TheOnnxRuntime b => usable b
  | _ => True
  end.

Lemma on_object_Some {B} (wrap : B → AnyBackend) m (w : W) r o w' :
  on_object wrap m w = Some ((r, o), w') → ∃ b, m w = Some ((r, b), w') ∧ o = wrap b.
Proof. unfold on_object. rewrite and_then_Some. intros ([r1 b] & w1 & Hm & [= <- <- <-]). eauto. Qed.

#[export, refine] Instance Any_spec : @BackendSpec AnyBackend W (Any_backend fuel) := {|
  backend_inv := any_inv;
|}.
Proof.
  intros b requests w r o w' Hb Hrun.
  destruct b;
    apply on_object_Some in Hrun as (b1 & Hrun & ->);
    apply (ProcessBatch_result (W := W)) in Hrun; simpl; naive_solver.
Defined.

#[export] Instance Any_streaming_spec : @StreamingSpec AnyBackend W (Any_backend fuel) (Any_streaming fuel) Any_spec.
Proof.
  constructor. intros emit b request w r o w' Hb Hrun.
  destruct b;
    apply on_object_Some in Hrun as (b1 & Hrun & ->);
    apply (ProcessStream_result (W := W)) in Hrun; simpl; naive_solver.
Qed.
End Contract.

(** ** The backend that a configuration describes *)

Section Paths.
Context {W : Type} `{Filesystem W} `{OnnxRuntime W}.

(** The constructor of the ONNX backend keeps the paths it is given. *)
Definition paths (b : Onnx.Impl) : string * string := (model_path b, runtime_library_path b).

Lemma CheckStatus_paths status op b (w : W) success b' w' :
  CheckStatus status op b w = Some ((success, b'), w') → paths b' = paths b.
Proof.
  unfold CheckStatus. destruct (is_null status); [by injection 1 as _ <- _|].
  rewrite and_then_Some. intros (error & w1 & _ & Hrun).
  apply and_then_Some in Hrun as (? & w2 & _ & Hrun). by injection Hrun as _ <- _.
Qed.

Lemma create_paths call store op b (w : W) success b' w' :
  (∀ p, paths (store p b) = paths b) →
  create call store op b w = Some ((success, b'), w') → paths b' = paths b.
Proof.
  intros Hstore. unfold create. rewrite and_then_Some.
  intros ([status created] & w1 & _ & Hrun%CheckStatus_paths). by rewrite Hrun.
Qed.

Lemma configure_paths call op b (w : W) success b' w' :
  configure call op b w = Some ((success, b'), w') → paths b' = paths b.
Proof.
  unfold configure. rewrite and_then_Some. by intros (status & w1 & _ & Hrun%CheckStatus_paths).
Qed.

Lemma Initialize_session_paths b (w : W) b' w' :
  Initialize_session b w = Some (b', w') → paths b' = paths b.
Proof.
  unfold Initialize_session. intros Hrun.
  repeat match goal with
  | E : and_then _ _ _ = Some _ |- _ =>
      let s := fresh in let Hs := fresh in
      apply and_then_Some in E as ([s ?] & ? & Hs & E);
      (apply create_paths in Hs; [|done]) || apply configure_paths in Hs;
      destruct s; cbn [negb] in E
  | E : done_with _ _ = Some _ |- _ => injection E as <- <-
  end; unfold paths in *; simpl; congruence.
Qed.

Lemma Initialize_paths m r (w : W) b w' :
  is_empty r = false → make_OnnxRuntimeBackend m r w = Some (b, w') → paths b = (m, r).
Proof.
  intros Hr. unfold make_OnnxRuntimeBackend, Initialize. simpl runtime_library_path. rewrite Hr.
  cbv zeta. intros Hrun.
  repeat match goal with
  | E : and_then _ _ _ = Some _ |- _ => apply and_then_Some in E as (? & ? & _ & E)
  | E : (if ?b then _ else _) _ = Some _ |- _ => destruct b
  | E : done_with _ _ = Some _ |- _ => injection E as <- <-
  end; try done. by apply Initialize_session_paths in Hrun.
Qed.

Lemma Initialize_returns m r : returns (W := W) (make_OnnxRuntimeBackend m r).
Proof.
  unfold make_OnnxRuntimeBackend, Initialize, Initialize_session, create, configure.
  pose proof (@CheckStatus_returns W). returns_tac.
Qed.
End Paths.

Lemma clamp_id v lo hi : lo ≤ v ≤ hi → clamp v lo hi = v.
Proof. unfold clamp. intros. repeat case_bool; to_prop; lia. Qed.

(** The object that a configuration describes, member by member. *)
Definition described (c : BackendConfig) (b : AnyBackend) : Prop :=
  match kind c with
  | kSimulator => b = TheSimulator
      (mkSimulator (simulator_base_latency_ms c) (simulator_per_request_latency_ms c))
  | kTinyTextModel => b = TheTinyTextModel (mkTinyText (tiny_model_iterations c))
  | kTinyLLM => b = TheTinyLLM (mkTinyLLM
      (tiny_llm_max_generated_tokens c) (tiny_llm_temperature c) (tiny_llm_top_k c))
  | kContinuousTinyLLM => b = TheContinuousTinyLLM (mkContinuousTinyLLM
      (tiny_llm_max_generated_tokens c) (tiny_llm_temperature c) (tiny_llm_top_k c)
      (continuous_max_prefill_tokens_per_step c) (continuous_max_decode_sequences_per_step c)
      (continuous_kv_cache_blocks c) (continuous_kv_block_tokens c) (continuous_prefix_cache_tokens c))
  | kOnnxRuntime => ∃ impl, b = TheOnnxRuntime impl ∧
      paths impl = (onnx_model_path c, onnx_runtime_library_path c)
  | kLlamaCpp => b = TheLlamaCpp (mkLlamaCpp
      (llama_cpp_binary_path c) (llama_cpp_model_path c) (llama_cpp_max_tokens c)
      (llama_cpp_context_size c) (llama_cpp_threads c) (llama_cpp_temperature c) (llama_cpp_timeout_ms c))
  | kLlamaServer => b = TheLlamaServer (mkLlamaServer
      (llama_server_url c) (llama_server_max_tokens c) (llama_server_temperature c)
      (llama_server_timeout_ms c) (llama_server_cache_prompt c) (llama_server_stream c)
      (llama_server_timings_per_token c))
  end.

Section Creation.
Context {W : Type} `{Libm} `{Host W} `{Files W} `{!Sockets W} `{!Processes W} `{Filesystem W}.
Context `{OnnxRuntime W} (fuel : nat).

Lemma CreateBackend_returns config : returns (W := W) (CreateBackend config).
Proof. unfold CreateBackend. pose proof Initialize_returns. returns_tac. Qed.

Lemma CreateBackend_described config (w : W) b w' :
  config_ok config → is_empty (onnx_runtime_library_path config) = false →
  CreateBackend config w = Some (b, w') → described config b.
Proof.
  intros [] Hlib. unfold CreateBackend, described. destruct (kind config); intros Hrun;
    try (injection Hrun as <- _;
         unfold make_SimulatorBackend, make_TinyTextModelBackend, make_TinyLLMBackend,
           make_ContinuousTinyLLMBackend, make_LlamaCppBackend, make_LlamaServerBackend;
         rewrite ?clamp_id, ?clamp_inside, ?Z.max_l by (done || lia); done).
  apply and_then_Some in Hrun as (impl & w1 & Himpl & Hrun). injection Hrun as <- _.
  apply Initialize_paths in Himpl; [|done]. eauto.
Qed.

Lemma described_name config b : described config b → Any_Name fuel b = BackendKindName (kind config).
Proof. unfold described. intros Hb. destruct (kind config); naive_solver. Qed.

Lemma configured_library getenv :
  is_empty (onnx_runtime_library_path (BackendConfigFromEnv getenv)) = false.
Proof.
  simpl. unfold EnvString, env_text. destruct (getenv _) as [raw|]; [|done].
  by destruct (is_empty raw) eqn:He.
Qed.

(** C16: whatever the environment holds, the worker gets a backend, and it is
    exactly the one that the configuration describes, member by member: the
    limits that its constructor applies again change nothing, and its name is
    that of the configured kind. *)
Theorem CreateBackend_configured getenv (w : W) :
  let config := BackendConfigFromEnv getenv in
  ∃ b w', CreateBackend config w = Some (b, w') ∧ described config b ∧
    Any_Name fuel b = BackendKindName (kind config).
Proof.
  intros config. destruct (CreateBackend_returns config w) as (b & w' & Hrun).
  exists b, w'. apply CreateBackend_described in Hrun as Hb; [|apply configured_ok|apply configured_library].
  split_and!; [done..|by apply described_name].
Qed.

(** The contract's invariant holds of a backend that was created. *)
Lemma CreateBackend_inv `{!OnnxSpec W} config (w : W) b w' :
  CreateBackend config w = Some (b, w') → any_inv b.
Proof.
  unfold CreateBackend. destruct (kind config); intros Hrun;
    try (injection Hrun as <- _; simpl; done || by apply make_continuous_ok).
  apply and_then_Some in Hrun as (impl & w1 & Himpl & Hrun). injection Hrun as <- _.
  by apply Initialize_live in Himpl as (_ & _ & ?).
Qed.
End Creation.

(** ** Every batch is answered

    The conditions on the world under which each of the backends returns, for
    the limits of the configuration. *)
Section Progress.
Context {W : Type} `{Hlibm : LibmSpec} `{Host W} `{Files W} `{!Sockets W} `{!Processes W} `{Filesystem W}.
Context `{OnnxRuntime W} `{!OnnxSpec W} `{!RecvSpec W} `{!ProcessProgress W} (fuel : nat).
Context (Hlabels : ∀ v w, let '((status, labels), _) := GetTensorMutableData v w in
  is_null status = true → (kModelBatch ≤ length labels)%nat).
Context (fuel_receptions : (Z.to_nat max_response + 2 ≤ fuel)%nat).
Context (fuel_output : (output_bound < fuel)%nat).
Context (fuel_turns : 10 * 60 * 1000 * 1000000 + 2 < Z.of_nat fuel).

(** What the progress of the object needs of its members. *)
Definition any_progress (b : AnyBackend) : Prop :=
  match b with
  | TheSimulator b => 0 ≤ base_latency_ms_ b ≤ 60000 ∧ 0 ≤ per_request_latency_ms_ b ≤ 60000
  | TheTinyLLM b => tiny_llm_ok b
  | TheContinuousTinyLLM b => continuous_settings b
  | TheLlamaCpp b => Process.timeout_ms_ b ≤ 10 * 60 * 1000
  | _ => True
  end.

Lemma on_object_returns {B} (wrap : B → AnyBackend) (m : M W (BackendResult * B)) w :
  (∃ r b w', m w = Some ((r, b), w') ∧ any_progress (wrap b)) →
  ∃ r o w', on_object wrap m w = Some ((r, o), w') ∧ any_progress o.
Proof.
  intros (r & b & w' & Hm & Hb). exists r, (wrap b), w'. unfold on_object, and_then. by rewrite Hm.
Qed.

Lemma returns_unchanged {B} (m : M W (BackendResult * B)) (P : B → Prop) b w :
  returns m → (∀ r b' w', m w = Some ((r, b'), w') → b' = b) → P b →
  ∃ r b' w', m w = Some ((r, b'), w') ∧ P b'.
Proof.
  intros Hret Hsame HP. destruct (Hret w) as ([r b'] & w' & Hm). exists r, b', w'.
  split; [done|]. by rewrite (Hsame _ _ _ Hm).
Qed.

#[export, refine] Instance Any_progress : @BackendProgress AnyBackend W (Any_backend fuel) (Any_spec fuel) := {|
  progress_inv := any_progress;
  servable requests := zlen requests ≤ 35790 ∧ batch_received requests;
|}.
Proof.
  intros b requests w Hinv Hp [Hn Hsize]. simpl in Hinv.
  destruct b; apply on_object_returns; simpl in Hp.
  - destruct (Simulator_defined b requests w) as (r & w' & Hrun); [lia..|]. by exists r, b, w'.
  - apply (returns_unchanged _ _ b); [apply TinyText_defined| |done]. by intros r b' w' [? _]%TinyText_answers.
  - apply (returns_unchanged _ (λ b', any_progress (TheTinyLLM b')) b);
      [by apply TinyLLM_defined, batch_received_prompts| |done]. by intros r b' w' [? _]%TinyLLM_answers.
  - apply (returns_unchanged _ (λ b', any_progress (TheContinuousTinyLLM b')) b);
      [by apply Continuous_defined| |done].
    by intros r b' w' [? _]%Continuous_answers.
  - destruct (Onnx_defined Hlabels b requests w) as ([r b'] & w' & Hrun). by exists r, b', w'.
  - apply (returns_unchanged _ (λ b', any_progress (TheLlamaCpp b')) b);
      [apply LlamaCpp_defined; lia| |done]. by intros r b' w' [? _]%LlamaCpp_answers.
  - apply (returns_unchanged _ _ b); [by apply LlamaServer_defined| |done].
    by intros r b' w' [? _]%LlamaServer_answers.
Defined.

Lemma described_progress config b :
  config_ok config → float_ok (tiny_llm_temperature config) → described config b → any_progress b.
Proof.
  clear fuel_receptions fuel_output fuel_turns.
  intros [] Ht. change (Z.shiftl 1 20) with (2 ^ 20) in *. unfold described. destruct (kind config);
    [intros ->; simpl; lia|by intros ->|intros ->; split_and!; simpl; (done || lia)
    |intros ->; split_and!; simpl; (done || lia)
    |by intros (impl & -> & _)|intros ->; simpl; lia|by intros ->].
Qed.
End Progress.
