(* ===== verification/Service.v ===== *)
(** * The gRPC service

    [InferenceServiceImpl] of [src/backend/main.cc]: the handlers of the two calls of
    [src/proto/inference.proto], over any backend.  What they print is left out. *)
From Stdlib Require Import Strings.Ascii.
From stdpp Require Import prelude gmap strings list.
From S2P Require Import Prelude CxxText Backend.

(** ** Messages and statuses *)

Record RequestItem := mkRequestItem {
  item_id : string;
  item_prompt : string;
  item_trace_id : string;
}.

Record ResponseItem := mkResponseItem {
  response_id : string;
  response_result : string;
  response_trace_id : string;
  response_backend_name : string;
  response_latency_micros : Z;
  response_metadata : metadata_map;
}.

Record StreamResponse := mkStreamResponse {
  stream_id : string;
  stream_trace_id : string;
  stream_event_type : string;
  stream_delta : string;
  stream_result_text : string;
  stream_backend_name : string;
  stream_latency_micros : Z;
  stream_metadata : metadata_map;
}.

(** The codes of [grpc::StatusCode] that the handlers use *)
Inductive StatusCode := OK | CANCELLED | INVALID_ARGUMENT | UNAVAILABLE | INTERNAL.

Record Status := mkStatus { grpc_code : StatusCode; grpc_message : string }.

(** [Status::OK] *)
Definition status_ok : Status := mkStatus OK EmptyString.

(** ** The handlers *)

Definition backend_request (item : RequestItem) : BackendRequest :=
  mkBackendRequest (item_id item) (item_prompt item) (item_trace_id item).

(** The tests on the code of a result: the status that the handler returns, if
    it is not [kOk]. *)
Definition failure_status (r : BackendResult) : option Status :=
  match code r with
  | kCancelledCode => Some (mkStatus CANCELLED (message r))
  | kInvalidArgument => Some (mkStatus INVALID_ARGUMENT (message r))
  | kUnavailable => Some (mkStatus UNAVAILABLE (message r))
  | kOk => None
  end.

(** [for (const auto& [key, value] : metadata) { target[key] = value; }] on an
    empty target *)
Definition copy_metadata (m : metadata_map) : metadata_map :=
  foldl (λ target '(key, value), <[key := value]> target) ∅ (map_to_list m).

(** One iteration of the loop that fills the response. *)
Definition response_item (name : string) (micros : Z) (r : BackendResult)
    (i : nat) (item : RequestItem) : option ResponseItem :=
  out ← outputs r !! i;
  m ← (if bool_decide (output_metadata r = []) then Some ∅
       else copy_metadata <$> output_metadata r !! i);
  Some (mkResponseItem (item_id item) out (item_trace_id item) name micros m).

(** The message that an event of a stream becomes; its latency is not set. *)
Definition stream_message (name : string) (item : RequestItem) (event : BackendStreamEvent)
    : StreamResponse :=
  mkStreamResponse (item_id item) (item_trace_id item) (event_type event) (delta event)
    (result event) name 0 (copy_metadata (metadata event)).

Definition wrong_outputs : Status :=
  mkStatus INTERNAL "backend returned the wrong number of outputs".
Definition wrong_metadata : Status :=
  mkStatus INTERNAL "backend returned the wrong number of metadata records".
Definition wrong_stream_outputs : Status :=
  mkStatus INTERNAL "backend returned the wrong number of stream outputs".

(** [ServerWriter<StreamResponse>::Write] *)
Class ResponseWriter (W : Type) := { Write : StreamResponse → W → bool * W }.

Section Service.
Context {B W : Type} `{Host W} `{StreamingBackend B W} `{!ResponseWriter W}.

(** The handler of the call [ProcessBatch]: its status, the items of its
    response, and the backend after it. *)
Definition Service_ProcessBatch (b : B) (items : list RequestItem)
    : M W (Status * list ResponseItem * B) :=
  let requests := backend_request <$> items in
  let* started := ask steady_now in
  let* '(r, b) := ProcessBatch b requests in
  let* finished := ask steady_now in
  match failure_status r with
  | Some status => done_with (status, [], b)
  | None =>
      if negb (length (outputs r) =? length requests)%nat then done_with (wrong_outputs, [], b)
      else if negb (bool_decide (output_metadata r = [])) &&
              negb (length (output_metadata r) =? length requests)%nat
      then done_with (wrong_metadata, [], b)
      else
        let* responses := of_option (mapM (λ '(i, item),
          response_item (Name (W := W) b) (elapsed_micros started finished) r i item)
          (imap pair items)) in
        done_with (status_ok, responses, b)
  end.

(** The callback of the call [Stream]. *)
Definition forward (b : B) (item : RequestItem) (event : BackendStreamEvent) : M W bool :=
  ask (Write (stream_message (Name (W := W) b) item event)).

(** The handler of the call [Stream]. *)
Definition Service_Stream (b : B) (item : RequestItem) : M W (Status * B) :=
  let* started := ask steady_now in
  let* '(r, b) := ProcessStream (forward b item) b (backend_request item) in
  let* finished := ask steady_now in
  match failure_status r with
  | Some status => done_with (status, b)
  | None =>
      if negb (length (outputs r) =? 1)%nat then done_with (wrong_stream_outputs, b)
      else done_with (status_ok, b)
  end.

(** Calls on one worker, one after the other: their replies. *)
Fixpoint serve_batches (b : B) (calls : list (list RequestItem))
    : M W (list (Status * list ResponseItem) * B) :=
  match calls with
  | [] => done_with ([], b)
  | items :: calls =>
      let* '(status, responses, b) := Service_ProcessBatch b items in
      let* '(replies, b) := serve_batches b calls in
      done_with ((status, responses) :: replies, b)
  end.
End Service.
