(* ===== verification/StreamEnds.v ===== *)
(** * Streams end

    [HttpPostJsonStream] has no limit on an accepted body: it ends because its
    peer does.  Over a peer whose answer is bounded, and which the stream
    callback does not make write more, the streaming call returns. *)
From Stdlib Require Import Strings.Ascii Floats.SpecFloat.
From stdpp Require Import prelude gmap strings list.
From S2P Require Import Prelude CxxText CxxTextProps Backend LlamaProtocol LlamaStream Http HttpTheorems.
From S2P Require Import LlamaServer LlamaServerProps.

(** What the peer has still to send gets less with every reception of bytes, no
    signal interrupts one, and nothing else in the loop adds to it. *)
Class AnswerEnds (W : Type) `{Host W} `{Sockets W} := {
  answer_left : W → nat;
  answer_bound : nat;
  answer_left_bound w : (answer_left w ≤ answer_bound)%nat;
  cancelled_left w : (answer_left (is_cancelled w).2 ≤ answer_left w)%nat;
  now_left w : (answer_left (steady_now w).2 ≤ answer_left w)%nat;
  recv_left fd n w : let '((bytes, _), w') := recv fd n w in
    (0 < bytes → (answer_left w' < answer_left w)%nat) ∧ (bytes < 0 → errno w' ≠ EINTR);
}.

Section Ends.
Context {W : Type} `{AnswerEnds W}.

(** Code that returns and does not make the peer send more. *)
Definition quietly {A} (m : M W A) : Prop :=
  ∀ w, ∃ x w', m w = Some (x, w') ∧ (answer_left w' ≤ answer_left w)%nat.

Lemma quietly_done {A} (x : A) : quietly (done_with x).
Proof. intros w. by exists x, w. Qed.

Lemma quietly_bind {A B} (m : M W A) (k : A → M W B) :
  quietly m → (∀ x, quietly (k x)) → quietly (and_then m k).
Proof.
  intros Hm Hk w. destruct (Hm w) as (x & w1 & E1 & L1). destruct (Hk x w1) as (y & w2 & E2 & L2).
  exists y, w2. unfold and_then. rewrite E1. split; [done|lia].
Qed.

Lemma quietly_ask {A} (f : W → A * W) : (∀ w, (answer_left (f w).2 ≤ answer_left w)%nat) → quietly (ask f).
Proof. intros Hf w. unfold ask. specialize (Hf w). destruct (f w) as [x w']. by exists x, w'. Qed.

Lemma quietly_returns {A} (m : M W A) : quietly m → returns m.
Proof. intros Hm w. destruct (Hm w) as (x & w' & ? & _). eauto. Qed.

Context (emit : BackendStreamEvent → M W bool) (Hemit : ∀ e, quietly (emit e)).

Lemma consume_line_quietly line st : quietly (consume_line emit line st).
Proof using Hemit.
  unfold consume_line. cbv zeta. repeat (case_match; [apply quietly_done|]).
  apply quietly_bind; [done|]. intros go. apply quietly_done.
Qed.

Lemma consume_line_pending line st (w : W) go st' w' :
  consume_line emit line st w = Some ((go, st'), w') → pending_line st' = pending_line st.
Proof.
  unfold consume_line. cbv zeta. repeat (case_match; [by intros [= _ <- _]|]).
  rewrite and_then_Some. by intros (b & w1 & _ & [= _ <- _]).
Qed.

Lemma consume_lines_quietly fuel st :
  (str_length (pending_line st) < fuel)%nat → quietly (consume_lines emit fuel st).
Proof using Hemit.
  revert st. induction fuel as [|fuel IH]; intros st Hf; [lia|]. simpl.
  destruct (split_char newline (pending_line st)) as [[line rest]|] eqn:Hs; [|apply quietly_done].
  apply split_char_Some in Hs as [Hs _]. rewrite Hs, str_length_app in Hf. simpl in Hf. intros w.
  destruct (consume_line_quietly line (mkStreamState (completion st) rest (token_index st)) w)
    as ([go st1] & w1 & E1 & L1).
  apply consume_line_pending in E1 as Hp. simpl in Hp. unfold and_then. rewrite E1.
  destruct go; simpl; [|eauto]. destruct (IH st1) with (w := w1) as (x & w2 & E2 & L2); [rewrite Hp; lia|].
  exists x, w2. split; [done|lia].
Qed.

Lemma on_body_quietly data st : quietly (on_body emit data st).
Proof using Hemit. unfold on_body. apply consume_lines_quietly. simpl. lia. Qed.

Lemma finish_stream_quietly st : quietly (finish_stream emit st).
Proof using Hemit.
  unfold finish_stream. case_match; [apply quietly_done|apply consume_line_quietly].
Qed.

Section Loop.
Context {St : Type} (callback : string → St → M W (bool * St)).
Context (Hcallback : ∀ data s, quietly (callback data s)).

Lemma deliver_quietly data l : quietly (deliver callback data l).
Proof using Hcallback. unfold deliver. apply quietly_bind; [done|intros [go s]]. apply quietly_done. Qed.

Lemma receive_quietly (parsed : bool) data l :
  quietly (if parsed then receive_headers callback data l else receive_body callback data l).
Proof using Hcallback.
  pose proof deliver_quietly. unfold receive_headers, receive_body. cbv zeta.
  repeat case_match; auto using @quietly_done.
Qed.

Lemma note_first_byte_quietly started r : quietly (note_first_byte started r).
Proof.
  unfold note_first_byte. destruct (_ <? _); [|apply quietly_done].
  apply quietly_bind; [apply quietly_ask, now_left|]. intros now. apply quietly_done.
Qed.

Lemma recv_stream_returns fuel fd started l (w : W) :
  (answer_left w < fuel)%nat → ∃ x w', recv_stream callback fuel fd started l w = Some (x, w').
Proof using Hcallback.
  revert l w. induction fuel as [|fuel IH]; intros l w Hf; [lia|]. simpl.
  unfold and_then at 1, ask at 1. pose proof (cancelled_left w) as L1.
  destruct (is_cancelled w) as [[] w1]; [by do 2 eexists|]. simpl in L1.
  unfold and_then at 1, ask at 1. pose proof (recv_left fd 4096 w1) as Hrecv.
  destruct (recv fd 4096 w1) as [[bytes buffer] w2]. destruct Hrecv as [Hleft Herr].
  destruct (0 <? bytes) eqn:Hb; to_prop.
  - specialize (Hleft Hb). destruct (note_first_byte_quietly started (loop_response l) w2) as (r & w3 & E3 & L3).
    unfold and_then at 1. rewrite E3. cbv zeta.
    match goal with |- context [if negb ?p then receive_headers _ ?data ?l0 else _] =>
      destruct (receive_quietly (negb p) data l0 w3) as ([go l1] & w4 & E4 & L4) end.
    unfold and_then. rewrite E4. destruct go; simpl; [|by do 2 eexists]. apply IH. lia.
  - destruct (bytes =? 0) eqn:H0'; to_prop; [by do 2 eexists|].
    unfold and_then, ask. rewrite (proj2 (Z.eqb_neq _ _)) by (apply Herr; lia). by do 2 eexists.
Qed.

Lemma HttpPostJsonStream_returns fuel url text timeout s :
  (answer_bound < fuel)%nat → returns (HttpPostJsonStream callback fuel url text timeout s).
Proof using Hcallback.
  intros Hf. unfold HttpPostJsonStream.
  apply returns_bind; [auto with laminar|intros started].
  apply returns_bind; [apply open_connection_returns|intros [msg|fd]; [auto with laminar|]].
  apply returns_bind; [apply send_all_returns; lia|intros [msg|]; [by returns_tac|]].
  intros w. destruct (recv_stream_returns fuel fd started (mkStreamLoop false EmptyString empty_response s) w)
    as ([complete l] & w1 & E1); [pose proof (answer_left_bound w); lia|].
  apply (returns_after _ _ _ _ _ E1). returns_tac.
Qed.
End Loop.

(** Without [stream_] the call is the batch of its one request. *)
Lemma LlamaServer_stream_returns `{!RecvSpec W} fuel b request :
  (answer_bound < fuel)%nat → (Z.to_nat max_response + 2 ≤ fuel)%nat →
  returns (LlamaServer_ProcessStream fuel emit b request).
Proof using Hemit.
  intros Hf Hf2. pose proof (λ e, quietly_returns _ (Hemit e)) as Hret.
  pose proof (λ st, quietly_returns _ (finish_stream_quietly st)) as Hfinish.
  unfold LlamaServer_ProcessStream. destruct (negb _).
  - unfold default_ProcessStream.
    apply returns_bind; [by apply LlamaServer_defined|intros [r b']]. returns_tac.
  - unfold server_stream. returns_tac.
    all: apply HttpPostJsonStream_returns; [intros; apply on_body_quietly|done].
Qed.
End Ends.
