(* ===== verification/ServiceProps.v ===== *)
(** * Theorems on the gRPC service *)
From Stdlib Require Import Strings.Ascii Floats.SpecFloat.
From stdpp Require Import prelude gmap strings list.
From S2P Require Import Prelude CxxText Backend Service.

Lemma copy_metadata_id m : copy_metadata m = m.
Proof.
  unfold copy_metadata.
  assert (Hfold : ∀ l (acc : metadata_map), NoDup l.*1 →
    foldl (λ target '(key, value), <[key := value]> target) acc l = list_to_map l ∪ acc).
  { induction l as [|[k v] l IH]; intros acc; cbn [fmap list_fmap foldl list_to_map fst].
    - intros _. by rewrite list_to_map_nil, (left_id_L ∅ (∪)).
    - intros [Hk Hl]%NoDup_cons. rewrite IH by done.
      rewrite list_to_map_cons, <- insert_union_l, insert_union_r; [done|].
      by apply not_elem_of_list_to_map_1. }
  rewrite Hfold by apply NoDup_fst_map_to_list.
  by rewrite list_to_map_to_list, (right_id_L ∅ (∪)).
Qed.

(** ** The call [ProcessBatch]

    What the service promises, given what the backend answered: the items of
    the request in order, each with its own output and metadata, or the failure
    of the backend with its message, and never an internal error. *)
Definition answer_of (name : string) (micros : Z) (item : RequestItem) (out : string)
    (m : metadata_map) : ResponseItem :=
  mkResponseItem (item_id item) out (item_trace_id item) name micros m.

Definition promised_metadata (r : BackendResult) : list metadata_map :=
  match output_metadata r with [] => replicate (length (outputs r)) ∅ | ms => ms end.

Definition promised_reply (name : string) (micros : Z) (items : list RequestItem)
    (r : BackendResult) : Status * list ResponseItem :=
  match code r with
  | kOk => (status_ok, zip_with (λ item '(out, m), answer_of name micros item out m) items
                         (zip (outputs r) (promised_metadata r)))
  | kCancelledCode => (mkStatus CANCELLED "batch cancelled", [])
  | _ => (mkStatus UNAVAILABLE (message r), [])
  end.

Lemma promised_metadata_length requests r :
  result_for requests r → code r = kOk → length (promised_metadata r) = length (outputs r).
Proof.
  unfold result_for, promised_metadata. intros Hr Hc. rewrite Hc in Hr. destruct Hr as [Ho Hm].
  destruct (output_metadata r) as [|m ms]; [apply length_replicate|].
  destruct Hm as [|Hm]; [done|]. by rewrite Hm.
Qed.

Lemma response_item_promised name micros items r i item :
  result_for (backend_request <$> items) r → code r = kOk → items !! i = Some item →
  response_item name micros r i item = (promised_reply name micros items r).2 !! i.
Proof.
  intros Hr Hc Hi. pose proof (promised_metadata_length _ _ Hr Hc) as Hlen.
  unfold promised_reply. rewrite Hc. simpl. unfold response_item.
  assert (Ho : length (outputs r) = length items)
    by (unfold result_for in Hr; rewrite Hc, length_fmap in Hr; tauto).
  apply lookup_lt_Some in Hi as Hlt.
  destruct (lookup_lt_is_Some_2 (outputs r) i) as [out Hout]; [lia|].
  destruct (lookup_lt_is_Some_2 (promised_metadata r) i) as [m Hm]; [lia|].
  rewrite lookup_zip_with, Hi. simpl. rewrite lookup_zip_with, Hout, Hm. simpl.
  unfold promised_metadata in Hm. destruct (output_metadata r) as [|m0 ms] eqn:Hmeta.
  - rewrite bool_decide_true by done. simpl. apply lookup_replicate in Hm as [-> _]. done.
  - rewrite bool_decide_false by done. rewrite Hm. simpl. by rewrite copy_metadata_id.
Qed.

Lemma responses_promised name micros items r :
  result_for (backend_request <$> items) r → code r = kOk →
  mapM (λ '(i, item), response_item name micros r i item) (imap pair items)
    = Some (promised_reply name micros items r).2.
Proof.
  intros Hr Hc. pose proof (promised_metadata_length _ _ Hr Hc) as Hlen.
  assert (Ho : length (outputs r) = length items)
    by (unfold result_for in Hr; rewrite Hc, length_fmap in Hr; tauto).
  apply mapM_Some, Forall2_same_length_lookup. split.
  - unfold promised_reply. rewrite Hc, length_imap. simpl. rewrite length_zip_with, length_zip_with. lia.
  - intros i [j item] response Hi Hresp. rewrite list_lookup_imap in Hi.
    apply fmap_Some in Hi as (item' & Hi & [= -> ->]). by rewrite (response_item_promised _ _ items).
Qed.

Section Batches.
Context {B W : Type} `{Host W} `{StreamingBackend B W} `{!BackendSpec B W} `{!ResponseWriter W}.

Lemma Service_batch_refines b items (w0 : W) r b' w1 :
  backend_inv b →
  ProcessBatch b (backend_request <$> items) (steady_now w0).2 = Some ((r, b'), w1) →
  let micros := elapsed_micros (steady_now w0).1 (steady_now w1).1 in
  Service_ProcessBatch b items w0 =
    Some ((promised_reply (Name (W := W) b) micros items r, b'), (steady_now w1).2).
Proof.
  intros Hb Hrun micros. apply ProcessBatch_result in Hrun as Hr; [|done]. destruct Hr as (Hr & _ & Hname).
  unfold Service_ProcessBatch. unfold and_then at 1, ask at 1. unfold micros.
  destruct (steady_now w0) as [started w2]. simpl in Hrun |- *.
  unfold and_then at 1. rewrite Hrun. unfold and_then at 1, ask at 1.
  destruct (steady_now w1) as [finished w3]. simpl.
  unfold failure_status. destruct (code r) eqn:Hc.
  - rewrite length_fmap. pose proof Hr as Hlen. unfold result_for in Hlen. rewrite Hc, length_fmap in Hlen.
    destruct Hlen as [Ho Hm]. rewrite (proj2 (Nat.eqb_eq _ _) Ho). cbn [negb].
    assert (Hmeta : negb (bool_decide (output_metadata r = [])) &&
      negb (length (output_metadata r) =? length items)%nat = false).
    { destruct Hm as [->|Hm]; [done|]. rewrite (proj2 (Nat.eqb_eq _ _) Hm). apply andb_false_r. }
    rewrite Hmeta. unfold and_then, of_option. rewrite responses_promised by done.
    rewrite Hname. unfold promised_reply. by rewrite Hc.
  - unfold result_for in Hr. rewrite Hc in Hr. subst r. done.
  - unfold result_for in Hr. by rewrite Hc in Hr.
  - unfold promised_reply. by rewrite Hc.
Qed.

Context `{!BackendProgress B W}.

Lemma Service_batch_total b items (w0 : W) :
  backend_inv b → progress_inv b → servable (backend_request <$> items) →
  ∃ micros r b' w1 w', ProcessBatch b (backend_request <$> items) (steady_now w0).2 = Some ((r, b'), w1) ∧
    result_for (backend_request <$> items) r ∧
    Service_ProcessBatch b items w0 = Some ((promised_reply (Name (W := W) b) micros items r, b'), w') ∧
    backend_inv b' ∧ progress_inv b' ∧ Name (W := W) b' = Name (W := W) b.
Proof.
  intros Hb Hp Hs.
  destruct (ProcessBatch_progress b _ (steady_now w0).2 Hb Hp Hs) as (r & b' & w1 & Hrun & Hp').
  pose proof (Service_batch_refines b items w0 r b' w1 Hb Hrun) as Hservice.
  apply ProcessBatch_result in Hrun as Hr; [|done]. destruct Hr as (Hr & Hb' & Hname).
  do 5 eexists. split_and!; done.
Qed.

(** C3: the handler of [ProcessBatch] refines what the service promises, over
    any backend that keeps its contract and makes progress: it returns, with
    the items of the request in order, each with the id and the trace id it came
    with and its own output and metadata, or with the failure of the backend
    and its message; the internal errors it tests for do not happen. *)
Theorem Service_ProcessBatch_refines b items (w0 : W) :
  backend_inv b → progress_inv b → servable (backend_request <$> items) →
  ∃ micros r b' w1 w', ProcessBatch b (backend_request <$> items) (steady_now w0).2 = Some ((r, b'), w1) ∧
    result_for (backend_request <$> items) r ∧
    Service_ProcessBatch b items w0 = Some ((promised_reply (Name (W := W) b) micros items r, b'), w').
Proof.
  intros Hb Hp Hs. destruct (Service_batch_total b items w0) as (micros & r & b' & w1 & w' & ?); [done..|].
  exists micros, r, b', w1, w'. naive_solver.
Qed.

(** The replies that a client of the service can see. *)
Inductive reply_ok (name : string) (items : list RequestItem) : Status * list ResponseItem → Prop :=
  | reply_answers micros responses :
      Forall2 (λ item response, ∃ out m, response = answer_of name micros item out m) items responses →
      reply_ok name items (status_ok, responses)
  | reply_cancelled : reply_ok name items (mkStatus CANCELLED "batch cancelled", [])
  | reply_unavailable msg : reply_ok name items (mkStatus UNAVAILABLE msg, []).

Lemma promised_reply_ok name micros items r :
  result_for (backend_request <$> items) r → reply_ok name items (promised_reply name micros items r).
Proof.
  intros Hr. unfold promised_reply. destruct (code r) eqn:Hc;
    [|apply reply_cancelled|apply reply_unavailable..].
  pose proof (promised_metadata_length _ _ Hr Hc) as Hlen.
  unfold result_for in Hr. rewrite Hc, length_fmap in Hr. destruct Hr as [Ho _].
  apply reply_answers with (micros := micros). apply Forall2_same_length_lookup. split.
  - rewrite length_zip_with, length_zip_with. lia.
  - intros i item response Hi Hresp. rewrite lookup_zip_with, Hi in Hresp. simpl in Hresp.
    apply fmap_Some in Hresp as ([out m] & _ & ->). eauto.
Qed.

(** Any number of batches, one after the other. *)
Lemma serve_batches_total b calls (w : W) :
  backend_inv b → progress_inv b → Forall (λ items, servable (backend_request <$> items)) calls →
  ∃ replies b' w', serve_batches b calls w = Some ((replies, b'), w') ∧
    Forall2 (reply_ok (Name (W := W) b)) calls replies.
Proof.
  intros Hb Hp Hcalls. revert b w Hb Hp. induction Hcalls as [|items calls Hs _ IH]; intros b w Hb Hp.
  { exists [], b, w. by split. }
  destruct (Service_batch_total b items w Hb Hp Hs)
    as (micros & r & b1 & w1 & w2 & _ & Hr & Hrun & Hb1 & Hp1 & Hname).
  destruct (IH b1 w2 Hb1 Hp1) as (replies & b' & w' & Hrest & Hok).
  pose proof (promised_reply_ok (Name (W := W) b) micros items r Hr) as Hreply.
  destruct (promised_reply (Name (W := W) b) micros items r) as [status responses] eqn:Hpr.
  exists ((status, responses) :: replies), b', w'. split.
  - simpl. unfold and_then at 1. rewrite Hrun. unfold and_then. by rewrite Hrest.
  - constructor; [done|]. by rewrite <- Hname.
Qed.
End Batches.

(** ** The call [Stream] *)

Section Streams.
Context {B W : Type} `{Host W} `{StreamingSpec B W} `{!ResponseWriter W}.

(** The statuses of a stream *)
Definition stream_status (r : BackendResult) : Status :=
  match code r with
  | kOk => status_ok
  | kCancelledCode => mkStatus CANCELLED "batch cancelled"
  | _ => mkStatus UNAVAILABLE (message r)
  end.

Lemma Service_stream_status b item (w0 : W) status b' w' :
  backend_inv b → Service_Stream b item w0 = Some ((status, b'), w') →
  ∃ r w1, ProcessStream (forward b item) b (backend_request item) (steady_now w0).2 = Some ((r, b'), w1) ∧
    stream_result r ∧ status = stream_status r ∧ w' = (steady_now w1).2.
Proof.
  intros Hb. unfold Service_Stream. rewrite and_then_Some. intros (started & w1 & Hs & Hrun).
  unfold ask in Hs. injection Hs as Hs. rewrite Hs.
  apply and_then_Some in Hrun as ([r b1] & w2 & Hr & Hrun).
  apply ProcessStream_result in Hr as Hres; [|done]. destruct Hres as (Hres & _ & _).
  apply and_then_Some in Hrun as (finished & w3 & Hf & Hrun). unfold ask in Hf. injection Hf as Hf.
  assert (Hw : ∀ s (o : B), done_with (s, o) w3 = Some ((status, b'), w') → status = s ∧ b' = o ∧ w' = w3)
    by (intros s o [= <- <- <-]; done).
  unfold failure_status, stream_result, stream_status in *.
  exists r, w2. rewrite Hf.
  destruct (code r) eqn:Hc.
  - rewrite Hres in Hrun. by apply Hw in Hrun as (-> & -> & ->).
  - apply Hw in Hrun as (-> & -> & ->). by subst r.
  - done.
  - by apply Hw in Hrun as (-> & -> & ->).
Qed.
End Streams.
