(* ===== verification/ServiceStreams.v ===== *)
(** * Theorems on the streaming call of the service

    What the client of [Stream] receives: from a backend that does not stream,
    one message at most; from the llama.cpp server, its tokens. *)
From Stdlib Require Import Strings.Ascii Floats.SpecFloat.
From stdpp Require Import prelude gmap strings list.
From S2P Require Import Prelude CxxText Backend Service ServiceProps.
From S2P Require Import LlamaProtocol LlamaStream Http HttpProps HttpTheorems LlamaServer LlamaServerProps StreamEnds.

(** The message that a client is promised for an event. *)
Definition promised_message (name : string) (item : RequestItem) (e : BackendStreamEvent) : StreamResponse :=
  mkStreamResponse (item_id item) (item_trace_id item) (event_type e) (delta e) (result e) name 0 (metadata e).

Lemma stream_message_promised name item e : stream_message name item e = promised_message name item e.
Proof. unfold stream_message. by rewrite copy_metadata_id. Qed.

Definition done_message (name : string) (item : RequestItem) (out : string) (m : metadata_map) : StreamResponse :=
  promised_message name item (mkBackendStreamEvent "done" EmptyString out m).

(** The first record of the metadata, or none. *)
Definition first_metadata (r : BackendResult) : metadata_map :=
  match output_metadata r with m :: _ => m | [] => ∅ end.

(** The status and the messages of a stream that answers with the result [r] of a
    batch of one request, when the client accepts or refuses a message. *)
Inductive single_ok (name : string) (item : RequestItem) (accepts : StreamResponse → bool)
    (r : BackendResult) : Status → list StreamResponse → Prop :=
  | single_done out :
      code r = kOk → outputs r = [out] → accepts (done_message name item out (first_metadata r)) = true →
      single_ok name item accepts r status_ok [done_message name item out (first_metadata r)]
  | single_refused out :
      code r = kOk → outputs r = [out] → accepts (done_message name item out (first_metadata r)) = false →
      single_ok name item accepts r (mkStatus CANCELLED "batch cancelled")
        [done_message name item out (first_metadata r)]
  | single_cancelled :
      r = CancelledResult → single_ok name item accepts r (mkStatus CANCELLED "batch cancelled") []
  | single_unavailable :
      code r = kUnavailable → single_ok name item accepts r (mkStatus UNAVAILABLE (message r)) [].

Section Single.
Context {B W : Type} `{Host W} `{InferenceBackend B W} `{!StreamingBackend B W} `{!BackendSpec B W}.
Context `{!BackendProgress B W} `{!ResponseWriter W}.
Context (Hdefault : ∀ emit (b : B) request, ProcessStream emit b request = default_ProcessStream emit b request).
Context (writes : W → list StreamResponse).
Context (Hwrite : ∀ m w, writes (Write m w).2 = writes w ++ [m]).
Context (Hnow : ∀ w, writes (steady_now w).2 = writes w).
Context (Hbatch : ∀ (b : B) requests, keeps writes (ProcessBatch b requests)).

(** C21: over a backend that does not stream, the handler of [Stream] runs the
    batch of its one request and returns: when the batch succeeds, the client gets
    its output and its metadata as a single last message, with the ids of the
    request, and the status is OK exactly if it accepts it; when the batch fails,
    it gets no message, and the status carries the failure. *)
Theorem Service_Stream_single b item w :
  backend_inv b → progress_inv b → servable [backend_request item] →
  ∃ r b' w1 status w' messages,
    ProcessBatch b [backend_request item] (steady_now w).2 = Some ((r, b'), w1) ∧
    Service_Stream b item w = Some ((status, b'), w') ∧
    writes w' = writes w ++ messages ∧
    single_ok (Name (W := W) b) item (λ m, (Write m w1).1) r status messages.
Proof using Hdefault Hwrite Hnow Hbatch.
  intros Hb Hp Hs. unfold Service_Stream. unfold and_then at 1, ask at 1.
  pose proof (Hnow w) as Hw0. destruct (steady_now w) as [started w0]. simpl in Hw0.
  destruct (ProcessBatch_progress b _ w0 Hb Hp Hs) as (r & b1 & w1 & Hrun & _).
  exists r, b1, w1. simpl.
  pose proof (Hbatch _ _ _ _ _ Hrun) as Hw1.
  apply ProcessBatch_result in Hrun as Hr; [|done]. destruct Hr as (Hr & _ & _).
  rewrite Hdefault. unfold default_ProcessStream. unfold and_then at 1 2. rewrite Hrun.
  unfold result_for in Hr. unfold failure_status. case_bool_decide as Hc; cbn [negb].
  - rewrite Hc in Hr. destruct (outputs r) as [|out [|out2 outs]] eqn:Ho; simpl in Hr; try lia.
    change (match output_metadata r with m :: _ => m | [] => ∅ end) with (first_metadata r).
    unfold and_then at 1, forward, ask at 1. rewrite stream_message_promised.
    fold (done_message (Name (W := W) b) item out (first_metadata r)).
    set (message := done_message _ _ _ _). pose proof (Hwrite message w1) as Hw2.
    destruct (Write message w1) as [[] w2] eqn:Hm; simpl in Hw2; cbn [negb];
      unfold done_with at 1, and_then, ask;
      pose proof (Hnow w2) as Hw3; destruct (steady_now w2) as [finished w3]; simpl in Hw3.
    + rewrite Hc, Ho. exists status_ok, w3, [message]. split_and!; [done|done|congruence|].
      apply single_done; [done..|]. fold message. by rewrite Hm.
    + exists (mkStatus CANCELLED "batch cancelled"), w3, [message]. split_and!; [done|done|congruence|].
      apply single_refused; [done..|]. fold message. by rewrite Hm.
  - unfold done_with at 1, and_then, ask. pose proof (Hnow w1) as Hw2.
    destruct (steady_now w1) as [finished w2]. simpl in Hw2.
    destruct (code r) eqn:Hcode; [done|subst r| |];
      (do 3 eexists; split; [done|]; split; [done|]; split; [rewrite app_nil_r; congruence|]).
    + by apply single_cancelled.
    + done.
    + by apply single_unavailable.
Qed.
End Single.

(** ** Streams of tokens *)

(** An observation of an observation is unaffected too. *)
Lemma unaffected_through {W X Y} `{Host W} `{Sockets W} (obs : W → X) (f : X → Y) :
  Unaffected obs → Unaffected (f ∘ obs).
Proof.
  intros [[] Hsocket Hclose].
  split; [split|..]; intros; unfold compose; f_equal; auto.
Qed.

Section Tokens.
Context {W : Type} `{Host W} `{Sockets W} `{!ResponseWriter W} (fuel : nat).
Context (writes : W → list StreamResponse) `{!Unaffected writes}.
Context (Hwrite : ∀ m w, writes (Write m w).2 = writes w ++ [m]).

#[local] Instance server_backend : InferenceBackend LlamaServerBackend W := LlamaServer_backend fuel.
#[local] Instance server_streaming : StreamingBackend LlamaServerBackend W := LlamaServer_streaming fuel.

(** The event in a message that was made for [item], and a mark for any other
    message. *)
Definition event_of (item : RequestItem) (m : StreamResponse) : BackendStreamEvent :=
  if bool_decide (stream_id m = item_id item ∧ stream_trace_id m = item_trace_id item ∧
                  stream_backend_name m = "llama_server" ∧ stream_latency_micros m = 0)
  then mkBackendStreamEvent (stream_event_type m) (stream_delta m) (stream_result_text m)
         (stream_metadata m)
  else mkBackendStreamEvent "foreign" EmptyString EmptyString ∅.

Lemma event_of_message item e : event_of item (stream_message "llama_server" item e) = e.
Proof.
  rewrite stream_message_promised. unfold event_of. simpl. rewrite bool_decide_true by done. by destruct e.
Qed.

Lemma message_of_event item m :
  event_type (event_of item m) ≠ "foreign" → promised_message "llama_server" item (event_of item m) = m.
Proof.
  unfold event_of. case_bool_decide as Hm; [|done]. intros _. destruct Hm as (Hi & Ht & Hn & Hl).
  unfold promised_message. simpl. rewrite <- Hi, <- Ht, <- Hn, <- Hl. by destruct m.
Qed.

(** A relayed log has events of two types only. *)
Lemma relayed_types b request r log e :
  relayed b request r log → e ∈ log → event_type e = "token" ∨ event_type e = "done".
Proof.
  intros (tokens & Htokens & Hlog).
  assert (Ht : e ∈ tokens → event_type e = "token").
  { intros [n Hn]%list_elem_of_lookup. by apply Htokens in Hn as [? _]. }
  destruct (code r).
  - destruct Hlog as (? & ? & ? & ? & ? & ? & ? & ? & ->). rewrite elem_of_app, list_elem_of_singleton.
    intros [?| ->]; auto.
  - destruct Hlog as [_ [->|(d & _ & Hd & ->)]]; [auto|]. rewrite elem_of_app, list_elem_of_singleton.
    intros [?| ->]; auto.
  - destruct Hlog as [_ [->|(d & _ & Hd & ->)]]; [auto|]. rewrite elem_of_app, list_elem_of_singleton.
    intros [?| ->]; auto.
  - destruct Hlog as [_ [->|(d & _ & Hd & ->)]]; [auto|]. rewrite elem_of_app, list_elem_of_singleton.
    intros [?| ->]; auto.
Qed.

Lemma Service_Stream_relays b item w status b' w' :
  writes w = [] → stream_ b = true → Service_Stream b item w = Some ((status, b'), w') →
  ∃ r log, writes w' = promised_message "llama_server" item <$> log ∧
    relayed b (backend_request item) r log ∧ status = stream_status r.
Proof using Hwrite Unaffected0.
  intros Hw Hs Hrun. set (events := (fmap (event_of item)) ∘ writes).
  pose proof (unaffected_through writes (fmap (event_of item)) _ : Unaffected events) as Hevents.
  assert (Hforward : ∀ e w1 ok w2, forward b item e w1 = Some (ok, w2) → events w2 = events w1 ++ [e]).
  { intros e w1 ok w2 Hf. unfold forward, ask in Hf. injection Hf as Hf.
    pose proof (Hwrite (stream_message "llama_server" item e) w1) as Hm. simpl in Hf. rewrite Hf in Hm.
    unfold events, compose. simpl in Hm. by rewrite Hm, fmap_app; simpl; rewrite event_of_message. }
  apply (Service_stream_status (H0 := server_backend)) in Hrun as (r & w1 & Hrun & _ & Hstatus & ->); [|done].
  pose proof (steady_now_frame (obs := writes) w) as Hnow. rewrite Hw in Hnow.
  apply (stream_relays fuel events (forward b item) Hforward) in Hrun; [| |done];
    [|unfold events, compose; by rewrite Hnow].
  exists r, (events w1). split_and!; [|done..]. rewrite (steady_now_frame (obs := writes) w1).
  unfold events, compose. rewrite <- list_fmap_compose, <- (list_fmap_id (writes w1)) at 1.
  apply list_fmap_ext. intros i m Hm. unfold compose. symmetry. apply message_of_event.
  assert (Hin : event_of item m ∈ events w1).
  { apply list_elem_of_fmap. exists m. split; [done|]. by eapply list_elem_of_lookup_2. }
  change (Datatypes.id m) with m. destruct (relayed_types _ _ _ _ _ Hrun Hin) as [Ht|Ht]; by rewrite Ht.
Qed.

Context `{!AnswerEnds W} `{!RecvSpec W}.
Context (Hleft : ∀ m w, (answer_left (Write m w).2 ≤ answer_left w)%nat).

End Tokens.
