(* ===== verification/WorkerService.v ===== *)
(** * The worker as a service

    The composition of all parts: the environment, the backend that it
    configures and the service over that backend; and a scripted world in which
    the theorems on the service are instantiated. *)
From Stdlib Require Import Strings.Ascii Floats.SpecFloat.
From stdpp Require Import prelude gmap gmultiset strings list.
From S2P Require Import Prelude CxxText CxxTextProps CxxFloat FloatRounding FloatBounds FloatLibm.
From S2P Require Import Backend Simulator TinyLLM TinyLLMProps.
From S2P Require Import LlamaProtocol LlamaProtocolProps Http HttpProps HttpTheorems ScriptedNet LlamaServer LlamaServerProps StreamEnds.
From S2P Require Import Process LlamaCppProps Onnx OnnxProps Environment Config Worker WorkerProps.
From S2P Require Import Service ServiceProps ServiceStreams.

Section Worker.
Context {W : Type} `{Hlibm : LibmSpec} `{Host W} `{Files W} `{!Sockets W} `{!Processes W} `{Filesystem W}.
Context `{OnnxRuntime W} `{!OnnxSpec W} `{!RecvSpec W} `{!ProcessProgress W} `{!ResponseWriter W} (fuel : nat).
Context (Hlabels : ∀ v w, let '((status, labels), _) := GetTensorMutableData v w in
  is_null status = true → (kModelBatch ≤ length labels)%nat).
Context (getenv : string → option string).
Context (fuel_receptions : (Z.to_nat max_response + 2 ≤ fuel)%nat).
Context (fuel_output : (output_bound < fuel)%nat).
Context (fuel_turns : 10 * 60 * 1000 * 1000000 + 2 < Z.of_nat fuel).

#[local] Instance worker_backend : InferenceBackend AnyBackend W := Any_backend fuel.
#[local] Instance worker_streaming : StreamingBackend AnyBackend W := Any_streaming fuel.

End Worker.

(** ** A scripted desk

    A network whose server sends at most 4096 bytes, the scripted ONNX library,
    no child processes, and a client that keeps what is written to it. *)
Record Desk := mkDesk { desk_net : Net; desk_ort : Ort; desk_log : list StreamResponse }.

Definition on_net {A} (f : Net → A * Net) (w : Desk) : A * Desk :=
  let '(x, n) := f (desk_net w) in (x, mkDesk n (desk_ort w) (desk_log w)).
Definition on_ort {A} (f : Ort → A * Ort) (w : Desk) : A * Desk :=
  let '(x, o) := f (desk_ort w) in (x, mkDesk (desk_net w) o (desk_log w)).

Definition desk_limit : nat := 4096.
Definition desk_recv (n : Z) (w : Desk) : (Z * string) * Desk :=
  if (desk_limit <? str_length (net_in (desk_net w)))%nat then ((0, EmptyString), w)
  else on_net (net_recv n) w.

#[export] Instance Desk_host : Host Desk := {|
  is_cancelled := on_net is_cancelled;
  steady_now := on_net steady_now;
  sleep_for_ms n := on_net (sleep_for_ms n);
|}.
#[export] Instance Desk_files : Files Desk := {|
  fcntl_getfl fd := on_net (fcntl_getfl fd);
  fcntl_setfl fd n := on_net (fcntl_setfl fd n);
  close fd := on_net (close fd);
  errno _ := 11;
|}.
#[export] Instance Desk_sockets : Sockets Desk := {|
  Addr := unit;
  getaddrinfo h p := on_net (getaddrinfo h p);
  freeaddrinfo l := on_net (freeaddrinfo l);
  socket a := on_net (socket a);
  connect fd a := on_net (connect fd a);
  poll_writable fd n := on_net (poll_writable fd n);
  getsockopt_error fd := on_net (getsockopt_error fd);
  setsockopt_timeout fd b s u := on_net (setsockopt_timeout fd b s u);
  send fd text := on_net (send fd text);
  recv _ n := desk_recv n;
|}.
#[export] Instance Desk_processes : Processes Desk := {|
  pipe w := ((-1, (0, 0)), w);
  fork _ w := (-1, w);
  read _ _ w := ((0, EmptyString), w);
  waitpid _ _ w := ((-1, 0), w);
  kill _ _ w := (0, w);
  poll_readable _ _ := on_net (λ n, (0, (net_now n).2));
  strerror _ := "error";
|}.
#[export] Instance Desk_filesystem : Filesystem Desk := {|
  path_exists _ w := (true, w);
  path_status _ w := ((false, true), w);
  access_executable _ w := (0, w);
|}.
#[export] Instance Desk_runtime : OnnxRuntime Desk := {|
  dlopen p := on_ort (dlopen p); dlerror _ := None; dlsym h n := on_ort (dlsym h n);
  dlclose h := on_ort (dlclose h); get_api_base p := on_ort (get_api_base p); GetApi p := on_ort (GetApi p);
  CreateEnv := on_ort CreateEnv; CreateSessionOptions := on_ort CreateSessionOptions;
  CreateCpuMemoryInfo := on_ort CreateCpuMemoryInfo;
  CreateSession e m o := on_ort (CreateSession e m o);
  CreateTensorWithDataAsOrtValue m i d := on_ort (CreateTensorWithDataAsOrtValue m i d);
  Run s v := on_ort (Run s v);
  SetIntraOpNumThreads o n := on_ort (SetIntraOpNumThreads o n);
  SetInterOpNumThreads o n := on_ort (SetInterOpNumThreads o n);
  GetTensorMutableData v := on_ort (GetTensorMutableData v);
  GetErrorMessage _ _ := Some "out of budget";
  ReleaseStatus p := on_ort (ReleaseStatus p); ReleaseEnv p := on_ort (ReleaseEnv p);
  ReleaseSessionOptions p := on_ort (ReleaseSessionOptions p);
  ReleaseMemoryInfo p := on_ort (ReleaseMemoryInfo p); ReleaseSession p := on_ort (ReleaseSession p);
  ReleaseValue p := on_ort (ReleaseValue p);
|}.
#[export] Instance Desk_writer : ResponseWriter Desk := {|
  Write m w := (true, mkDesk (desk_net w) (desk_ort w) (desk_log w ++ [m]));
|}.

#[export, refine] Instance Desk_onnx : OnnxSpec Desk := {| live w := ort_live (desk_ort w) |}.
Proof.
  all: try done.
  all: try (intros w; simpl; by rewrite empty_disj_union).
  all: intros; simpl; unfold on_ort; simpl; unfold ort_create;
    try (destruct (ort_budget (desk_ort w)); simpl; by split_and!).
  all: by rewrite empty_disj_union.
Defined.

#[export] Instance Desk_log_unaffected : Unaffected desk_log.
Proof.
  assert (Hon : ∀ {A} (f : Net → A * Net) w, desk_log (on_net f w).2 = desk_log w)
    by (intros A f w; unfold on_net; by destruct (f (desk_net w))).
  split; [split|..]; intros; try apply Hon. simpl. unfold desk_recv. by destruct (_ <? _)%nat.
Qed.

Lemma desk_recv_cases n w :
  desk_recv n w = ((0, EmptyString), w) ∨
  ((str_length (net_in (desk_net w)) ≤ desk_limit)%nat ∧ desk_recv n w = on_net (net_recv n) w).
Proof. unfold desk_recv. destruct (_ <? _)%nat eqn:E; [by left|]. right. apply Nat.ltb_ge in E. auto. Qed.

#[export] Instance Desk_recv_spec : RecvSpec Desk.
Proof.
  constructor; intros fd n w; simpl; destruct (desk_recv_cases n w) as [->|[_ ->]]; try done; unfold on_net.
  - pose proof (recv_filled fd n (desk_net w)) as Hr. simpl in Hr.
    by destruct (net_recv n (desk_net w)) as [[bytes buffer] n'].
  - by destruct (net_recv n (desk_net w)) as [[bytes buffer] n'].
Qed.

#[export, refine] Instance Desk_answer_ends : AnswerEnds Desk := {|
  answer_left w := let n := str_length (net_in (desk_net w)) in if (desk_limit <? n)%nat then O else n;
  answer_bound := desk_limit;
|}.
Proof.
  - intros w. cbv zeta. destruct (_ <? _)%nat eqn:E; [lia|]. by apply Nat.ltb_ge in E.
  - done.
  - done.
  - intros fd n w. simpl. destruct (desk_recv_cases n w) as [->|[Hl ->]]; [done|].
    unfold on_net, net_recv. destruct (is_empty _) eqn:He; [by destruct (net_fails _)|].
    apply is_empty_false in He. simpl. split; [intros _|done].
    set (k := Nat.min _ _) in *. set (s := net_in (desk_net w)) in *.
    pose proof (take_drop_chars k s) as Hs. apply (f_equal str_length) in Hs. rewrite str_length_app in Hs.
    assert (0 < str_length (take_chars k s))%nat by (destruct (take_chars k s); [done|simpl; lia]).
    rewrite !(proj2 (Nat.ltb_ge _ _)) by lia. lia.
Defined.

#[export, refine] Instance Desk_progress : ProcessProgress Desk := {|
  clock w := net_clock (desk_net w);
  output_left _ := O;
  output_bound := O;
|}.
Proof. all: intros; simpl; split_and?; (lia || done). Defined.

(** ** The theorems on the service, at the desk *)

Definition desk_of (answer : string) : Desk := mkDesk (net_of answer 63 false) (mkOrt ∅ 5 7) [].

Definition demo_items : list RequestItem := [mkRequestItem "1" "hello" "t1"; mkRequestItem "2" "queue" "t2"].

Definition demo_env (key : string) : option string :=
  if bool_decide (key = "LAMINAR_WORKER_BACKEND") then Some " ONNX"
  else if bool_decide (key = "LAMINAR_TINY_LLM_TEMPERATURE") then Some "1e0"
  else None.

Lemma Service_ProcessBatch_refines_witness :
  let b := make_SimulatorBackend 10 5 in
  ∃ micros r b' w1 w', ProcessBatch b (backend_request <$> demo_items) (steady_now (desk_of EmptyString)).2
      = Some ((r, b'), w1) ∧
    result_for (backend_request <$> demo_items) r ∧
    Service_ProcessBatch b demo_items (desk_of EmptyString)
      = Some ((promised_reply (Name (W := Desk) b) micros demo_items r, b'), w').
Proof.
  intros b. apply (Service_ProcessBatch_refines (W := Desk) b demo_items (desk_of EmptyString)); [done| |];
    vm_compute; repeat split; discriminate.
Defined.

Lemma Simulator_keeps_log b requests : keeps desk_log (Simulator_ProcessBatch (W := Desk) b requests).
Proof.
  assert (Hsleep : ∀ n, keeps desk_log (ask (W := Desk) (sleep_for_ms n))) by (intros n; by apply keeps_ask).
  assert (Hloop : ∀ fuel remaining, keeps desk_log (sleep_loop (W := Desk) fuel remaining)).
  { induction fuel as [|fuel IH]; intros remaining; simpl; keeps_tac. }
  unfold Simulator_ProcessBatch. cbv zeta. destruct (total_latency _ _); [|by intros w x w' Hrun].
  apply keeps_bind; [by intros w x w' [= <- <-]|]. intros latency. keeps_tac.
Qed.

Lemma Service_Stream_single_witness :
  let b := make_SimulatorBackend 10 5 in
  let item := mkRequestItem "1" "hello" "t1" in
  ∃ r b' w1 status w' messages,
    ProcessBatch b [backend_request item] (steady_now (desk_of EmptyString)).2 = Some ((r, b'), w1) ∧
    Service_Stream b item (desk_of EmptyString) = Some ((status, b'), w') ∧
    desk_log w' = desk_log (desk_of EmptyString) ++ messages ∧
    single_ok (Name (W := Desk) b) item (λ m, (Write m w1).1) r status messages.
Proof.
  intros b item.
  apply (Service_Stream_single (B := SimulatorBackend) (W := Desk)); [done|done|done|apply Simulator_keeps_log|done| |];
    vm_compute; repeat split; discriminate.
Defined.


